(* ===== verification/_CoqProject ===== *)
-Q . S2P
Prelude.v
PlanTypes.v
PlanPrint.v
SqlAst.v
SchemaResolver.v
TranslatorHelpers.v
LogicalSemantics.v
Pushdown.v
PredicateBuilder.v
WhereSemantics.v
DSU.v
JoinTree.v
JoinTreeCorrect.v
SelectPlanBuilder.v
SelectCorrect.v
PlanArity.v
SelectOutput.v
TranslatorTheorems.v
PhysContext.v
Materialization.v
PhysicalOptimizer.v
PostProcess.v
PhysicalInvariant.v
MaterializationInv.v
ChainSemantics.v
HandlersInv.v
PlanInv.v
PlanShape.v
PostProcessInv.v
PhysicalTheorems.v
WorkItems.v
WorkItemsInv.v
WorkItemTheorems.v
Engine.v
RelInvariant.v
RelHandlers.v
RelPlan.v
RelNames.v
RelTrim.v
RelFrame.v
RelResult.v
RelRun.v
RelAggregate.v
RelTheorems.v
Encoding.v
EncodeShape.v
EndToEnd.v
EndToEndRows.v
Graphviz.v
GraphvizLogical.v
GraphvizInv.v
GraphvizLogicalInv.v
Html.v
GraphvizTheorems.v
Logging.v
DemoOutput.v
ExamplePlans.v
Framing.v
FramingInv.v
FramingTheorems.v
TcpServer.v
TcpServerInv.v
ServerHandlers.v
ServerConsole.v
ServerConsoleInv.v
ServerTheorems.v
ConsoleTheorems.v
QueryManager.v
QueryManagerInv.v
QueryManagerTheorems.v
OptimizerUnit.v
Units.v
UnitTheorems.v
ClientChannel.v
