(* ===== verification/Prelude.v ===== *)
(** * Verification of the query optimizer

    The program (src/cpp/code) turns SQL text into work items for a
    column-store engine, in three stages, each of which hands a value to the
    next:

    - the translator ([src/SQLToLogicalPlanTranslator*]) turns a parsed SELECT
      statement, and optionally the join order of a JSON plan, into a logical
      plan, a tree of SCAN, FILTER, JOIN, SETOPERATION, MAP, AGGREGATE,
      PROJECTION and SORT nodes;
    - the physical optimizer ([src/optimizer/PhysicalOptimizer*.cpp]) turns a
      logical plan into a DAG of physical nodes that exchange position lists
      and materialized columns, stored under generated names in an
      intermediate table;
    - [include/Translator.hpp] walks the DAG and emits one protobuf work item
      per node, with dependencies, as a list or grouped into levels.

    Around them, the query manager ([src/optimizer/QueryManager.cpp]) takes
    queries from the command line and the console, runs the three stages in
    worker threads and sends the result, one level at a time for a parallel
    plan, waiting on the completion tracker ([include/WorkCompletionTracker.h])
    in between.  Messages travel through a TCP server ([src/TCPServer.cpp],
    [examples/tcp_server_example.cpp]) that keeps a registry of clients and
    forwards messages between them; [src/Utility.cpp] cuts the byte stream into
    messages.  In demo mode the plans are also drawn
    ([src/optimizer/Graphviz*Visualizer.cpp]).

    ** Files

    [Prelude.v] holds the errors ([Throw] for a C++ exception, [Undef] for
    undefined behaviour), the result and state monads, machine integers,
    strings and shared lemmas.  [PlanTypes.v] has the data of
    [LogicalPlanNode.hpp] and [PhysicalPlanNode.hpp], [SqlAst.v] the fields of
    the parser's syntax tree that the translator reads.

    Translator.  One file per source file, operations under their C++ names:
    [SchemaResolver.v], [TranslatorHelpers.v] (aliases, table sets, cloning,
    [pushDownSelectionPredicate]), [PredicateBuilder.v], [DSU.v] and
    [JoinTree.v] (JoinTreeBuilder), [SelectPlanBuilder.v] (with the entry point
    [translateSQLToLogicalPlan]).  Their specification is [LogicalSemantics.v]:
    the set of rows a plan computes over an arbitrary engine, and
    [WhereSemantics.v]: the SQL meaning of a WHERE clause.  [Pushdown.v],
    [JoinTreeCorrect.v], [SelectCorrect.v] and [SelectOutput.v] prove the
    operations against them, [PlanArity.v] follows the number and origin of
    columns; [TranslatorTheorems.v] states the results.

    Physical optimizer.  [PhysContext.v] has the state ([TransformContext],
    the store of nodes and the stream of drawn identifiers),
    [Materialization.v], [PhysicalOptimizer.v] and [PostProcess.v] the
    operations of the three source files; a [std::shared_ptr] to a physical
    node is an address in the store, so sharing is explicit.
    [PhysicalInvariant.v] states the invariant of the optimizer's state and
    total-correctness triples, [MaterializationInv.v], [HandlersInv.v] and
    [PlanInv.v] prove them handler by handler, [PostProcessInv.v] treats the
    two passes over the DAG, [ChainSemantics.v] says what the MATERIALIZE nodes
    compute; [PhysicalTheorems.v] states the results.

    Work items.  [WorkItems.v] models [include/Translator.hpp],
    [WorkItemsInv.v] proves the walk and the levels, [WorkItemTheorems.v]
    states the results.

    What physical plans compute.  [Engine.v] says what each kind of node does
    to columns of positions and values, as a relation and as a function that
    runs a plan.  [RelInvariant.v] relates the optimizer's state to the rows of
    the logical plan (for each table, its position lists compose to the rows of
    the table), [RelHandlers.v] and [RelPlan.v] prove the relation for the
    handlers of scans, filters, unions, joins and cross-table conditions,
    [RelNames.v] that the columns have distinct names, [RelTrim.v] that trimming
    keeps the contents of columns.  [RelFrame.v] says which state the output
    handlers leave alone, [RelResult.v] defines the answer of a SELECT without
    aggregates and proves it for SORT, PROJECTION, LIMIT and the RESULT node,
    [RelAggregate.v] does so for MAP and AGGREGATE, [RelRun.v] passes from what
    the engine may write to the function that runs a plan, before and after
    trimming; [RelTheorems.v] states the results.

    The stages together.  [PlanShape.v] shows that the plans of the translator
    are the plans the optimizer accepts, [Encoding.v] and [EncodeShape.v] that
    every physical node made from them becomes a work item, [EndToEnd.v] states
    the result from SQL text to schedule and [EndToEndRows.v] the results from
    SQL text to the rows and aggregates that the physical plan returns.

    Output.  [PlanPrint.v] has [src/LogicalPlanNodePrint.cpp], with its
    results; [Graphviz.v] and [GraphvizLogical.v] have the two visualizers as
    the text they write, [GraphvizInv.v] and [GraphvizLogicalInv.v] describe
    that text as a list of statements, [Html.v] is a reader of labels, and
    [GraphvizTheorems.v] states the results; [DemoOutput.v] has demo mode,
    [Logging.v] the logger and [ExamplePlans.v] the example plans.

    Network.  [Framing.v] has the message header, [serializeItemToMemory],
    [extractItemsModifyBuffer] and the two receive loops over a memory of
    bytes; [FramingInv.v] and [FramingTheorems.v] relate them to a reference
    that splits a stream into messages.  [TcpServer.v] has the state and the
    operations of [TCPServer]: clients are objects in a heap, so that a deleted
    one is recognised, and the system calls are an oracle; [ServerHandlers.v]
    has the callbacks of the server program and the sending side of
    [TCPClient].  [TcpServerInv.v] states the registry invariant and proves it
    operation by operation, [ServerTheorems.v] makes the server a transition
    system and states the results.  [ServerConsole.v] has the accept loop, the
    console of the server program and the random work items it sends, with
    [ServerConsoleInv.v] and [ConsoleTheorems.v].

    Query manager.  [QueryManager.v] has the completion tracker, the sequential
    code of [processQuery] and a step relation in which threads interleave at
    their critical sections; [QueryManagerInv.v] proves its invariant by
    induction on reachability, [QueryManagerTheorems.v] states the results.
    [OptimizerUnit.v] has [ArgParser] and the options, query file and console
    of the optimizer unit, with their results.

    Client programs.  [Units.v] has the callbacks of the compute unit, the
    optimizer unit and the client example ([examples/]); [UnitTheorems.v]
    composes them with the server, the framing and the tracker.
    [ClientChannel.v] has the threads of a client that use [globalAbort]
    ([listenLoop], [closeConnection], [waitUntilChannelClosed]) as a transition
    system, and the console of the client example, with their results.

    ** Results

    - Translation: the input tree of a supported SELECT computes exactly the
      rows of the cross product on which the WHERE clause holds, for every hash
      order and join order; pushdown, both join-tree builders, the DSU and the
      predicate builders are correct on their own; the output layers are built
      for every SELECT list.
    - Optimization: on every well-shaped plan the optimizer terminates with an
      acyclic plan in which every intermediate column that is read is produced
      by a child; both materialization strategies compute the same columns;
      the referenced columns and the trimming of join outputs are exact; the
      smaller table is the build side.
    - Meaning of physical plans: for projections over scans, filters, unions,
      equi-joins and cross-table conditions, running the physical plan gives
      the selected columns of the rows of the logical plan, sorted by ORDER BY
      and cut by LIMIT and OFFSET, with both materialization strategies and
      with and without trimming; for aggregates without GROUP BY it gives one
      row with each aggregate over those rows; from SQL text, these are the
      rows on which the WHERE clause holds.
    - Scheduling: the walk terminates, items come out in dependency order,
      levels respect dependencies when the ids are distinct, and every
      intermediate column an item reads is produced by an earlier item.
    - End to end: a supported SELECT, with at most one aggregate when it
      groups, is translated, optimized and scheduled; with several aggregates
      and GROUP BY the last stage is undefined.
    - Messages: the receive loops deliver exactly the complete messages of a
      stream however it is cut; writing and reading are inverse; with twelve
      spare bytes the reader stays inside its buffer on any contents, and
      without them it does not.
    - Server: the registry is consistent in every reachable state; a message to
      any client of a type is delivered if one is reachable, a message with a
      target goes to exactly that client and the monitors; the console's test
      messages reach every compute unit whole although they are sent in parts
      that cut messages; three situations in which the server leaves defined
      behaviour.
    - System: a unit that starts is registered under the UUID it has itself,
      after any number of collisions; a work item travels from the optimizer
      unit to a compute unit and back and ends as exactly the completion that
      its sender waits for; once the channel is closed the threads of a client
      end, except for a waiting thread that [closeConnection] fails to notify.
    - Query manager: in every interleaving no query is lost or duplicated, no
      item is sent before its dependencies are completed, and every query can
      be finished; keywords and options are read as written.
    - Output: the visualizers draw exactly the nodes, base columns and edges of
      a plan, numbered without repetition; labels are well-formed markup and
      edge labels can be read back, unless a name contains a backslash; demo
      mode does not change the plans.
    - Deviations: theorems that exhibit behaviour contrary to the evident
      intention (a literal on the left, more than two filters on a table,
      unconnected tables, a bare join with trimming, colliding ids, the types
      of the customer table, a single aggregate over a filter, two aggregates
      over arithmetic, an alias that hides a column, a shutdown that notifies
      nobody and a handle that is closed twice).

    ** Modelling decisions

    A row of a plan assigns to each table a row number; the engine (cells,
    comparison, arithmetic, aggregate functions and the order of values) is a
    parameter.  The results that need it assume that IN is the disjunction of
    equalities, that equality is symmetric, and that the order of values is
    total ([in_is_disjunction], [eq_symmetric], [leq_total]); [demo_engine] and
    [star_engine] satisfy them.  A sort may list rows with equal keys in any
    order.  The row results assume distinct node ids, which the code draws at
    random.  The iteration order of
    [std::unordered_map] is a parameter [iter], any permutation of the
    entries.  The SQL parser, the JSON parser and the random generator are
    parameters; results hold for all of them.  Integers that the code narrows
    or that can overflow are converted with [to_int32], [to_size],
    [to_ssize], [to_u32] and [to_uint32].  Of the protobuf runtime only the bytes
    of a message are used, as a parameter.  An iterator into a vector is a
    position; the results of [send], [recv] and of the random generator are
    arbitrary sequences.  A step of the query manager is one critical section
    or one message, which is the granularity of its locks.

    Bounds: [DSU_find] recurses at most as often as the parent map has
    entries (a chain without repetition), the passes of the
    post-processing recurse at most once per store address since children
    have smaller addresses, and the walk takes one iteration per node and per
    child ([walk_bound]).  The scan for a delimiter takes at most one step per
    byte of the buffer and the loop over messages at most one per received
    byte (a message has a header); the keyword loop at most one per character;
    the loops of the server at most one per client, since a client that cannot
    be reached is removed; the physical visualizer recurses at most once per
    store address.  In each case the theorem says that the bound is
    enough, so none of the results depends on it.

    ** Not modelled

    Socket set-up and socket options, thread creation, the start-up code of the
    programs, the copying of ClientInfo objects, messages on the console
    (except those of the plan printer and the logger), generated code (protobuf,
    CMake).  Receiver threads and message handlers of the server run one at a
    time in the model; the code does not lock the registry in every operation,
    and its data races are not modelled.

    The operations that build GROUPBY nodes are modelled and are part of the
    results on executable plans and schedules, but no row result is stated for
    them: what the engine writes into the auxiliary columns of such a node (the
    group ids and extents that later nodes read) is not documented in the
    repository.  Acyclicity of the optimizer's result is proved for well-shaped
    logical plans, which include all plans of the translator, and not for
    arbitrary ones. *)

From stdpp Require Export base gmap strings list sets fin_maps pretty option ssreflect.
From Stdlib Require Export Ascii Sorted.

Declare Scope plan_scope.
Delimit Scope plan_scope with plan.

(** ** Errors

    [Throw] is a C++ exception with its message; [Undef] marks a step whose
    behaviour the C++ standard leaves undefined (an out-of-range [operator[]],
    a dereferenced null pointer or empty [std::optional]). *)
Inductive err : Set :=
  | Throw (msg : string)
  | Undef (what : string).

#[export] Instance err_eq_dec : EqDecision err.
Proof. solve_decision. Defined.

Inductive result (A : Type) : Type :=
  | Ok (a : A)
  | Err (e : err).
Arguments Ok {A} a.
Arguments Err {A} e.

#[export] Instance result_ret : MRet result := fun A a => Ok a.
#[export] Instance result_bind : MBind result := fun A B f r =>
  match r with Ok a => f a | Err e => Err e end.
#[export] Instance result_fmap : FMap result := fun A B f r =>
  match r with Ok a => Ok (f a) | Err e => Err e end.

(** A computation that never leaves defined behaviour: it may throw. *)
Definition defined {A} (r : result A) : Prop :=
  match r with Err (Undef _) => False | _ => True end.

Definition result_to_option {A} (r : result A) : option A :=
  match r with Ok a => Some a | Err _ => None end.

(** Dereference of an [std::optional] or a pointer. *)
Definition deref {A} (what : string) (o : option A) : result A :=
  match o with Some a => Ok a | None => Err (Undef what) end.

(** [v[i]] of a [std::vector]. *)
Definition at_index {A} (what : string) (l : list A) (i : nat) : result A :=
  deref what (l !! i).

(** [for] loops over a vector whose body may throw. *)
Fixpoint mapR {A B} (f : A -> result B) (l : list A) : result (list B) :=
  match l with
  | [] => Ok []
  | x :: l => y ← f x; ys ← mapR f l; Ok (y :: ys)
  end.

Fixpoint foldR {A B} (f : B -> A -> result B) (l : list A) (b : B) : result B :=
  match l with
  | [] => Ok b
  | x :: l => b' ← f b x; foldR f l b'
  end.

(** ** State and errors

    [ST S A]: code that updates a state [S] passed by reference and may
    throw. *)
Definition ST (S A : Type) : Type := S -> result (A * S).

#[export] Instance ST_ret {S} : MRet (ST S) := fun A a s => Ok (a, s).
#[export] Instance ST_bind {S} : MBind (ST S) := fun A B f m s =>
  match m s with Ok (a, s') => f a s' | Err e => Err e end.

Definition get {S} : ST S S := fun s => Ok (s, s).
Definition modify {S} (f : S -> S) : ST S unit := fun s => Ok (tt, f s).
Definition raise {S A} (e : err) : ST S A := fun _ => Err e.
Definition lift {S A} (r : result A) : ST S A := fun s =>
  match r with Ok a => Ok (a, s) | Err e => Err e end.

Fixpoint mapM {S A B} (f : A -> ST S B) (l : list A) : ST S (list B) :=
  match l with
  | [] => mret []
  | x :: l => y ← f x; ys ← mapM f l; mret (y :: ys)
  end.

(** ** Machine integers *)

(** Conversion to [int] (32 bits, two's complement). *)
Definition to_int32 (z : Z) : Z := ((z + 2 ^ 31) `mod` 2 ^ 32 - 2 ^ 31)%Z.

(** Conversion to [size_t] (64 bits, unsigned). *)
Definition to_size (z : Z) : Z := (z `mod` 2 ^ 64)%Z.

Definition INT_MAX : Z := (2 ^ 31 - 1)%Z.

Lemma to_int32_range z : (- 2 ^ 31 <= to_int32 z < 2 ^ 31)%Z.
Proof. rewrite /to_int32. pose proof (Z.mod_pos_bound (z + 2 ^ 31) (2 ^ 32)). lia. Qed.

Lemma to_int32_small z : (- 2 ^ 31 <= z < 2 ^ 31)%Z -> to_int32 z = z.
Proof. intros H. rewrite /to_int32 Z.mod_small; lia. Qed.

(** ** Strings *)

(** [std::tolower] in the "C" locale. *)
Definition tolower (c : ascii) : ascii :=
  let n := nat_of_ascii c in
  if (65 <=? n) && (n <=? 90) then ascii_of_nat (n + 32) else c.

Fixpoint string_map (f : ascii -> ascii) (s : string) : string :=
  match s with
  | EmptyString => EmptyString
  | String c s => String (f c) (string_map f s)
  end.

(** [s.empty()] *)
Definition is_empty (s : string) : bool :=
  match s with EmptyString => true | _ => false end.

(** [std::to_string] of an integer. *)
Definition to_string (z : Z) : string := pretty z.

(** [s.substr(pos)] for [pos <= s.size()]. *)
Fixpoint drop_string (n : nat) (s : string) : string :=
  match n, s with
  | O, _ => s
  | S n, String _ s => drop_string n s
  | S _, EmptyString => EmptyString
  end.

(** [operator==] on strings. *)
Notation "a =s b" := (String.eqb a b) (at level 70, no associativity) : plan_scope.
Open Scope plan_scope.

Lemma is_empty_spec s : is_empty s = true <-> s = "".
Proof. destruct s; split; try done. Qed.

Lemma is_empty_false s : is_empty s = false <-> s <> "".
Proof. destruct s; split; done. Qed.

Lemma is_empty_neg s : negb (is_empty s) = true <-> s <> "".
Proof. destruct s; split; done. Qed.

Lemma string_app_assoc (a b c : string) : a +:+ (b +:+ c) = (a +:+ b) +:+ c.
Proof. induction a as [|x a IH]; [done|]. exact (f_equal (String x) IH). Qed.

Lemma string_app_nil (s : string) : s +:+ "" = s.
Proof. induction s as [|c s IH]; [done|]. exact (f_equal (String c) IH). Qed.

Lemma string_map_length f s : String.length (string_map f s) = String.length s.
Proof. induction s; simpl; congruence. Qed.

Lemma tolower_idemp c : tolower (tolower c) = tolower c.
Proof.
  destruct c as [[] [] [] [] [] [] [] []]; vm_compute; reflexivity.
Qed.

(** ** Lists and the result monad *)

Lemma bind_ok {A B} (r : result A) (f : A -> result B) b :
  (x ← r; f x) = Ok b <-> exists a, r = Ok a /\ f a = Ok b.
Proof. destruct r; split; [eauto | by intros (a' & [= ->] & ?) | done | by intros (? & ? & _)]. Qed.

Lemma ST_bind_ok {S A B} (m : ST S A) (f : A -> ST S B) s b s'' :
  (x ← m; f x) s = Ok (b, s'') <->
  exists a s', m s = Ok (a, s') /\ f a s' = Ok (b, s'').
Proof.
  rewrite /mbind /ST_bind. destruct (m s) as [[a s']|e]; split.
  - eauto.
  - by intros (? & ? & [= <- <-] & ?).
  - done.
  - by intros (? & ? & ? & _).
Qed.

Lemma mapR_Forall2 {A B} (f : A -> result B) l l' :
  mapR f l = Ok l' <-> Forall2 (fun x y => f x = Ok y) l l'.
Proof.
  revert l'. induction l as [|x l IH]; intros l'; simpl.
  - split; [intros [= <-]; constructor | by inversion 1].
  - rewrite bind_ok. setoid_rewrite bind_ok. setoid_rewrite IH. split.
    + intros (y & Hy & ys & Hys & [= <-]). by constructor.
    + inversion 1; subst. eauto 6.
Qed.

Lemma Forall_map_iff {A B} (P : B -> Prop) (f : A -> B) l :
  Forall P (map f l) <-> Forall (fun x => P (f x)) l.
Proof. apply Forall_fmap. Qed.

Lemma Forall2_elem_r {A B} (P : A -> B -> Prop) l l' y :
  Forall2 P l l' -> y ∈ l' -> exists x, x ∈ l /\ P x y.
Proof.
  induction 1 as [|x z l l' Hxz _ IH]; [by intros ?%not_elem_of_nil|].
  intros [->|Hy]%elem_of_cons; [exists x; split; [by apply elem_of_cons; left|done]|].
  destruct (IH Hy) as (x' & ? & ?). exists x'. split; [by apply elem_of_cons; right|done].
Qed.

(** A vector of pointers without nulls. *)
Lemma forallb_Some {A} (f : A -> bool) (l : list (option A)) :
  forallb (fun o => match o with Some c => f c | None => false end) l = true <->
  exists cs, l = map Some cs /\ forall c, c ∈ cs -> f c = true.
Proof.
  split.
  - induction l as [|[a|] l IH]; simpl; [|intros [Ha Hl]%andb_true_iff|done].
    + intros _. exists []. split; [done|]. intros c Hc. by apply not_elem_of_nil in Hc.
    + destruct (IH Hl) as (cs & -> & Hcs). exists (a :: cs). split; [done|].
      intros c [->|Hc]%elem_of_cons; auto.
  - intros (cs & -> & Hcs). induction cs as [|c cs IH]; [done|]. simpl.
    rewrite Hcs; [|apply elem_of_cons; by left]. simpl. apply IH. intros c' Hc'. apply Hcs.
    apply elem_of_cons. by right.
Qed.

Lemma elem_of_map_Some {A} (x : A) cs : Some x ∈ map Some cs <-> x ∈ cs.
Proof. rewrite list_elem_of_fmap. naive_solver. Qed.

Lemma omap_id_map_Some {A} (cs : list A) : omap id (map Some cs) = cs.
Proof. induction cs; simpl; [done|]. by f_equal. Qed.

(** ** Automation *)

Create HintDb plan discriminated.

(** Splits a successful monadic run into its steps. *)
Ltac inv_ok :=
  repeat match goal with
  | H : (_ ≫= _) = Ok _ |- _ => apply bind_ok in H as (? & ? & H)
  | H : mbind _ _ = Ok _ |- _ => apply bind_ok in H as (? & ? & H)
  | H : mbind _ _ _ = Ok (_, _) |- _ => apply ST_bind_ok in H as (? & ? & ? & H)
  | H : mret _ = Ok _ |- _ => injection H as H
  | H : mret _ _ = Ok _ |- _ => injection H as H
  | H : Ok _ = Ok _ |- _ => injection H as H
  | H : Err _ = Ok _ |- _ => discriminate H
  | H : raise _ _ = Ok _ |- _ => discriminate H
  | H : Throw _ = Undef _ |- _ => discriminate H
  end; simplify_eq/=.

(** Case analysis on the scrutinee of a match in a hypothesis or the goal. *)
Ltac case_match_all := repeat (case_match; simplify_eq/=).
