(* ===== verification/PlanTypes.v ===== *)
(** * Plan data types

    The data of [include/LogicalPlanNode.hpp] and
    [include/PhysicalPlanNode.hpp]: the enums (one Module each, so that the
    source's constructor names can be kept), [Column], [AggSpec],
    [Expression], the logical plan tree and the physical plan node.  A
    [std::shared_ptr<LogicalPlanNode>] may be null, so the children of a
    logical node are options; physical nodes form a DAG with sharing and
    live in a store, their children are addresses (see [PhysContext.v]). *)

From S2P Require Import Prelude.

(** ** Enums *)

Module LNT.
Inductive LogicalNodeType : Set :=
  | SCAN | FILTER | PROJECTION | JOIN | AGGREGATE | MAP | SETOPERATION | SORT.
#[export] Instance LogicalNodeType_eq_dec : EqDecision LogicalNodeType.
Proof. solve_decision. Defined.
End LNT.
Export (hints) LNT.

Module PNT.
Inductive PhysicalNodeType : Set :=
  | FILTER | IDXSCAN | NLJ | HASHJOIN | MERGEJOIN | AGGREGATE | SETOPERATION
  | SORT | MAP | MATERIALIZE | GROUPBY | INTERMEDIATE | RESULT.
#[export] Instance PhysicalNodeType_eq_dec : EqDecision PhysicalNodeType.
Proof. solve_decision. Defined.
End PNT.
Export (hints) PNT.

Module PSO.
Inductive PlanStringOp : Set := UPPER | LOWER.
#[export] Instance PlanStringOp_eq_dec : EqDecision PlanStringOp.
Proof. solve_decision. Defined.
End PSO.
Export (hints) PSO.

Module PCT.
Inductive PlanCompType : Set := LT | LE | EQ | GE | GT | NE | BETWEEN | IN | LIKE.
#[export] Instance PlanCompType_eq_dec : EqDecision PlanCompType.
Proof. solve_decision. Defined.
End PCT.
Export (hints) PCT.

Module PAF.
Inductive PlanAggFunc : Set := COUNT | SUM | MIN | MAX | AVG.
#[export] Instance PlanAggFunc_eq_dec : EqDecision PlanAggFunc.
Proof. solve_decision. Defined.
End PAF.
Export (hints) PAF.

Module PRO.
Inductive PlanLogicalRelOp : Set := UNION | INTERSECTION | NEGATION.
#[export] Instance PlanLogicalRelOp_eq_dec : EqDecision PlanLogicalRelOp.
Proof. solve_decision. Defined.
End PRO.
Export (hints) PRO.

Module PAO.
Inductive PlanArithOp : Set := ADD | SUB | MUL | DIV | MOD.
#[export] Instance PlanArithOp_eq_dec : EqDecision PlanArithOp.
Proof. solve_decision. Defined.
End PAO.
Export (hints) PAO.

Module PTY.
Inductive PlanColumnType : Set :=
  | INTEGER | FLOAT | STRING | BITMASK | POSLIST | PAIR_POSLIST.
#[export] Instance PlanColumnType_eq_dec : EqDecision PlanColumnType.
Proof. solve_decision. Defined.
End PTY.
Export (hints) PTY.

(** The index of an enumerator: [unordered_map<PlanAggFunc, _>] is keyed by
    it. *)
Definition agg_func_index (f : PAF.PlanAggFunc) : nat :=
  match f with PAF.COUNT => 0 | PAF.SUM => 1 | PAF.MIN => 2 | PAF.MAX => 3 | PAF.AVG => 4 end.

(** ** Columns and expressions *)

Record Column : Set := mkColumn {
  table_name : string;
  column_name : string;
  type : PTY.PlanColumnType;
  alias : option string;
  base_table : option string;
  is_base : option bool;
}.

#[export] Instance Column_eq_dec : EqDecision Column.
Proof. solve_decision. Defined.

(** The five-argument constructor; [is_base] is left empty. *)
Definition Column_ctor (t c : string) (ty : PTY.PlanColumnType)
    (col_alias base_tbl : option string) : Column :=
  mkColumn t c ty col_alias base_tbl None.

Definition Column3 (t c : string) (ty : PTY.PlanColumnType) : Column :=
  Column_ctor t c ty None None.

(** [Column() = default]: [type] is then indeterminate; no code modelled here
    reads it before it is assigned, and it is represented by [INTEGER]. *)
Definition Column_default : Column := Column3 "" "" PTY.INTEGER.

Definition getBaseTableName (c : Column) : string :=
  default (table_name c) (base_table c).

Definition set_alias (a : option string) (c : Column) : Column :=
  mkColumn (table_name c) (column_name c) (type c) a (base_table c) (is_base c).
Definition set_base_table (b : option string) (c : Column) : Column :=
  mkColumn (table_name c) (column_name c) (type c) (alias c) b (is_base c).
Definition set_is_base (b : option bool) (c : Column) : Column :=
  mkColumn (table_name c) (column_name c) (type c) (alias c) (base_table c) b.
Definition set_column_name (s : string) (c : Column) : Column :=
  mkColumn (table_name c) s (type c) (alias c) (base_table c) (is_base c).

Record AggSpec : Set := mkAggSpec {
  func : PAF.PlanAggFunc;
  input : option Column;
  result_alias : option string;
  is_star : bool;
}.

#[export] Instance AggSpec_eq_dec : EqDecision AggSpec.
Proof. solve_decision. Defined.

Definition set_input (i : option Column) (a : AggSpec) : AggSpec :=
  mkAggSpec (func a) i (result_alias a) (is_star a).

Record Expression : Set := mkExpression {
  comp_type : option PCT.PlanCompType;
  agg_specs : list AggSpec;
  logical_rel_op : option PRO.PlanLogicalRelOp;
  arith_op : option PAO.PlanArithOp;
  sort_order : option (list bool);
  values : list string;
  limit_count : option Z;
  limit_offset : option Z;
  string_op : option PSO.PlanStringOp;
}.

#[export] Instance Expression_eq_dec : EqDecision Expression.
Proof. solve_decision. Defined.

Definition Expression_default : Expression :=
  mkExpression None [] None None None [] None None None.

Definition set_comp_type c (e : Expression) := mkExpression c (agg_specs e)
  (logical_rel_op e) (arith_op e) (sort_order e) (values e) (limit_count e)
  (limit_offset e) (string_op e).
Definition set_agg_specs a (e : Expression) := mkExpression (comp_type e) a
  (logical_rel_op e) (arith_op e) (sort_order e) (values e) (limit_count e)
  (limit_offset e) (string_op e).
Definition set_logical_rel_op o (e : Expression) := mkExpression (comp_type e)
  (agg_specs e) o (arith_op e) (sort_order e) (values e) (limit_count e)
  (limit_offset e) (string_op e).
Definition set_arith_op o (e : Expression) := mkExpression (comp_type e)
  (agg_specs e) (logical_rel_op e) o (sort_order e) (values e) (limit_count e)
  (limit_offset e) (string_op e).
Definition set_sort_order o (e : Expression) := mkExpression (comp_type e)
  (agg_specs e) (logical_rel_op e) (arith_op e) o (values e) (limit_count e)
  (limit_offset e) (string_op e).
Definition set_values v (e : Expression) := mkExpression (comp_type e)
  (agg_specs e) (logical_rel_op e) (arith_op e) (sort_order e) v (limit_count e)
  (limit_offset e) (string_op e).
Definition set_limit_count l (e : Expression) := mkExpression (comp_type e)
  (agg_specs e) (logical_rel_op e) (arith_op e) (sort_order e) (values e) l
  (limit_offset e) (string_op e).
Definition set_limit_offset l (e : Expression) := mkExpression (comp_type e)
  (agg_specs e) (logical_rel_op e) (arith_op e) (sort_order e) (values e)
  (limit_count e) l (string_op e).
Definition set_string_op o (e : Expression) := mkExpression (comp_type e)
  (agg_specs e) (logical_rel_op e) (arith_op e) (sort_order e) (values e)
  (limit_count e) (limit_offset e) o.

(** ** Logical plan nodes *)

Inductive LogicalPlanNode : Set := LNode {
  node_type : LNT.LogicalNodeType;
  scan_table : string;                    (* base_table *)
  base_columns : list Column;
  expression : Expression;
  projected_columns : list Column;
  children : list (option LogicalPlanNode);
}.

(** [std::make_shared<LogicalPlanNode>()] with its type set. *)
Definition new_node (ty : LNT.LogicalNodeType) : LogicalPlanNode :=
  LNode ty "" [] Expression_default [] [].

Definition set_node_type ty (n : LogicalPlanNode) := LNode ty (scan_table n)
  (base_columns n) (expression n) (projected_columns n) (children n).
Definition set_scan_table t (n : LogicalPlanNode) := LNode (node_type n) t
  (base_columns n) (expression n) (projected_columns n) (children n).
Definition set_base_columns c (n : LogicalPlanNode) := LNode (node_type n)
  (scan_table n) c (expression n) (projected_columns n) (children n).
Definition set_expression e (n : LogicalPlanNode) := LNode (node_type n)
  (scan_table n) (base_columns n) e (projected_columns n) (children n).
Definition set_projected_columns c (n : LogicalPlanNode) := LNode (node_type n)
  (scan_table n) (base_columns n) (expression n) c (children n).
Definition set_children ch (n : LogicalPlanNode) := LNode (node_type n)
  (scan_table n) (base_columns n) (expression n) (projected_columns n) ch.

(** Induction over logical plans: the hypothesis holds of every non-null
    child. *)
Section logical_ind.
Variable P : LogicalPlanNode -> Prop.
Hypothesis step : forall n, (forall c, Some c ∈ children n -> P c) -> P n.

Fixpoint LogicalPlanNode_child_ind (n : LogicalPlanNode) : P n.
Proof.
  apply step. destruct n as [ty st bc ex pc ch]; simpl.
  induction ch as [|[c'|] ch IH]; intros c Hc.
  - exfalso. by apply (not_elem_of_nil (Some c)).
  - apply elem_of_cons in Hc as [[= ->]|Hc]; [apply LogicalPlanNode_child_ind | exact (IH c Hc)].
  - apply elem_of_cons in Hc as [Hc|Hc]; [discriminate Hc | exact (IH c Hc)].
Qed.
End logical_ind.

(** ** Physical plan nodes *)

(** Address of a physical node in the store; a [std::shared_ptr] that may be
    null is an [option paddr]. *)
Abbreviation paddr := nat (only parsing).

Record PhysicalPlanNode : Set := mkPhys {
  p_node_type : PNT.PhysicalNodeType;
  p_node_id : Z;
  p_base_columns : list Column;
  p_aggregationColumn : option Column;
  p_clusterColumn : option Column;
  p_expression : Expression;
  p_result_columns : list Column;
  p_children : list (option paddr);
  p_resultName : option string;
  p_index : option Column;
}.

#[export] Instance PhysicalPlanNode_eq_dec : EqDecision PhysicalPlanNode.
Proof. solve_decision. Defined.

Definition set_result_columns (r : list Column) (n : PhysicalPlanNode) : PhysicalPlanNode :=
  mkPhys (p_node_type n) (p_node_id n) (p_base_columns n) (p_aggregationColumn n)
    (p_clusterColumn n) (p_expression n) r (p_children n) (p_resultName n) (p_index n).

(** Two columns denote the same stored column when table and name agree. *)
Definition col_key (c : Column) : string := table_name c +:+ "." +:+ column_name c.
