(* ===== verification/PlanPrint.v ===== *)
(** * Printing of logical plans

    src/LogicalPlanNodePrint.cpp: the text that [printLogicalPlan] writes to
    [std::cout], as a string.  A null child is dereferenced. *)

From S2P Require Import Prelude PlanTypes.

Definition newline : string := String (Ascii.ascii_of_nat 10) EmptyString.

Fixpoint indent (n : nat) : string :=
  match n with O => "" | S n => "  " +:+ indent n end.

Definition nodeTypeName (t : LNT.LogicalNodeType) : string :=
  match t with
  | LNT.SCAN => "SCAN" | LNT.FILTER => "FILTER" | LNT.PROJECTION => "PROJECTION" | LNT.JOIN => "JOIN"
  | LNT.AGGREGATE => "AGGREGATE" | LNT.MAP => "MAP" | LNT.SETOPERATION => "SETOPERATION" | LNT.SORT => "SORT"
  end.

Definition compName (c : PCT.PlanCompType) : string :=
  match c with
  | PCT.LT => "LT" | PCT.LE => "LE" | PCT.EQ => "EQ" | PCT.GE => "GE" | PCT.GT => "GT" | PCT.NE => "NE"
  | PCT.BETWEEN => "BETWEEN" | PCT.IN => "IN" | PCT.LIKE => "LIKE"
  end.

Definition aggName (a : PAF.PlanAggFunc) : string :=
  match a with PAF.COUNT => "COUNT" | PAF.SUM => "SUM" | PAF.MIN => "MIN" | PAF.MAX => "MAX" | PAF.AVG => "AVG" end.

Definition arithName (a : PAO.PlanArithOp) : string :=
  match a with PAO.ADD => "ADD" | PAO.SUB => "SUB" | PAO.MUL => "MUL" | PAO.DIV => "DIV" | PAO.MOD => "MOD" end.

Definition setOpName (o : PRO.PlanLogicalRelOp) : string :=
  match o with PRO.UNION => "UNION" | PRO.INTERSECTION => "INTERSECTION" | PRO.NEGATION => "NEGATION" end.

Definition formatColumn (c : Column) : string :=
  (if is_empty (table_name c) then "" else table_name c +:+ ".") +:+ column_name c.

(** The name of the column is not written. *)
Definition printColumns (cols : list Column) (depth : nat) (label : string) : string :=
  match cols with
  | [] => ""
  | _ =>
      indent depth +:+ label +:+ ":" +:+ newline +:+
      String.concat "" (map (fun c =>
        indent (depth + 1) +:+ match alias c with Some a => " AS " +:+ a | None => "" end +:+ newline) cols)
  end.

Definition printSort (n : LogicalPlanNode) (depth : nat) : string :=
  indent depth +:+ "order_by:" +:+ newline +:+
  String.concat "" (imap (fun i c =>
    let asc := match sort_order (expression n) with Some ord => default true (ord !! i) | None => true end in
    indent (depth + 1) +:+ formatColumn c +:+ " " +:+ (if asc : bool then "ASC" else "DESC") +:+ newline) (base_columns n)).

Definition print_agg (depth : nat) (spec : AggSpec) : string :=
  indent depth +:+ "agg=" +:+ aggName (func spec) +:+
  (if is_star spec then "(*)" else match input spec with Some c => "(" +:+ formatColumn c +:+ ")" | None => "" end) +:+
  match result_alias spec with Some a => " AS " +:+ a | None => "" end +:+ newline.

(** An optional line. *)
Definition line {A} (depth : nat) (label : string) (name : A -> string) (o : option A) : string :=
  match o with Some a => indent depth +:+ label +:+ name a +:+ newline | None => "" end.

Definition printExpr (e : Expression) (depth : nat) : string :=
  line depth "comp=" compName (comp_type e) +:+
  String.concat "" (map (print_agg depth) (agg_specs e)) +:+
  line depth "arith=" arithName (arith_op e) +:+
  line depth "setop=" setOpName (logical_rel_op e) +:+
  match values e with
  | [] => ""
  | vs => indent depth +:+ "values: " +:+ String.concat ", " vs +:+ newline
  end.

(** The rest of the first line of a node. *)
Definition header_detail (n : LogicalPlanNode) : string :=
  let e := expression n in
  match node_type n with
  | LNT.SCAN => if is_empty (scan_table n) then "" else " table=" +:+ scan_table n
  | LNT.AGGREGATE =>
      match agg_specs e with
      | [] => ""
      | [spec] => " agg=" +:+ aggName (func spec)
      | _ => " agg=multi"
      end
  | LNT.MAP => match arith_op e with Some a => " arith=" +:+ arithName a | None => "" end
  | LNT.FILTER | LNT.JOIN => match comp_type e with Some c => " comp=" +:+ compName c | None => "" end
  | LNT.SETOPERATION => match logical_rel_op e with Some o => " setop=" +:+ setOpName o | None => "" end
  | _ => ""
  end.

(** What is written for a node before its children. *)
Definition print_node (n : LogicalPlanNode) (depth : nat) : string :=
  indent depth +:+ nodeTypeName (node_type n) +:+ header_detail n +:+ newline +:+
  printColumns (projected_columns n) (depth + 1) "projected_columns" +:+
  (if bool_decide (node_type n = LNT.SORT) then "" else printColumns (base_columns n) (depth + 1) "base_columns") +:+
  (if bool_decide (node_type n = LNT.SORT) then printSort n (depth + 1) else "") +:+
  (if bool_decide (node_type n ∈ [LNT.FILTER; LNT.JOIN; LNT.AGGREGATE; LNT.MAP; LNT.SETOPERATION])
   then printExpr (expression n) (depth + 1) else "").

Fixpoint printLogicalPlan (n : LogicalPlanNode) (depth : nat) : result string :=
  (fix children_text (ch : list (option LogicalPlanNode)) (text : string) : result string :=
     match ch with
     | [] => Ok text
     | Some c :: ch => t ← printLogicalPlan c (depth + 1); children_text ch (text +:+ t)
     | None :: _ => Err (Undef "null child")
     end) (children n) (print_node n depth).

(** ** Results *)

(** The nodes of a plan with their depths, each before its children. *)
Fixpoint preorder (n : LogicalPlanNode) (depth : nat) : list (nat * LogicalPlanNode) :=
  (depth, n) :: concat (map (fun o => match o with Some c => preorder c (depth + 1) | None => [] end) (children n)).

Definition no_null_child (n : LogicalPlanNode) : Prop := None ∉ children n.

Definition text_of (l : list (nat * LogicalPlanNode)) : string := fold_right (fun dn t => print_node dn.2 dn.1 +:+ t) "" l.

Lemma text_of_app a b : text_of (a ++ b) = text_of a +:+ text_of b.
Proof. induction a as [|x a IH]; [done|]. simpl. by rewrite IH string_app_assoc. Qed.

Lemma preorder_children n d c : Some c ∈ children n -> forall dn, dn ∈ preorder c (d + 1) -> dn ∈ preorder n d.
Proof.
  intros Hc dn Hdn. destruct n as [ty st bc ex pc ch]; simpl in *. right. apply list_elem_of_In, in_concat.
  exists (preorder c (d + 1)). split; [|by apply list_elem_of_In]. apply list_elem_of_In, list_elem_of_fmap. by exists (Some c).
Qed.

(** The printer writes one block per node, in preorder, each indented by the
    depth of its node, and returns for every plan without null children. *)
Theorem printLogicalPlan_preorder n : forall depth,
  (forall d m, (d, m) ∈ preorder n depth -> no_null_child m) -> printLogicalPlan n depth = Ok (text_of (preorder n depth)).
Proof.
  induction n as [n IH] using LogicalPlanNode_child_ind. intros depth Hn.
  assert (no_null_child n) as H0 by (apply (Hn depth); destruct n; by left).
  assert (forall c, Some c ∈ children n -> printLogicalPlan c (depth + 1) = Ok (text_of (preorder c (depth + 1)))) as Hc.
  { intros c Hc. apply IH; [done|]. intros d m Hm. apply (Hn d). by eapply preorder_children. }
  destruct n as [ty st bc ex pc ch]. rewrite /no_null_child in H0. cbn [children] in *. cbn [printLogicalPlan preorder children].
  set (n := LNode ty st bc ex pc ch). cbn [text_of fold_right fst snd]. generalize (print_node n depth). clear IH Hn.
  induction ch as [|[c|] ch IHch]; intros text; [|rewrite Hc; [|by left]|by destruct H0; left].
  - f_equal. simpl. symmetry. apply string_app_nil.
  - cbn [mbind result_bind]. rewrite IHch; [|intros; apply Hc; by right|set_solver].
    cbn [map concat]. rewrite -!/(text_of _). by rewrite text_of_app string_app_assoc.
Qed.

(** What is printed under [base_columns] and [projected_columns] depends on the
    aliases alone: two lists of different columns without aliases look the same. *)
Theorem printColumns_unnamed cols cols' depth label : map alias cols = map alias cols' ->
  printColumns cols depth label = printColumns cols' depth label.
Proof.
  intros H. assert (forall (l l' : list Column), map alias l = map alias l' ->
    map (fun c => indent (depth + 1) +:+ match alias c with Some a => " AS " +:+ a | None => "" end +:+ newline) l =
    map (fun c => indent (depth + 1) +:+ match alias c with Some a => " AS " +:+ a | None => "" end +:+ newline) l') as Hm.
  { induction l as [|c l IH]; intros [|c' l']; try done. simpl. intros [= -> Hl]. by rewrite (IH l' Hl). }
  specialize (Hm _ _ H). destruct cols, cols'; try done. rewrite /printColumns. by rewrite Hm.
Qed.
