(* ===== verification/SqlAst.v ===== *)
(** * The parser's syntax tree

    The SQL parser (hyrise/sql-parser, namespace [hsql]) is a third-party
    library: only its result is modelled, as the records of those fields that
    the translator reads.  Pointers are options.  Enumerators the translator
    never tests are merged into one [..Other] constructor.  A float literal is
    represented by the text [std::to_string(fval)], the only use the
    translator makes of it. *)

From S2P Require Import Prelude.

Inductive ExprType : Set :=
  | kExprLiteralInt | kExprLiteralFloat | kExprLiteralString | kExprStar
  | kExprColumnRef | kExprFunctionRef | kExprOperator | kExprOther.

Inductive OperatorType : Set :=
  | kOpNone | kOpAnd | kOpOr | kOpIn | kOpBetween
  | kOpEquals | kOpNotEquals | kOpLess | kOpLessEq | kOpGreater | kOpGreaterEq
  | kOpLike | kOpILike | kOpAsterisk | kOpMinus | kOpOther.

#[export] Instance ExprType_eq_dec : EqDecision ExprType.
Proof. solve_decision. Defined.
#[export] Instance OperatorType_eq_dec : EqDecision OperatorType.
Proof. solve_decision. Defined.

Inductive Expr : Set := mkExpr {
  e_type : ExprType;
  e_opType : OperatorType;
  e_expr : option Expr;
  e_expr2 : option Expr;
  e_exprList : option (list (option Expr));
  e_name : option string;
  e_table : option string;
  e_alias : option string;
  e_ival : Z;
  e_fval : string;
  e_select : bool;                       (* select != nullptr *)
}.

Inductive TableRefType : Set := kTableName | kTableSelect | kTableJoin | kTableCrossProduct.

Inductive TableRef : Set := mkTableRef {
  t_type : TableRefType;
  t_name : option string;
  t_alias : option (option string);      (* alias, alias->name *)
  t_list : option (list (option TableRef));
  t_join : option (option TableRef * option TableRef);   (* join->left, join->right *)
}.

Record OrderDescription : Set := mkOrder {
  o_desc : bool;                         (* type == kOrderDesc *)
  o_expr : option Expr;
}.

Record LimitDescription : Set := mkLimit {
  l_limit : option Expr;
  l_offset : option Expr;
}.

Record SelectStatement : Set := mkSelect {
  fromTable : option TableRef;
  whereClause : option Expr;
  selectList : option (list (option Expr));
  groupBy : option (option (list (option Expr)));   (* groupBy, groupBy->columns *)
  order : option (list (option OrderDescription));
  limit : option LimitDescription;
}.

Inductive SQLStatement : Set :=
  | StmtSelect (s : SelectStatement)     (* type() == kStmtSelect *)
  | StmtOther.

(** What [SQLParser::parse] leaves in an [SQLParserResult]. *)
Inductive SQLParserResult : Set :=
  | Valid (stmts : list SQLStatement)
  | Invalid (errorMsg : string) (errorLine errorColumn : Z).

Definition isType (t : ExprType) (e : Expr) : bool := bool_decide (e_type e = t).

(** Expressions used in examples and witnesses. *)
Definition eNull : Expr :=
  mkExpr kExprOther kOpNone None None None None None None 0 "" false.
Definition eCol (t : option string) (c : string) : Expr :=
  mkExpr kExprColumnRef kOpNone None None None (Some c) t None 0 "" false.
Definition eInt (z : Z) : Expr :=
  mkExpr kExprLiteralInt kOpNone None None None None None None z "" false.
Definition eStr (s : string) : Expr :=
  mkExpr kExprLiteralString kOpNone None None None (Some s) None None 0 "" false.
Definition eOp (o : OperatorType) (a b : Expr) : Expr :=
  mkExpr kExprOperator o (Some a) (Some b) None None None None 0 "" false.
