(* ===== verification/SchemaResolver.v ===== *)
(** * Schema lookups

    [SchemaResolver.cpp]: the table a column belongs to, by its prefix, and
    the type of a column, from the hard-coded benchmark schemas. *)

From S2P Require Import Prelude PlanTypes.

(** [toLower] of [TranslatorHelpers.cpp]; [SchemaResolver.cpp] calls it. *)
Definition toLower (s : string) : string := string_map tolower s.

Definition kPrefixToTable : list (string * string) :=
  [ ("lo_", "lineorder"); ("d_", "dates"); ("c_", "customer");
    ("s_", "supplier"); ("p_", "part");
    ("chn_", "char_name"); ("ci_", "cast_info"); ("cn_", "company_name");
    ("ct_", "company_type"); ("mc_", "movie_companies"); ("rt_", "role_type");
    ("t_", "title") ].

(** First entry whose prefix the name starts with ([rfind(prefix, 0) == 0]). *)
Fixpoint prefix_table (tbl : list (string * string)) (name : string) : string :=
  match tbl with
  | [] => ""
  | (pre, t) :: tbl => if String.prefix pre name then t else prefix_table tbl name
  end.

Definition resolveTableName (col : Column) : string :=
  if negb (is_empty (table_name col)) then table_name col
  else prefix_table kPrefixToTable (column_name col).

Record SSBTableSchema : Set := mkSchema {
  columns : list string;
  listedType : PTY.PlanColumnType;
  defaultType : PTY.PlanColumnType;
}.

Definition kSSBSchema : list (string * SSBTableSchema) :=
  [ ("date", mkSchema
      ["d_datekey"; "d_year"; "d_yearmonth"; "d_yearmonthnum"; "d_quarter";
       "d_quarternum"; "d_month"; "d_monthnum"; "d_weeknum"; "d_daynum";
       "d_daynumofweek"; "d_daynumofyear"] PTY.INTEGER PTY.STRING);
    ("customer", mkSchema
      ["c_custkey"; "c_nationkey"; "c_regionkey"; "c_mktsegment"]
      PTY.STRING PTY.INTEGER);
    ("supplier", mkSchema ["s_suppkey"; "s_nationkey"; "s_regionkey"]
      PTY.INTEGER PTY.STRING);
    ("part", mkSchema ["p_partkey"; "p_size"; "p_retailprice"]
      PTY.INTEGER PTY.STRING);
    ("lineorder", mkSchema
      ["lo_orderkey"; "lo_linenumber"; "lo_custkey"; "lo_partkey";
       "lo_suppkey"; "lo_orderdate"; "lo_orderpriority"; "lo_shippriority";
       "lo_quantity"; "lo_extendedprice"; "lo_ordtotalprice"; "lo_discount";
       "lo_tax"; "lo_commitdate"; "lo_receiptdate"; "lo_shipmode";
       "lo_shipinstruct"; "lo_revenue"; "lo_supplycost"]
      PTY.INTEGER PTY.STRING) ].

Definition kIMDBIntegerColumns : list string :=
  ["id"; "production_year"; "episode_nr"; "season_nr"; "nr_order"].

Fixpoint assoc {A} (k : string) (l : list (string * A)) : option A :=
  match l with
  | [] => None
  | (k', a) :: l => if k =s k' then Some a else assoc k l
  end.

Definition count_in (x : string) (l : list string) : bool := existsb (String.eqb x) l.

Definition resolveColumnType (tableName columnName : string) : PTY.PlanColumnType :=
  let lowerColumn := toLower columnName in
  let lowerTable := toLower tableName in
  match assoc lowerTable kSSBSchema with
  | Some schema =>
      if count_in lowerColumn (columns schema) then listedType schema
      else defaultType schema
  | None =>
      if count_in lowerColumn kIMDBIntegerColumns then PTY.INTEGER
      else if (3 <=? String.length lowerColumn) &&
              (String.substring (String.length lowerColumn - 3) 3 lowerColumn =s "_id")
      then PTY.INTEGER
      else PTY.STRING
  end.

Lemma count_in_elem x l : count_in x l = true <-> x ∈ l.
Proof.
  rewrite /count_in existsb_exists. setoid_rewrite String.eqb_eq.
  setoid_rewrite <- list_elem_of_In. naive_solver.
Qed.

Lemma toLower_idemp s : toLower (toLower s) = toLower s.
Proof. rewrite /toLower. induction s; simpl; [done|]. by rewrite tolower_idemp IHs. Qed.

Lemma resolveTableName_qualified c :
  table_name c <> "" -> resolveTableName c = table_name c.
Proof. rewrite /resolveTableName. intros H%is_empty_neg. by rewrite H. Qed.

Lemma resolveColumnType_cases t c :
  resolveColumnType t c = PTY.INTEGER \/ resolveColumnType t c = PTY.STRING.
Proof. rewrite /resolveColumnType /=. case_match_all; auto. Qed.

(** Schema lookups ignore case. *)
Lemma resolveColumnType_lower t c :
  resolveColumnType (toLower t) (toLower c) = resolveColumnType t c.
Proof. by rewrite /resolveColumnType !toLower_idemp. Qed.
