(* ===== verification/TranslatorHelpers.v ===== *)
(** * Translator helpers

    [TranslatorHelpers.cpp]: string and expression helpers, queries on plan
    trees, table name matching, alias collection, selection pushdown, column
    conversion and literals.  [std::unordered_set<std::string>] is [gset
    string]; the only iteration over such a set in the code is commutative. *)

From S2P Require Import Prelude PlanTypes SqlAst SchemaResolver.

(** ** String helpers *)

(** The loop of [iequals] over two C strings. *)
Fixpoint iequals_loop (a b : string) : bool :=
  match a, b with
  | String x a, String y b =>
      if bool_decide (tolower x = tolower y) then iequals_loop a b else false
  | EmptyString, EmptyString => true
  | _, _ => false
  end.

Definition iequals (a b : option string) : bool :=
  match a, b with
  | Some a, Some b => iequals_loop a b
  | _, _ => false
  end.

(** ** SQL expression helpers *)

Definition is_case_function (name : option string) : bool :=
  iequals name (Some "LOWER") || iequals name (Some "UPPER") ||
  iequals name (Some "LCASE") || iequals name (Some "UCASE").

Definition unwrapSimpleFunction (e : option Expr) : option Expr :=
  match e with
  | None => None
  | Some x =>
      if negb (isType kExprFunctionRef x) then e
      else match e_name x, e_exprList x with
           | Some _, Some [arg] => if is_case_function (e_name x) then arg else e
           | _, _ => e
           end
  end.

Definition stringOpFromFunctionName (name : option string) : option PSO.PlanStringOp :=
  match name with
  | None => None
  | Some _ =>
      if iequals name (Some "LOWER") || iequals name (Some "LCASE") then Some PSO.LOWER
      else if iequals name (Some "UPPER") || iequals name (Some "UCASE") then Some PSO.UPPER
      else None
  end.

(** Returns the operation and the expression written to [*unwrapped]. *)
Definition unwrapStringOp (e : option Expr) : option PSO.PlanStringOp * option Expr :=
  match e with
  | None => (None, None)
  | Some x =>
      match isType kExprFunctionRef x, e_exprList x with
      | true, Some [arg] =>
          match stringOpFromFunctionName (e_name x) with
          | Some op => (Some op, arg)
          | None => (None, e)
          end
      | _, _ => (None, e)
      end
  end.

Definition mapCompOp (t : OperatorType) : option PCT.PlanCompType :=
  match t with
  | kOpEquals => Some PCT.EQ
  | kOpNotEquals => Some PCT.NE
  | kOpGreater => Some PCT.GT
  | kOpLess => Some PCT.LT
  | kOpGreaterEq => Some PCT.GE
  | kOpLessEq => Some PCT.LE
  | kOpLike | kOpILike => Some PCT.LIKE
  | _ => None
  end.

(** ** Tree utilities *)

Definition toTableSet (v : list string) : gset string := list_to_set v.

Definition isSubset (need have : gset string) : bool := bool_decide (need ⊆ have).

(** The non-empty table names of a node's columns. *)
Definition column_tables (cs : list Column) : gset string :=
  foldr (fun c ts => let t := resolveTableName c in
                     if is_empty t then ts else {[t]} ∪ ts) ∅ cs.

Fixpoint getPredicateTables_node (p : LogicalPlanNode) : gset string :=
  if bool_decide (node_type p = LNT.SETOPERATION) then
    foldr (fun ch ts => match ch with
                        | Some c => getPredicateTables_node c ∪ ts
                        | None => ts
                        end) ∅ (children p)
  else column_tables (base_columns p).

Definition getPredicateTables (p : option LogicalPlanNode) : gset string :=
  from_option getPredicateTables_node ∅ p.

Fixpoint getProvidedTables_node (n : LogicalPlanNode) : list string :=
  if bool_decide (node_type n = LNT.SCAN) then
    if is_empty (scan_table n) then [] else [scan_table n]
  else flat_map (fun ch => match ch with
                           | Some c => getProvidedTables_node c
                           | None => []
                           end) (children n).

Definition getProvidedTables (n : option LogicalPlanNode) : list string :=
  from_option getProvidedTables_node [] n.

Fixpoint clonePlanSubtree_node (n : LogicalPlanNode) : LogicalPlanNode :=
  set_children (map (option_map clonePlanSubtree_node) (children n)) n.

Definition clonePlanSubtree (n : option LogicalPlanNode) : option LogicalPlanNode :=
  option_map clonePlanSubtree_node n.

Definition clear_children (n : LogicalPlanNode) : LogicalPlanNode := set_children [] n.

Definition clonePredicateTemplate_node (p : LogicalPlanNode) : LogicalPlanNode :=
  if negb (bool_decide (node_type p = LNT.SETOPERATION)) then clear_children p
  else set_children (map Some (map clear_children (omap id (children p)))) p.

Definition clonePredicateTemplate (p : option LogicalPlanNode) : option LogicalPlanNode :=
  option_map clonePredicateTemplate_node p.

Definition is_union (n : LogicalPlanNode) : bool :=
  bool_decide (node_type n = LNT.SETOPERATION) &&
  bool_decide (logical_rel_op (expression n) = Some PRO.UNION).

Fixpoint collectUnionLeaves_node (n : LogicalPlanNode) : list LogicalPlanNode :=
  if is_union n then
    flat_map (fun c => match c with Some c => collectUnionLeaves_node c | None => [] end)
      (children n)
  else [n].

Definition collectUnionLeaves (n : option LogicalPlanNode) : list LogicalPlanNode :=
  from_option collectUnionLeaves_node [] n.

(** ** Table name matching *)

Definition namesMatch (a b : string) : bool :=
  if a =s b then true
  else if (a +:+ "s") =s b then true
  else if a =s (b +:+ "s") then true
  else false.

(** [s.rfind(c)] *)
Fixpoint rfind_char (c : ascii) (s : string) : option nat :=
  match s with
  | EmptyString => None
  | String x s =>
      match rfind_char c s with
      | Some i => Some (S i)
      | None => if bool_decide (x = c) then Some 0 else None
      end
  end.

Definition normalizeTableToken (name : string) : string :=
  let lower := toLower name in
  match rfind_char "."%char lower with
  | Some dotPos =>
      if dotPos + 1 <? String.length lower then drop_string (dotPos + 1) lower else lower
  | None => lower
  end.

(** ** Predicate target *)

Definition getFilterTableName (f : LogicalPlanNode) : string :=
  match base_columns f with
  | [] => ""
  | c :: _ => resolveTableName c
  end.

(** The loop of [allLeavesSameTable], with [tableOut] so far. *)
Fixpoint allLeavesSameTable_from (leaves : list LogicalPlanNode) (tableOut : string) : option string :=
  match leaves with
  | [] => Some tableOut
  | l :: leaves =>
      if negb (bool_decide (node_type l = LNT.FILTER)) then None
      else let t := getFilterTableName l in
           if is_empty t then None
           else if is_empty tableOut then allLeavesSameTable_from leaves t
           else if negb (iequals (Some tableOut) (Some t)) then None
           else allLeavesSameTable_from leaves tableOut
  end.

Definition allLeavesSameTable (leaves : list LogicalPlanNode) : bool :=
  match allLeavesSameTable_from leaves "" with
  | Some t => negb (is_empty t)
  | None => false
  end.

Fixpoint getPredicateTargetTable_node (n : LogicalPlanNode) : string :=
  match node_type n with
  | LNT.FILTER => getFilterTableName n
  | LNT.SETOPERATION =>
      (fix go (ch : list (option LogicalPlanNode)) (table : string) : string :=
         match ch with
         | [] => table
         | c :: ch =>
             let childTable := match c with Some c => getPredicateTargetTable_node c | None => "" end in
             if is_empty childTable then ""
             else if is_empty table then go ch childTable
             else if negb (iequals (Some table) (Some childTable)) then ""
             else go ch table
         end) (children n) ""
  | _ => ""
  end.

Definition getPredicateTargetTable (n : option LogicalPlanNode) : string :=
  from_option getPredicateTargetTable_node "" n.

(** ** Alias collection *)

Fixpoint collectAliases_node (from : TableRef) (aliasToBase : gmap string string)
    : gmap string string :=
  match t_type from with
  | kTableName =>
      let base := default "" (t_name from) in
      if is_empty base then aliasToBase
      else let m := <[base := base]> aliasToBase in
           match t_alias from with
           | Some (Some a) => <[a := base]> m
           | _ => m
           end
  | kTableCrossProduct =>
      match t_list from with
      | Some l =>
          fold_left (fun m t => match t with Some t => collectAliases_node t m | None => m end)
            l aliasToBase
      | None => aliasToBase
      end
  | kTableJoin =>
      match t_join from with
      | Some (l, r) =>
          let m := match l with Some l => collectAliases_node l aliasToBase | None => aliasToBase end in
          match r with Some r => collectAliases_node r m | None => m end
      | None => aliasToBase
      end
  | kTableSelect => aliasToBase
  end.

Definition collectAliases (from : option TableRef) (aliasToBase : gmap string string)
    : gmap string string :=
  match from with Some f => collectAliases_node f aliasToBase | None => aliasToBase end.

(** ** Selection pushdown *)

(** [attachPredicate(target, predicate)]: the new value of [target]. *)
Definition attachPredicate (target predicate : LogicalPlanNode) : LogicalPlanNode :=
  let predCopy := clonePredicateTemplate_node predicate in
  if negb (bool_decide (node_type predCopy = LNT.SETOPERATION)) then
    set_children (children predCopy ++ [Some target]) predCopy
  else
    set_children
      (map (fun child => Some (set_children [clonePlanSubtree (Some target)] (clear_children child)))
         (omap id (children predCopy))) predCopy.

(** [pushDownSelectionPredicate(node, predicate)] for non-null arguments: the
    new value of the reference [node]. *)
Fixpoint pushDown (node predicate : LogicalPlanNode) {struct node} : LogicalPlanNode :=
  if is_union node && negb (bool_decide (node_type predicate = LNT.SETOPERATION)) then
    set_children
      (map (option_map (fun ch => pushDown ch (clonePredicateTemplate_node predicate)))
         (children node)) node
  else
  let neededTables := getPredicateTables_node predicate in
  if bool_decide (neededTables = ∅) then attachPredicate node predicate
  else if bool_decide (node_type node = LNT.SCAN) &&
          (negb (is_empty (scan_table node)) &&
           match elements neededTables with
           | [t] => iequals (Some (scan_table node)) (Some t)
           | _ => false
           end)
  then attachPredicate node predicate
  else
  match node_type node, children node with
  | LNT.JOIN, [l; r] =>
      let leftSet := toTableSet (getProvidedTables l) in
      let rightSet := toTableSet (getProvidedTables r) in
      if isSubset neededTables leftSet then
        set_children [option_map (fun l => pushDown l predicate) l; r] node
      else if isSubset neededTables rightSet then
        set_children [l; option_map (fun r => pushDown r predicate) r] node
      else attachPredicate node predicate
  | LNT.FILTER, c :: rest =>
      set_children (option_map (fun c => pushDown c predicate) c :: rest) node
  | _, _ => attachPredicate node predicate
  end.

Definition pushDownSelectionPredicate (node predicate : option LogicalPlanNode)
    : option LogicalPlanNode :=
  match node, predicate with
  | Some n, Some p => Some (pushDown n p)
  | _, _ => node
  end.

(** ** Column conversion *)

Definition toColumnFromExpr (e : option Expr) (aliasToBase : gmap string string) : Column :=
  match unwrapSimpleFunction e with
  | Some x =>
      if isType kExprColumnRef x then
        let table := default "" (e_table x) in
        let name := default "" (e_name x) in
        let baseTable :=
          if negb (is_empty table) then
            match aliasToBase !! table with
            | Some b => if b =s table then None else Some b
            | None => None
            end
          else None in
        let table :=
          if is_empty table then resolveTableName (Column3 "" name PTY.STRING) else table in
        let tableForType := default table baseTable in
        Column_ctor table name (resolveColumnType tableForType name) (e_alias x) baseTable
      else Column3 "" "" PTY.STRING
  | None => Column3 "" "" PTY.STRING
  end.

(** ** Literals *)

Definition exprToLiteral (e : option Expr) : string :=
  match e with
  | None => ""
  | Some x =>
      if isType kExprLiteralInt x then to_string (e_ival x)
      else if isType kExprLiteralFloat x then e_fval x
      else default "" (e_name x)
  end.

(** Returns the value pushed onto [values], if any. *)
Definition appendLiteralValue (e : option Expr) : option string :=
  match e with
  | None => None
  | Some x =>
      if isType kExprLiteralInt x then Some (to_string (e_ival x))
      else if isType kExprLiteralFloat x then Some (e_fval x)
      else if isType kExprLiteralString x then Some (default "" (e_name x))
      else e_name x
  end.

#[global] Arguments unwrapSimpleFunction : simpl never.
#[global] Arguments unwrapStringOp : simpl never.
#[global] Arguments toColumnFromExpr : simpl never.
#[global] Arguments appendLiteralValue : simpl never.
#[global] Arguments iequals : simpl never.
