(* ===== verification/LogicalSemantics.v ===== *)
(** * Reference semantics of logical plans

    The abstract specification against which the translator is verified.  A
    result row of a plan is a [tuple]: for every table of the plan, the
    position of the table's row it is built from; a plan denotes the list of
    its result rows.  The stored data and the engine's comparisons, arithmetic,
    aggregate functions and order of values are parameters ([engine]): the
    engine is not part of the repository.  [wf_plan] is the shape of the trees
    the translator builds below PROJECTION/AGGREGATE/MAP. *)

From S2P Require Import Prelude PlanTypes SchemaResolver TranslatorHelpers.

Record engine (value : Type) : Type := mkEngine {
  nrows : string -> nat;                          (* rows of a table *)
  cell : string -> string -> nat -> value;        (* table, column, position *)
  holds : Expression -> list (option value) -> bool;  (* one comparison *)
  arith : PAO.PlanArithOp -> list (option value) -> option value;
  aggregate : PAF.PlanAggFunc -> list (option value) -> option value;
  leq : option value -> option value -> bool;     (* ascending order *)
}.
Arguments nrows {value} _ _.
Arguments cell {value} _ _ _ _.
Arguments holds {value} _ _ _.
Arguments arith {value} _ _ _.
Arguments aggregate {value} _ _ _.
Arguments leq {value} _ _ _.

Abbreviation tuple := (gmap string nat).

Section semantics.
Context {value : Type} (D : engine value).

(** The value a column reference has in a row. *)
Definition colval (t : tuple) (c : Column) : option value :=
  cell D (resolveTableName c) (column_name c) <$> t !! resolveTableName c.

(** The condition of a FILTER or JOIN node. *)
Definition cond (n : LogicalPlanNode) (t : tuple) : bool :=
  holds D (expression n) (map (colval t) (base_columns n)).

Definition memt (t : tuple) (l : list tuple) : bool := bool_decide (t ∈ l).

Fixpoint eval (n : LogicalPlanNode) : list tuple :=
  match node_type n, children n with
  | LNT.SCAN, _ => (fun i => {[scan_table n := i]}) <$> seq 0 (nrows D (scan_table n))
  | LNT.FILTER, [Some c] => List.filter (cond n) (eval c)
  | LNT.JOIN, [Some l; Some r] =>
      List.filter (cond n) (x ← eval l; (fun y => x ∪ y) <$> eval r)
  | LNT.SETOPERATION, ch =>
      let results := map (fun c => match c with Some c => eval c | None => [] end) ch in
      match logical_rel_op (expression n), results with
      | Some PRO.UNION, _ => concat results
      | Some PRO.NEGATION, r :: rs => List.filter (fun t => negb (existsb (memt t) rs)) r
      | _, r :: rs => List.filter (fun t => forallb (memt t) rs) r
      | _, [] => []
      end
  | _, _ => []
  end.

(** The predicates the WHERE clause is split into: a FILTER, or a UNION of
    FILTERs. *)
Definition pred_holds (p : LogicalPlanNode) (t : tuple) : bool :=
  if bool_decide (node_type p = LNT.SETOPERATION) then
    existsb (fun c => match c with Some c => cond c t | None => false end) (children p)
  else cond p t.

End semantics.

Definition is_filter (n : LogicalPlanNode) : bool := bool_decide (node_type n = LNT.FILTER).

Definition wf_pred (p : LogicalPlanNode) : bool :=
  is_filter p ||
  (is_union p && negb (bool_decide (children p = [])) &&
   forallb (fun c => match c with Some c => is_filter c | None => false end) (children p)).

(** The set of tables a plan provides. *)
Definition tabs (n : LogicalPlanNode) : gset string := toTableSet (getProvidedTables_node n).

Fixpoint wf_plan (n : LogicalPlanNode) : bool :=
  match node_type n, children n with
  | LNT.SCAN, [] => negb (is_empty (scan_table n))
  | LNT.FILTER, [Some c] => wf_plan c
  | LNT.JOIN, [Some l; Some r] => wf_plan l && wf_plan r && bool_decide (tabs l ## tabs r)
  | LNT.SETOPERATION, Some c0 :: _ =>
      bool_decide (logical_rel_op (expression n) = Some PRO.UNION) &&
      forallb (fun o => match o with
                        | Some c => wf_plan c && bool_decide (tabs c = tabs c0)
                        | None => false
                        end) (children n)
  | _, _ => false
  end.

(** ** Inversion of well-formed plans *)

(** One constructor per operator; rule induction follows the plan. *)
Inductive WfPlan : LogicalPlanNode -> Prop :=
  | WfScan n : node_type n = LNT.SCAN -> children n = [] -> scan_table n <> "" -> WfPlan n
  | WfFilter n c : node_type n = LNT.FILTER -> children n = [Some c] -> WfPlan c -> WfPlan n
  | WfJoin n l r : node_type n = LNT.JOIN -> children n = [Some l; Some r] ->
      WfPlan l -> WfPlan r -> tabs l ## tabs r -> WfPlan n
  | WfUnion n (cs : list LogicalPlanNode) T : node_type n = LNT.SETOPERATION ->
      logical_rel_op (expression n) = Some PRO.UNION ->
      children n = map Some cs -> cs <> [] ->
      (forall c, c ∈ cs -> WfPlan c) -> (forall c, c ∈ cs -> tabs c = T) -> WfPlan n.

Lemma wf_plan_WfPlan n : wf_plan n = true <-> WfPlan n.
Proof.
  split.
  - induction n as [n IH] using LogicalPlanNode_child_ind.
    destruct n as [ty st bc ex pc ch]; simpl in *; destruct ty; try done.
    + destruct ch; [|done]. intros H%is_empty_neg. by apply WfScan.
    + destruct ch as [|[c|] []]; try done. intros Hc.
      eapply WfFilter; [done..|]. apply IH; [set_solver|done].
    + destruct ch as [|[l|] [|[r|] []]]; try done.
      intros [[Hl Hr]%andb_true_iff Hd%bool_decide_eq_true]%andb_true_iff.
      eapply WfJoin; [done..| | |done]; (apply IH; [set_solver|done]).
    + destruct ch as [|[c0|] ch]; try done.
      intros [Hop%bool_decide_eq_true [cs [Hcs Hall]]%forallb_Some]%andb_true_iff.
      eapply (WfUnion _ cs (tabs c0)); [done|done|done|by destruct cs| |].
      * intros c Hc. pose proof (Hall c Hc) as [Hw _]%andb_true_iff.
        apply IH; [|done]. rewrite Hcs. by apply elem_of_map_Some.
      * intros c Hc. by pose proof (Hall c Hc) as [_ Hw%bool_decide_eq_true]%andb_true_iff.
  - induction 1 as [n Hty Hch Hne|n c Hty Hch Hc IH|n l r Hty Hch Hl IHl Hr IHr Hd
                   |n cs T Hty Hop Hch Hne Hcs IH HT];
      destruct n as [ty st bc ex pc ch]; simplify_eq/=.
    + by apply is_empty_neg.
    + done.
    + by rewrite IHl IHr bool_decide_true.
    + destruct cs as [|c0 cs]; [done|]. simpl.
      rewrite bool_decide_true //. simpl.
      rewrite -/(forallb _ (map Some (c0 :: cs))).
      change (forallb (fun o => match o with
                        | Some c => wf_plan c && bool_decide (tabs c = tabs c0)
                        | None => false
                        end) (map Some (c0 :: cs)) = true).
      apply forallb_Some. exists (c0 :: cs). split; [done|]. intros c Hc.
      rewrite IH // bool_decide_true //. rewrite !HT //. set_solver.
Qed.

(** Rewriting [tabs] through a plan. *)
Lemma tabs_scan n : node_type n = LNT.SCAN -> scan_table n <> "" -> tabs n = {[scan_table n]}.
Proof.
  destruct n as [ty st bc ex pc ch]; simpl. intros -> Hne.
  rewrite /tabs /toTableSet /=. apply is_empty_false in Hne. rewrite Hne /=. set_solver.
Qed.

Lemma tabs_children n : node_type n <> LNT.SCAN ->
  tabs n = ⋃ (map tabs (omap id (children n))).
Proof.
  destruct n as [ty st bc ex pc ch]; simpl. intros Hne.
  rewrite /tabs /=. rewrite bool_decide_false //.
  rewrite /toTableSet. induction ch as [|[c|] ch IH]; simpl; [done| |done].
  by rewrite list_to_set_app_L IH.
Qed.

Lemma union_list_same (cs : list LogicalPlanNode) T : cs <> [] ->
  (forall c, c ∈ cs -> tabs c = T) -> ⋃ (map tabs cs) = T.
Proof.
  induction cs as [|c cs IH]; [done|]. intros _ HT. simpl. rewrite HT; [|set_solver].
  destruct cs as [|c' cs]; [set_solver|]. rewrite IH; set_solver.
Qed.

Lemma tabs_union_same n cs T : node_type n <> LNT.SCAN -> children n = map Some cs ->
  cs <> [] -> (forall c, c ∈ cs -> tabs c = T) -> tabs n = T.
Proof.
  intros Hty Hch Hne HT. rewrite tabs_children // Hch omap_id_map_Some.
  by apply union_list_same.
Qed.

Lemma tabs_no_empty n : WfPlan n -> "" ∉ tabs n.
Proof.
  induction 1 as [n Hty Hch Hne|n c Hty Hch Hc IH|n l r Hty Hch Hl IHl Hr IHr Hd
                 |n cs T Hty Hop Hch Hne Hcs IH HT].
  - rewrite tabs_scan //. set_solver.
  - rewrite tabs_children ?Hty // Hch /=. set_solver.
  - rewrite tabs_children ?Hty // Hch /=. set_solver.
  - erewrite tabs_union_same; [|by rewrite Hty|done..].
    destruct cs as [|c cs]; [done|]. rewrite -(HT c); [|set_solver]. apply IH. set_solver.
Qed.

(** ** Equations of the semantics on well-formed plans *)
Section semantics_facts.
Context {value : Type} (D : engine value).

Lemma eval_filter n c t : node_type n = LNT.FILTER -> children n = [Some c] ->
  t ∈ eval D n <-> t ∈ eval D c /\ cond D n t = true.
Proof.
  destruct n; simpl. intros -> ->.
  by rewrite !list_elem_of_In filter_In.
Qed.

Lemma eval_join n l r t : node_type n = LNT.JOIN -> children n = [Some l; Some r] ->
  t ∈ eval D n <->
  exists tl tr, tl ∈ eval D l /\ tr ∈ eval D r /\ t = tl ∪ tr /\ cond D n t = true.
Proof.
  destruct n; simpl. intros -> ->.
  rewrite list_elem_of_In filter_In -list_elem_of_In list_elem_of_bind.
  setoid_rewrite list_elem_of_fmap. naive_solver.
Qed.

Lemma eval_union n cs t : node_type n = LNT.SETOPERATION ->
  logical_rel_op (expression n) = Some PRO.UNION -> children n = map Some cs ->
  t ∈ eval D n <-> exists c, c ∈ cs /\ t ∈ eval D c.
Proof.
  destruct n; simpl. intros -> -> ->. rewrite List.map_map list_elem_of_In in_concat.
  setoid_rewrite in_map_iff. setoid_rewrite <- list_elem_of_In.
  split; [intros (? & (c & <- & Hc) & ?) | intros (c & ? & ?)]; eauto.
Qed.

Lemma eval_dom n t : WfPlan n -> t ∈ eval D n -> dom t = tabs n.
Proof.
  intros Hwf. revert t. induction Hwf as [n Hty Hch Hne|n c Hty Hch Hc IH|n l r Hty Hch Hl IHl Hr IHr Hd
                 |n cs T Hty Hop Hch Hne Hcs IH HT]; intros t.
  - destruct n; simpl in *; subst. intros (i & -> & _)%list_elem_of_fmap.
    rewrite tabs_scan //=. set_solver.
  - rewrite eval_filter //. intros [Ht _]. rewrite (IH t) // (tabs_children n) ?Hty // Hch /=. set_solver.
  - rewrite eval_join //. intros (tl & tr & Htl & Htr & -> & _).
    rewrite dom_union_L (IHl tl) // (IHr tr) // (tabs_children n) ?Hty // Hch /=. set_solver.
  - rewrite eval_union //. intros (c & Hc & Ht). rewrite (IH c Hc t) //.
    rewrite HT //. symmetry. eapply tabs_union_same; [by rewrite Hty|done..].
Qed.

(** A comparison depends only on the tables of its columns. *)
Lemma cond_agree n t1 t2 :
  (forall tb, tb ∈ column_tables (base_columns n) -> t1 !! tb = t2 !! tb) ->
  t1 !! "" = t2 !! "" -> cond D n t1 = cond D n t2.
Proof.
  intros Hag He. rewrite /cond. f_equal. apply map_ext_in. intros c Hc.
  rewrite /colval. f_equal.
  destruct (is_empty (resolveTableName c)) eqn:Hr.
  - apply is_empty_spec in Hr. by rewrite Hr.
  - apply Hag. clear Hag. induction (base_columns n) as [|c' cs IH]; [done|].
    simpl. destruct Hc as [->|Hc].
    + rewrite Hr. set_solver.
    + specialize (IH Hc). case_match; set_solver.
Qed.

Lemma pred_holds_agree p t1 t2 : wf_pred p = true ->
  (forall tb, tb ∈ getPredicateTables_node p -> t1 !! tb = t2 !! tb) ->
  t1 !! "" = t2 !! "" -> pred_holds D p t1 = pred_holds D p t2.
Proof.
  rewrite /wf_pred /is_filter /is_union /pred_holds. intros Hwf Hag He.
  destruct (decide (node_type p = LNT.SETOPERATION)) as [Hs|Hs].
  - rewrite Hs /= in Hwf. rewrite bool_decide_true //.
    apply andb_true_iff in Hwf as [_ [cs [Hch Hcs]]%forallb_Some].
    assert (forall c, c ∈ cs -> cond D c t1 = cond D c t2) as Hc.
    { intros c Hc. apply cond_agree; [|done]. intros tb Htb. apply Hag.
      specialize (Hcs c Hc). apply bool_decide_eq_true in Hcs.
      destruct p as [ty st bc ex pc ch]; simplify_eq/=. clear Hag. 
      induction cs as [|c' cs IH]; [set_solver|]. simpl.
      apply elem_of_cons in Hc as [<-|Hc]; [|set_solver].
      destruct c; simplify_eq/=. set_solver. }
    rewrite Hch. clear -Hc. induction cs as [|c cs IH]; [done|]. simpl.
    rewrite Hc; [|set_solver]. rewrite IH //. set_solver.
  - rewrite bool_decide_false //. apply cond_agree; [|done].
    intros tb Htb. apply Hag. destruct p; simpl in *. by rewrite bool_decide_false.
Qed.

End semantics_facts.
