(* ===== verification/Pushdown.v ===== *)
(** * Selection pushdown preserves the query

    [attachPredicate] and [pushDownSelectionPredicate] of
    [TranslatorHelpers.cpp] against the reference semantics: pushing a
    predicate into a plan denotes filtering the plan's result by it, and the
    plan stays well-formed with the same tables. *)

From S2P Require Import Prelude PlanTypes SchemaResolver TranslatorHelpers LogicalSemantics.

Lemma clonePlanSubtree_id n : clonePlanSubtree_node n = n.
Proof.
  induction n as [n IH] using LogicalPlanNode_child_ind.
  destruct n as [ty st bc ex pc ch]; simpl in *. rewrite /set_children /=. f_equal.
  induction ch as [|[c|] ch IHch]; [done| |]; simpl; f_equal.
  - by rewrite IH; [|set_solver].
  - apply IHch. set_solver.
  - apply IHch. set_solver.
Qed.

Lemma clonePredicateTemplate_type p :
  node_type (clonePredicateTemplate_node p) = node_type p.
Proof. rewrite /clonePredicateTemplate_node. by case_match. Qed.

(** What a pushdown step promises to its callers: a class, so that the
    clients ([applySelectionPredicates], the join tree builder) are verified
    against the promise and not against the recursion. *)
Record pushes (n p n' : LogicalPlanNode) : Prop := {
  pushes_wf : WfPlan n';
  pushes_tabs : tabs n' = tabs n;
  pushes_eval : forall value (D : engine value) t,
    t ∈ eval D n' <-> t ∈ eval D n /\ pred_holds D p t = true;
}.

Lemma filter_above n p : WfPlan n -> node_type p = LNT.FILTER ->
  pushes n p (set_children [Some n] p).
Proof.
  intros Hn Hp. split.
  - by eapply WfFilter.
  - rewrite (tabs_children (set_children _ _)) /= ?Hp //. set_solver.
  - intros value D t. rewrite eval_filter //= /pred_holds. by rewrite bool_decide_false ?Hp.
Qed.

Lemma existsb_elem {A} (f : A -> bool) l :
  existsb f l = true <-> exists x, x ∈ l /\ f x = true.
Proof. rewrite existsb_exists. by setoid_rewrite list_elem_of_In. Qed.

(** A UNION predicate attached above [n]: every branch filters a copy of [n]. *)
Lemma union_above n p (cs : list LogicalPlanNode) : WfPlan n ->
  node_type p = LNT.SETOPERATION -> logical_rel_op (expression p) = Some PRO.UNION ->
  children p = map Some cs -> cs <> [] -> (forall c, c ∈ cs -> is_filter c = true) ->
  pushes n p (set_children (map Some (map (set_children [Some n]) cs)) p).
Proof.
  intros Hn Hty Hop Hch Hne Hf.
  assert (forall c, c ∈ map (set_children [Some n]) cs -> WfPlan c /\ tabs c = tabs n) as Hc.
  { intros c (c' & -> & Hc')%list_elem_of_fmap. specialize (Hf c' Hc').
    apply bool_decide_eq_true in Hf. by destruct (filter_above n c' Hn Hf). }
  split.
  - eapply (WfUnion _ (map (set_children [Some n]) cs) (tabs n)); try done;
      [by destruct cs|naive_solver..].
  - eapply tabs_union_same; [by rewrite /= Hty|done|by destruct cs|naive_solver].
  - intros value D t. rewrite (eval_union D _ (map (set_children [Some n]) cs)) //.
    setoid_rewrite list_elem_of_fmap. rewrite /pred_holds bool_decide_true // Hch existsb_elem.
    setoid_rewrite list_elem_of_fmap.
    assert (forall c, c ∈ cs -> t ∈ eval D (set_children [Some n] c) <->
              t ∈ eval D n /\ cond D c t = true) as He.
    { intros c Hc'. specialize (Hf c Hc'). apply bool_decide_eq_true in Hf.
      by rewrite (eval_filter D (set_children _ _) n). }
    split.
    + intros (? & (c & -> & Hc') & Ht). apply He in Ht; [|done].
      destruct Ht as [? ?]. split; [done|]. eauto.
    + intros (Ht & x & (c & -> & Hc') & Hcond).
      exists (set_children [Some n] c). split; [by exists c|]. by apply He.
Qed.

Lemma wf_pred_cases p : wf_pred p = true ->
  node_type p = LNT.FILTER \/
  exists cs, node_type p = LNT.SETOPERATION /\
    logical_rel_op (expression p) = Some PRO.UNION /\
    children p = map Some cs /\ cs <> [] /\ (forall c, c ∈ cs -> is_filter c = true).
Proof.
  rewrite /wf_pred /is_union. intros [H|H]%orb_true_iff.
  - left. by apply bool_decide_eq_true in H.
  - right. apply andb_true_iff in H as [[[H1 H2]%andb_true_iff H3]%andb_true_iff
      (cs & Hch & Hcs)%forallb_Some].
    apply bool_decide_eq_true in H1, H2. exists cs. split_and!; try done.
    intros ->. by rewrite Hch in H3.
Qed.

Lemma attachPredicate_pushes n p : WfPlan n -> wf_pred p = true ->
  pushes n p (attachPredicate n p).
Proof.
  intros Hn Hp. rewrite /attachPredicate clonePredicateTemplate_type /clonePredicateTemplate_node.
  destruct (wf_pred_cases p Hp) as [Hf|(cs & Hty & Hop & Hch & Hne & Hcs)].
  - rewrite Hf /=. change (set_children [Some n] (clear_children p)) with (set_children [Some n] p).
    by apply filter_above.
  - rewrite Hty /= Hch !omap_id_map_Some.
    rewrite clonePlanSubtree_id.
    pose proof (union_above n p cs Hn Hty Hop Hch Hne Hcs) as H.
    replace (map _ (map clear_children cs)) with (map Some (map (set_children [Some n]) cs));
      [by destruct p|].
    rewrite !List.map_map. by apply map_ext.
Qed.

(** A filter copied into every branch of a UNION. *)
Lemma pushes_union n p cs (f : LogicalPlanNode -> LogicalPlanNode) :
  node_type n = LNT.SETOPERATION -> logical_rel_op (expression n) = Some PRO.UNION ->
  children n = map Some cs -> cs <> [] -> (forall c, c ∈ cs -> tabs c = tabs n) ->
  (forall c, c ∈ cs -> pushes c p (f c)) ->
  pushes n p (set_children (map (option_map f) (children n)) n).
Proof.
  intros Hty Hop Hch Hne HT Hf. rewrite Hch List.map_map /=.
  rewrite -(List.map_map f Some). split.
  - eapply (WfUnion _ (map f cs) (tabs n)); try done; [by destruct cs| |];
      intros c (c' & -> & Hc)%list_elem_of_fmap; destruct (Hf c' Hc) as [? Ht ?]; [done|].
    by rewrite Ht HT.
  - eapply tabs_union_same; [by rewrite /= Hty|done|by destruct cs|].
    intros c (c' & -> & Hc)%list_elem_of_fmap. destruct (Hf c' Hc) as [? Ht ?]. by rewrite Ht HT.
  - intros value D t. rewrite (eval_union D _ (map f cs)) // (eval_union D n cs) //.
    setoid_rewrite list_elem_of_fmap. split.
    + intros (? & (c & -> & Hc) & Ht). apply (Hf c Hc) in Ht as [??]. eauto.
    + intros ((c & Hc & Ht) & Hp). exists (f c). split; [by exists c|]. by apply (Hf c Hc).
Qed.

Lemma pushes_filter n p c c' : node_type n = LNT.FILTER -> children n = [Some c] ->
  pushes c p c' -> pushes n p (set_children [Some c'] n).
Proof.
  intros Hty Hch [Hwf Ht He]. split.
  - by eapply WfFilter.
  - rewrite (tabs_children n) ?Hty // (tabs_children (set_children _ _)) /= ?Hty //.
    by rewrite Hch /= Ht.
  - intros value D t. rewrite (eval_filter D (set_children _ _) c') // (eval_filter D n c) // He.
    change (cond D (set_children [Some c'] n) t) with (cond D n t). tauto.
Qed.

Section join.
Variables (n p l r : LogicalPlanNode).
Hypotheses (Hty : node_type n = LNT.JOIN) (Hch : children n = [Some l; Some r])
  (Hl : WfPlan l) (Hr : WfPlan r) (Hd : tabs l ## tabs r) (Hp : wf_pred p = true).

Lemma pushes_join_left l' : getPredicateTables_node p ⊆ tabs l ->
  pushes l p l' -> pushes n p (set_children [Some l'; Some r] n).
Proof.
  intros Hsub [Hwf Ht He]. split.
  - eapply WfJoin; try done. by rewrite Ht.
  - rewrite (tabs_children n) ?Hty // (tabs_children (set_children _ _)) /= ?Hty //.
    by rewrite Hch /= Ht.
  - intros value D t. rewrite (eval_join D (set_children _ _) l' r) // (eval_join D n l r) //.
    setoid_rewrite He. change (cond D (set_children [Some l'; Some r] n) t) with (cond D n t).
    assert (forall tl tr, tl ∈ eval D l -> tr ∈ eval D r ->
      pred_holds D p (tl ∪ tr) = pred_holds D p tl) as Hag.
    { intros tl tr Htl Htr. pose proof (eval_dom D l tl Hl Htl) as Hdl.
      pose proof (eval_dom D r tr Hr Htr) as Hdr. apply pred_holds_agree; [done| |].
      - intros tb Htb%Hsub. rewrite -Hdl in Htb. apply elem_of_dom in Htb as [i Hi].
        rewrite Hi. by apply lookup_union_Some_l.
      - apply lookup_union_l. apply not_elem_of_dom. rewrite Hdr. by apply tabs_no_empty. }
    split.
    + intros (tl & tr & [? ?] & ? & -> & ?). rewrite Hag //. eauto 8.
    + intros ((tl & tr & ? & ? & -> & ?) & Hpt). rewrite Hag // in Hpt. eauto 8.
Qed.

Lemma pushes_join_right r' : getPredicateTables_node p ⊆ tabs r ->
  pushes r p r' -> pushes n p (set_children [Some l; Some r'] n).
Proof.
  intros Hsub [Hwf Ht He]. split.
  - eapply WfJoin; try done. by rewrite Ht.
  - rewrite (tabs_children n) ?Hty // (tabs_children (set_children _ _)) /= ?Hty //.
    by rewrite Hch /= Ht.
  - intros value D t. rewrite (eval_join D (set_children _ _) l r') // (eval_join D n l r) //.
    setoid_rewrite He. change (cond D (set_children [Some l; Some r'] n) t) with (cond D n t).
    assert (forall tl tr, tl ∈ eval D l -> tr ∈ eval D r ->
      pred_holds D p (tl ∪ tr) = pred_holds D p tr) as Hag.
    { intros tl tr Htl Htr. pose proof (eval_dom D l tl Hl Htl) as Hdl.
      apply pred_holds_agree; [done| |].
      - intros tb Htb%Hsub. apply lookup_union_r. apply not_elem_of_dom. rewrite Hdl. set_solver.
      - apply lookup_union_r. apply not_elem_of_dom. rewrite Hdl. by apply tabs_no_empty. }
    split.
    + intros (tl & tr & ? & [? ?] & -> & ?). rewrite Hag //. eauto 8.
    + intros ((tl & tr & ? & ? & -> & ?) & Hpt). rewrite Hag // in Hpt. eauto 8.
Qed.
End join.

Lemma pushes_clear n p n' : node_type p = LNT.FILTER ->
  pushes n (clear_children p) n' -> pushes n p n'.
Proof.
  intros Hp [Hw Ht He]. split; [done..|]. intros value D t. rewrite He.
  by rewrite /pred_holds /= Hp.
Qed.

(** [pushDown] keeps its promise on every well-formed plan. *)
Lemma pushDown_pushes n p : WfPlan n -> wf_pred p = true -> pushes n p (pushDown n p).
Proof.
  intros Hn. revert p. induction Hn as [n Hty Hch Hne|n c Hty Hch Hc IH
    |n l r Hty Hch Hl IHl Hr IHr Hd|n cs T Hty Hop Hch Hne Hcs IH HT]; intros p Hp.
  - assert (WfPlan n) as Hn by by apply WfScan.
    destruct n as [ty st bc ex pc ch]; simplify_eq/=. rewrite /is_union /=.
    repeat case_match; by apply attachPredicate_pushes.
  - assert (WfPlan n) as Hn by by eapply WfFilter.
    destruct n as [ty st bc ex pc ch]; simplify_eq/=. rewrite /is_union /=.
    case_bool_decide; [by apply attachPredicate_pushes|].
    by eapply pushes_filter; [| |apply IH].
  - assert (WfPlan n) as Hn by by eapply WfJoin.
    destruct n as [ty st bc ex pc ch]; simplify_eq/=. rewrite /is_union /isSubset /=.
    case_bool_decide; [by apply attachPredicate_pushes|].
    case_bool_decide; [by eapply pushes_join_left; [..|apply IHl]|].
    case_bool_decide; [by eapply pushes_join_right; [..|apply IHr]|].
    by apply attachPredicate_pushes.
  - assert (WfPlan n) as Hn by by eapply WfUnion.
    assert (tabs n = T) as HTn by (eapply tabs_union_same; [by rewrite Hty|done..]).
    destruct (wf_pred_cases p Hp) as [Hf|(ps & Hps & _)].
    + assert (pushes n p (set_children (map (option_map (fun ch =>
        pushDown ch (clonePredicateTemplate_node p))) (children n)) n)) as Hpush.
      { eapply (pushes_union _ _ cs); try done; [intros; by rewrite HTn HT|].
        intros c Hc. rewrite /clonePredicateTemplate_node Hf /=.
        apply pushes_clear; [done|]. apply IH; [done|]. rewrite /wf_pred /is_filter /=.
        by rewrite bool_decide_true. }
      destruct n as [ty st bc ex pc ch]; simplify_eq/=. by rewrite /is_union /= Hop Hf.
    + destruct n as [ty st bc ex pc ch]; simplify_eq/=. rewrite /is_union /= Hps andb_false_r.
      repeat case_match; by apply attachPredicate_pushes.
Qed.
