(* ===== verification/PredicateBuilder.v ===== *)
(** * WHERE clause to predicate nodes

    [PredicateBuilder.cpp]: splitting the WHERE clause into conjuncts and
    building one plan node per conjunct.  [std::runtime_error] is [Throw]; a
    null pointer that the code dereferences without a test is [Undef]. *)

From S2P Require Import Prelude PlanTypes SqlAst SchemaResolver TranslatorHelpers.
From S2P Require Import LogicalSemantics Pushdown.

Fixpoint splitConjuncts_node (e : Expr) : list Expr :=
  if isType kExprOperator e && bool_decide (e_opType e = kOpAnd) then
    match e_expr e with Some a => splitConjuncts_node a | None => [] end ++
    match e_expr2 e with Some a => splitConjuncts_node a | None => [] end
  else [e].

Definition splitConjuncts (e : option Expr) : list Expr :=
  from_option splitConjuncts_node [] e.

Definition is_op (o : OperatorType) (e : Expr) : bool :=
  isType kExprOperator e && bool_decide (e_opType e = o).

(** The literal of an [=] inside an OR; [None] when it is not a literal. *)
Definition or_literal (v : Expr) : option string :=
  if isType kExprLiteralInt v then Some (to_string (e_ival v))
  else if isType kExprLiteralFloat v then Some (e_fval v)
  else if isType kExprLiteralString v then Some (default "" (e_name v))
  else None.

(** Which side of a comparison is the column and which the other operand;
    the second side is dereferenced only when the first is no column. *)
Definition column_side (lhs rhs : option Expr) : result (option (Expr * option Expr)) :=
  lx ← deref "left->type" lhs;
  if isType kExprColumnRef lx then Ok (Some (lx, rhs))
  else rx ← deref "right->type" rhs;
       Ok (if isType kExprColumnRef rx then Some (rx, Some lx) else None).

(** The references [colOut] and [valuesOut] are the state; [None] is a
    [false] return. *)
Fixpoint collectOrEqualsSameColumn_node (aliasToBase : gmap string string) (e : Expr)
    (colOut : Column) (valuesOut : list string) : result (option (Column * list string)) :=
  if is_op kOpOr e then
    match e_expr e with
    | None => Ok None
    | Some a =>
        r ← collectOrEqualsSameColumn_node aliasToBase a colOut valuesOut;
        match r with
        | None => Ok None
        | Some (c, vs) =>
            match e_expr2 e with
            | None => Ok None
            | Some b => collectOrEqualsSameColumn_node aliasToBase b c vs
            end
        end
    end
  else if is_op kOpEquals e then
    match e_expr e, e_expr2 e with
    | Some _, Some _ =>
        sides ← column_side (unwrapSimpleFunction (e_expr e)) (unwrapSimpleFunction (e_expr2 e));
        match sides with
        | None => Ok None
        | Some (colExpr, valExpr) =>
            let thisCol := toColumnFromExpr (Some colExpr) aliasToBase in
            let fresh := is_empty (column_name colOut) && is_empty (table_name colOut) in
            if negb fresh && (negb (column_name colOut =s column_name thisCol) ||
                              negb (table_name colOut =s table_name thisCol))
            then Ok None
            else
              v ← deref "valExpr->isType" valExpr;
              Ok (option_map (fun s => (if fresh then thisCol else colOut, valuesOut ++ [s]))
                    (or_literal v))
        end
    | _, _ => Ok None
    end
  else Ok None.

(** A FILTER node on one column. *)
Definition filter_node (cmp : PCT.PlanCompType) (cols : list Column) (vals : list string) : LogicalPlanNode :=
  set_base_columns cols
    (set_expression (set_values vals (set_comp_type (Some cmp) Expression_default))
       (new_node LNT.FILTER)).

Definition in_literal (v : Expr) : result string :=
  match or_literal v with
  | Some s => Ok s
  | None => Err (Throw "IN: only literal elements supported")
  end.

Definition buildInPredicate (pred : Expr) (aliasToBase : gmap string string) : result LogicalPlanNode :=
  match unwrapSimpleFunction (e_expr pred) with
  | Some lhs =>
      if negb (isType kExprColumnRef lhs) then Err (Throw "IN: left side is not a column")
      else if e_select pred then Err (Throw "IN (subquery) not supported")
      else match e_exprList pred with
           | None | Some [] => Err (Throw "IN: empty list")
           | Some l =>
               vals ← mapR in_literal (omap id l);
               Ok (filter_node PCT.IN [toColumnFromExpr (Some lhs) aliasToBase] vals)
           end
  | None => Err (Throw "IN: left side is not a column")
  end.

(** [lhs] and [rhs] are [buildPredicateNode] of the operands, which the
    code calls only when the OR is not a list of equalities. *)
Definition buildOrPredicate (pred : Expr) (aliasToBase : gmap string string)
    (lhs rhs : result LogicalPlanNode) : result LogicalPlanNode :=
  r ← collectOrEqualsSameColumn_node aliasToBase pred Column_default [];
  match r with
  | Some (col, (_ :: _) as values) => Ok (filter_node PCT.IN [col] values)
  | _ =>
      l ← lhs;
      r ← rhs;
      let leaves := collectUnionLeaves (Some l) ++ collectUnionLeaves (Some r) in
      if negb (bool_decide (leaves = [])) && allLeavesSameTable leaves then
        Ok (set_children (map Some leaves)
              (set_expression (set_logical_rel_op (Some PRO.UNION) Expression_default)
                 (new_node LNT.SETOPERATION)))
      else Err (Throw "Unsupported OR predicate (different tables or complex OR)")
  end.

Definition buildJoinPredicate (pred : Expr) (aliasToBase : gmap string string) : LogicalPlanNode :=
  set_base_columns
    [toColumnFromExpr (unwrapSimpleFunction (e_expr pred)) aliasToBase;
     toColumnFromExpr (unwrapSimpleFunction (e_expr2 pred)) aliasToBase]
    (set_expression (set_comp_type (Some PCT.EQ) Expression_default) (new_node LNT.JOIN)).

Definition buildBetweenPredicate (pred : Expr) (aliasToBase : gmap string string) : LogicalPlanNode :=
  filter_node PCT.BETWEEN
    [toColumnFromExpr (unwrapSimpleFunction (e_expr pred)) aliasToBase]
    match e_exprList pred with
    | Some [lo; hi] => [exprToLiteral lo; exprToLiteral hi]
    | _ => []
    end.

Definition like_string_op (l_op r_op : option PSO.PlanStringOp) : option PSO.PlanStringOp :=
  match l_op, r_op with
  | Some a, Some b => if bool_decide (a = b) then Some a else None
  | Some a, None => Some a
  | None, Some b => Some b
  | None, None => None
  end.

(** [None] is the null pointer returned when no side is a column. *)
Definition buildComparisonPredicate (pred : Expr) (cmp : PCT.PlanCompType)
    (aliasToBase : gmap string string) : result (option LogicalPlanNode) :=
  let '(l_op, L) := unwrapStringOp (e_expr pred) in
  let '(r_op, R) := unwrapStringOp (e_expr2 pred) in
  let sop := if bool_decide (cmp = PCT.LIKE) then like_string_op l_op r_op else None in
  sides ← column_side L R;
  match sides with
  | None => Ok None
  | Some (colSide, litSide) =>
      lit ← deref "litSide->type" litSide;
      let col := toColumnFromExpr (Some colSide) aliasToBase in
      let '(cols, vals) :=
        if isType kExprColumnRef lit then ([col; toColumnFromExpr (Some lit) aliasToBase], [])
        else ([col], option_list (appendLiteralValue (Some lit))) in
      let f := filter_node cmp cols vals in
      Ok (Some (set_expression (set_string_op sop (expression f)) f))
  end.

Definition unsupported_where : err := Throw "Unsupported WHERE predicate".

(** The comparison case and the final [throw]; the message's numeric codes of
    the parser's enums are left out. *)
Definition build_comparison_or_throw (pred : Expr) (aliasToBase : gmap string string)
    : result LogicalPlanNode :=
  match isType kExprOperator pred, e_expr pred, e_expr2 pred, mapCompOp (e_opType pred) with
  | true, Some _, Some _, Some cmp =>
      r ← buildComparisonPredicate pred cmp aliasToBase;
      match r with Some n => Ok n | None => Err unsupported_where end
  | _, _, _, _ => Err unsupported_where
  end.

(** Whether both sides of an [=] are columns; dereferences both operands. *)
Definition is_join_predicate (pred : Expr) : result bool :=
  if is_op kOpEquals pred && bool_decide (is_Some (e_expr pred)) && bool_decide (is_Some (e_expr2 pred)) then
    a ← deref "unwrap(expr)->type" (unwrapSimpleFunction (e_expr pred));
    if isType kExprColumnRef a then
      b ← deref "unwrap(expr2)->type" (unwrapSimpleFunction (e_expr2 pred));
      Ok (isType kExprColumnRef b)
    else Ok false
  else Ok false.

Fixpoint buildPredicateNode_node (aliasToBase : gmap string string) (pred : Expr) : result LogicalPlanNode :=
  if is_op kOpIn pred then buildInPredicate pred aliasToBase
  else if is_op kOpOr pred then
    buildOrPredicate pred aliasToBase
      match e_expr pred with
      | Some a => buildPredicateNode_node aliasToBase a
      | None => Err (Throw "NULL predicate")
      end
      match e_expr2 pred with
      | Some b => buildPredicateNode_node aliasToBase b
      | None => Err (Throw "NULL predicate")
      end
  else
    match is_join_predicate pred with
    | Err e => Err e
    | Ok true => Ok (buildJoinPredicate pred aliasToBase)
    | Ok false =>
        if is_op kOpBetween pred then Ok (buildBetweenPredicate pred aliasToBase)
        else build_comparison_or_throw pred aliasToBase
    end.

Definition buildPredicateNode (aliasToBase : gmap string string) (pred : option Expr)
    : result LogicalPlanNode :=
  match pred with
  | None => Err (Throw "NULL predicate")
  | Some p => buildPredicateNode_node aliasToBase p
  end.

(** ** Shape of the nodes *)

Definition wf_join_pred (p : LogicalPlanNode) : bool :=
  bool_decide (node_type p = LNT.JOIN) && (length (base_columns p) =? 2) &&
  bool_decide (expression p = set_comp_type (Some PCT.EQ) Expression_default) &&
  bool_decide (children p = []).

Lemma filter_node_wf cmp cols vals : wf_pred (filter_node cmp cols vals) = true.
Proof. done. Qed.
#[export] Hint Resolve filter_node_wf : plan.

Lemma allLeaves_filters leaves t0 t :
  allLeavesSameTable_from leaves t0 = Some t -> forall l, l ∈ leaves -> is_filter l = true.
Proof.
  revert t0. induction leaves as [|l leaves IH]; intros t0; [set_solver|].
  simpl. intros H. case_match eqn:Hl; [done|]. apply negb_false_iff in Hl.
  intros l' [->|Hl']%elem_of_cons; [done|].
  repeat case_match; try done; eauto.
Qed.

Lemma buildComparisonPredicate_inv e cmp al n :
  buildComparisonPredicate e cmp al = Ok (Some n) ->
  exists sop cols vals,
    n = set_expression (set_string_op sop (expression (filter_node cmp cols vals)))
          (filter_node cmp cols vals).
Proof.
  rewrite /buildComparisonPredicate.
  destruct (unwrapStringOp (e_expr e)) as [l_op L], (unwrapStringOp (e_expr2 e)) as [r_op R].
  intros H. apply bind_ok in H as ([[c l]|] & _ & H); [|done].
  apply bind_ok in H as (lit & _ & H).
  destruct (if isType kExprColumnRef lit then _ else _) as [cols vals].
  injection H as <-. eauto.
Qed.

Lemma build_comparison_shape e al n : build_comparison_or_throw e al = Ok n -> wf_pred n = true.
Proof.
  rewrite /build_comparison_or_throw. intros H. repeat (case_match; [|done] || case_match; try done).
  apply bind_ok in H as ([m|] & H & [= <-]).
  by apply buildComparisonPredicate_inv in H as (? & ? & ? & ->).
Qed.

Lemma union_leaves_wf leaves : leaves <> [] -> allLeavesSameTable leaves = true ->
  wf_pred (set_children (map Some leaves)
             (set_expression (set_logical_rel_op (Some PRO.UNION) Expression_default)
                (new_node LNT.SETOPERATION))) = true.
Proof.
  rewrite /allLeavesSameTable. intros Hne Hall. case_match; [|done].
  rewrite /wf_pred /is_union /=. apply andb_true_iff. split; [by destruct leaves|].
  apply forallb_Some. eexists; split; [done|]. by eapply allLeaves_filters.
Qed.

(** The two outcomes of an OR: an IN filter, or the UNION of all leaves. *)
Lemma buildOrPredicate_inv e al lhs rhs n : buildOrPredicate e al lhs rhs = Ok n ->
  (exists col v vs, collectOrEqualsSameColumn_node al e Column_default [] = Ok (Some (col, v :: vs)) /\
     n = filter_node PCT.IN [col] (v :: vs)) \/
  (exists l r, lhs = Ok l /\ rhs = Ok r /\
     let leaves := collectUnionLeaves_node l ++ collectUnionLeaves_node r in
     leaves <> [] /\ allLeavesSameTable leaves = true /\
     n = set_children (map Some leaves)
           (set_expression (set_logical_rel_op (Some PRO.UNION) Expression_default)
              (new_node LNT.SETOPERATION))).
Proof.
  rewrite /buildOrPredicate. intros H. apply bind_ok in H as (r & Hr & H).
  destruct r as [[col [|v vs]]|]; [|injection H as <-; left; eauto 6|];
    right; apply bind_ok in H as (l & -> & H); apply bind_ok in H as (r & -> & H);
    (case_match eqn:Hc; [|done]); injection H as <-;
    apply andb_true_iff in Hc as [Hne%negb_true_iff%bool_decide_eq_false ?]; eauto 8.
Qed.

Lemma buildOrPredicate_shape e al lhs rhs n : buildOrPredicate e al lhs rhs = Ok n ->
  wf_pred n = true.
Proof.
  intros [(?&?&?&_&->)|(?&?&_&_&?&?&->)]%buildOrPredicate_inv; [done|by apply union_leaves_wf].
Qed.

Lemma buildPredicateNode_shape al e n : buildPredicateNode_node al e = Ok n ->
  wf_join_pred n = true \/ wf_pred n = true.
Proof.
  destruct e as [ty op e1 e2 el nm tb a iv fv sel]. cbn [buildPredicateNode_node].
  case_match; [|case_match].
  - rewrite /buildInPredicate. intros ?. right. case_match_all; inv_ok; auto with plan.
  - intros Hb%buildOrPredicate_shape. by right.
  - case_match; [|done]. case_match; [intros [= <-]; by left|]. right.
    case_match; simplify_eq/=; [done|]. by eapply build_comparison_shape.
Qed.

(** ** Meaning of the WHERE clause

    [where_holds] reads AND and OR as the boolean connectives and every other
    condition as the comparison of the node built for it; the theorem says
    that the rewriting of OR (into one IN filter, or into a UNION of filters)
    keeps this meaning. *)

Section expr_ind.
Variable P : Expr -> Prop.
Hypothesis step : forall e, (forall c, e_expr e = Some c -> P c) ->
  (forall c, e_expr2 e = Some c -> P c) -> P e.
Fixpoint Expr_operand_ind (e : Expr) : P e.
Proof.
  apply step; destruct e as [ty op e1 e2 el nm tb a iv fv sel]; simpl;
    intros c Hc; [destruct e1 as [x|]|destruct e2 as [x|]];
    try discriminate Hc; injection Hc as <-; apply Expr_operand_ind.
Qed.
End expr_ind.

(** Every column reference in an expression satisfies [P]. *)
Fixpoint all_refs (P : Expr -> bool) (e : Expr) : bool :=
  (negb (isType kExprColumnRef e) || P e) &&
  from_option (all_refs P) true (e_expr e) && from_option (all_refs P) true (e_expr2 e) &&
  match e_exprList e with
  | Some l => forallb (fun x => match x with Some x => all_refs P x | None => true end) l
  | None => true
  end.

Lemma all_refs_here P e : all_refs P e = true -> isType kExprColumnRef e = true -> P e = true.
Proof. destruct e; simpl. intros Hn Hc. repeat (apply andb_true_iff in Hn as [Hn ?]). by rewrite Hc in Hn. Qed.

Lemma all_refs_true P : (forall e, P e = true) -> forall e, all_refs P e = true.
Proof.
  intros HP. fix IH 1. intros [ty op e1 e2 el nm tb a iv fv sel]. cbn [all_refs e_expr e_expr2 e_exprList].
  rewrite HP orb_true_r andb_true_l. destruct e1 as [x|]; cbn [from_option]; [rewrite (IH x)|];
    (destruct e2 as [y|]; cbn [from_option]; [rewrite (IH y)|]); rewrite ?andb_true_l;
    (destruct el as [l|]; [|done]); induction l as [|[z|] l IHl]; cbn [forallb]; rewrite ?(IH z); done.
Qed.

Lemma all_refs_operand P e x : all_refs P e = true ->
  e_expr e = Some x \/ e_expr2 e = Some x -> all_refs P x = true.
Proof.
  destruct e; simpl. intros Hn. repeat (apply andb_true_iff in Hn as [Hn ?]).
  by intros [->| ->].
Qed.

Lemma all_refs_arg P e l x : all_refs P e = true -> e_exprList e = Some l -> Some x ∈ l -> all_refs P x = true.
Proof.
  destruct e; simpl. intros [_ Hn]%andb_true_iff -> Hx. rewrite forallb_forall in Hn.
  by apply list_elem_of_In, Hn in Hx.
Qed.

Lemma all_refs_unwrap P e x : all_refs P e = true -> unwrapSimpleFunction (Some e) = Some x -> all_refs P x = true.
Proof.
  rewrite /unwrapSimpleFunction. intros Hn H.
  repeat case_match; simplify_eq/=; try done. eapply all_refs_arg; [exact Hn|eassumption|by apply list_elem_of_singleton].
Qed.

Lemma all_refs_column_side P a b x v : all_refs P a = true -> all_refs P b = true ->
  column_side (unwrapSimpleFunction (Some a)) (unwrapSimpleFunction (Some b)) = Ok (Some (x, v)) ->
  (all_refs P x = true /\ isType kExprColumnRef x = true) /\ forall y, v = Some y -> all_refs P y = true.
Proof.
  intros Ha Hb. rewrite /column_side.
  destruct (unwrapSimpleFunction (Some a)) as [x'|] eqn:Hx; simpl; [|done].
  pose proof (all_refs_unwrap P a x' Ha Hx) as Hx'. destruct (isType kExprColumnRef x') eqn:Hxt.
  - intros [= <- <-]. split; [done|]. intros y Hy. exact (all_refs_unwrap P b y Hb Hy).
  - destruct (unwrapSimpleFunction (Some b)) as [y|] eqn:Hy; simpl; [|done].
    destruct (isType kExprColumnRef y) eqn:Hyt; [|done].
    intros [= <- <-]. split; [|by intros ? [= <-]]. split; [|done]. exact (all_refs_unwrap P b y Hb Hy).
Qed.

(** Every column reference carries a name, as the parser guarantees. *)
Notation named := (all_refs (fun e => negb (is_empty (default "" (e_name e))))).

(** The expression of [col = v]. *)
Definition eq_expr (v : string) : Expression :=
  set_values [v] (set_comp_type (Some PCT.EQ) Expression_default).
Definition in_expr (vs : list string) : Expression :=
  set_values vs (set_comp_type (Some PCT.IN) Expression_default).

Section where_meaning.
Context {value : Type} (D : engine value) (al : gmap string string).

Fixpoint where_holds (e : Expr) (t : tuple) : bool :=
  if is_op kOpAnd e then
    match e_expr e with Some a => where_holds a t | None => true end &&
    match e_expr2 e with Some b => where_holds b t | None => true end
  else if is_op kOpOr e then
    match e_expr e with Some a => where_holds a t | None => false end ||
    match e_expr2 e with Some b => where_holds b t | None => false end
  else match buildPredicateNode_node al e with
       | Ok n => pred_holds D n t
       | Err _ => false
       end.

Lemma unwrapStringOp_snd e : snd (unwrapStringOp e) = unwrapSimpleFunction e.
Proof.
  destruct e as [e|]; [|done]. rewrite /unwrapStringOp /unwrapSimpleFunction.
  destruct (isType kExprFunctionRef e); [|done]. simpl.
  destruct (e_exprList e) as [[|arg []]|]; destruct (e_name e) eqn:Hn; try done.
  rewrite /stringOpFromFunctionName /is_case_function.
  by repeat case_match; simplify_eq/=; repeat match goal with
    | H : _ || _ = true |- _ => apply orb_true_iff in H as [?|?]
    | H : _ || _ = false |- _ => apply orb_false_iff in H as [??]
    end; try congruence.
Qed.

Lemma appendLiteralValue_or v s : or_literal v = Some s ->
  appendLiteralValue (Some v) = Some s /\ isType kExprColumnRef v = false.
Proof.
  rewrite /or_literal /appendLiteralValue /isType.
  destruct (e_type v); simpl; intros; simplify_eq/=; done.
Qed.

Definition unset (c : Column) : bool := is_empty (column_name c) && is_empty (table_name c).

Lemma toColumn_set x : named x = true -> isType kExprColumnRef x = true ->
  unset (toColumnFromExpr (Some x) al) = false.
Proof.
  intros Hn Hx. destruct x as [ty op e1 e2 el nm tb a iv fv sel].
  rewrite /isType /= in Hx. apply bool_decide_eq_true in Hx. simplify_eq/=.
  repeat (apply andb_true_iff in Hn as [Hn ?]). apply negb_true_iff in Hn.
  by rewrite /unset /toColumnFromExpr /unwrapSimpleFunction /isType /= Hn.
Qed.

Lemma is_op_inj o o' e : is_op o e = true -> o <> o' -> is_op o' e = false.
Proof.
  rewrite /is_op. intros [-> Ho%bool_decide_eq_true]%andb_true_iff Hne.
  rewrite Ho. by rewrite bool_decide_false.
Qed.

(** An equality between a column and a literal becomes one EQ filter. *)
Lemma buildPredicateNode_equality e a b colExpr v s :
  is_op kOpEquals e = true -> e_expr e = Some a -> e_expr2 e = Some b ->
  column_side (unwrapSimpleFunction (Some a)) (unwrapSimpleFunction (Some b)) = Ok (Some (colExpr, Some v)) ->
  or_literal v = Some s ->
  buildPredicateNode_node al e =
    Ok (set_expression (eq_expr s) (filter_node PCT.EQ [toColumnFromExpr (Some colExpr) al] [s])).
Proof.
  intros He Ha Hb Hside Hs. destruct (appendLiteralValue_or v s Hs) as [Happ Hlit].
  assert (is_join_predicate e = Ok false) as Hj.
  { rewrite /is_join_predicate He Ha Hb /=. move: Hside. rewrite /column_side.
    destruct (unwrapSimpleFunction (Some a)) as [x|]; simpl; [|done].
    destruct (isType kExprColumnRef x); [intros [= -> ->]|done]. simpl. by rewrite Hlit. }
  assert (buildComparisonPredicate e PCT.EQ al =
    Ok (Some (set_expression (eq_expr s) (filter_node PCT.EQ [toColumnFromExpr (Some colExpr) al] [s])))) as Hcmp.
  { rewrite /buildComparisonPredicate Ha Hb.
    pose proof (unwrapStringOp_snd (Some a)) as H1. pose proof (unwrapStringOp_snd (Some b)) as H2.
    destruct (unwrapStringOp (Some a)) as [lo L], (unwrapStringOp (Some b)) as [ro R].
    simpl in H1, H2. subst L R. rewrite Hside /=. by rewrite Hlit Happ. }
  destruct e as [ty op e1 e2 el nm tb al' iv fv sel]; simplify_eq/=.
  apply andb_true_iff in He as [Hty Ho]. apply bool_decide_eq_true in Ho. rewrite /= in Ho. subst op.
  apply bool_decide_eq_true in Hty. rewrite /= in Hty. subst ty.
  rewrite /is_op /= Hj. rewrite /build_comparison_or_throw /=. by rewrite Hcmp.
Qed.

Lemma colval_key t (c1 c2 : Column) : column_name c1 = column_name c2 ->
  table_name c1 = table_name c2 -> colval D t c1 = colval D t c2.
Proof. rewrite /colval /resolveTableName. by intros -> ->. Qed.

Definition eq_holds (c : Column) (t : tuple) (v : string) : bool :=
  holds D (eq_expr v) [colval D t c].

Lemma where_holds_or e a b t : is_op kOpOr e = true -> e_expr e = Some a -> e_expr2 e = Some b ->
  where_holds e t = where_holds a t || where_holds b t.
Proof.
  intros Ho Ha Hb. pose proof (is_op_inj kOpOr kOpAnd e Ho) as Hand.
  destruct e; simpl in *. by rewrite Hand // Ho Ha Hb.
Qed.

Lemma where_holds_and e t : is_op kOpAnd e = true ->
  where_holds e t = match e_expr e with Some a => where_holds a t | None => true end &&
                    match e_expr2 e with Some b => where_holds b t | None => true end.
Proof. destruct e; simpl. by intros ->. Qed.

Lemma where_holds_leaf e t : is_op kOpOr e = false -> is_op kOpAnd e = false ->
  where_holds e t = match buildPredicateNode_node al e with
                    | Ok n => pred_holds D n t | Err _ => false end.
Proof. destruct e; simpl. by intros -> ->. Qed.

Lemma collectOr_or_inv e c0 vs0 c vs : is_op kOpOr e = true ->
  collectOrEqualsSameColumn_node al e c0 vs0 = Ok (Some (c, vs)) ->
  exists a b c1 vs1, e_expr e = Some a /\ e_expr2 e = Some b /\
    collectOrEqualsSameColumn_node al a c0 vs0 = Ok (Some (c1, vs1)) /\
    collectOrEqualsSameColumn_node al b c1 vs1 = Ok (Some (c, vs)).
Proof.
  intros Ho Hc. destruct e as [ty op e1 e2 el nm tb al' iv fv sel].
  cbn [collectOrEqualsSameColumn_node] in Hc. rewrite Ho in Hc. cbn [e_expr e_expr2] in *.
  destruct e1 as [a|]; [|done]. apply bind_ok in Hc as ([[c1 vs1]|] & H1 & H2); [|done].
  destruct e2 as [b|]; [|done]. eauto 8.
Qed.

Lemma collectOr_eq_inv e c0 vs0 c vs : is_op kOpOr e = false ->
  collectOrEqualsSameColumn_node al e c0 vs0 = Ok (Some (c, vs)) ->
  is_op kOpEquals e = true /\ exists a b colExpr v s, e_expr e = Some a /\ e_expr2 e = Some b /\
    column_side (unwrapSimpleFunction (Some a)) (unwrapSimpleFunction (Some b))
      = Ok (Some (colExpr, Some v)) /\ or_literal v = Some s /\ vs = vs0 ++ [s] /\
    let thisCol := toColumnFromExpr (Some colExpr) al in
    c = (if unset c0 then thisCol else c0) /\
    (unset c0 = false -> column_name c0 = column_name thisCol /\ table_name c0 = table_name thisCol).
Proof.
  intros Ho Hc. destruct e as [ty op e1 e2 el nm tb al' iv fv sel].
  cbn [collectOrEqualsSameColumn_node] in Hc. rewrite Ho in Hc. cbn [e_expr e_expr2] in *.
  case_match; [|done]. split; [done|]. destruct e1 as [a|], e2 as [b|]; try done.
  apply bind_ok in Hc as ([[ce ve]|] & Hside & Hc); [|done].
  case_match eqn:Hm; [done|]. apply bind_ok in Hc as (v & Hv & Hc).
  destruct ve as [ve|]; [|done]. simpl in Hv. injection Hv as <-.
  destruct (or_literal ve) as [s|] eqn:Hs; [|done]. injection Hc as <- <-.
  exists a, b, ce, ve, s. split_and!; try done.
  intros Hu. rewrite /unset in Hu. rewrite Hu /= in Hm.
  by apply orb_false_iff in Hm as [H1%negb_false_iff%String.eqb_eq H2%negb_false_iff%String.eqb_eq].
Qed.

(** The accumulated column and values mean the OR collected so far. *)
Lemma collectOr_meaning e : named e = true -> forall c0 vs0 c vs,
  collectOrEqualsSameColumn_node al e c0 vs0 = Ok (Some (c, vs)) ->
  exists new, vs = vs0 ++ new /\ unset c = false /\ (unset c0 = false -> c = c0) /\
    forall t, where_holds e t = existsb (eq_holds c t) new.
Proof.
  induction e as [e IH1 IH2] using Expr_operand_ind. intros Hn c0 vs0 c vs Hc.
  destruct (is_op kOpOr e) eqn:Ho.
  - apply collectOr_or_inv in Hc as (a & b & c1 & vs1 & Ha & Hb & H1 & H2); [|done].
    destruct (IH1 a Ha (all_refs_operand _ e a Hn (or_introl Ha)) _ _ _ _ H1) as (n1 & -> & Hu1 & He1 & Hm1).
    destruct (IH2 b Hb (all_refs_operand _ e b Hn (or_intror Hb)) _ _ _ _ H2) as (n2 & -> & Hu2 & He2 & Hm2).
    specialize (He2 Hu1). subst c1. exists (n1 ++ n2). rewrite app_assoc. split_and!; try done.
    intros t. by rewrite (where_holds_or e a b) // existsb_app Hm1 Hm2.
  - apply collectOr_eq_inv in Hc as (He & a & b & colExpr & v & s & Ha & Hb & Hside & Hs & -> & Hcol & Hsame); [|done].
    destruct (all_refs_column_side (fun e => negb (is_empty (default "" (e_name e)))) a b colExpr (Some v)) as [[Hnc Htc] _];
      [by eapply all_refs_operand; [|left]|by eapply all_refs_operand; [|right]|done|].
    pose proof (toColumn_set colExpr Hnc Htc) as Hset.
    exists [s]. simpl in Hcol, Hsame. split_and!.
    + done.
    + rewrite Hcol. by destruct (unset c0) eqn:?.
    + intros Hu. by rewrite Hcol Hu.
    + intros t. rewrite where_holds_leaf; [|done|by apply (is_op_inj kOpEquals)].
      erewrite buildPredicateNode_equality by done. simpl. rewrite orb_false_r.
      rewrite /pred_holds /= /cond /eq_holds /=. f_equal. f_equal. rewrite Hcol.
      destruct (unset c0) eqn:Hu; [done|]. destruct (Hsame eq_refl). symmetry. by apply colval_key.
Qed.

(** The engine's IN is the disjunction of its equalities. *)
Hypothesis IN_is_EQ : forall vs args,
  holds D (in_expr vs) args = existsb (fun v => holds D (eq_expr v) args) vs.

Lemma leaves_meaning n t : wf_pred n = true \/ node_type n <> LNT.SETOPERATION ->
  existsb (fun l => cond D l t) (collectUnionLeaves_node n) = pred_holds D n t.
Proof.
  intros H. destruct (is_union n) eqn:Hu.
  - destruct H as [H|H]; [|by rewrite /is_union bool_decide_false in Hu].
    destruct (wf_pred_cases n H) as [Hf|(cs & Hty & Hop & Hch & _ & Hf)].
    { by rewrite /is_union Hf in Hu. }
    rewrite /pred_holds bool_decide_true // Hch.
    destruct n as [ty st bc ex pc ch]; simplify_eq/=. rewrite Hu. clear -Hf.
    induction cs as [|c cs IH]; [done|]. simpl. rewrite existsb_app IH; [|set_solver].
    assert (is_filter c = true) as Hc by (apply Hf; set_solver).
    destruct c; simpl in *. rewrite /is_union /=. apply bool_decide_eq_true in Hc. simpl in Hc.
    subst. simpl. by rewrite orb_false_r.
  - destruct n as [ty st bc ex pc ch]. cbn [collectUnionLeaves_node]. rewrite Hu /= orb_false_r.
    rewrite /pred_holds /=. case_bool_decide; [|done].
    destruct H as [H|H].
    + exfalso. destruct (wf_pred_cases _ H) as [?|(cs & ? & ? & _)]; simplify_eq/=.
      by rewrite /is_union /= bool_decide_true in Hu.
    + by destruct H.
Qed.

(** An OR keeps its meaning when it is rewritten. *)
Lemma buildPredicateNode_meaning e n t : named e = true ->
  buildPredicateNode_node al e = Ok n -> pred_holds D n t = where_holds e t.
Proof.
  revert n. induction e as [e IH1 IH2] using Expr_operand_ind. intros n Hn Hb.
  destruct (is_op kOpOr e) eqn:Ho.
  - assert (buildOrPredicate e al
      match e_expr e with Some a => buildPredicateNode_node al a | None => Err (Throw "NULL predicate") end
      match e_expr2 e with Some b => buildPredicateNode_node al b | None => Err (Throw "NULL predicate") end
      = Ok n) as Hor.
    { pose proof (is_op_inj kOpOr kOpIn e Ho) as Hin. rewrite -Hb.
      destruct e. cbn [buildPredicateNode_node]. by rewrite Hin // Ho. }
    apply buildOrPredicate_inv in Hor as [(col & v & vs & Hc & ->)|(l & r & Hl & Hr & Hne & Hall & ->)].
    + apply collectOr_meaning in Hc as (new & Heq & _ & _ & Hm); [|done]. simpl in Heq.
      rewrite Hm Heq /pred_holds /= /cond. apply IN_is_EQ.
    + destruct (e_expr e) as [a|] eqn:Ha; [|done]. destruct (e_expr2 e) as [b|] eqn:Hb'; [|done].
      rewrite (where_holds_or e a b) //.
      rewrite -(IH1 a eq_refl l) //; [|by eapply all_refs_operand; [|left]].
      rewrite -(IH2 b eq_refl r) //; [|by eapply all_refs_operand; [|right]].
      assert (forall m, buildPredicateNode_node al a = Ok m \/ buildPredicateNode_node al b = Ok m ->
        wf_pred m = true \/ node_type m <> LNT.SETOPERATION) as Hsh.
      { intros m [Hm|Hm]; apply buildPredicateNode_shape in Hm as [Hm|Hm]; auto; right;
          repeat (apply andb_true_iff in Hm as [Hm _]); apply bool_decide_eq_true in Hm; congruence. }
      rewrite -(leaves_meaning l); [|by apply Hsh; auto]. rewrite -(leaves_meaning r); [|by apply Hsh; auto].
      rewrite -existsb_app /pred_holds /=. generalize (collectUnionLeaves_node l ++ collectUnionLeaves_node r).
      intros ls. induction ls as [|x ls IHls]; [done|]. simpl. by rewrite IHls.
  - rewrite where_holds_leaf //; [by rewrite Hb|].
    apply not_true_iff_false. intros Ha.
    pose proof (is_op_inj kOpAnd kOpIn e Ha) as Hin. pose proof (is_op_inj kOpAnd kOpEquals e Ha) as Heq.
    pose proof (is_op_inj kOpAnd kOpBetween e Ha) as Hbt.
    apply andb_true_iff in Ha as [_ Hop%bool_decide_eq_true].
    destruct e as [ty op e1 e2 el nm tb a iv fv sel]. cbn [buildPredicateNode_node] in Hb. rewrite Hin // Ho in Hb.
    rewrite /is_join_predicate Heq //= Hbt // /build_comparison_or_throw in Hb.
    simpl in Hop, Hb. rewrite Hop in Hb. simpl in Hb. by repeat case_match.
Qed.

(** The conjuncts hold exactly when the WHERE clause does. *)
Lemma splitConjuncts_meaning e t :
  forallb (fun c => where_holds c t) (splitConjuncts_node e) = where_holds e t.
Proof.
  induction e as [e IH1 IH2] using Expr_operand_ind.
  destruct (is_op kOpAnd e) eqn:Ha.
  - rewrite where_holds_and //. destruct e as [ty op e1 e2 el nm tb a iv fv sel].
    cbn [splitConjuncts_node]. rewrite /is_op in Ha. rewrite Ha. cbn [e_expr e_expr2] in *.
    rewrite forallb_app. f_equal; [destruct e1 as [x|]|destruct e2 as [x|]]; [by apply IH1|done|by apply IH2|done].
  - destruct e. cbn [splitConjuncts_node]. rewrite /is_op in Ha. rewrite Ha. simpl. by rewrite andb_true_r.
Qed.

End where_meaning.
