(* ===== verification/WhereSemantics.v ===== *)
(** * SQL meaning of a WHERE clause

    [sql_holds] gives WHERE clauses their SQL meaning on the rows of the
    reference semantics, without mentioning the translator: comparisons
    compare the two operands in the order they are written, IN is a
    disjunction of equalities, AND and OR are the boolean connectives.
    [plain] delimits the clauses for which the predicates built by
    [PredicateBuilder.cpp] have this meaning: operands are columns or
    literals, and a literal may stand on the left of [=] and [<>] only. *)

From S2P Require Import Prelude PlanTypes SqlAst SchemaResolver TranslatorHelpers.
From S2P Require Import LogicalSemantics Pushdown PredicateBuilder.

(** [cmp] with its operands exchanged. *)
Definition mirror (c : PCT.PlanCompType) : PCT.PlanCompType :=
  match c with
  | PCT.LT => PCT.GT | PCT.LE => PCT.GE | PCT.GT => PCT.LT | PCT.GE => PCT.LE
  | c => c
  end.

Definition cmp_expr (c : PCT.PlanCompType) (vs : list string) : Expression :=
  set_values vs (set_comp_type (Some c) Expression_default).

Section sql.
Context {value : Type} (D : engine value) (al : gmap string string).

Definition operand (t : tuple) (e : Expr) : option value := colval D t (toColumnFromExpr (Some e) al).

Definition sql_leaf (e : Expr) (t : tuple) : bool :=
  if is_op kOpIn e then
    match e_expr e, e_exprList e with
    | Some x, Some l =>
        existsb (fun v => match v ≫= or_literal with
                          | Some s => holds D (cmp_expr PCT.EQ [s]) [operand t x]
                          | None => false
                          end) l
    | _, _ => false
    end
  else if is_op kOpBetween e then
    match e_expr e, e_exprList e with
    | Some x, Some [Some lo; Some hi] =>
        match or_literal lo, or_literal hi with
        | Some a, Some b => holds D (cmp_expr PCT.BETWEEN [a; b]) [operand t x]
        | _, _ => false
        end
    | _, _ => false
    end
  else
    match mapCompOp (e_opType e), e_expr e, e_expr2 e with
    | Some cmp, Some a, Some b =>
        match or_literal a, or_literal b with
        | None, None => holds D (cmp_expr cmp []) [operand t a; operand t b]
        | None, Some s => holds D (cmp_expr cmp [s]) [operand t a]
        | Some s, None => holds D (cmp_expr (mirror cmp) [s]) [operand t b]
        | Some _, Some _ => false
        end
    | _, _, _ => false
    end.

Fixpoint sql_holds (e : Expr) (t : tuple) : bool :=
  if is_op kOpAnd e then
    match e_expr e with Some a => sql_holds a t | None => true end &&
    match e_expr2 e with Some b => sql_holds b t | None => true end
  else if is_op kOpOr e then
    match e_expr e with Some a => sql_holds a t | None => false end ||
    match e_expr2 e with Some b => sql_holds b t | None => false end
  else sql_leaf e t.

End sql.

(** ** Plain clauses *)

Definition colref (e : Expr) : bool :=
  isType kExprColumnRef e && negb (is_empty (default "" (e_name e))).

Definition is_lit (e : Expr) : bool := bool_decide (is_Some (or_literal e)).

Definition plain_comparison (e : Expr) : bool :=
  isType kExprOperator e && bool_decide (is_Some (mapCompOp (e_opType e))) &&
  negb (bool_decide (e_opType e = kOpILike)) &&
  match e_expr e, e_expr2 e with
  | Some a, Some b =>
      (colref a && (colref b || is_lit b)) ||
      (is_lit a && colref b &&
       (bool_decide (e_opType e = kOpEquals) || bool_decide (e_opType e = kOpNotEquals)))
  | _, _ => false
  end.

Definition plain_in (e : Expr) : bool :=
  is_op kOpIn e && negb (e_select e) &&
  match e_expr e, e_exprList e with
  | Some x, Some ((_ :: _) as l) =>
      colref x && forallb (fun v => match v with Some v => is_lit v | None => false end) l
  | _, _ => false
  end.

Definition plain_between (e : Expr) : bool :=
  is_op kOpBetween e &&
  match e_expr e, e_exprList e with
  | Some x, Some [Some lo; Some hi] => colref x && is_lit lo && is_lit hi
  | _, _ => false
  end.

Fixpoint plain (e : Expr) : bool :=
  if is_op kOpAnd e || is_op kOpOr e then
    match e_expr e, e_expr2 e with
    | Some a, Some b => plain a && plain b
    | _, _ => false
    end
  else plain_comparison e || plain_in e || plain_between e.

Lemma colref_type e : colref e = true -> e_type e = kExprColumnRef.
Proof. by intros [H%bool_decide_eq_true _]%andb_true_iff. Qed.

Lemma colref_not_lit e : colref e = true -> or_literal e = None.
Proof. intros H%colref_type. by rewrite /or_literal /isType H. Qed.

Lemma lit_not_colref e s : or_literal e = Some s -> isType kExprColumnRef e = false.
Proof. by intros [_ H]%appendLiteralValue_or. Qed.

Lemma unwrap_plain e : colref e = true \/ is_lit e = true ->
  unwrapSimpleFunction (Some e) = Some e /\ unwrapStringOp (Some e) = (None, Some e).
Proof.
  intros H. assert (isType kExprFunctionRef e = false) as Hf.
  { rewrite /isType. destruct H as [H%colref_type|H]; [by rewrite H|].
    apply bool_decide_eq_true in H. rewrite /or_literal /isType in H.
    destruct (e_type e); simpl in *; try done; by destruct H. }
  by rewrite /unwrapSimpleFunction /unwrapStringOp Hf.
Qed.

Section meaning.
Context {value : Type} (D : engine value) (al : gmap string string).
Hypothesis IN_is_EQ : forall vs args,
  holds D (in_expr vs) args = existsb (fun v => holds D (eq_expr v) args) vs.

Lemma plain_in_meaning e t : plain_in e = true -> exists n,
  buildPredicateNode_node al e = Ok n /\ pred_holds D n t = sql_leaf D al e t.
Proof.
  rewrite /plain_in. intros [[Hin Hsel]%andb_true_iff H]%andb_true_iff.
  destruct (e_expr e) as [x|] eqn:Hx; [|done]. destruct (e_exprList e) as [[|v l]|] eqn:Hl; try done.
  apply andb_true_iff in H as [Hc (vs & Hvs & Hlit)%forallb_Some].
  assert (exists ss, mapR in_literal vs = Ok ss /\ Forall2 (fun v s => or_literal v = Some s) vs ss) as (ss & Hss & Hor).
  { clear Hvs Hl. induction vs as [|w vs IH]; [exists []; by split|].
    destruct IH as (ss & Hss & Hor); [set_solver|].
    assert (is_Some (or_literal w)) as [s Hs] by (apply (bool_decide_eq_true _), Hlit; set_solver).
    exists (s :: ss). split; [|by constructor]. by rewrite /= /in_literal Hs /= Hss. }
  destruct (unwrap_plain x) as [Hux _]; [by left|]. pose proof (colref_type x Hc) as Hty.
  exists (filter_node PCT.IN [toColumnFromExpr (Some x) al] ss). split.
  - assert (buildInPredicate e al = Ok (filter_node PCT.IN [toColumnFromExpr (Some x) al] ss)) as Hb.
    { rewrite /buildInPredicate Hx Hux /isType Hty /= (proj1 (negb_true_iff _) Hsel) Hl Hvs.
      by rewrite omap_id_map_Some Hss. }
    destruct e. cbn [buildPredicateNode_node]. by rewrite Hin.
  - rewrite /sql_leaf Hin Hx Hl Hvs /pred_holds /cond /=. etrans; [apply IN_is_EQ|].
    clear -Hor. induction Hor as [|w s vs ss Hs _ IH]; [done|]. simpl. by rewrite Hs IH.
Qed.

Lemma exprToLiteral_or v s : or_literal v = Some s -> exprToLiteral (Some v) = s.
Proof. rewrite /or_literal /exprToLiteral. repeat case_match; by intros; simplify_eq/=. Qed.

Lemma plain_between_meaning e t : plain_between e = true -> exists n,
  buildPredicateNode_node al e = Ok n /\ pred_holds D n t = sql_leaf D al e t.
Proof.
  rewrite /plain_between. intros [Hb H]%andb_true_iff.
  destruct (e_expr e) as [x|] eqn:Hx; [|done].
  destruct (e_exprList e) as [[|[lo|] [|[hi|] []]]|] eqn:Hl; try done.
  apply andb_true_iff in H as [[Hc [a Ha]%bool_decide_eq_true]%andb_true_iff [b Hb']%bool_decide_eq_true].
  destruct (unwrap_plain x) as [Hux _]; [by left|].
  pose proof (is_op_inj kOpBetween kOpIn e Hb) as Hin. pose proof (is_op_inj kOpBetween kOpOr e Hb) as Hor.
  pose proof (is_op_inj kOpBetween kOpEquals e Hb) as Heq.
  exists (buildBetweenPredicate e al). split.
  - destruct e. cbn [buildPredicateNode_node]. rewrite Hin // Hor // /is_join_predicate Heq //=.
    by rewrite Hb.
  - rewrite /sql_leaf Hin // Hb Hx Hl Ha Hb' /buildBetweenPredicate Hx Hl Hux.
    by rewrite (exprToLiteral_or lo a) // (exprToLiteral_or hi b).
Qed.

(** The node of a comparison without functions. *)
Lemma buildComparison_plain e a b cmp cols vals :
  e_expr e = Some a -> e_expr2 e = Some b ->
  unwrapStringOp (Some a) = (None, Some a) -> unwrapStringOp (Some b) = (None, Some b) ->
  (isType kExprColumnRef a = true /\ isType kExprColumnRef b = true /\
     cols = [toColumnFromExpr (Some a) al; toColumnFromExpr (Some b) al] /\ vals = []) \/
  (isType kExprColumnRef a = true /\ isType kExprColumnRef b = false /\
     cols = [toColumnFromExpr (Some a) al] /\ vals = option_list (appendLiteralValue (Some b))) \/
  (isType kExprColumnRef a = false /\ isType kExprColumnRef b = true /\
     cols = [toColumnFromExpr (Some b) al] /\ vals = option_list (appendLiteralValue (Some a))) ->
  buildComparisonPredicate e cmp al = Ok (Some (filter_node cmp cols vals)).
Proof.
  intros Ha Hb Hua Hub Hcase. rewrite /buildComparisonPredicate Ha Hb Hua Hub /column_side /=.
  destruct Hcase as [(-> & H & -> & ->)|[(-> & H & -> & ->)|(Hl & H & -> & ->)]]; rewrite ?Hl /= ?H /=.
  all: rewrite ?Hl; by case_bool_decide.
Qed.

Lemma comparison_node e cmp n : isType kExprOperator e = true -> mapCompOp (e_opType e) = Some cmp ->
  is_join_predicate e = Ok false -> buildComparisonPredicate e cmp al = Ok (Some n) ->
  is_Some (e_expr e) -> is_Some (e_expr2 e) -> buildPredicateNode_node al e = Ok n.
Proof.
  intros Hty Hop Hj Hc [a Ha] [b Hb].
  assert (is_op kOpIn e = false /\ is_op kOpOr e = false /\ is_op kOpBetween e = false) as (H1 & H2 & H3).
  { rewrite /is_op Hty /=. by destruct (e_opType e). }
  assert (build_comparison_or_throw e al = Ok n) as Ht.
  { by rewrite /build_comparison_or_throw Hty Ha Hb Hop Hc. }
  destruct e. cbn [buildPredicateNode_node]. by rewrite H1 H2 Hj H3.
Qed.

Lemma sql_leaf_comparison e cmp a b t : isType kExprOperator e = true ->
  mapCompOp (e_opType e) = Some cmp -> e_expr e = Some a -> e_expr2 e = Some b ->
  sql_leaf D al e t =
    match or_literal a, or_literal b with
    | None, None => holds D (cmp_expr cmp []) [operand D al t a; operand D al t b]
    | None, Some s => holds D (cmp_expr cmp [s]) [operand D al t a]
    | Some s, None => holds D (cmp_expr (mirror cmp) [s]) [operand D al t b]
    | Some _, Some _ => false
    end.
Proof.
  intros Hty Hop Ha Hb. rewrite /sql_leaf /is_op Hty Ha Hb Hop. by destruct (e_opType e).
Qed.

Lemma plain_comparison_meaning e t : plain_comparison e = true -> exists n,
  buildPredicateNode_node al e = Ok n /\ pred_holds D n t = sql_leaf D al e t.
Proof.
  rewrite /plain_comparison. intros [[[Hty [cmp Hop]%bool_decide_eq_true]%andb_true_iff _]%andb_true_iff H]%andb_true_iff.
  destruct (e_expr e) as [a|] eqn:Ha; [|done]. destruct (e_expr2 e) as [b|] eqn:Hb; [|done].
  rewrite (sql_leaf_comparison e cmp a b) //.
  assert (unwrapSimpleFunction (Some a) = Some a /\ unwrapStringOp (Some a) = (None, Some a)) as [Hua Hsa].
  { apply unwrap_plain. destruct (colref a), (is_lit a); auto. }
  assert (unwrapSimpleFunction (Some b) = Some b /\ unwrapStringOp (Some b) = (None, Some b)) as [Hub Hsb].
  { apply unwrap_plain. destruct (colref a), (colref b), (is_lit b); auto; by rewrite /= ?andb_false_r in H. }
  assert (is_join_predicate e = Ok (is_op kOpEquals e && isType kExprColumnRef a && isType kExprColumnRef b)) as Hj.
  { rewrite /is_join_predicate Ha Hb Hua Hub /=. destruct (is_op kOpEquals e); [|done]. simpl.
    by destruct (isType kExprColumnRef a). }
  assert (forall cols vals, is_op kOpEquals e && isType kExprColumnRef a && isType kExprColumnRef b = false ->
    buildComparisonPredicate e cmp al = Ok (Some (filter_node cmp cols vals)) ->
    buildPredicateNode_node al e = Ok (filter_node cmp cols vals)) as Hnode.
  { intros cols vals Hf Hc. eapply comparison_node; try done; [by rewrite Hj Hf|by eexists..]. }
  apply orb_true_iff in H as [[Hca H]%andb_true_iff|[[Hla Hcb]%andb_true_iff Hsym]%andb_true_iff].
  - rewrite (colref_not_lit a Hca). apply colref_type in Hca as Hta.
    assert (isType kExprColumnRef a = true) as HtA by (rewrite /isType Hta; done).
    apply orb_true_iff in H as [Hcb|Hlb].
    + rewrite (colref_not_lit b Hcb). apply colref_type in Hcb as Htb.
      assert (isType kExprColumnRef b = true) as HtB by (rewrite /isType Htb; done).
      destruct (is_op kOpEquals e) eqn:Heq.
      * assert (cmp = PCT.EQ) as ->.
        { apply andb_true_iff in Heq as [_ Ho%bool_decide_eq_true]. rewrite Ho in Hop. by injection Hop. }
        exists (buildJoinPredicate e al). split.
        -- pose proof (is_op_inj kOpEquals kOpIn e Heq) as Hin. pose proof (is_op_inj kOpEquals kOpOr e Heq) as Hor.
           destruct e. cbn [buildPredicateNode_node]. by rewrite Hin // Hor // Hj HtA HtB.
        -- by rewrite /buildJoinPredicate Ha Hb Hua Hub.
      * eexists. split; [apply Hnode; [done|]; eapply buildComparison_plain; try done; by left|done].
    + apply bool_decide_eq_true in Hlb as [s Hs]. rewrite Hs. pose proof (lit_not_colref b s Hs) as HtB.
      eexists. split; [apply Hnode; [by rewrite HtB andb_false_r|]; eapply buildComparison_plain; try done;
        right; left; by rewrite (proj1 (appendLiteralValue_or b s Hs))|done].
  - apply bool_decide_eq_true in Hla as [s Hs]. rewrite Hs (colref_not_lit b Hcb).
    pose proof (lit_not_colref a s Hs) as HtA. apply colref_type in Hcb as Htb.
    assert (mirror cmp = cmp) as ->.
    { apply orb_true_iff in Hsym as [Ho|Ho]; apply bool_decide_eq_true in Ho; rewrite Ho in Hop; by injection Hop as <-. }
    eexists. split; [apply Hnode; [by rewrite HtA andb_false_r|]; eapply buildComparison_plain; try done;
      right; right; rewrite (proj1 (appendLiteralValue_or a s Hs)); split_and!; try done; by rewrite /isType Htb|done].
Qed.

(** On plain clauses the translator's reading is the SQL meaning. *)
Lemma where_sql e t : plain e = true -> where_holds D al e t = sql_holds D al e t.
Proof.
  induction e as [e IH1 IH2] using Expr_operand_ind. intros Hp.
  destruct (is_op kOpAnd e) eqn:Ha; [|destruct (is_op kOpOr e) eqn:Ho].
  - destruct e as [ty op [a|] [b|] el nm tb al' iv fv sel]; cbn [plain where_holds sql_holds e_expr e_expr2] in *;
      rewrite Ha /= in Hp |- *; try done. apply andb_true_iff in Hp as [? ?]. by rewrite IH1 // IH2.
  - destruct e as [ty op [a|] [b|] el nm tb al' iv fv sel]; cbn [plain where_holds sql_holds e_expr e_expr2] in *;
      rewrite Ha Ho /= in Hp |- *; try done. apply andb_true_iff in Hp as [? ?]. by rewrite IH1 // IH2.
  - rewrite where_holds_leaf //.
    assert (sql_holds D al e t = sql_leaf D al e t) as -> by (destruct e; cbn [sql_holds]; by rewrite Ha Ho).
    assert (plain_comparison e || plain_in e || plain_between e = true) as Hl
      by (destruct e; cbn [plain] in Hp; by rewrite Ha Ho in Hp).
    assert (exists n, buildPredicateNode_node al e = Ok n /\ pred_holds D n t = sql_leaf D al e t) as (n & -> & ?); [|done].
    apply orb_true_iff in Hl as [[Hl|Hl]%orb_true_iff|Hl];
      [by apply plain_comparison_meaning|by apply plain_in_meaning|by apply plain_between_meaning].
Qed.

Lemma plain_conjuncts e : plain e = true -> forall c, c ∈ splitConjuncts_node e -> plain c = true.
Proof.
  induction e as [e IH1 IH2] using Expr_operand_ind. intros Hp c.
  destruct (is_op kOpAnd e) eqn:Ha.
  - destruct e as [ty op [a|] [b|] el nm tb al' iv fv sel]; cbn [plain splitConjuncts_node e_expr e_expr2] in *;
      rewrite /is_op in Ha; rewrite /is_op Ha /= in Hp |- *; try done.
    apply andb_true_iff in Hp as [? ?]. rewrite elem_of_app. intros [?|?]; [by eapply IH1|by eapply IH2].
  - destruct e. cbn [splitConjuncts_node]. rewrite /is_op in Ha. rewrite Ha.
    by intros ->%list_elem_of_singleton.
Qed.

Lemma all_refs_conjuncts P e : all_refs P e = true -> forall c, c ∈ splitConjuncts_node e -> all_refs P c = true.
Proof.
  induction e as [e IH1 IH2] using Expr_operand_ind. intros Hn c.
  destruct (is_op kOpAnd e) eqn:Ha.
  - pose proof (all_refs_operand P e) as Hop.
    destruct e as [ty op e1 e2 el nm tb al' iv fv sel]. cbn [splitConjuncts_node].
    rewrite /is_op in Ha. rewrite Ha. cbn [e_expr e_expr2] in *. rewrite elem_of_app.
    intros [H|H]; [destruct e1 as [a|]|destruct e2 as [b|]]; try by apply not_elem_of_nil in H.
    + apply (IH1 a eq_refl); auto.
    + apply (IH2 b eq_refl); auto.
  - destruct e. cbn [splitConjuncts_node]. rewrite /is_op in Ha. rewrite Ha.
    by intros ->%list_elem_of_singleton.
Qed.
End meaning.
