(* ===== verification/DSU.v ===== *)
(** * Disjoint sets

    The [DSU] struct of [JoinTreeBuilder.hpp].  Its state is the parent map;
    [find] compresses the path it walks.  [root] and [same_group] are the
    abstract view: the partition the structure maintains. *)

From S2P Require Import Prelude.

Section dsu.
Implicit Types (p : gmap string string) (x y z r : string).

Definition DSU_add p x : gmap string string :=
  match p !! x with Some _ => p | None => <[x := x]> p end.

(** [find(x)] with recursion depth at most [fuel]; the state is the map. *)
Fixpoint DSU_find_fuel (fuel : nat) p x : result (string * gmap string string) :=
  match fuel with
  | O => Err (Undef "DSU::find: unbounded recursion")
  | S fuel =>
      match p !! x with
      | None => Ok ("", p)
      | Some y =>
          if y =s x then Ok (x, p)
          else '(r, p') ← DSU_find_fuel fuel p y; Ok (r, <[x := r]> p')
      end
  end.

(** A path visits every key at most once, so [size p] steps are enough. *)
Definition DSU_find p x : result (string * gmap string string) :=
  DSU_find_fuel (S (size p)) p x.

Definition DSU_unite p a b : result (bool * gmap string string) :=
  '(ra, p) ← DSU_find p a;
  '(rb, p) ← DSU_find p b;
  if is_empty ra || is_empty rb || (ra =s rb) then Ok (false, p)
  else Ok (true, <[rb := ra]> p).

(** ** The partition *)

(** [rootn p n x r]: [x] reaches its representative [r] in [n] steps. *)
Inductive rootn p : nat -> string -> string -> Prop :=
  | rootn_self x : p !! x = Some x -> rootn p 0 x x
  | rootn_step n x y r : p !! x = Some y -> y <> x -> rootn p n y r -> rootn p (S n) x r.

Definition root p x r : Prop := exists n, rootn p n x r.

Definition same_group p x y : Prop := exists r, root p x r /\ root p y r.

(** No cycles: every element has a representative; names are not empty. *)
Definition dsu_wf p : Prop := (forall x, x ∈ dom p -> exists r, root p x r) /\ "" ∉ dom p.

Lemma rootn_det p n m x r s : rootn p n x r -> rootn p m x s -> n = m /\ r = s.
Proof.
  intros H. revert m s. induction H as [x Hx|n x y r Hx Hne H IH]; intros m s Hs.
  - inversion Hs; simplify_eq; done.
  - inversion Hs as [|m' ? y' ? ? ? Hs']; simplify_eq. by destruct (IH _ _ Hs') as [-> ->].
Qed.

Lemma root_det p x r s : root p x r -> root p x s -> r = s.
Proof. intros [n H1] [m H2]. by destruct (rootn_det _ _ _ _ _ _ H1 H2). Qed.

Lemma root_self p x r : root p x r -> p !! r = Some r.
Proof. intros [n H]. by induction H. Qed.

Lemma root_dom p x r : root p x r -> x ∈ dom p.
Proof. intros [n H]. apply elem_of_dom. destruct H; eauto. Qed.

Lemma root_root p x r : root p x r -> root p r r.
Proof. intros H%root_self. exists 0. by constructor. Qed.

Lemma root_of_self p x : p !! x = Some x -> root p x x.
Proof. exists 0. by constructor. Qed.

(** The keys on a path: distinct, since their distances to the root differ. *)
Lemma rootn_path p n x r : rootn p n x r ->
  exists l, length l = S n /\ NoDup l /\ (forall y, y ∈ l -> exists m, m <= n /\ rootn p m y r).
Proof.
  induction 1 as [x Hx|n x y r Hx Hne H IH].
  - exists [x]. split_and!; [done|apply NoDup_singleton|].
    intros y ->%list_elem_of_singleton. exists 0. split; [lia|by constructor].
  - destruct IH as (l & Hl & Hnd & Hall). exists (x :: l). split_and!; [simpl; lia| |].
    + apply NoDup_cons. split; [|done]. intros Hin. destruct (Hall x Hin) as (m & Hm & Hr).
      assert (rootn p (S n) x r) as Hx' by by econstructor.
      destruct (rootn_det _ _ _ _ _ _ Hr Hx'). lia.
    + intros z [->|Hz]%elem_of_cons.
      * exists (S n). split; [lia|by econstructor].
      * destruct (Hall z Hz) as (m & ? & ?). exists m. split; [lia|done].
Qed.

Lemma rootn_bound p n x r : rootn p n x r -> n < size p.
Proof.
  intros (l & Hl & Hnd & Hall)%rootn_path.
  assert (list_to_set l ⊆ dom p) as Hsub.
  { intros y. rewrite elem_of_list_to_set. intros (m & _ & Hm)%Hall.
    apply (root_dom p y r). by exists m. }
  apply subseteq_size in Hsub. rewrite size_list_to_set // size_dom in Hsub. lia.
Qed.

(** ** Path compression keeps the partition *)

Lemma root_compress p x r y s : root p x r -> root p y s -> root (<[x := r]> p) y s.
Proof.
  intros Hx [n Hy]. induction Hy as [y Hy|n y z s Hy Hne Hz IH].
  - destruct (decide (y = x)) as [->|Hyx].
    + assert (r = x) as -> by (eapply root_det; [done|by apply root_of_self]).
      apply root_of_self. by rewrite lookup_insert_eq.
    + apply root_of_self. by rewrite lookup_insert_ne.
  - destruct (decide (y = x)) as [->|Hyx].
    + assert (root p x s) as Hs by (exists (S n); by econstructor).
      assert (r = s) as -> by by eapply root_det.
      assert (s <> x) as Hsx. { intros ->. apply root_self in Hs. congruence. }
      assert (root (<[x:=s]> p) s s) as [m Hm].
      { apply root_of_self. rewrite lookup_insert_ne //. by eapply root_self. }
      exists (S m). econstructor; [by rewrite lookup_insert_eq|done|done].
    + destruct IH as [m Hm]. exists (S m).
      econstructor; [by rewrite lookup_insert_ne|done|done].
Qed.

(** Same elements with the same representatives. *)
Definition dsu_equiv p p' : Prop :=
  dom p = dom p' /\ forall x r, root p x r <-> root p' x r.

Lemma dsu_equiv_of_incl p p' : dsu_wf p -> dom p = dom p' ->
  (forall x r, root p x r -> root p' x r) -> dsu_equiv p p'.
Proof.
  intros [Hwf _] Hd Hi. split; [done|]. intros x r. split; [apply Hi|]. intros Hr.
  destruct (Hwf x) as [s Hs]; [rewrite Hd; by eapply root_dom|].
  by rewrite (root_det _ _ _ _ Hr (Hi _ _ Hs)).
Qed.

Lemma dsu_equiv_wf p p' : dsu_equiv p p' -> dsu_wf p -> dsu_wf p'.
Proof.
  intros [Hd He] [Hwf Hne]. split; [|by rewrite -Hd].
  intros x Hx. rewrite -Hd in Hx. destruct (Hwf x Hx) as [r Hr]. exists r. by apply He.
Qed.

#[global] Instance dsu_equiv_equiv : Equivalence dsu_equiv.
Proof.
  split.
  - intros p. by split.
  - intros p q [? H]. split; [done|]. intros. by rewrite H.
  - intros p q s [? H] [? H']. split; [congruence|]. intros. by rewrite H H'.
Qed.

#[global] Instance root_proper : Proper (dsu_equiv ==> eq ==> eq ==> iff) root.
Proof. by intros p p' [_ H] x ? <- r ? <-. Qed.

#[global] Instance same_group_proper : Proper (dsu_equiv ==> eq ==> eq ==> iff) same_group.
Proof. intros p p' H x ? <- y ? <-. rewrite /same_group. by setoid_rewrite H. Qed.

(** ** [find] *)

Lemma DSU_find_fuel_ok fuel p n x r : dsu_wf p -> rootn p n x r -> n < fuel ->
  exists p', DSU_find_fuel fuel p x = Ok (r, p') /\ dsu_equiv p p'.
Proof.
  intros Hwf. revert n x. induction fuel as [|fuel IH]; intros n x Hr Hn; [lia|].
  simpl. inversion Hr as [? Hx|m ? y ? Hx Hne Hy]; simplify_eq.
  - rewrite Hx String.eqb_refl. exists p. by split.
  - rewrite Hx. rewrite (proj2 (String.eqb_neq y x)) //.
    destruct (IH m y Hy) as (p' & -> & He); [lia|]. simpl.
    exists (<[x := r]> p'). split; [done|]. rewrite {1}He.
    assert (root p' x r) as Hx'. { apply He. exists (S m). by econstructor. }
    apply dsu_equiv_of_incl.
    + by eapply dsu_equiv_wf.
    + rewrite dom_insert_lookup_L //. apply elem_of_dom. by eapply root_dom.
    + intros z s. by apply root_compress.
Qed.

Lemma DSU_find_ok p x : dsu_wf p -> x ∈ dom p ->
  exists r p', DSU_find p x = Ok (r, p') /\ root p x r /\ dsu_equiv p p'.
Proof.
  intros Hwf Hx. destruct (proj1 Hwf x Hx) as [r [n Hr]].
  destruct (DSU_find_fuel_ok (S (size p)) p n x r Hwf Hr) as (p' & Hf & He).
  { pose proof (rootn_bound _ _ _ _ Hr). lia. }
  exists r, p'. split_and!; [done|by exists n|done].
Qed.

Lemma root_nonempty p x r : dsu_wf p -> root p x r -> r <> "".
Proof.
  intros [_ Hne] Hr. apply root_root, root_dom in Hr. by intros ->.
Qed.

(** ** [add] and [unite] *)

Lemma dsu_wf_closed p x y : dsu_wf p -> p !! x = Some y -> y ∈ dom p.
Proof.
  intros [Hwf _] Hx. destruct (Hwf x) as [r [n Hr]]; [apply elem_of_dom; eauto|].
  inversion Hr; simplify_eq; [by eapply elem_of_dom_2|]. eapply root_dom. by eexists.
Qed.

Lemma DSU_add_root p x y r : dsu_wf p -> x ∉ dom p ->
  root (DSU_add p x) y r <-> root p y r \/ (y = x /\ r = x).
Proof.
  intros Hwf Hx. rewrite /DSU_add (not_elem_of_dom_1 p x) //. split.
  - intros [n H]. induction H as [y Hy|n y z s Hy Hne H IH].
    + rewrite lookup_insert in Hy. case_decide; simplify_eq; [by right|]. left. by apply root_of_self.
    + rewrite lookup_insert in Hy. case_decide; simplify_eq. left.
      destruct IH as [[m Hm]|[-> ->]]; [exists (S m); by econstructor|].
      exfalso. by eapply Hx, dsu_wf_closed.
  - intros [[n H]|[-> ->]].
    + induction H as [y Hy|n y z s Hy Hne H [m IH]].
      * apply root_of_self. rewrite lookup_insert_ne //. intros ->. apply Hx, elem_of_dom. eauto.
      * exists (S m). econstructor; [|done|done]. rewrite lookup_insert_ne //.
        intros ->. apply Hx, elem_of_dom. eauto.
    + apply root_of_self. by rewrite lookup_insert_eq.
Qed.

Lemma DSU_add_known p x : x ∈ dom p -> DSU_add p x = p.
Proof. intros [y Hy]%elem_of_dom. by rewrite /DSU_add Hy. Qed.

Lemma DSU_add_dom p x : dom (DSU_add p x) = {[x]} ∪ dom p.
Proof.
  rewrite /DSU_add. destruct (p !! x) eqn:Hx; [|by rewrite dom_insert_L].
  apply elem_of_dom_2 in Hx. set_solver.
Qed.

Lemma DSU_add_wf p x : dsu_wf p -> x <> "" -> dsu_wf (DSU_add p x).
Proof.
  intros Hwf Hne. destruct (decide (x ∈ dom p)) as [Hx|Hx]; [by rewrite DSU_add_known|].
  split.
  - intros y. rewrite DSU_add_dom. intros [->%elem_of_singleton|Hy]%elem_of_union.
    + exists x. apply DSU_add_root; auto.
    + destruct (proj1 Hwf y Hy) as [r Hr]. exists r. apply DSU_add_root; auto.
  - rewrite DSU_add_dom. destruct Hwf. set_solver.
Qed.

(** Linking one representative to another merges exactly their groups. *)
Lemma root_link p ra rb y s : p !! ra = Some ra -> p !! rb = Some rb -> ra <> rb ->
  root (<[rb := ra]> p) y s <->
  (root p y s /\ s <> rb) \/ (root p y rb /\ s = ra).
Proof.
  intros Ha Hb Hne. split.
  - intros [n H]. induction H as [y Hy|n y z s Hy Hyz H IH].
    + rewrite lookup_insert in Hy. case_decide; simplify_eq. left. split; [by apply root_of_self|done].
    + rewrite lookup_insert in Hy. case_decide as Hyb; simplify_eq.
      * right. split; [by apply root_of_self|].
        destruct IH as [[IH _]|[IH ->]]; [|done]. eapply root_det; [done|]. by apply root_of_self.
      * destruct IH as [[[m Hm] ?]|[[m Hm] ->]]; [left|right]; split; try done;
          exists (S m); by econstructor.
  - intros [[[n H] Hs]|[[n H] ->]].
    + induction H as [y Hy|n y z s Hy Hyz H IH].
      * apply root_of_self. by rewrite lookup_insert_ne.
      * destruct (IH Hs) as [m Hm]. exists (S m). econstructor; [|done|done].
        rewrite lookup_insert_ne //. congruence.
    + induction H as [y Hy|n y z s Hy Hyz H IH].
      * exists 1. econstructor; [by rewrite lookup_insert_eq|done|]. constructor.
        by rewrite lookup_insert_ne.
      * destruct (IH Hb Hne) as [m Hm]. exists (S m). econstructor; [|done|done].
        rewrite lookup_insert_ne //. congruence.
Qed.

(** [unite] on two distinct groups; the representative of [a] survives. *)
Lemma DSU_unite_ok p a b ra rb : dsu_wf p -> root p a ra -> root p b rb -> ra <> rb ->
  exists p', DSU_unite p a b = Ok (true, p') /\ dsu_wf p' /\ dom p' = dom p /\
    forall y s, root p' y s <-> (root p y s /\ s <> rb) \/ (root p y rb /\ s = ra).
Proof.
  intros Hwf Ha Hb Hne.
  destruct (DSU_find_ok p a Hwf) as (ra' & p1 & H1 & Hra & He1); [by eapply root_dom|].
  assert (ra' = ra) as -> by by eapply root_det.
  pose proof (dsu_equiv_wf _ _ He1 Hwf) as Hwf1.
  destruct (DSU_find_ok p1 b Hwf1) as (rb' & p2 & H2 & Hrb & He2).
  { rewrite -(proj1 He1). by eapply root_dom. }
  rewrite -He1 in Hrb. assert (rb' = rb) as -> by by eapply root_det.
  assert (dsu_equiv p p2) as He by by etrans.
  pose proof (dsu_equiv_wf _ _ He Hwf) as Hwf2.
  assert (forall y s, root (<[rb := ra]> p2) y s <->
    (root p y s /\ s <> rb) \/ (root p y rb /\ s = ra)) as Hlink.
  { intros y s. setoid_rewrite He. apply root_link; [| |done];
      eapply (root_self p2); rewrite -He; by eapply root_root. }
  assert (dom (<[rb := ra]> p2) = dom p) as Hdom.
  { rewrite dom_insert_lookup_L; [by rewrite (proj1 He)|].
    exists rb. eapply (root_self p2). rewrite -He. by eapply root_root. }
  exists (<[rb := ra]> p2). split; [|split; [split|split; [done|done]]].
  - rewrite /DSU_unite H1 /= H2 /=.
    rewrite (proj2 (is_empty_false ra)); [|exact (root_nonempty _ _ _ Hwf Ha)].
    rewrite (proj2 (is_empty_false rb)); [|exact (root_nonempty _ _ _ Hwf Hb)].
    by rewrite (proj2 (String.eqb_neq ra rb)).
  - intros x. rewrite Hdom. intros Hx. destruct (proj1 Hwf x Hx) as [s Hs].
    destruct (decide (s = rb)) as [->|]; [exists ra|exists s]; apply Hlink; auto.
  - rewrite Hdom. by destruct Hwf.
Qed.
End dsu.
