(* ===== verification/JoinTree.v ===== *)
(** * Scans, join orders and join trees

    [JoinTreeBuilder.cpp].  [std::unordered_map<std::string, _>] is a [gmap];
    where the code iterates over one, the order is a parameter [iter] of which
    only [iter m ≡ₚ map_to_list m] is known.  [nlohmann::json] is a library
    value: an object is its list of members (keys are unique). *)

From S2P Require Import Prelude PlanTypes SqlAst SchemaResolver TranslatorHelpers DSU.

(** ** Scan collection *)

Definition scan_node (t : string) : LogicalPlanNode := set_scan_table t (new_node LNT.SCAN).

(** Returns the scans appended to the output vector. *)
Fixpoint collectScans_node (from : TableRef) : list LogicalPlanNode :=
  match t_type from with
  | kTableName =>
      [scan_node match t_alias from with
                 | Some (Some a) => a
                 | _ => default "" (t_name from)
                 end]
  | kTableCrossProduct =>
      match t_list from with
      | Some l => flat_map (fun t => match t with Some t => collectScans_node t | None => [] end) l
      | None => []
      end
  | kTableJoin =>
      match t_join from with
      | Some (l, r) =>
          match l with Some l => collectScans_node l | None => [] end ++
          match r with Some r => collectScans_node r | None => [] end
      | None => []
      end
  | kTableSelect => []
  end.

Definition collectScans (from : option TableRef) : list LogicalPlanNode :=
  from_option collectScans_node [] from.

Abbreviation scan_map := (gmap string LogicalPlanNode) (only parsing).

Definition addScan (m : scan_map) (s : LogicalPlanNode) : scan_map :=
  if negb (bool_decide (node_type s = LNT.SCAN)) || is_empty (scan_table s) then m
  else <[scan_table s := s]> m.

Definition buildScanMap (from : option TableRef) : result scan_map :=
  let scans := collectScans from in
  if bool_decide (scans = []) then Err (Throw "No tables in FROM clause")
  else Ok (fold_left addScan scans ∅).

(** ** Join order from JSON *)

Inductive json : Set :=
  | JNull
  | JBool (b : bool)
  | JNumber (text : string)
  | JString (s : string)
  | JArray (l : list json)
  | JObject (members : list (string * json)).

(** [node.contains(key)] and [node.at(key)] on an object. *)
Fixpoint member (k : string) (ms : list (string * json)) : option json :=
  match ms with
  | [] => None
  | (k', v) :: ms => if k =s k' then Some v else member k ms
  end.

Definition json_member (k : string) (j : json) : option json :=
  match j with JObject ms => member k ms | _ => None end.

(** The lambda [getBaseTableName] of [extractJoinOrderFromJson]. *)
Definition json_base_table (node : json) : string :=
  match node with
  | JObject _ =>
      match json_member "plan_params" node with
      | Some (JObject _ as params) =>
          match json_member "base_table" params with
          | Some (JObject _ as bt) =>
              match json_member "full_name" bt with
              | Some (JString s) => s
              | _ => ""
              end
          | _ => ""
          end
      | _ => ""
      end
  | _ => ""
  end.

Record ScanRec : Set := mkScanRec { rec_table : string; rec_depth : Z; rec_seq : Z }.

(** The scans the lambda [dfs] finds below [node]; [seq] is [seqCounter]. *)
Fixpoint scan_dfs (node : json) (depth seq : Z) : list ScanRec * Z :=
  match node with
  | JObject ms =>
      let tableName := json_base_table node in
      if negb (is_empty tableName) then ([mkScanRec tableName depth seq], (seq + 1)%Z)
      else
        (fix find_children (ms : list (string * json)) : list ScanRec * Z :=
           match ms with
           | [] => ([], seq)
           | (k, v) :: ms =>
               if "children" =s k then
                 match v with
                 | JArray l =>
                     (fix each (l : list json) (seq : Z) : list ScanRec * Z :=
                        match l with
                        | [] => ([], seq)
                        | c :: l =>
                            let '(r, seq) := scan_dfs c (depth + 1)%Z seq in
                            let '(rs, seq) := each l seq in (r ++ rs, seq)
                        end) l seq
                 | _ => ([], seq)
                 end
               else find_children ms
           end) ms
  | _ => ([], seq)
  end.

Definition scan_before (a b : ScanRec) : bool :=
  if negb (rec_depth a =? rec_depth b)%Z then (rec_depth b <? rec_depth a)%Z
  else (rec_seq a <? rec_seq b)%Z.

(** [std::stable_sort]: an element is moved in front of those it precedes. *)
Fixpoint insert_scan (x : ScanRec) (l : list ScanRec) : list ScanRec :=
  match l with
  | [] => [x]
  | y :: l => if scan_before y x then y :: insert_scan x l else x :: y :: l
  end.

Definition stable_sort (l : list ScanRec) : list ScanRec := foldr insert_scan [] l.

(** Keeps the first of the names that agree up to case: [seen.insert(key)]
    succeeds for a new key. *)
Definition dedupe_step (s : list string * gset string) (name : string) : list string * gset string :=
  let '(order, seen) := s in
  let key := toLower name in
  if bool_decide (key ∈ seen) then (order, seen) else (order ++ [name], {[key]} ∪ seen).

Definition dedupe (names : list string) : list string := fst (fold_left dedupe_step names ([], ∅)).

Definition extractJoinOrderFromJson (plan : json) : list string :=
  dedupe (map rec_table (stable_sort (fst (scan_dfs plan 0 0)))).

(** ** Join tree construction *)

Definition new_join (jp : LogicalPlanNode) (l r : option LogicalPlanNode) : LogicalPlanNode :=
  set_children [l; r]
    (set_base_columns (base_columns jp)
       (set_expression (set_comp_type (comp_type (expression jp)) Expression_default)
          (new_node LNT.JOIN))).

(** A copy of the node [jp] turned into a FILTER. *)
Definition as_filter (jp : LogicalPlanNode) : LogicalPlanNode := set_node_type LNT.FILTER jp.

Record jt_state : Type := mkJT {
  jt_dsu : gmap string string;
  jt_tree : gmap string (option LogicalPlanNode);
  jt_extra : list LogicalPlanNode;
}.

(** [tree[r]]: a missing entry reads as a null pointer. *)
Definition tree_at (tree : gmap string (option LogicalPlanNode)) (r : string)
    : option LogicalPlanNode := mjoin (tree !! r).

(** One iteration of the loop over [joinPreds]. *)
Definition join_step (st : jt_state) (jp : option LogicalPlanNode) : result jt_state :=
  match jp with
  | None => Ok st
  | Some jp =>
      match base_columns jp, comp_type (expression jp) with
      | [c1; c2], Some _ =>
          let t1 := resolveTableName c1 in
          let t2 := resolveTableName c2 in
          if is_empty t1 || is_empty t2 then Err (Throw "Join predicate with unknown table")
          else
            let dsu := DSU_add (DSU_add (jt_dsu st) t1) t2 in
            '(r1, dsu) ← DSU_find dsu t1;
            '(r2, dsu) ← DSU_find dsu t2;
            if r1 =s r2 then Ok (mkJT dsu (jt_tree st) (jt_extra st ++ [as_filter jp]))
            else
              let j := new_join jp (tree_at (jt_tree st) r1) (tree_at (jt_tree st) r2) in
              '(_, dsu) ← DSU_unite dsu r1 r2;
              '(rep, dsu) ← DSU_find dsu r1;
              Ok (mkJT dsu (<[rep := Some j]> (delete r2 (delete r1 (jt_tree st)))) (jt_extra st))
      | _, _ => Ok st
      end
  end.

(** The final loop: every [find] runs, the first representative is kept. *)
Definition rep_step (s : string * gmap string string) (t : string) : result (string * gmap string string) :=
  let '(rep, dsu) := s in
  '(r, dsu) ← DSU_find dsu t;
  Ok (if is_empty rep then r else rep, dsu).

Section unordered.
(** Iteration order of an [unordered_map]. *)
Variable iter : scan_map -> list (string * LogicalPlanNode).

Definition findMatchingScanTable (jsonTable : string) (scanByTable : scan_map) : string :=
  let base := normalizeTableToken jsonTable in
  let candidates := base :: (if String.prefix "dim_" base then [drop_string 4 base] else []) in
  default ""
    (head (flat_map (fun cand =>
             flat_map (fun '(key, _) => if namesMatch cand (normalizeTableToken key) then [key] else [])
               (iter scanByTable)) candidates)).

Definition resolveJoinOrderToScans (jsonOrder : list string) (scanByTable : scan_map) : list string :=
  dedupe (List.filter (fun s => negb (is_empty s))
            (map (fun name => findMatchingScanTable name scanByTable) jsonOrder)).

(** Returns the tree and the final [extraJoinFilters]. *)
Definition buildJoinTree (scanByTable : scan_map) (joinPreds : list (option LogicalPlanNode))
    (extraJoinFilters : list LogicalPlanNode) : result (LogicalPlanNode * list LogicalPlanNode) :=
  if bool_decide (scanByTable = ∅) then Err (Throw "No tables in FROM")
  else
    let dsu := fold_left (fun d kv => DSU_add d kv.1) (iter scanByTable) ∅ in
    let tree := fold_left (fun m kv => <[kv.1 := Some kv.2]> m) (iter scanByTable) ∅ in
    st ← foldR join_step joinPreds (mkJT dsu tree extraJoinFilters);
    '(rep, _) ← foldR rep_step (map fst (iter scanByTable)) ("", jt_dsu st);
    match jt_tree st !! rep with
    | Some (Some n) => Ok (n, jt_extra st)
    | _ => Err (Throw "Internal error: join tree missing")
    end.

End unordered.

(** The test of [buildJoinTreeFromOrder] on one unused predicate. *)
Definition connects (joined : gset string) (nextNorm : string) (jp : option LogicalPlanNode) : bool :=
  match jp with
  | None => false
  | Some jp =>
      match base_columns jp with
      | [c1; c2] =>
          let t1 := resolveTableName c1 in
          let t2 := resolveTableName c2 in
          if is_empty t1 || is_empty t2 then false
          else
            let t1Norm := toLower t1 in
            let t2Norm := toLower t2 in
            (bool_decide (t1Norm ∈ joined) && namesMatch t2Norm nextNorm) ||
            (bool_decide (t2Norm ∈ joined) && namesMatch t1Norm nextNorm)
      | _ => false
      end
  end.

(** The index of the first unused predicate that connects, scanning from [i]. *)
Fixpoint first_connecting (joined : gset string) (nextNorm : string)
    (preds : list (option LogicalPlanNode)) (used : list bool) (i : nat) : option nat :=
  match preds, used with
  | p :: preds, u :: used =>
      if negb u && connects joined nextNorm p then Some i
      else first_connecting joined nextNorm preds used (S i)
  | _, _ => None
  end.

(** The loop over [joinOrder[1..]]; [None] is a [return nullptr]. *)
Fixpoint order_loop (scanByTable : scan_map) (joinPreds : list (option LogicalPlanNode))
    (rest : list string) (current : LogicalPlanNode) (joined : gset string) (used : list bool)
    : result (option (LogicalPlanNode * list bool)) :=
  match rest with
  | [] => Ok (Some (current, used))
  | name :: rest =>
      match scanByTable !! name with
      | None => Ok None
      | Some next =>
          let nextNorm := toLower name in
          match first_connecting joined nextNorm joinPreds used 0 with
          | None => Ok None
          | Some i =>
              jp ← deref "joinPreds[predicateIdx]" (mjoin (joinPreds !! i));
              order_loop scanByTable joinPreds rest (new_join jp (Some current) (Some next))
                ({[nextNorm]} ∪ joined) (<[i := true]> used)
          end
      end
  end.

(** Copies of the unused predicates; a null predicate would be dereferenced. *)
Fixpoint unused_filters (preds : list (option LogicalPlanNode)) (used : list bool)
    : result (list LogicalPlanNode) :=
  match preds, used with
  | p :: preds, u :: used =>
      if u then unused_filters preds used
      else jp ← deref "*joinPreds[i]" p;
           fs ← unused_filters preds used;
           Ok (as_filter jp :: fs)
  | _, _ => Ok []
  end.

(** [None] is a null result with [usedJsonOrder = false]; [extraJoinFilters]
    is then left as it was.  Otherwise the tree and the new filters. *)
Definition buildJoinTreeFromOrder (scanByTable : scan_map)
    (joinPreds : list (option LogicalPlanNode)) (joinOrder : list string)
    : result (option (LogicalPlanNode * list LogicalPlanNode)) :=
  match joinOrder with
  | first :: ((_ :: _) as rest) =>
      match scanByTable !! first with
      | None => Ok None
      | Some s =>
          r ← order_loop scanByTable joinPreds rest s {[toLower first]}
                (replicate (length joinPreds) false);
          match r with
          | None => Ok None
          | Some (current, used) =>
              extras ← unused_filters joinPreds used;
              Ok (Some (current, extras))
          end
      end
  | _ => Ok None
  end.
