(* ===== verification/JoinTreeCorrect.v ===== *)
(** * Join trees denote the filtered cross product

    The two join tree builders of [JoinTreeBuilder.cpp] against the reference
    semantics.  [rows D T] is the cross product of the tables [T];
    [denotes n T P] says that plan [n] computes the rows of [T] on which every
    predicate of [P] holds. *)

From S2P Require Import Prelude PlanTypes SqlAst SchemaResolver TranslatorHelpers.
From S2P Require Import LogicalSemantics Pushdown PredicateBuilder DSU JoinTree.

Definition rows {value} (D : engine value) (T : gset string) (t : tuple) : Prop :=
  dom t = T /\ forall tb i, t !! tb = Some i -> i < nrows D tb.

(** The tables of a node's columns. *)
Definition ctabs (p : LogicalPlanNode) : gset string := column_tables (base_columns p).

Record denotes (n : LogicalPlanNode) (T : gset string) (P : LogicalPlanNode -> Prop) : Prop := {
  den_wf : WfPlan n;
  den_tabs : tabs n = T;
  den_eval : forall value (D : engine value) t,
    t ∈ eval D n <-> rows D T t /\ forall p, P p -> cond D p t = true;
}.

Lemma denotes_ext n T P Q : (forall p, P p <-> Q p) -> denotes n T P -> denotes n T Q.
Proof.
  intros HPQ [Hw Ht He]. split; [done..|]. intros. rewrite He. by setoid_rewrite HPQ.
Qed.

Lemma rows_split {value} (D : engine value) T1 T2 t : T1 ## T2 ->
  rows D (T1 ∪ T2) t <-> exists t1 t2, rows D T1 t1 /\ rows D T2 t2 /\ t = t1 ∪ t2.
Proof.
  intros Hd. split.
  - intros [Hdom Hr]. exists (filter (fun kv => kv.1 ∈ T1) t), (filter (fun kv => kv.1 ∉ T1) t).
    split_and!.
    + split; [|intros tb i [Hi _]%map_lookup_filter_Some; eauto].
      apply set_eq. intros x. rewrite elem_of_dom. split.
      * by intros [i [Hi Hx]%map_lookup_filter_Some].
      * intros Hx. assert (x ∈ dom t) as [i Hi]%elem_of_dom by set_solver.
        exists i. by apply map_lookup_filter_Some.
    + split; [|intros tb i [Hi _]%map_lookup_filter_Some; eauto].
      apply set_eq. intros x. rewrite elem_of_dom. split.
      * intros [i [Hi Hx]%map_lookup_filter_Some]. apply elem_of_dom_2 in Hi. set_solver.
      * intros Hx. assert (x ∈ dom t) as [i Hi]%elem_of_dom by set_solver.
        exists i. apply map_lookup_filter_Some. split; [done|]. set_solver.
    + symmetry. apply map_filter_union_complement.
  - intros (t1 & t2 & [Hd1 H1] & [Hd2 H2] & ->). split; [by rewrite dom_union_L Hd1 Hd2|].
    intros tb i [Hi|[_ Hi]]%lookup_union_Some_raw; eauto.
Qed.

Lemma cond_union_l {value} (D : engine value) p t1 t2 : ctabs p ⊆ dom t1 -> "" ∉ dom t2 ->
  cond D p (t1 ∪ t2) = cond D p t1.
Proof.
  intros Hsub Hne. apply cond_agree.
  - intros tb Htb%Hsub. apply elem_of_dom in Htb as [i Hi]. rewrite Hi.
    by apply lookup_union_Some_l.
  - apply lookup_union_l. by apply not_elem_of_dom.
Qed.

Lemma cond_union_r {value} (D : engine value) p t1 t2 : ctabs p ## dom t1 -> "" ∉ dom t1 ->
  cond D p (t1 ∪ t2) = cond D p t2.
Proof.
  intros Hd Hne. apply cond_agree.
  - intros tb Htb. apply lookup_union_r. apply not_elem_of_dom. set_solver.
  - apply lookup_union_r. by apply not_elem_of_dom.
Qed.

Lemma denotes_scan tb : tb <> "" -> denotes (scan_node tb) {[tb]} (fun _ => False).
Proof.
  intros Hne. split; [by apply WfScan|by rewrite tabs_scan|].
  intros value D t. simpl. rewrite list_elem_of_fmap. setoid_rewrite elem_of_seq. split.
  - intros (i & -> & Hi). split; [|done]. split; [by rewrite dom_singleton_L|].
    intros tb' i'. rewrite lookup_singleton_Some. intros [<- <-]. lia.
  - intros [[Hd Hr] _]. assert (tb ∈ dom t) as [i Hi]%elem_of_dom by set_solver.
    exists i. split; [|apply Hr in Hi; lia]. apply map_eq. intros x.
    destruct (decide (x = tb)) as [->|Hx]; [by rewrite lookup_singleton_eq|].
    rewrite lookup_singleton_ne //. apply not_elem_of_dom. set_solver.
Qed.

(** ** Join predicates *)

(** A join predicate over the tables [T], as [extractPredicates] delivers
    them: an equality of two columns of known tables. *)
Definition join_pred (T : gset string) (p : LogicalPlanNode) : bool :=
  wf_join_pred p && forallb (fun c => bool_decide (resolveTableName c ∈ T)) (base_columns p).

Lemma join_pred_inv T p : "" ∉ T -> join_pred T p = true ->
  exists c1 c2, base_columns p = [c1; c2] /\
    expression p = set_comp_type (Some PCT.EQ) Expression_default /\
    resolveTableName c1 ∈ T /\ resolveTableName c2 ∈ T /\
    ctabs p = {[resolveTableName c1; resolveTableName c2]}.
Proof.
  rewrite /join_pred /wf_join_pred. intros Hne H.
  repeat apply andb_true_iff in H as [H ?].
  apply Nat.eqb_eq in H3. apply bool_decide_eq_true in H2.
  destruct p as [ty st bc ex pc ch]; simpl in *.
  destruct bc as [|c1 [|c2 [|]]]; try done. exists c1, c2. simpl in H0.
  repeat apply andb_true_iff in H0 as [?%bool_decide_eq_true H0].
  split_and!; [done..|]. rewrite /ctabs /=.
  rewrite (proj2 (is_empty_false (resolveTableName c1))); [|by intros Hc; rewrite Hc in H4].
  rewrite (proj2 (is_empty_false (resolveTableName c2))); [|by intros Hc; rewrite Hc in H5].
  set_solver.
Qed.

Lemma cond_new_join {value} (D : engine value) p l r t :
  expression p = set_comp_type (Some PCT.EQ) Expression_default ->
  cond D (new_join p l r) t = cond D p t.
Proof. intros He. by rewrite /cond /new_join /= He. Qed.

(** Joining two plans over disjoint tables. *)
Lemma denotes_join l r T1 T2 P1 P2 jp : T1 ## T2 ->
  expression jp = set_comp_type (Some PCT.EQ) Expression_default ->
  (forall p, P1 p -> ctabs p ⊆ T1) -> (forall p, P2 p -> ctabs p ⊆ T2) ->
  denotes l T1 P1 -> denotes r T2 P2 ->
  denotes (new_join jp (Some l) (Some r)) (T1 ∪ T2) (fun p => P1 p \/ P2 p \/ p = jp).
Proof.
  intros Hd Hex HP1 HP2 [Hwl <- Hl] [Hwr <- Hr]. split.
  - by eapply WfJoin.
  - rewrite tabs_children //=. set_solver.
  - intros value D t. rewrite (eval_join D _ l r) // (rows_split D _ _ _ Hd).
    rewrite cond_new_join //. setoid_rewrite Hl. setoid_rewrite Hr.
    assert (forall t1 t2, rows D (tabs l) t1 -> rows D (tabs r) t2 ->
      (forall p, P1 p -> cond D p (t1 ∪ t2) = cond D p t1) /\
      (forall p, P2 p -> cond D p (t1 ∪ t2) = cond D p t2)) as Hag.
    { intros t1 t2 [Hd1 _] [Hd2 _]. split; intros p Hp.
      - apply cond_union_l; [rewrite Hd1; auto|rewrite Hd2; by apply tabs_no_empty].
      - apply HP2 in Hp. apply cond_union_r; rewrite Hd1; [set_solver|by apply tabs_no_empty]. }
    split.
    + intros (t1 & t2 & [H1 H1'] & [H2 H2'] & -> & Hc). destruct (Hag t1 t2 H1 H2) as [A1 A2].
      split; [eauto|]. intros p [Hp|[Hp| ->]]; [rewrite A1; auto|rewrite A2; auto|done].
    + intros ((t1 & t2 & H1 & H2 & ->) & Hc). destruct (Hag t1 t2 H1 H2) as [A1 A2].
      exists t1, t2. split_and!; [done| |done| |done|auto]; intros p Hp;
        [rewrite -A1|rewrite -A2]; auto.
Qed.

(** ** The loop of [buildJoinTree] *)

(** After the predicates [done]: [used] became JOINs, the others filters.
    Every group of the partition has one tree, which denotes the group's rows
    filtered by the used predicates over its tables. *)
Record jt_inv (T : gset string) (done used : list LogicalPlanNode) (st : jt_state) : Prop := {
  inv_wf : dsu_wf (jt_dsu st);
  inv_dom : dom (jt_dsu st) = T;
  inv_split : exists ex, jt_extra st = map as_filter ex /\ used ++ ex ≡ₚ done;
  inv_group : forall p, p ∈ done -> exists r, forall x, x ∈ ctabs p -> root (jt_dsu st) x r;
  inv_tree : forall r, root (jt_dsu st) r r -> exists n G,
    jt_tree st !! r = Some (Some n) /\ (forall x, x ∈ G <-> root (jt_dsu st) x r) /\
    denotes n G (fun p => p ∈ used /\ ctabs p ⊆ G);
}.

(** A predicate inside one group stays a predicate over one tree. *)
Lemma jt_inv_equiv T done used st dsu extra ex :
  jt_inv T done used st -> dsu_equiv (jt_dsu st) dsu ->
  forall jp, extra = map as_filter (ex ++ [jp]) -> jt_extra st = map as_filter ex ->
  used ++ ex ≡ₚ done ->
  (exists r, forall x, x ∈ ctabs jp -> root (jt_dsu st) x r) ->
  jt_inv T (done ++ [jp]) used (mkJT dsu (jt_tree st) extra).
Proof.
  intros [Hwf Hdom _ Hgrp Htree] He jp Hx Hex Hperm Hjp. split; simpl.
  - by eapply dsu_equiv_wf.
  - by rewrite -(proj1 He).
  - exists (ex ++ [jp]). split; [done|]. by rewrite app_assoc Hperm.
  - intros p [Hp|Hp%list_elem_of_singleton]%elem_of_app; [|subst p].
    + destruct (Hgrp p Hp) as [r Hr]. exists r. intros x Hxx. rewrite -He. auto.
    + destruct Hjp as [r Hr]. exists r. intros x Hxx. rewrite -He. auto.
  - intros r Hr%(proj2 He). destruct (Htree r Hr) as (n & G & Hn & HG & Hden).
    exists n, G. split_and!; [done| |done]. intros x. rewrite HG. apply (proj2 He).
Qed.

(** The partition after linking [r2] below [r1]. *)
Definition linked (d d' : gmap string string) (r1 r2 : string) : Prop :=
  forall y s, root d' y s <-> (root d y s /\ s <> r2) \/ (root d y r2 /\ s = r1).

Section link.
Variables (T : gset string) (done used : list LogicalPlanNode) (st : jt_state)
  (d' : gmap string string) (jp : LogicalPlanNode) (r1 r2 : string).
Hypotheses (Hinv : jt_inv T done used st) (Hwf' : dsu_wf d') (Hdom' : dom d' = T)
  (Hl : linked (jt_dsu st) d' r1 r2) (Hne : r1 <> r2)
  (H1 : root (jt_dsu st) r1 r1) (H2 : root (jt_dsu st) r2 r2)
  (Hex : expression jp = set_comp_type (Some PCT.EQ) Expression_default)
  (Hnemp : forall p, p ∈ done -> exists x, x ∈ ctabs p)
  (Hc1 : exists x, x ∈ ctabs jp /\ root (jt_dsu st) x r1)
  (Hc2 : forall x, x ∈ ctabs jp -> root (jt_dsu st) x r1 \/ root (jt_dsu st) x r2).

Lemma linked_root_l x : root (jt_dsu st) x r1 -> root d' x r1.
Proof. intros H. apply Hl. by left. Qed.

Lemma linked_root_r x : root (jt_dsu st) x r2 -> root d' x r1.
Proof. intros H. apply Hl. by right. Qed.

Lemma used_done p : p ∈ used -> p ∈ done.
Proof.
  intros Hp. destruct Hinv as [_ _ (ex & _ & Hperm) _ _]. rewrite -Hperm. set_solver.
Qed.

(** A used predicate over two groups lies in one of them. *)
Lemma used_in_one G1 G2 p : (forall x, x ∈ G1 <-> root (jt_dsu st) x r1) ->
  (forall x, x ∈ G2 <-> root (jt_dsu st) x r2) -> p ∈ used ->
  ctabs p ⊆ G1 ∪ G2 -> ctabs p ⊆ G1 \/ ctabs p ⊆ G2.
Proof.
  intros HG1 HG2 Hp%used_done Hsub. destruct (inv_group _ _ _ _ Hinv p Hp) as [r Hr].
  destruct (Hnemp p Hp) as [x Hx].
  destruct (proj1 (elem_of_union _ _ _) (Hsub x Hx)) as [Hx1|Hx1]; [left|right]; intros y Hy.
  - apply HG1. apply HG1 in Hx1. rewrite -(root_det _ _ _ _ (Hr x Hx) Hx1). auto.
  - apply HG2. apply HG2 in Hx1. rewrite -(root_det _ _ _ _ (Hr x Hx) Hx1). auto.
Qed.

Lemma jt_inv_link : jt_inv T (done ++ [jp]) (used ++ [jp])
  (mkJT d' (<[r1 := Some (new_join jp (tree_at (jt_tree st) r1) (tree_at (jt_tree st) r2))]>
              (delete r2 (delete r1 (jt_tree st)))) (jt_extra st)).
Proof.
  split; simpl; [done|done| | |].
  - destruct (inv_split _ _ _ _ Hinv) as (ex & -> & Hperm). exists ex. split; [done|].
    rewrite -Hperm. solve_Permutation.
  - intros p [Hp|Hp%list_elem_of_singleton]%elem_of_app; [|subst p].
    + destruct (inv_group _ _ _ _ Hinv p Hp) as [r Hr].
      destruct (decide (r = r2)) as [->|Hr2].
      * exists r1. intros x Hx. apply linked_root_r. auto.
      * exists r. intros x Hx. apply Hl. auto.
    + exists r1. intros x Hx. destruct (Hc2 x Hx); [by apply linked_root_l|by apply linked_root_r].
  - intros r [[Hr Hr2]|[Hr ->]]%Hl; last first.
    { by destruct Hne; eapply root_det. }
    destruct (decide (r = r1)) as [->|Hr1].
    + destruct (inv_tree _ _ _ _ Hinv r1 H1) as (n1 & G1 & Hn1 & HG1 & Hden1).
      destruct (inv_tree _ _ _ _ Hinv r2 H2) as (n2 & G2 & Hn2 & HG2 & Hden2).
      exists (new_join jp (Some n1) (Some n2)), (G1 ∪ G2).
      split; [by rewrite lookup_insert_eq /tree_at Hn1 Hn2|]. split.
      * intros x. rewrite elem_of_union HG1 HG2 (Hl x r1). tauto.
      * assert (G1 ## G2) as Hd.
        { intros x Hx1%HG1 Hx2%HG2. apply Hne. by eapply root_det. }
        eapply denotes_ext; [|eapply (denotes_join n1 n2 G1 G2); [done|done| | |done|done]];
          [|by intros p [_ Hp]..].
        intros p. simpl. rewrite elem_of_app list_elem_of_singleton.
        assert (ctabs jp ⊆ G1 ∪ G2) as Hjp.
        { intros x Hx. rewrite elem_of_union HG1 HG2. auto. }
        split; [intros [[? ?]|[[? ?]| ->]]; (split; [by auto|set_solver])|].
        intros [[Hp| ->] Hsub]; [|auto].
        destruct (used_in_one G1 G2 p HG1 HG2 Hp Hsub); auto.
    + destruct (inv_tree _ _ _ _ Hinv r Hr) as (n & G & Hn & HG & Hden).
      exists n, G. split; [by rewrite lookup_insert_ne // lookup_delete_ne // lookup_delete_ne|].
      split.
      * intros x. rewrite HG (Hl x r). naive_solver.
      * eapply denotes_ext; [|done]. intros p. simpl. rewrite elem_of_app list_elem_of_singleton.
        split; [naive_solver|]. intros [[Hp| ->] Hsub]; [done|]. exfalso.
        destruct Hc1 as (x & Hx & Hx1). apply Hsub, HG in Hx. apply Hr1. by eapply root_det.
Qed.
End link.

Lemma join_step_ok T done used st jp : "" ∉ T -> jt_inv T done used st ->
  (forall p, p ∈ done -> join_pred T p = true) -> join_pred T jp = true ->
  exists st' used', join_step st (Some jp) = Ok st' /\ jt_inv T (done ++ [jp]) used' st'.
Proof.
  intros HT Hinv Hdone Hjp. pose proof Hinv as [Hwf Hdom (ex & Hex & Hperm) _ _].
  destruct (join_pred_inv T jp HT Hjp) as (c1 & c2 & Hbc & Hexp & Hin1 & Hin2 & Hct).
  set (t1 := resolveTableName c1) in *. set (t2 := resolveTableName c2) in *.
  assert (is_empty t1 = false) as Ht1 by (apply is_empty_false; by intros E; rewrite E in Hin1).
  assert (is_empty t2 = false) as Ht2 by (apply is_empty_false; by intros E; rewrite E in Hin2).
  rewrite /join_step Hbc Hexp /= -/t1 -/t2 Ht1 Ht2 /=.
  rewrite (DSU_add_known _ t1) ?Hdom // (DSU_add_known _ t2) ?Hdom //.
  destruct (DSU_find_ok (jt_dsu st) t1 Hwf) as (r1 & d1 & -> & Hr1 & He1); [by rewrite Hdom|]. simpl.
  destruct (DSU_find_ok d1 t2) as (r2 & d2 & -> & Hr2 & He2);
    [by eapply dsu_equiv_wf|by rewrite -(proj1 He1) Hdom|]. simpl.
  assert (dsu_equiv (jt_dsu st) d2) as He by by etrans. rewrite -He1 in Hr2.
  destruct (String.eqb_spec r1 r2) as [<-|Hne].
  - eexists _, used. split; [done|]. eapply (jt_inv_equiv _ _ _ _ _ _ ex); try done.
    + by rewrite map_app Hex.
    + exists r1. intros x. rewrite Hct elem_of_union !elem_of_singleton. by intros [-> | ->].
  - pose proof (root_root _ _ _ Hr1) as Hrr1. pose proof (root_root _ _ _ Hr2) as Hrr2.
    destruct (DSU_unite_ok d2 r1 r2 r1 r2) as (d3 & -> & Hwf3 & Hdom3 & Hl);
      [by eapply dsu_equiv_wf|by apply (proj2 He)..|done|]. simpl.
    destruct (DSU_find_ok d3 r1 Hwf3) as (rep & d4 & -> & Hrep & He4).
    { rewrite Hdom3 -(proj1 He). by eapply root_dom. }
    simpl. assert (linked (jt_dsu st) d4 r1 r2) as Hlink.
    { intros y s. rewrite -(proj2 He4 y s) Hl. by rewrite -!(proj2 He y). }
    assert (rep = r1) as ->.
    { apply (root_det d4 r1); [by apply (proj2 He4)|]. apply Hlink. by left. }
    eexists _, (used ++ [jp]). split; [done|].
    apply jt_inv_link; try done.
    + by eapply dsu_equiv_wf.
    + by rewrite -(proj1 He4) Hdom3 -(proj1 He).
    + intros p Hp%Hdone. destruct (join_pred_inv T p HT Hp) as (a & b & _ & _ & _ & _ & ->).
      exists (resolveTableName a). set_solver.
    + exists t1. split; [set_solver|done].
    + intros x. rewrite Hct elem_of_union !elem_of_singleton. intros [-> | ->]; auto.
Qed.

Lemma join_steps_ok T preds done used st : "" ∉ T -> jt_inv T done used st ->
  (forall p, p ∈ done ++ preds -> join_pred T p = true) ->
  exists st' used', foldR join_step (map Some preds) st = Ok st' /\ jt_inv T (done ++ preds) used' st'.
Proof.
  intros HT. revert done used st. induction preds as [|jp preds IH]; intros done used st Hinv Hp.
  - exists st, used. split; [done|]. by rewrite app_nil_r.
  - destruct (join_step_ok T done used st jp HT Hinv) as (st1 & used1 & Hs & Hinv1);
      [intros; apply Hp; set_solver|apply Hp; set_solver|].
    destruct (IH (done ++ [jp]) used1 st1 Hinv1) as (st' & used' & Hf & Hinv');
      [by rewrite -app_assoc|].
    exists st', used'. cbn [foldR map]. rewrite Hs /=. split; [done|]. by rewrite -app_assoc in Hinv'.
Qed.

(** ** Initial state and result *)

(** What [buildScanMap] returns: every table maps to its SCAN. *)
Definition scans_ok (m : gmap string LogicalPlanNode) : Prop :=
  forall t s, m !! t = Some s -> t <> "" /\ s = scan_node t.

Lemma addScan_ok m t : scans_ok m -> scans_ok (addScan m (scan_node t)).
Proof.
  rewrite /addScan /=. intros Hm. case_match eqn:Ht; [done|].
  intros t' s. rewrite lookup_insert. case_decide as E; [|by apply Hm].
  subst t'. intros [= <-]. split; [by apply is_empty_false|done].
Qed.

Section tableref_ind.
Variable P : TableRef -> Prop.
Hypothesis step : forall f, (forall l c, t_list f = Some l -> Some c ∈ l -> P c) ->
  (forall l r, t_join f = Some (Some l, r) -> P l) ->
  (forall l r, t_join f = Some (l, Some r) -> P r) -> P f.
Fixpoint TableRef_child_ind (f : TableRef) : P f.
Proof.
  destruct f as [ty nm al li jo]. apply step; simpl.
  - intros l c Hl. destruct li as [l'|]; [|discriminate Hl]. injection Hl as <-. clear -TableRef_child_ind.
    induction l' as [|[x|] l' IH]; intros Hc.
    + exfalso. by apply (not_elem_of_nil (Some c)).
    + apply elem_of_cons in Hc as [[= ->]|Hc]; [apply TableRef_child_ind|exact (IH Hc)].
    + apply elem_of_cons in Hc as [Hc|Hc]; [discriminate Hc|exact (IH Hc)].
  - intros l r Hj. destruct jo as [[[x|] y]|]; try discriminate Hj. injection Hj as <- _. apply TableRef_child_ind.
  - intros l r Hj. destruct jo as [[x [y|]]|]; try discriminate Hj. injection Hj as _ <-. apply TableRef_child_ind.
Qed.
End tableref_ind.

Lemma collectScans_scans f s : s ∈ collectScans_node f -> exists t, s = scan_node t.
Proof.
  induction f as [[ty nm al li jo] IHl IH1 IH2] using TableRef_child_ind. cbn [collectScans_node t_type t_list t_join] in *.
  destruct ty; simpl in *.
  - intros ->%list_elem_of_singleton. eauto.
  - set_solver.
  - destruct jo as [[[l|] [r|]]|]; simpl; rewrite ?elem_of_app; set_solver.
  - destruct li as [l|]; [|set_solver]. intros ([x|] & Hx & Hs)%list_elem_of_In%in_flat_map; [|done].
    apply (IHl l x); [done|by apply list_elem_of_In|by apply list_elem_of_In].
Qed.

Lemma fold_addScan_ok l m : (forall s, s ∈ l -> exists t, s = scan_node t) -> scans_ok m ->
  scans_ok (fold_left addScan l m).
Proof.
  revert m. induction l as [|s l IH]; intros m Hl Hm; [done|]. simpl. apply IH; [set_solver|].
  destruct (Hl s) as [t ->]; [set_solver|]. by apply addScan_ok.
Qed.

Lemma buildScanMap_scans from m : buildScanMap from = Ok m -> scans_ok m.
Proof.
  rewrite /buildScanMap /collectScans. case_match; [done|]. intros [= <-].
  apply fold_addScan_ok; [|by intros ??]. destruct from as [f|]; [|set_solver].
  intros s. apply collectScans_scans.
Qed.

(** Every element its own group. *)
Definition discrete (d : gmap string string) : Prop := forall x y, d !! x = Some y -> y = x.

Lemma discrete_root d x r : discrete d -> root d x r <-> r = x /\ x ∈ dom d.
Proof.
  intros Hd. split.
  - intros H. split; [|by eapply root_dom]. destruct H as [n H].
    inversion H as [|? ? y ? Hy Hne]; simplify_eq; [done|]. by apply Hd in Hy.
  - intros [-> [y Hy]%elem_of_dom]. apply root_of_self. pose proof (Hd x y Hy) as ->. done.
Qed.

Lemma fold_add_discrete (l : list (string * LogicalPlanNode)) d : discrete d ->
  let d' := fold_left (fun d kv => DSU_add d kv.1) l d in
  discrete d' /\ dom d' = dom d ∪ list_to_set l.*1.
Proof.
  revert d. induction l as [|[k s] l IH]; intros d Hd; simpl; [split; [done|set_solver]|].
  destruct (IH (DSU_add d k)) as [H1 H2].
  - intros x y. rewrite /DSU_add. destruct (d !! k); [apply Hd|].
    rewrite lookup_insert. case_decide; [naive_solver|apply Hd].
  - split; [done|]. rewrite H2 DSU_add_dom. set_solver.
Qed.

Lemma fold_tree_lookup (l : list (string * LogicalPlanNode))
    (m : gmap string (option LogicalPlanNode)) k s : NoDup l.*1 -> (k, s) ∈ l ->
  fold_left (fun m kv => <[kv.1 := Some kv.2]> m) l m !! k = Some (Some s).
Proof.
  assert (forall l (m : gmap string (option LogicalPlanNode)) k, k ∉ l.*1 -> fold_left (fun m (kv : string * LogicalPlanNode) =>
    <[kv.1 := Some kv.2]> m) l m !! k = m !! k) as Hnot.
  { clear. induction l as [|[k' s'] l IH]; intros m k Hk; [done|]. simpl.
    rewrite IH; [|set_solver]. rewrite lookup_insert_ne //. set_solver. }
  revert m. induction l as [|[k' s'] l IH]; intros m; [set_solver|]. simpl.
  intros [Hk Hnd]%NoDup_cons [Heq|Hin]%elem_of_cons; [|by apply IH].
  injection Heq as -> ->. rewrite Hnot //. by rewrite lookup_insert_eq.
Qed.

(** The final loop finds the representative of the first table. *)
Lemma rep_loop_ok ts : forall d rep, dsu_wf d -> (forall t, t ∈ ts -> t ∈ dom d) ->
  exists d' r, foldR rep_step ts (rep, d) = Ok (r, d') /\
    (rep <> "" -> r = rep) /\ (rep = "" -> forall t ts', ts = t :: ts' -> root d t r).
Proof.
  induction ts as [|t ts IH]; intros d rep Hwf Hts.
  - exists d, rep. split_and!; [done..|]. intros. simplify_eq.
  - cbn [foldR rep_step]. destruct (DSU_find_ok d t Hwf) as (r & d1 & -> & Hr & He1); [apply Hts; set_solver|].
    simpl. pose proof (root_nonempty d t r Hwf Hr) as Hne.
    destruct (IH d1 (if is_empty rep then r else rep)) as (d' & r' & -> & H1 & _).
    { by eapply dsu_equiv_wf. }
    { intros x Hx. rewrite -(proj1 He1). apply Hts. set_solver. }
    exists d', r'. split_and!; [done| |].
    + intros Hrep. rewrite (proj2 (is_empty_false rep) Hrep) in H1. auto.
    + intros -> t' ts' [= <- <-]. simpl in H1. by rewrite H1.
Qed.

(** The tables that the join predicates connect. *)
Definition adjacent (preds : list LogicalPlanNode) (x y : string) : Prop :=
  exists p, p ∈ preds /\ x ∈ ctabs p /\ y ∈ ctabs p.
Definition connected (T : gset string) (preds : list LogicalPlanNode) : Prop :=
  forall x y, x ∈ T -> y ∈ T -> rtc (adjacent preds) x y.

Section build.
Variable iter : gmap string LogicalPlanNode -> list (string * LogicalPlanNode).
Hypothesis iter_perm : forall m, iter m ≡ₚ map_to_list m.

Lemma iter_keys m : NoDup (iter m).*1 /\ forall x, x ∈ (iter m).*1 <-> x ∈ dom m.
Proof.
  split; [rewrite iter_perm; apply NoDup_fst_map_to_list|].
  intros x. rewrite (iter_perm m) elem_of_dom list_elem_of_fmap. split.
  - intros ([k s] & -> & Hk%elem_of_map_to_list). by exists s.
  - intros [s Hs]. exists (x, s). split; [done|]. by apply elem_of_map_to_list.
Qed.

Lemma jt_inv_init m : scans_ok m ->
  jt_inv (dom m) [] []
    (mkJT (fold_left (fun d kv => DSU_add d kv.1) (iter m) ∅)
       (fold_left (fun m kv => <[kv.1 := Some kv.2]> m) (iter m) ∅) []).
Proof.
  intros Hm. destruct (iter_keys m) as [Hnd Hk].
  destruct (fold_add_discrete (iter m) ∅) as [Hd Hdom]; [by intros ??|].
  assert (dom (fold_left (fun d kv => DSU_add d kv.1) (iter m) ∅) = dom m) as HdomT.
  { rewrite Hdom dom_empty_L left_id_L. apply set_eq. intros x. by rewrite elem_of_list_to_set Hk. }
  split; simpl.
  - split; [|rewrite HdomT; intros [s Hs]%elem_of_dom; by destruct (Hm _ _ Hs)].
    intros x Hx. exists x. by apply discrete_root.
  - done.
  - by exists [].
  - intros p Hp. by apply not_elem_of_nil in Hp.
  - intros r [_ Hr]%discrete_root; [|done]. rewrite HdomT in Hr. apply elem_of_dom in Hr as [s Hs].
    destruct (Hm r s Hs) as [Hne ->]. exists (scan_node r), {[r]}. split_and!.
    + apply fold_tree_lookup; [done|]. rewrite iter_perm. by apply elem_of_map_to_list.
    + intros x. rewrite discrete_root // HdomT elem_of_singleton. split; [|naive_solver].
      intros ->. split; [done|]. by eapply elem_of_dom_2.
    + eapply denotes_ext; [|by apply denotes_scan]. intros p. split; [done|].
      intros [Hp _]. by apply not_elem_of_nil in Hp.
Qed.

(** [buildJoinTree] always succeeds on predicates over the FROM tables: its
    tree covers one group [G] of tables, closed under the predicates. *)
Lemma buildJoinTree_group m preds : m <> ∅ -> scans_ok m ->
  (forall p, p ∈ preds -> join_pred (dom m) p = true) ->
  exists n used ex G, buildJoinTree iter m (map Some preds) [] = Ok (n, map as_filter ex) /\
    used ++ ex ≡ₚ preds /\ G ⊆ dom m /\ (exists x, x ∈ G) /\
    (forall x y, x ∈ G -> adjacent preds x y -> y ∈ G) /\
    denotes n G (fun p => p ∈ used /\ ctabs p ⊆ G).
Proof.
  intros Hne Hm Hp.
  assert ("" ∉ dom m) as HT by (intros [s Hs]%elem_of_dom; by destruct (Hm _ _ Hs)).
  destruct (join_steps_ok (dom m) preds [] [] _ HT (jt_inv_init m Hm)) as (st & used & Hst & Hinv); [done|].
  simpl in Hinv. pose proof Hinv as [Hwf Hdom (ex & Hex & Hperm) Hgrp Htree].
  destruct (iter_keys m) as [_ Hk]. pose proof (Hk) as Hk'.
  destruct (rep_loop_ok (iter m).*1 (jt_dsu st) "" Hwf) as (d' & r & Hrep & _ & Hroot);
    [intros t Ht; rewrite Hdom; by apply Hk|].
  destruct ((iter m).*1) as [|t0 ts] eqn:Hl.
  { exfalso. apply Hne. apply dom_empty_iff_L. apply elem_of_equiv_empty_L.
    intros x Hx%Hk'. by apply not_elem_of_nil in Hx. }
  specialize (Hroot eq_refl t0 ts eq_refl).
  destruct (Htree r) as (n & G & Hn & HG & Hden); [by eapply root_root|].
  exists n, used, ex, G. split_and!; [| done | | | | done].
  - rewrite /buildJoinTree bool_decide_false // Hst /=. change (map fst (iter m)) with ((iter m).*1).
    by rewrite Hl Hrep /= Hn Hex.
  - intros x Hx%HG. rewrite -Hdom. by eapply root_dom.
  - exists t0. by apply HG.
  - intros x y Hx%HG (p & Hp' & Hxp & Hyp). destruct (Hgrp p Hp') as [s Hs]. apply HG.
    rewrite (root_det _ _ _ _ Hx (Hs x Hxp)). auto.
Qed.

(** When the predicates connect all tables, tree and filters together denote
    the cross product filtered by all join predicates. *)
Lemma buildJoinTree_denotes m preds : m <> ∅ -> scans_ok m ->
  (forall p, p ∈ preds -> join_pred (dom m) p = true) -> connected (dom m) preds ->
  exists n used ex, buildJoinTree iter m (map Some preds) [] = Ok (n, map as_filter ex) /\
    used ++ ex ≡ₚ preds /\ denotes n (dom m) (fun p => p ∈ used).
Proof.
  intros Hne Hm Hp Hc.
  destruct (buildJoinTree_group m preds Hne Hm Hp)
    as (n & used & ex & G & Hb & Hperm & Hsub & [x Hx] & Hcl & Hden).
  assert (G = dom m) as ->.
  { apply set_eq. intros y. split; [apply Hsub|]. intros Hy.
    specialize (Hc x y (Hsub x Hx) Hy). clear Hy. induction Hc as [|x y z Hxy _ IH]; [done|]. eauto. }
  exists n, used, ex. split_and!; [done|done|]. eapply denotes_ext; [|done].
  intros p. split; [by intros [? _]|]. intros Hu. split; [done|].
  assert ("" ∉ dom m) as HT by (intros [s Hs]%elem_of_dom; by destruct (Hm _ _ Hs)).
  destruct (join_pred_inv (dom m) p HT) as (a & b & _ & _ & Ha & Hb' & ->); [|set_solver].
  apply Hp. rewrite -Hperm. set_solver.
Qed.
End build.

(** ** [buildJoinTreeFromOrder] *)

(** Tree [n] and filters [ex] together answer for the join predicates. *)
Definition join_input (T : gset string) (preds : list LogicalPlanNode)
    (n : LogicalPlanNode) (ex : list LogicalPlanNode) : Prop :=
  exists P, denotes n T P /\ forall p, p ∈ preds <-> P p \/ p ∈ ex.

(** The builder compares table names up to case and a plural "s"; the FROM
    clause must not name two tables it takes for the same. *)
Definition no_confusion (T : gset string) : Prop :=
  forall x y, x ∈ T -> y ∈ T -> namesMatch (toLower x) (toLower y) = true -> x = y.

Lemma no_confusion_lower T x y : no_confusion T -> x ∈ T -> y ∈ T -> toLower x = toLower y -> x = y.
Proof.
  intros HT Hx Hy He. apply HT; [done..|]. by rewrite /namesMatch He String.eqb_refl.
Qed.

Lemma first_connecting_spec joined nm preds used k i :
  first_connecting joined nm preds used k = Some i ->
  k <= i /\ used !! (i - k) = Some false /\
  exists p, preds !! (i - k) = Some p /\ connects joined nm p = true.
Proof.
  revert used k. induction preds as [|p preds IH]; intros [|u used] k; try done. simpl.
  destruct (negb u && connects joined nm p) eqn:Hc.
  - intros [= <-]. apply andb_true_iff in Hc as [Hu%negb_true_iff Hc].
    rewrite Nat.sub_diag. subst. simpl. eauto.
  - intros (Hle & Hu & p' & Hp & Hc')%IH. replace (i - k) with (S (i - S k)) by lia.
    split; [lia|]. simpl. eauto.
Qed.

(** The predicates marked as used. *)
Definition marked (preds : list LogicalPlanNode) (used : list bool) (p : LogicalPlanNode) : Prop :=
  exists i, preds !! i = Some p /\ used !! i = Some true.

Lemma marked_insert preds used i p q : length used = length preds -> preds !! i = Some p ->
  used !! i = Some false ->
  marked preds (<[i := true]> used) q <-> marked preds used q \/ q = p.
Proof.
  intros Hlen Hp Hu. split.
  - intros (j & Hj & Hm). rewrite list_lookup_insert in Hm. case_decide; [naive_solver|].
    left. by exists j.
  - intros [(j & Hj & Hm)| ->].
    + exists j. split; [done|]. rewrite list_lookup_insert_ne //. congruence.
    + exists i. split; [done|]. rewrite list_lookup_insert_eq //.
      rewrite Hlen. by eapply lookup_lt_Some.
Qed.

Lemma unused_filters_ok preds used : length used = length preds ->
  exists ex, unused_filters (map Some preds) used = Ok (map as_filter ex) /\
    forall p, p ∈ preds <-> marked preds used p \/ p ∈ ex.
Proof.
  revert used. induction preds as [|q preds IH]; intros [|u used] Hlen; simplify_eq/=.
  - exists []. split; [done|]. intros p. split; [set_solver|].
    intros [(i & Hi & _)|?]; [by rewrite lookup_nil in Hi|done].
  - destruct (IH used) as (ex & He & Hspec); [done|].
    assert (forall p, marked (q :: preds) (u :: used) p <-> (u = true /\ p = q) \/ marked preds used p) as Hm.
    { intros p. split; [intros ([|i] & Hi & Hu); simplify_eq/=; [auto|right; by exists i]|].
      intros [[-> ->]|(i & Hi & Hu)]; [by exists 0|by exists (S i)]. }
    setoid_rewrite elem_of_cons. setoid_rewrite Hm. setoid_rewrite Hspec.
    destruct u; simpl; [exists ex; split; [done|]; naive_solver|].
    rewrite He /=. exists (q :: ex). split; [done|]. setoid_rewrite elem_of_cons. naive_solver.
Qed.

Section order.
Variables (m : gmap string LogicalPlanNode) (preds : list LogicalPlanNode).
Hypotheses (Hm : scans_ok m) (HnoC : no_confusion (dom m))
  (Hpreds : forall p, p ∈ preds -> join_pred (dom m) p = true).

Lemma no_empty_table : "" ∉ dom m.
Proof. intros [s Hs]%elem_of_dom. by destruct (Hm _ _ Hs). Qed.

(** A predicate that the search accepts links the joined tables with the next. *)
Lemma connects_spec G joined nm p : p ∈ preds -> nm ∈ dom m ->
  (forall x, x ∈ dom m -> toLower x ∈ joined <-> x ∈ G) ->
  connects joined (toLower nm) (Some p) = true -> ctabs p ⊆ G ∪ {[nm]}.
Proof.
  intros Hp Hnm HG Hc.
  destruct (join_pred_inv _ p no_empty_table (Hpreds p Hp)) as (c1 & c2 & Hbc & _ & H1 & H2 & ->).
  rewrite /connects Hbc in Hc. case_match; [done|].
  apply orb_true_iff in Hc as [Hc|Hc]; apply andb_true_iff in Hc as [Hj%bool_decide_eq_true Hn];
    (apply HG in Hj; [|done]); (apply HnoC in Hn; [|done|done]); set_solver.
Qed.

Lemma order_loop_ok rest : forall current G joined used,
  length used = length preds -> NoDup rest -> (forall x, x ∈ rest -> x ∈ dom m /\ x ∉ G) ->
  G ⊆ dom m -> (forall x, x ∈ dom m -> toLower x ∈ joined <-> x ∈ G) ->
  (forall p, marked preds used p -> ctabs p ⊆ G) -> denotes current G (marked preds used) ->
  exists o, order_loop m (map Some preds) rest current joined used = Ok o /\
    forall n used', o = Some (n, used') ->
      length used' = length preds /\ denotes n (G ∪ list_to_set rest) (marked preds used').
Proof.
  induction rest as [|nm rest IH]; intros current G joined used Hlen Hnd Hrest HG Hj Hmk Hden.
  - eexists. split; [done|]. intros n used' [= <- <-]. split; [done|]. by rewrite right_id_L.
  - apply NoDup_cons in Hnd as [Hnin Hnd]. destruct (Hrest nm) as [Hnm HnG]; [set_solver|].
    cbn [order_loop]. destruct (m !! nm) as [s|] eqn:Hs; [|apply not_elem_of_dom in Hs; done].
    destruct (Hm nm s Hs) as [Hne ->].
    destruct (first_connecting _ _ _ _ 0) as [i|] eqn:Hf; [|by exists None].
    apply first_connecting_spec in Hf as (_ & Hu & op & Hop & Hc). rewrite Nat.sub_0_r in Hu, Hop.
    rewrite list_lookup_fmap in Hop. destruct (preds !! i) as [p|] eqn:Hp; [|done]. injection Hop as <-.
    assert (p ∈ preds) as Hin by by eapply list_elem_of_lookup_2.
    rewrite list_lookup_fmap Hp /=.
    destruct (join_pred_inv _ p no_empty_table (Hpreds p Hin)) as (_ & _ & _ & Hex & _).
    pose proof (connects_spec G joined nm p Hin Hnm Hj Hc) as Hsub.
    destruct (IH (new_join p (Some current) (Some (scan_node nm))) (G ∪ {[nm]})
                ({[toLower nm]} ∪ joined) (<[i := true]> used)) as (o & Ho & Hspec).
    + by rewrite length_insert.
    + done.
    + intros x Hx. destruct (Hrest x) as [? ?]; [set_solver|]. split; [done|]. set_solver.
    + set_solver.
    + intros x Hx. rewrite elem_of_union (Hj x Hx) elem_of_union !elem_of_singleton. split; [|naive_solver].
      intros [He|?]; [right|by left]. by eapply no_confusion_lower.
    + intros q. rewrite marked_insert //. intros [Hq%Hmk| ->]; [set_solver|done].
    + eapply denotes_ext; [|eapply denotes_join; [|done|apply Hmk| |done|by apply denotes_scan]];
        [|set_solver|done].
      intros q. simpl. rewrite marked_insert //. naive_solver.
    + exists o. split; [done|]. intros n used' [Hl Hd]%Hspec. split; [done|].
      cbn [list_to_set]. by rewrite assoc_L in Hd |- *.
Qed.

(** An order that lists every table once: the builder never fails hard, and
    a tree it returns answers for all join predicates. *)
Lemma buildJoinTreeFromOrder_ok order : NoDup order -> list_to_set order = dom m ->
  exists o, buildJoinTreeFromOrder m (map Some preds) order = Ok o /\
    forall n fs, o = Some (n, fs) ->
      exists ex, fs = map as_filter ex /\ join_input (dom m) preds n ex.
Proof.
  intros Hnd Hord. destruct order as [|x [|y rest]]; [by eexists|by eexists|].
  cbn [buildJoinTreeFromOrder]. destruct (m !! x) as [s|] eqn:Hs; [|by eexists].
  destruct (Hm x s Hs) as [Hne ->]. apply NoDup_cons in Hnd as [Hx Hnd].
  destruct (order_loop_ok (y :: rest) (scan_node x) {[x]} {[toLower x]}
    (replicate (length preds) false)) as (o & Ho & Hspec).
  - by rewrite length_replicate.
  - done.
  - intros z Hz. split; [rewrite -Hord|]; set_solver.
  - rewrite -Hord. set_solver.
  - intros z Hz. rewrite !elem_of_singleton. split; [|by intros ->].
    intros He. eapply no_confusion_lower; [done..| |done]. by eapply elem_of_dom_2.
  - intros p (i & _ & Hi). by apply lookup_replicate in Hi as [? _].
  - eapply denotes_ext; [|by apply denotes_scan]. intros p. split; [done|].
    intros (i & _ & Hi). by apply lookup_replicate in Hi as [? _].
  - rewrite length_fmap Ho /=. destruct o as [[n used']|]; [|by eexists].
    destruct (Hspec n used' eq_refl) as [Hlen Hden].
    destruct (unused_filters_ok preds used' Hlen) as (ex & -> & Hsp). simpl.
    eexists. split; [done|]. intros n' fs [= <- <-]. exists ex. split; [done|].
    exists (marked preds used'). split; [|done]. by rewrite -Hord.
Qed.
End order.

(** ** Join orders *)

Lemma dedupe_spec names :
  NoDup (map toLower (dedupe names)) /\ (forall x, x ∈ dedupe names -> x ∈ names) /\
  (forall x, x ∈ names -> toLower x ∈ map toLower (dedupe names)).
Proof.
  rewrite /dedupe.
  assert (forall names order seen,
    NoDup (map toLower order) -> (forall k, k ∈ seen <-> k ∈ map toLower order) ->
    let order' := (fold_left dedupe_step names (order, seen)).1 in
    NoDup (map toLower order') /\ (forall x, x ∈ order' -> x ∈ order \/ x ∈ names) /\
    (forall x, x ∈ order \/ x ∈ names -> toLower x ∈ map toLower order')) as H.
  { clear. induction names as [|x names IH]; intros order seen Hnd Hseen; simpl.
    - split_and!; [done|auto|]. intros y [Hy|Hy]; [by apply list_elem_of_fmap_2|by apply not_elem_of_nil in Hy].
    - setoid_rewrite elem_of_cons. case_bool_decide as Hin.
      + destruct (IH order seen Hnd Hseen) as (H1 & H2 & H3). split_and!; [done|naive_solver|].
        intros y [Hy|[->|Hy]]; auto. apply Hseen in Hin.
        apply list_elem_of_fmap in Hin as (z & -> & Hz). auto.
      + destruct (IH (order ++ [x]) ({[toLower x]} ∪ seen)) as (H1 & H2 & H3).
        * rewrite map_app. apply NoDup_app. split_and!; [done| |by apply NoDup_singleton].
          intros k Hk%Hseen ->%list_elem_of_singleton. done.
        * intros k. rewrite map_app elem_of_union Hseen elem_of_app elem_of_singleton list_elem_of_singleton. tauto.
        * setoid_rewrite elem_of_app in H2. setoid_rewrite elem_of_app in H3.
          setoid_rewrite list_elem_of_singleton in H2. setoid_rewrite list_elem_of_singleton in H3.
          split_and!; [done|naive_solver|]. intros y Hy. apply H3. tauto. }
  destruct (H names [] ∅) as (H1 & H2 & H3); [constructor|set_solver|].
  split_and!; [done| |auto]. intros x Hx. destruct (H2 x Hx) as [Hn|]; [by apply not_elem_of_nil in Hn|done].
Qed.

Section order_from_json.
Variable iter : gmap string LogicalPlanNode -> list (string * LogicalPlanNode).
Hypothesis iter_perm : forall m, iter m ≡ₚ map_to_list m.

Lemma findMatchingScanTable_in j m : findMatchingScanTable iter j m <> "" ->
  findMatchingScanTable iter j m ∈ dom m.
Proof.
  rewrite /findMatchingScanTable. destruct (head _) as [k|] eqn:Hh; [|done]. intros _. simpl.
  apply head_Some_elem_of, list_elem_of_In, in_flat_map in Hh as (cand & _ & Hk).
  apply in_flat_map in Hk as ([key s] & Hin & Hk). apply list_elem_of_In in Hin.
  rewrite (iter_perm m) in Hin. apply elem_of_map_to_list in Hin.
  case_match; [|done]. destruct Hk as [<-|[]]. by eapply elem_of_dom_2.
Qed.

(** A resolved order of full length lists every table exactly once. *)
Lemma resolved_order_complete jo m :
  length (resolveJoinOrderToScans iter jo m) = size m ->
  NoDup (resolveJoinOrderToScans iter jo m) /\
  list_to_set (resolveJoinOrderToScans iter jo m) = dom m.
Proof.
  rewrite /resolveJoinOrderToScans. destruct (dedupe_spec (List.filter (fun s => negb (is_empty s))
    (map (fun name => findMatchingScanTable iter name m) jo))) as (Hnd%NoDup_fmap_1 & Hin & _).
  intros Hlen. split; [done|]. apply set_subseteq_size_eq.
  - intros x. rewrite elem_of_list_to_set. intros Hx%Hin%list_elem_of_In%filter_In.
    destruct Hx as [Hx%list_elem_of_In Hne%is_empty_neg]. apply list_elem_of_fmap in Hx as (nm & -> & _).
    by apply findMatchingScanTable_in.
  - rewrite size_list_to_set // Hlen size_dom. done.
Qed.
End order_from_json.

(** ** Sorting the scans of a JSON plan *)

(** [a] may stand before [b]. *)
Definition scan_leq (a b : ScanRec) : Prop := scan_before b a = false.

Lemma scan_leq_spec a b : scan_leq a b <->
  (rec_depth b < rec_depth a)%Z \/ (rec_depth a = rec_depth b /\ (rec_seq a <= rec_seq b)%Z).
Proof. rewrite /scan_leq /scan_before. destruct (Z.eqb_spec (rec_depth b) (rec_depth a)); simpl; lia. Qed.

Lemma scan_leq_trans a b c : scan_leq a b -> scan_leq b c -> scan_leq a c.
Proof. rewrite !scan_leq_spec. lia. Qed.

Lemma scan_before_leq a b : scan_before a b = true -> scan_leq a b.
Proof.
  rewrite scan_leq_spec /scan_before. destruct (Z.eqb_spec (rec_depth a) (rec_depth b)); simpl; lia.
Qed.

Lemma insert_scan_sorted x l : StronglySorted scan_leq l ->
  StronglySorted scan_leq (insert_scan x l) /\ insert_scan x l ≡ₚ x :: l.
Proof.
  induction l as [|y l IH]; intros Hs; simpl; [by repeat constructor|].
  inversion Hs as [|? ? Hs' Hall]; subst. destruct (scan_before y x) eqn:Hb.
  - destruct (IH Hs') as [IH1 IH2]. split; [|rewrite IH2; constructor].
    constructor; [done|]. rewrite IH2. constructor; [by apply scan_before_leq|done].
  - split; [|done]. constructor; [done|]. constructor; [done|].
    eapply Forall_impl; [done|]. intros z. by apply scan_leq_trans.
Qed.

Lemma stable_sort_sorted l : StronglySorted scan_leq (stable_sort l) /\ stable_sort l ≡ₚ l.
Proof.
  induction l as [|x l [IH1 IH2]]; simpl; [by repeat constructor|].
  destruct (insert_scan_sorted x (stable_sort l) IH1) as [H1 H2]. split; [done|]. by rewrite H2 IH2.
Qed.
