(* ===== verification/SelectPlanBuilder.v ===== *)
(** * Logical plan of a SELECT statement

    [SelectPlanBuilder.cpp] and [SQLToLogicalPlanTranslator.cpp].  Functions
    that take the [TranslationContext] by reference run in [ST
    TranslationContext].  The [iter] argument is the iteration order of an
    [unordered_map], see [JoinTree.v]. *)

From S2P Require Import Prelude PlanTypes SqlAst SchemaResolver TranslatorHelpers.
From S2P Require Import PredicateBuilder JoinTree.

Record TranslationContext : Type := mkCtx {
  aliasToTable : gmap string string;
  aggAliasCounters : gmap nat Z;           (* keyed by agg_func_index *)
}.

Record AggPattern : Set := mkAgg {
  ap_func : PAF.PlanAggFunc;
  ap_is_star : bool;
  ap_is_col : bool;
  ap_col : Column;
  ap_is_sum_mul : bool;
  ap_is_sum_sub : bool;
  ap_leftCol : Column;
  ap_rightCol : Column;
  ap_alias : string;
}.

Record AggWithName : Set := mkAggName { an_pattern : AggPattern; an_name : string }.

Record SelectAnalysis : Set := mkSA {
  hasAgg : bool;
  projections : list Column;
  aggregates : list AggWithName;
  aggSpecs : list AggSpec;
}.

(** ** Aggregation detection *)

Definition agg_func_of_name (name : option string) : option PAF.PlanAggFunc :=
  if iequals name (Some "COUNT") then Some PAF.COUNT
  else if iequals name (Some "SUM") then Some PAF.SUM
  else if iequals name (Some "MIN") then Some PAF.MIN
  else if iequals name (Some "MAX") then Some PAF.MAX
  else if iequals name (Some "AVG") then Some PAF.AVG
  else None.

Definition agg_base (f : PAF.PlanAggFunc) (a : string) : AggPattern :=
  mkAgg f false false Column_default false false Column_default Column_default a.
Definition agg_star (p : AggPattern) : AggPattern :=
  mkAgg (ap_func p) true false Column_default false false Column_default Column_default (ap_alias p).
Definition agg_col (c : Column) (p : AggPattern) : AggPattern :=
  mkAgg (ap_func p) false true c false false Column_default Column_default (ap_alias p).
Definition agg_arith (mul : bool) (l r : Column) (p : AggPattern) : AggPattern :=
  mkAgg (ap_func p) false false Column_default mul (negb mul) l r (ap_alias p).

Definition is_star_arg (arg : Expr) : bool :=
  isType kExprStar arg ||
  (isType kExprColumnRef arg && match e_name arg with Some n => n =s "*" | None => false end).

(** The two operands of [col op col]. *)
Definition two_columns (arg : Expr) : option (Expr * Expr) :=
  match isType kExprOperator arg, e_expr arg, e_expr2 arg with
  | true, Some a, Some b =>
      if isType kExprColumnRef a && isType kExprColumnRef b then Some (a, b) else None
  | _, _, _ => None
  end.

Definition matchAgg (e : option Expr) (aliasToBase : gmap string string) : option AggPattern :=
  match e with
  | None => None
  | Some x =>
      match isType kExprFunctionRef x, e_name x with
      | true, Some _ =>
          match agg_func_of_name (e_name x) with
          | None => None
          | Some f =>
              let ap := agg_base f (default "" (e_alias x)) in
              match e_exprList x with
              | None | Some [] => Some (agg_star ap)
              | Some (None :: _) => None
              | Some (Some arg :: _) =>
                  if bool_decide (f = PAF.COUNT) && is_star_arg arg then Some (agg_star ap)
                  else
                    match bool_decide (f = PAF.SUM), two_columns arg with
                    | true, Some (a, b) =>
                        let cols mul := agg_arith mul (toColumnFromExpr (Some a) aliasToBase)
                                          (toColumnFromExpr (Some b) aliasToBase) ap in
                        if bool_decide (e_opType arg = kOpAsterisk) then Some (cols true)
                        else if bool_decide (e_opType arg = kOpMinus) then Some (cols false)
                        else None
                    | _, _ =>
                        if isType kExprColumnRef arg
                        then Some (agg_col (toColumnFromExpr (Some arg) aliasToBase) ap)
                        else None
                    end
              end
          end
      | _, _ => None
      end
  end.

(** ** Aggregate alias generation *)

Definition kAggFuncToName (f : PAF.PlanAggFunc) : string :=
  match f with
  | PAF.SUM => "sum" | PAF.COUNT => "count" | PAF.AVG => "avg"
  | PAF.MIN => "min" | PAF.MAX => "max"
  end.

Definition kNameToAggFunc : list (string * PAF.PlanAggFunc) :=
  [ ("sum", PAF.SUM); ("count", PAF.COUNT); ("avg", PAF.AVG);
    ("min", PAF.MIN); ("max", PAF.MAX) ].

(** [++ctx.aggAliasCounters[func]]: a missing counter starts at 0. *)
Definition generateAggAlias (f : PAF.PlanAggFunc) : ST TranslationContext string := fun ctx =>
  let counter := (default 0 (aggAliasCounters ctx !! agg_func_index f) + 1)%Z in
  Ok (kAggFuncToName f +:+ to_string counter,
      mkCtx (aliasToTable ctx) (<[agg_func_index f := counter]> (aggAliasCounters ctx))).

(** The overload that takes the function's name. *)
Definition generateAggAlias_name (funcName : string) : ST TranslationContext string :=
  match assoc (toLower funcName) kNameToAggFunc with
  | Some f => generateAggAlias f
  | None => mret "agg"
  end.

(** ** Plan construction helpers *)

Definition initializeSelectContext (sel : SelectStatement) : TranslationContext :=
  mkCtx (collectAliases (fromTable sel) ∅) ∅.

Record PredicateGroups : Set := mkGroups {
  joinPreds : list LogicalPlanNode;
  selectionPreds : list LogicalPlanNode;
}.

Definition group_pred (g : PredicateGroups) (n : LogicalPlanNode) : PredicateGroups :=
  if bool_decide (node_type n = LNT.JOIN) then mkGroups (joinPreds g ++ [n]) (selectionPreds g)
  else mkGroups (joinPreds g) (selectionPreds g ++ [n]).

Definition extractPredicates (whereClause : option Expr) (aliasToBase : gmap string string)
    : result PredicateGroups :=
  foldR (fun g p => n ← buildPredicateNode aliasToBase (Some p); Ok (group_pred g n))
    (splitConjuncts whereClause) (mkGroups [] []).

Definition push_all (preds : list LogicalPlanNode) (root : LogicalPlanNode) : LogicalPlanNode :=
  fold_left pushDown preds root.

Definition buildSelectInputTree (iter : gmap string LogicalPlanNode -> list (string * LogicalPlanNode))
    (scanByTable : gmap string LogicalPlanNode) (preds : list LogicalPlanNode)
    (jsonJoinOrder : list string) : result LogicalPlanNode :=
  let resolvedJoinOrder := resolveJoinOrderToScans iter jsonJoinOrder scanByTable in
  if negb (bool_decide (jsonJoinOrder = [])) &&
     negb (length resolvedJoinOrder =? size scanByTable)
  then Err (Throw "JSON join order is missing tables from the SQL FROM clause")
  else
    ordered ← (if negb (bool_decide (resolvedJoinOrder = []))
               then buildJoinTreeFromOrder scanByTable (map Some preds) resolvedJoinOrder
               else Ok None);
    '(current, extraJoinFilters) ←
      match ordered with
      | Some r => Ok r
      | None => buildJoinTree iter scanByTable (map Some preds) []
      end;
    Ok (push_all extraJoinFilters current).

Definition is_setop (p : LogicalPlanNode) : bool := bool_decide (node_type p = LNT.SETOPERATION).

(** OR predicates are pushed first. *)
Definition applySelectionPredicates (root : LogicalPlanNode) (preds : list LogicalPlanNode)
    : LogicalPlanNode :=
  push_all (List.filter (fun p => negb (is_setop p)) preds)
    (push_all (List.filter is_setop preds) root).

Definition collectGroupByColumns (sel : SelectStatement) (aliasToBase : gmap string string)
    : list Column :=
  match groupBy sel with
  | Some (Some cols) =>
      omap (fun ge => match ge with
                      | Some e => if isType kExprColumnRef e
                                  then Some (toColumnFromExpr (Some e) aliasToBase) else None
                      | None => None
                      end) cols
  | _ => []
  end.

(** [static_cast<int>] of the literal's [int64_t]. *)
Definition int_literal (msg : string) (e : Expr) : result Z :=
  if isType kExprLiteralInt e then Ok (to_int32 (e_ival e)) else Err (Throw msg).

Definition applyLimitOffset (root : LogicalPlanNode) (sel : SelectStatement) : result LogicalPlanNode :=
  match limit sel with
  | None => Ok root
  | Some l =>
      root ← match l_limit l with
             | None => Ok root
             | Some le =>
                 z ← int_literal "Unsupported LIMIT expression (expected integer literal)" le;
                 Ok (set_expression (set_limit_count (Some z) (expression root)) root)
             end;
      match l_offset l with
      | None => Ok root
      | Some oe =>
          z ← int_literal "Unsupported OFFSET expression (expected integer literal)" oe;
          Ok (set_expression (set_limit_offset (Some z) (expression root)) root)
      end
  end.

(** ** SELECT clause analysis *)

Definition analyze_item (aliasToBase : gmap string string) (res : SelectAnalysis) (e : option Expr)
    : ST TranslationContext SelectAnalysis :=
  match matchAgg e aliasToBase with
  | Some ap =>
      name ← (if negb (is_empty (ap_alias ap)) then mret (ap_alias ap)
              else generateAggAlias (ap_func ap));
      let spec := mkAggSpec (ap_func ap) (if ap_is_col ap then Some (ap_col ap) else None)
                    (if negb (is_empty name) then Some name else None) (ap_is_star ap) in
      mret (mkSA true (projections res) (aggregates res ++ [mkAggName ap name]) (aggSpecs res ++ [spec]))
  | None =>
      match e with
      | Some x =>
          if isType kExprColumnRef x then
            let c := set_alias (e_alias x) (toColumnFromExpr e aliasToBase) in
            mret (mkSA (hasAgg res) (projections res ++ [c]) (aggregates res) (aggSpecs res))
          else mret res
      | None => mret res
      end
  end.

Fixpoint analyze_items (aliasToBase : gmap string string) (l : list (option Expr))
    (res : SelectAnalysis) : ST TranslationContext SelectAnalysis :=
  match l with
  | [] => mret res
  | e :: l => res' ← analyze_item aliasToBase res e; analyze_items aliasToBase l res'
  end.

Definition analyzeSelectClause (sel : SelectStatement) (aliasToBase : gmap string string)
    : ST TranslationContext SelectAnalysis :=
  analyze_items aliasToBase (default [] (selectList sel)) (mkSA false [] [] []).

(** ** Output tree construction *)

Definition map_node (ap : AggPattern) (child : LogicalPlanNode) : LogicalPlanNode :=
  set_children [Some child]
    (set_base_columns [ap_leftCol ap; ap_rightCol ap]
       (set_expression (set_arith_op (Some (if ap_is_sum_mul ap then PAO.MUL else PAO.SUB))
                          Expression_default) (new_node LNT.MAP))).

(** The loop over the aggregates, [aggIdx] being the index of the first. *)
Fixpoint applyMapNodes_from (aggs : list AggWithName) (aggIdx : nat)
    (child : LogicalPlanNode) (specs : list AggSpec) : result (LogicalPlanNode * list AggSpec) :=
  match aggs with
  | [] => Ok (child, specs)
  | a :: aggs =>
      let candidate := an_pattern a in
      if ap_is_sum_mul candidate || ap_is_sum_sub candidate then
        s ← at_index "aggSpecs[aggIdx]" specs aggIdx;
        applyMapNodes_from aggs (S aggIdx) (map_node candidate child)
          (<[aggIdx := set_input None s]> specs)
      else applyMapNodes_from aggs (S aggIdx) child specs
  end.

Definition applyMapNodes (inputRoot : LogicalPlanNode) (sa : SelectAnalysis)
    : result (LogicalPlanNode * SelectAnalysis) :=
  '(n, specs) ← applyMapNodes_from (aggregates sa) 0 inputRoot (aggSpecs sa);
  Ok (n, mkSA (hasAgg sa) (projections sa) (aggregates sa) specs).

Definition agg_output (a : AggWithName) : Column :=
  Column_ctor "" (an_name a) PTY.INTEGER
    (if negb (is_empty (ap_alias (an_pattern a))) then Some (ap_alias (an_pattern a)) else None) None.

(** Returns the root and the analysis, which the code updates in place. *)
Definition buildSelectOutputTree (inputRoot : LogicalPlanNode) (groupByCols : list Column)
    (sa : SelectAnalysis) (needsAggNode : bool) : result (LogicalPlanNode * SelectAnalysis) :=
  if negb needsAggNode then
    Ok (set_children [Some inputRoot]
          (set_projected_columns (projections sa) (new_node LNT.PROJECTION)), sa)
  else
    '(child, sa) ← applyMapNodes inputRoot sa;
    let ag := set_children [Some child]
                (set_expression (set_agg_specs (aggSpecs sa) Expression_default)
                   (set_base_columns groupByCols (new_node LNT.AGGREGATE))) in
    Ok (set_children [Some ag]
          (set_projected_columns (projections sa ++ map agg_output (aggregates sa))
             (new_node LNT.PROJECTION)), sa).

Definition same_agg_column (p : AggPattern) (col : Column) : bool :=
  (column_name (ap_col p) =s column_name col) &&
  (is_empty (table_name (ap_col p)) || is_empty (table_name col) ||
   iequals (Some (table_name (ap_col p))) (Some (table_name col))).

Definition agg_matches (f : PAF.PlanAggFunc) (isStar : bool) (col : option Column) (a : AggWithName) : bool :=
  let p := an_pattern a in
  bool_decide (ap_func p = f) &&
  ((isStar && ap_is_star p) ||
   match col with
   | Some c => ap_is_col p && same_agg_column p c
   | None => negb isStar
   end).

Definition findAggAlias (aggs : list AggWithName) (f : PAF.PlanAggFunc) (isStar : bool)
    (col : option Column) : string :=
  match List.find (agg_matches f isStar col) aggs with
  | Some a => an_name a
  | None =>
      match List.find (fun a => bool_decide (ap_func (an_pattern a) = f)) aggs with
      | Some a => an_name a
      | None => ""
      end
  end.

Definition ensureDefaultAggregate (sa : SelectAnalysis) : SelectAnalysis :=
  if negb (bool_decide (aggSpecs sa = [])) then sa
  else mkSA (hasAgg sa) (projections sa)
         (aggregates sa ++ [mkAggName (agg_star (agg_base PAF.COUNT "")) "agg"])
         (aggSpecs sa ++ [mkAggSpec PAF.COUNT None (Some "agg") true]).

(** The column one ORDER BY item sorts by. *)
Definition sort_column (aggs : list AggWithName) (aliasToBase : gmap string string) (e : Expr)
    : ST TranslationContext Column :=
  if isType kExprColumnRef e then mret (toColumnFromExpr (Some e) aliasToBase)
  else if isType kExprFunctionRef e && bool_decide (is_Some (e_name e)) then
    match matchAgg (Some e) aliasToBase with
    | Some ap =>
        let matched := findAggAlias aggs (ap_func ap) (ap_is_star ap)
                         (if ap_is_col ap then Some (ap_col ap) else None) in
        name ← (if is_empty matched then generateAggAlias (ap_func ap) else mret matched);
        mret (Column3 "" name PTY.INTEGER)
    | None => raise (Throw "Unsupported ORDER BY function")
    end
  else raise (Throw "Unsupported ORDER BY expression").

(** The ORDER BY items the loop does not skip. *)
Definition sort_items (l : list (option OrderDescription)) : list (Expr * bool) :=
  omap (fun od => match od with
                  | Some o => (fun e => (e, negb (o_desc o))) <$> o_expr o
                  | None => None
                  end) l.

Definition applySortNode (root : LogicalPlanNode) (sel : SelectStatement)
    (aggs : list AggWithName) (aliasToBase : gmap string string)
    : ST TranslationContext LogicalPlanNode :=
  match order sel with
  | None | Some [] => mret root
  | Some l =>
      let items := sort_items l in
      cols ← mapM (fun it => sort_column aggs aliasToBase it.1) items;
      if negb (bool_decide (cols = [])) then
        mret (set_children [Some root]
                (set_expression (set_sort_order (Some (map snd items)) Expression_default)
                   (set_base_columns cols (new_node LNT.SORT))))
      else mret root
  end.

(** ** Main SELECT builder *)

Definition buildPlanForSelect (iter : gmap string LogicalPlanNode -> list (string * LogicalPlanNode))
    (sel : SelectStatement) (jsonJoinOrder : list string) : ST TranslationContext LogicalPlanNode :=
  _ ← modify (fun _ => initializeSelectContext sel);
  ctx ← get;
  let aliasToBase := aliasToTable ctx in
  scanByTable ← lift (buildScanMap (fromTable sel));
  predicates ← lift (extractPredicates (whereClause sel) aliasToBase);
  current ← lift (buildSelectInputTree iter scanByTable (joinPreds predicates) jsonJoinOrder);
  let current := applySelectionPredicates current (selectionPreds predicates) in
  let groupByCols := collectGroupByColumns sel aliasToBase in
  selectAnalysis ← analyzeSelectClause sel aliasToBase;
  let needsAggNode := hasAgg selectAnalysis || negb (bool_decide (groupByCols = [])) in
  let selectAnalysis := if needsAggNode then ensureDefaultAggregate selectAnalysis else selectAnalysis in
  '(root, selectAnalysis) ← lift (buildSelectOutputTree current groupByCols selectAnalysis needsAggNode);
  root ← applySortNode root sel (aggregates selectAnalysis) aliasToBase;
  lift (applyLimitOffset root sel).

(** ** Entry point *)

(** [text.find("NaN", pos)] and its replacement, from left to right; [skip]
    counts the characters of a match still to be passed over. *)
Fixpoint sanitize_from (skip : nat) (text : string) : string :=
  match text with
  | EmptyString => EmptyString
  | String c rest =>
      match skip with
      | S skip => sanitize_from skip rest
      | O => if String.prefix "NaN" text then "null" +:+ sanitize_from 2 rest
             else String c (sanitize_from 0 rest)
      end
  end.

Definition sanitizeJsonForNaN (text : string) : string := sanitize_from 0 text.

Section translate.
(** The SQL parser and [json::parse] ([None] when it throws). *)
Variables (parse_sql : string -> SQLParserResult) (parse_json : string -> option json).
Variable iter : gmap string LogicalPlanNode -> list (string * LogicalPlanNode).

Definition parsePlanJson (opts : option json) : option json :=
  match opts with
  | Some (JString s) => parse_json (sanitizeJsonForNaN s)
  | Some (JObject _) | Some (JArray _) => opts
  | _ => None
  end.

Definition plan_statement (jsonJoinOrder : list string) (stmt : SQLStatement) : result LogicalPlanNode :=
  match stmt with
  | StmtSelect sel => fst <$> buildPlanForSelect iter sel jsonJoinOrder (mkCtx ∅ ∅)
  | StmtOther => Ok (new_node LNT.PROJECTION)
  end.

(** Without the visualisation of demo mode, which writes files. *)
Definition translateSQLToLogicalPlan (sql : string) (opts : option json)
    : result (list LogicalPlanNode) :=
  let jsonJoinOrder := match parsePlanJson opts with
                       | Some j => extractJoinOrderFromJson j
                       | None => []
                       end in
  match parse_sql sql with
  | Invalid msg line col =>
      Err (Throw ("Invalid SQL: " +:+ msg +:+ " (L" +:+ to_string line +:+ ":" +:+ to_string col +:+ ")"))
  | Valid stmts => mapR (plan_statement jsonJoinOrder) stmts
  end.

End translate.

#[global] Arguments matchAgg : simpl never.
