(* ===== verification/SelectCorrect.v ===== *)
(** * The plan of a SELECT computes its FROM and WHERE clauses

    Correctness of [SelectPlanBuilder.v]: selections and left-over join
    filters are pushed without changing the result, the input tree denotes
    the cross product of the FROM tables filtered by the WHERE clause, and
    the output layers (MAP, AGGREGATE, PROJECTION, SORT) are stacked on it. *)

From S2P Require Import Prelude PlanTypes SqlAst SchemaResolver TranslatorHelpers.
From S2P Require Import LogicalSemantics Pushdown PredicateBuilder WhereSemantics DSU JoinTree.
From S2P Require Import JoinTreeCorrect SelectPlanBuilder.

(** ** Pushing several predicates *)

Record pushes_all (n : LogicalPlanNode) (ps : list LogicalPlanNode) (n' : LogicalPlanNode) : Prop := {
  pa_wf : WfPlan n';
  pa_tabs : tabs n' = tabs n;
  pa_eval : forall value (D : engine value) t,
    t ∈ eval D n' <-> t ∈ eval D n /\ forall p, p ∈ ps -> pred_holds D p t = true;
}.

Lemma push_all_ok ps n : WfPlan n -> (forall p, p ∈ ps -> wf_pred p = true) ->
  pushes_all n ps (push_all ps n).
Proof.
  revert n. induction ps as [|p ps IH]; intros n Hn Hps.
  - split; [done|done|]. intros. set_solver.
  - destruct (pushDown_pushes n p Hn) as [Hw Ht He]; [apply Hps; set_solver|].
    destruct (IH (pushDown n p) Hw) as [Hw' Ht' He']; [intros; apply Hps; set_solver|].
    split; [done|by rewrite Ht' Ht|]. intros value D t. cbn [push_all fold_left].
    change (fold_left pushDown ps (pushDown n p)) with (push_all ps (pushDown n p)).
    rewrite He' He. setoid_rewrite elem_of_cons. naive_solver.
Qed.

Lemma applySelectionPredicates_ok ps n : WfPlan n -> (forall p, p ∈ ps -> wf_pred p = true) ->
  pushes_all n ps (applySelectionPredicates n ps).
Proof.
  intros Hn Hps. rewrite /applySelectionPredicates.
  assert (forall f p, p ∈ List.filter f ps -> p ∈ ps /\ f p = true) as Hf.
  { intros f p. by rewrite !list_elem_of_In filter_In. }
  destruct (push_all_ok (List.filter is_setop ps) n Hn) as [Hw1 Ht1 He1];
    [intros p [? _]%Hf; auto|].
  destruct (push_all_ok (List.filter (fun p => negb (is_setop p)) ps)
    (push_all (List.filter is_setop ps) n) Hw1) as [Hw2 Ht2 He2]; [intros p [? _]%Hf; auto|].
  split; [done|by rewrite Ht2 Ht1|]. intros value D t. rewrite He2 He1. split.
  - intros [[Ht H1] H2]. split; [done|]. intros p Hp. destruct (is_setop p) eqn:Hs.
    + apply H1. rewrite list_elem_of_In filter_In -list_elem_of_In. done.
    + apply H2. rewrite list_elem_of_In filter_In -list_elem_of_In Hs. done.
  - intros [Ht H]. split; [split; [done|]|]; intros p [Hp _]%Hf; auto.
Qed.

(** ** The input tree *)

Lemma as_filter_pred p : wf_pred (as_filter p) = true.
Proof. done. Qed.

Lemma pred_holds_as_filter {value} (D : engine value) p t : pred_holds D (as_filter p) t = cond D p t.
Proof. done. Qed.

Section select.
Variable iter : gmap string LogicalPlanNode -> list (string * LogicalPlanNode).
Hypothesis iter_perm : forall m, iter m ≡ₚ map_to_list m.

(** A tree that answers for the predicates, with its filters pushed into it. *)
Lemma join_input_push T preds n ex : join_input T preds n ex ->
  denotes (push_all (map as_filter ex) n) T (fun p => p ∈ preds).
Proof.
  intros (P & [Hw Ht He] & HP). destruct (push_all_ok (map as_filter ex) n Hw) as [Hw' Ht' He'].
  { intros p (q & -> & _)%list_elem_of_fmap. done. }
  split; [done|by rewrite Ht' Ht|]. intros value D t. rewrite He' He. setoid_rewrite HP. split.
  - intros [[Hr H1] H2]. split; [done|]. intros p [Hp|Hp]; [auto|].
    rewrite -(pred_holds_as_filter D p t). apply H2. by apply list_elem_of_fmap_2.
  - intros [Hr H]. split; [split; [done|auto]|]. intros p (q & -> & Hq)%list_elem_of_fmap.
    rewrite pred_holds_as_filter. auto.
Qed.

(** The join order is absent, or lists all tables and is unambiguous. *)
Definition order_usable (m : gmap string LogicalPlanNode) (jo : list string) : Prop :=
  jo = [] \/ (length (resolveJoinOrderToScans iter jo m) = size m /\ no_confusion (dom m)).

Lemma buildSelectInputTree_ok m preds jo : m <> ∅ -> scans_ok m ->
  (forall p, p ∈ preds -> join_pred (dom m) p = true) -> connected (dom m) preds ->
  order_usable m jo ->
  exists n, buildSelectInputTree iter m preds jo = Ok n /\ denotes n (dom m) (fun p => p ∈ preds).
Proof.
  intros Hne Hm Hp Hc Hjo.
  destruct (buildJoinTree_denotes iter iter_perm m preds Hne Hm Hp Hc) as (n & used & ex & Hb & Hperm & Hden).
  assert (join_input (dom m) preds n ex) as Hji.
  { exists (fun p => p ∈ used). split; [done|]. intros p. by rewrite -Hperm elem_of_app. }
  rewrite /buildSelectInputTree.
  replace (negb (bool_decide (jo = [])) && _) with false; last first.
  { destruct Hjo as [-> | [-> _]]; [done|]. by rewrite Nat.eqb_refl andb_false_r. }
  case_bool_decide as He; simpl.
  - rewrite Hb /=. eexists. split; [done|]. by apply join_input_push.
  - destruct Hjo as [-> | [Hlen HnoC]]; [by destruct He|].
    destruct (resolved_order_complete iter iter_perm jo m Hlen) as [Hnd Hset].
    destruct (buildJoinTreeFromOrder_ok m preds Hm HnoC Hp _ Hnd Hset) as (o & -> & Hspec). simpl.
    destruct o as [[n' fs]|]; simpl.
    + destruct (Hspec n' fs eq_refl) as (ex' & -> & Hji'). eexists. split; [done|]. by apply join_input_push.
    + rewrite Hb /=. eexists. split; [done|]. by apply join_input_push.
Qed.

End select.

(** ** The WHERE clause *)

Lemma extract_fold al es : forall g g',
  foldR (fun g p => n ← buildPredicateNode al (Some p); Ok (group_pred g n)) es g = Ok g' ->
  exists ns, Forall2 (fun e n => buildPredicateNode_node al e = Ok n) es ns /\
    (forall n, n ∈ joinPreds g' <-> n ∈ joinPreds g \/ (n ∈ ns /\ node_type n = LNT.JOIN)) /\
    (forall n, n ∈ selectionPreds g' <-> n ∈ selectionPreds g \/ (n ∈ ns /\ node_type n <> LNT.JOIN)).
Proof.
  induction es as [|e es IH]; intros g g' H; simpl in H.
  - injection H as <-. exists []. split; [constructor|]. set_solver.
  - apply bind_ok in H as (g1 & H1 & H). apply bind_ok in H1 as (n & Hn & [= <-]).
    apply IH in H as (ns & Hall & Hj & Hs). exists (n :: ns). split; [by constructor|].
    setoid_rewrite Hj. setoid_rewrite Hs. setoid_rewrite elem_of_cons.
    rewrite /group_pred. case_bool_decide as Hty; simpl; setoid_rewrite elem_of_app;
      setoid_rewrite list_elem_of_singleton; naive_solver.
Qed.

(** Every conjunct is in exactly the group its node type selects, and the
    groups contain nothing else. *)
Lemma extractPredicates_ok w al g : extractPredicates w al = Ok g ->
  exists ns, Forall2 (fun e n => buildPredicateNode_node al e = Ok n) (splitConjuncts w) ns /\
    (forall n, n ∈ joinPreds g <-> n ∈ ns /\ node_type n = LNT.JOIN) /\
    (forall n, n ∈ selectionPreds g <-> n ∈ ns /\ node_type n <> LNT.JOIN).
Proof.
  intros (ns & Hall & Hj & Hs)%extract_fold. exists ns. split; [done|].
  setoid_rewrite Hj. setoid_rewrite Hs. simpl. split; intros n; set_solver.
Qed.

Lemma selection_preds_wf w al g : extractPredicates w al = Ok g ->
  (forall p, p ∈ selectionPreds g -> wf_pred p = true) /\
  (forall p, p ∈ joinPreds g -> wf_join_pred p = true).
Proof.
  intros (ns & Hall & Hj & Hs)%extractPredicates_ok.
  assert (forall n, n ∈ ns -> wf_join_pred n = true \/ wf_pred n = true) as Hsh.
  { intros n Hn. destruct (Forall2_elem_r _ _ _ _ Hall Hn) as (e & _ & He).
    by eapply buildPredicateNode_shape. }
  split; intros p Hp; [apply Hs in Hp|apply Hj in Hp]; destruct Hp as [Hp Hty];
    destruct (Hsh p Hp) as [H|H]; try done.
  - exfalso. apply Hty. rewrite /wf_join_pred in H. repeat apply andb_true_iff in H as [H ?].
    by apply bool_decide_eq_true in H.
  - exfalso. destruct (wf_pred_cases p H) as [H'|(? & H' & _)]; congruence.
Qed.

(** The WHERE clause, when there is one. *)
Definition sql_where {value} (D : engine value) (al : gmap string string) (w : option Expr) (t : tuple) : bool :=
  match w with Some e => sql_holds D al e t | None => true end.

Definition plain_where (w : option Expr) : bool :=
  match w with Some e => plain e && named e | None => true end.

(** The engine evaluates IN as the disjunction of its equalities. *)
Definition in_is_disjunction {value} (D : engine value) : Prop :=
  forall vs args, holds D (in_expr vs) args = existsb (fun v => holds D (eq_expr v) args) vs.

Lemma conjuncts_meaning {value} (D : engine value) al w g t : in_is_disjunction D ->
  plain_where w = true -> extractPredicates w al = Ok g ->
  sql_where D al w t = true <->
  (forall p, p ∈ joinPreds g -> cond D p t = true) /\
  (forall p, p ∈ selectionPreds g -> pred_holds D p t = true).
Proof.
  intros HIN Hw (ns & Hall & Hj & Hs)%extractPredicates_ok.
  assert (sql_where D al w t = forallb (fun c => where_holds D al c t) (splitConjuncts w)) as ->.
  { destruct w as [e|]; [|done]. apply andb_true_iff in Hw as [Hp Hn]. simpl.
    rewrite splitConjuncts_meaning. symmetry. by apply where_sql. }
  assert (forall p, p ∈ joinPreds g -> pred_holds D p t = cond D p t) as Hjc.
  { intros p [_ Hty]%Hj. by rewrite /pred_holds bool_decide_false // Hty. }
  assert (forall c, c ∈ splitConjuncts w -> named c = true) as Hnm.
  { destruct w as [e|]; [|set_solver]. apply andb_true_iff in Hw as [_ Hn]. by apply all_refs_conjuncts. }
  transitivity (forall n, n ∈ ns -> pred_holds D n t = true).
  - clear Hj Hs Hjc. induction Hall as [|e n es ns He _ IH]; [set_solver|]. simpl.
    rewrite -(buildPredicateNode_meaning D al HIN e n) //; [|apply Hnm; set_solver].
    rewrite andb_true_iff IH; [|intros; apply Hnm; set_solver]. setoid_rewrite elem_of_cons. naive_solver.
  - split.
    + intros H. split; [intros p Hp; rewrite -Hjc //; apply H; by apply Hj|intros p [Hp _]%Hs; auto].
    + intros [H1 H2] n Hn. destruct (decide (node_type n = LNT.JOIN)) as [Hty|Hty].
      * rewrite Hjc; [apply H1|]; by apply Hj.
      * apply H2. by apply Hs.
Qed.

(** The input tree computes FROM and WHERE. *)
Definition computes {value} (D : engine value) (al : gmap string string) (T : gset string)
    (w : option Expr) (n : LogicalPlanNode) : Prop :=
  WfPlan n /\ tabs n = T /\
  forall t, t ∈ eval D n <-> rows D T t /\ sql_where D al w t = true.

Section input.
Variable iter : gmap string LogicalPlanNode -> list (string * LogicalPlanNode).
Hypothesis iter_perm : forall m, iter m ≡ₚ map_to_list m.

Lemma select_input_ok {value} (D : engine value) al w m g jo : in_is_disjunction D ->
  m <> ∅ -> scans_ok m -> plain_where w = true -> extractPredicates w al = Ok g ->
  (forall p, p ∈ joinPreds g -> join_pred (dom m) p = true) -> connected (dom m) (joinPreds g) ->
  order_usable iter m jo ->
  exists n, buildSelectInputTree iter m (joinPreds g) jo = Ok n /\
    computes D al (dom m) w (applySelectionPredicates n (selectionPreds g)).
Proof.
  intros HIN Hne Hm Hw Hg Hp Hc Hjo.
  destruct (buildSelectInputTree_ok iter iter_perm m (joinPreds g) jo Hne Hm Hp Hc Hjo) as (n & Hn & [Hwf Htb He]).
  exists n. split; [done|].
  destruct (applySelectionPredicates_ok (selectionPreds g) n Hwf) as [Hwf' Htb' He'];
    [by eapply selection_preds_wf|].
  split; [done|]. split; [by rewrite Htb'|]. intros t. rewrite He' He.
  rewrite (conjuncts_meaning D al w g) //. tauto.
Qed.
End input.
