(* ===== verification/PlanArity.v ===== *)
(** * Arities and columns of the plans the translator builds

    Every FILTER has a column, every JOIN two, both have a comparison, and every
    UNION has at least two branches: what the physical optimizer indexes into without checking.  And
    every column of a plan satisfies [okc], any property that the columns of
    the statement's column references and columns without a table have.  Both
    hold from the predicate builders through pushdown and the two join-tree
    builders to the input tree of a SELECT. *)

From S2P Require Import Prelude PlanTypes SqlAst SchemaResolver TranslatorHelpers.
From S2P Require Import LogicalSemantics Pushdown PredicateBuilder WhereSemantics DSU JoinTree JoinTreeCorrect SelectPlanBuilder SelectCorrect.

Section arity.
Variable okc : Column -> bool.

Definition spec_ok (sp : AggSpec) : bool := from_option okc true (input sp).

Definition cols_ok (n : LogicalPlanNode) : bool :=
  forallb okc (base_columns n) && forallb okc (projected_columns n) && forallb spec_ok (agg_specs (expression n)).

Definition has_comp (n : LogicalPlanNode) : bool := bool_decide (is_Some (comp_type (expression n))).

Definition local_ok (n : LogicalPlanNode) : bool :=
  cols_ok n &&
  match node_type n with
  | LNT.FILTER => negb (bool_decide (base_columns n = [])) && has_comp n
  | LNT.JOIN => (2 <=? length (base_columns n)) && has_comp n
  | LNT.SETOPERATION => 2 <=? length (children n)
  | _ => true
  end.

Inductive Arity (n : LogicalPlanNode) : Prop :=
  | ArityNode : local_ok n = true -> (forall c, Some c ∈ children n -> Arity c) -> Arity n.

Lemma Arity_local n : Arity n -> local_ok n = true.
Proof. by intros []. Qed.

Lemma Arity_child n c : Arity n -> Some c ∈ children n -> Arity c.
Proof. intros [_ H]. apply H. Qed.

Definition filter_ok (p : LogicalPlanNode) : bool :=
  is_filter p && (negb (bool_decide (base_columns p = [])) && has_comp p) && cols_ok p.

(** The predicates that are pushed. *)
Definition pred_ok (p : LogicalPlanNode) : bool :=
  filter_ok p ||
  (cols_ok p && is_union p && (2 <=? length (children p)) &&
   forallb (fun c => match c with Some c => filter_ok c | None => false end) (children p)).

Lemma filter_ok_spec p : filter_ok p = true <->
  (node_type p = LNT.FILTER /\ base_columns p <> [] /\ has_comp p = true) /\ cols_ok p = true.
Proof. rewrite /filter_ok /is_filter !andb_true_iff negb_true_iff bool_decide_eq_true bool_decide_eq_false. done. Qed.

Lemma pred_ok_cases p : pred_ok p = true -> filter_ok p = true \/
  exists cs, cols_ok p = true /\ is_union p = true /\ children p = map Some cs /\ 2 <= length cs /\
    (forall c, c ∈ cs -> filter_ok c = true).
Proof.
  rewrite /pred_ok. intros [H|[[[Hc Hu]%andb_true_iff Hl%Nat.leb_le]%andb_true_iff Hf]%andb_true_iff]%orb_true_iff; [by left|right].
  apply forallb_Some in Hf as (cs & Hcs & Hall). exists cs. split_and!; [done|done|done| |done].
  by rewrite Hcs length_map in Hl.
Qed.

Lemma is_union_type n : is_union n = true -> node_type n = LNT.SETOPERATION.
Proof. rewrite /is_union. by intros [?%bool_decide_eq_true _]%andb_true_iff. Qed.

(** ** Pushdown *)

Lemma Arity_filter p n : filter_ok p = true -> Arity n -> Arity (set_children [Some n] p).
Proof.
  intros [(Ht & Hb & Hcmp) Hc]%filter_ok_spec Hn. constructor; simpl.
  - rewrite /local_ok /= Ht. apply andb_true_iff. split; [done|]. apply andb_true_iff. split; [|done].
    by apply negb_true_iff, bool_decide_eq_false.
  - by intros c [= ->]%list_elem_of_singleton.
Qed.

Lemma attachPredicate_arity n p : Arity n -> pred_ok p = true -> Arity (attachPredicate n p).
Proof.
  intros Hn Hp. rewrite /attachPredicate clonePredicateTemplate_type /clonePredicateTemplate_node.
  destruct (pred_ok_cases p Hp) as [Hok|(cs & Hco & Hu & Hch & Hl & Hf)].
  - pose proof (proj1 (filter_ok_spec p) Hok) as [[Ht _] _]. rewrite Ht /=. by apply Arity_filter.
  - pose proof (is_union_type p Hu) as Ht. rewrite Ht /= Hch !omap_id_map_Some. constructor.
    + rewrite /local_ok /= Ht !length_map. apply andb_true_iff. split; [done|]. by apply (Nat.leb_le 2 (length cs)).
    + simpl. rewrite List.map_map. intros c (x & [= ->] & Hx)%list_elem_of_fmap. rewrite clonePlanSubtree_id.
      apply (Arity_filter x n); [by apply Hf|done].
Qed.

Lemma pred_ok_template p : pred_ok p = true -> node_type p <> LNT.SETOPERATION ->
  pred_ok (clonePredicateTemplate_node p) = true.
Proof.
  intros Hp Ht. rewrite /clonePredicateTemplate_node bool_decide_eq_false_2 //=.
  destruct (pred_ok_cases p Hp) as [Hf|(cs & _ & Hu & _)]; [|by apply is_union_type in Hu].
  apply orb_true_iff. by left.
Qed.

Lemma pushDown_arity n : forall p, Arity n -> pred_ok p = true -> Arity (pushDown n p).
Proof.
  induction n as [n IH] using LogicalPlanNode_child_ind. intros p Hn Hp.
  pose proof (attachPredicate_arity n p Hn Hp) as Hatt. pose proof (Arity_local n Hn) as Hloc.
  assert (forall c, Some c ∈ children n -> Arity (pushDown c p)) as Hpush.
  { intros c Hc. apply IH; [done|exact (Arity_child _ _ Hn Hc)|done]. }
  destruct n as [ty st bc ex pc ch]. cbn [pushDown].
  destruct (is_union _ && _) eqn:Hu.
  { apply andb_true_iff in Hu as [Hu Hns%negb_true_iff%bool_decide_eq_false]. constructor; simpl.
    - apply is_union_type in Hu. simpl in Hu. subst ty. by rewrite /local_ok /= length_map.
    - intros c (o & Ho & Hin)%list_elem_of_fmap. destruct o as [d|]; [|done]. injection Ho as ->.
      apply IH; [done|exact (Arity_child _ _ Hn Hin)|by apply pred_ok_template]. }
  set (n := {| node_type := ty |}) in *.
  set (att := attachPredicate n p) in *. clearbody att.
  destruct (bool_decide (getPredicateTables_node p = ∅)); [exact Hatt|].
  destruct (bool_decide (_ = LNT.SCAN) && _); [exact Hatt|].
  subst n. cbn [node_type children] in *.
  destruct ty; try exact Hatt.
  - destruct ch as [|c rest]; [exact Hatt|]. constructor; [exact Hloc|]. simpl.
    intros d [Hd|Hd]%elem_of_cons; [|apply (Arity_child _ _ Hn); simpl; by right].
    destruct c as [c|]; [|discriminate]. injection Hd as ->. apply Hpush. by left.
  - destruct ch as [|l [|r [|]]]; try exact Hatt.
    destruct (isSubset _ _); [|destruct (isSubset _ _); [|exact Hatt]]; (constructor; [exact Hloc|]); simpl.
    + intros d [Hd|Hd]%elem_of_cons; [|apply (Arity_child _ _ Hn); simpl; by right].
      destruct l as [l|]; [|discriminate]. injection Hd as ->. apply Hpush. by left.
    + intros d [Hd|Hd%list_elem_of_singleton]%elem_of_cons; [apply (Arity_child _ _ Hn); simpl; rewrite Hd; by left|].
      destruct r as [r|]; [|discriminate]. injection Hd as ->. apply Hpush. right. by left.
Qed.

Lemma push_all_arity ps : forall n, Arity n -> (forall p, p ∈ ps -> pred_ok p = true) -> Arity (push_all ps n).
Proof.
  induction ps as [|p ps IH]; intros n Hn Hp; [done|]. simpl. apply IH; [|intros; apply Hp; set_solver].
  apply pushDown_arity; [done|]. apply Hp. set_solver.
Qed.

Lemma applySelectionPredicates_arity ps n : Arity n -> (forall p, p ∈ ps -> pred_ok p = true) ->
  Arity (applySelectionPredicates n ps).
Proof.
  intros Hn Hp. assert (forall f p, p ∈ List.filter f ps -> pred_ok p = true) as Hf.
  { intros f p Hin. apply Hp. apply list_elem_of_In, filter_In in Hin as [Hin _]. by apply list_elem_of_In. }
  rewrite /applySelectionPredicates. apply push_all_arity; [apply push_all_arity; [done|]|]; apply Hf.
Qed.

(** ** Predicate nodes *)

Section refs.
Variable al : gmap string string.
Hypothesis okc_none : forall c, table_name c = "" -> okc c = true.
Definition ref_ok (e : Expr) : bool := okc (toColumnFromExpr (Some e) al).
Abbreviation refs_ok := (all_refs ref_ok).

Lemma column_ok e : refs_ok e = true -> okc (toColumnFromExpr (Some e) al) = true.
Proof.
  intros He. pose proof (all_refs_unwrap ref_ok e) as Hu. rewrite {1}/toColumnFromExpr.
  destruct (unwrapSimpleFunction (Some e)) as [x|]; [|by apply okc_none].
  destruct (isType kExprColumnRef x) eqn:Hx; [|by apply okc_none].
  pose proof (all_refs_here ref_ok x (Hu x He eq_refl) Hx) as H. rewrite /ref_ok /toColumnFromExpr in H.
  assert (unwrapSimpleFunction (Some x) = Some x) as E.
  { rewrite /unwrapSimpleFunction /isType. apply bool_decide_eq_true in Hx. by rewrite Hx. }
  by rewrite E Hx in H.
Qed.

(** The operand of a predicate, unwrapped. *)
Lemma operand_ok o : (forall e, o = Some e -> refs_ok e = true) ->
  okc (toColumnFromExpr (unwrapSimpleFunction o) al) = true.
Proof.
  intros Ho. destruct o as [e|]; [|by apply okc_none].
  destruct (unwrapSimpleFunction (Some e)) as [x|] eqn:Hx; [|by apply okc_none].
  apply column_ok. eapply all_refs_unwrap; [by apply Ho|done].
Qed.

Lemma filter_node_ok cmp cols vals : cols <> [] -> forallb okc cols = true -> filter_ok (filter_node cmp cols vals) = true.
Proof.
  intros Hne Hc. apply filter_ok_spec. split; [by split_and!|]. by rewrite /cols_ok /= Hc.
Qed.

Lemma filter_pred_ok p : filter_ok p = true -> pred_ok p = true.
Proof. rewrite /pred_ok. by intros ->. Qed.

Lemma collectOr_column e : refs_ok e = true -> forall c0 vs0 c vs, okc c0 = true ->
  collectOrEqualsSameColumn_node al e c0 vs0 = Ok (Some (c, vs)) -> okc c = true.
Proof.
  induction e as [e IH1 IH2] using Expr_operand_ind. intros He c0 vs0 c vs H0 H.
  pose proof (all_refs_operand ref_ok e) as Hop. destruct (is_op kOpOr e) eqn:Ho.
  - apply collectOr_or_inv in H as (a & b & c1 & vs1 & Ha & Hb & H1 & H2); [|done].
    eapply (IH2 b Hb); [by eapply Hop; [|right]| |exact H2].
    eapply (IH1 a Ha); [by eapply Hop; [|left]|exact H0|exact H1].
  - apply collectOr_eq_inv in H as (_ & a & b & ce & v & x & Ha & Hb & Hside & _ & _ & -> & _); [|done].
    destruct (unset c0); [|done].
    destruct (all_refs_column_side ref_ok a b ce (Some v) (Hop a He (or_introl Ha)) (Hop b He (or_intror Hb)) Hside) as [[Hc _] _].
    by apply column_ok.
Qed.

Definition join_pred_ok (p : LogicalPlanNode) : bool :=
  bool_decide (node_type p = LNT.JOIN) && ((2 <=? length (base_columns p)) && has_comp p) && cols_ok p.

Lemma leaves_ok n : pred_ok n = true \/ join_pred_ok n = true -> collectUnionLeaves_node n <> [] /\
  forall x, x ∈ collectUnionLeaves_node n -> is_filter x = true -> filter_ok x = true.
Proof.
  assert (forall x, node_type x <> LNT.SETOPERATION -> collectUnionLeaves_node x = [x]) as Hleaf.
  { intros [ty st bc ex pc ch] Ht. simpl in *. rewrite /is_union /=. by rewrite bool_decide_false. }
  intros [Hp|[[Hj%bool_decide_eq_true _]%andb_true_iff _]%andb_true_iff].
  - destruct (pred_ok_cases n Hp) as [Hf|(cs & _ & Hu & Hch & Hl & Hf)].
    + pose proof (proj1 (filter_ok_spec n) Hf) as [[Ht _] _]. rewrite Hleaf; [|congruence]. split; [done|].
      by intros x ->%list_elem_of_singleton.
    + assert (collectUnionLeaves_node n = cs) as ->.
      { destruct n as [ty st bc ex pc ch]. cbn [collectUnionLeaves_node children] in *. rewrite Hu Hch.
        clear -Hf Hleaf. induction cs as [|c cs IH]; [done|]. simpl. rewrite IH; [|intros; apply Hf; set_solver].
        assert (filter_ok c = true) as [[Ht _] _]%filter_ok_spec by (apply Hf; set_solver). by rewrite Hleaf // Ht. }
      split; [by destruct cs; [simpl in Hl; lia|]|]. intros x Hx _. by apply Hf.
  - rewrite Hleaf; [|congruence]. split; [done|]. intros x ->%list_elem_of_singleton.
    rewrite /is_filter. intros H%bool_decide_eq_true. congruence.
Qed.

Lemma union_ok l r : (pred_ok l = true \/ join_pred_ok l = true) -> (pred_ok r = true \/ join_pred_ok r = true) ->
  let leaves := collectUnionLeaves_node l ++ collectUnionLeaves_node r in
  allLeavesSameTable leaves = true ->
  pred_ok (set_children (map Some leaves)
             (set_expression (set_logical_rel_op (Some PRO.UNION) Expression_default)
                (new_node LNT.SETOPERATION))) = true.
Proof.
  intros [Hl1 Hl2]%leaves_ok [Hr1 Hr2]%leaves_ok leaves Hall. apply orb_true_iff. right.
  rewrite [children _]/= length_map. apply andb_true_iff. split.
  - apply (Nat.leb_le 2). rewrite /leaves length_app. destruct (collectUnionLeaves_node l), (collectUnionLeaves_node r); simpl; done || lia.
  - rewrite /allLeavesSameTable in Hall. destruct (allLeavesSameTable_from leaves "") as [t|] eqn:Ht; [|done].
    apply forallb_Some. exists leaves. split; [done|]. intros x Hx. pose proof (allLeaves_filters _ _ _ Ht x Hx) as Hf.
    apply elem_of_app in Hx as [Hx|Hx]; auto.
Qed.

Lemma comparison_ok e n : refs_ok e = true -> build_comparison_or_throw e al = Ok n -> pred_ok n = true.
Proof.
  intros He. rewrite /build_comparison_or_throw. pose proof (all_refs_operand ref_ok e) as Hop.
  destruct (isType kExprOperator e); [|done]. destruct (e_expr e) as [a|] eqn:Ha; [|done].
  destruct (e_expr2 e) as [b|] eqn:Hb; [|done]. destruct (mapCompOp _) as [cmp|]; [|done].
  intros ([m|] & H & [= <-])%bind_ok. rewrite /buildComparisonPredicate Ha Hb in H.
  pose proof (unwrapStringOp_snd (Some a)) as H1. pose proof (unwrapStringOp_snd (Some b)) as H2.
  destruct (unwrapStringOp (Some a)) as [lo L], (unwrapStringOp (Some b)) as [ro R]. simpl in H1, H2. subst L R.
  apply bind_ok in H as ([[c v]|] & Hs & H); [|done]. apply bind_ok in H as (lit & Hlit & H).
  destruct v as [v|]; [|done]. simpl in Hlit. injection Hlit as <-.
  destruct (all_refs_column_side ref_ok a b c (Some v) (Hop a He (or_introl eq_refl)) (Hop b He (or_intror eq_refl)) Hs) as [[Hc _] Hv].
  specialize (Hv v eq_refl).
  assert (forallb okc [toColumnFromExpr (Some c) al; toColumnFromExpr (Some v) al] = true) as Hcols.
  { simpl. by rewrite !column_ok. }
  destruct (isType kExprColumnRef v); injection H as <-; apply filter_pred_ok, filter_ok_spec;
    (split; [done|]); rewrite /cols_ok /=; simpl in Hcols; repeat (apply andb_true_iff in Hcols as [? Hcols]);
    repeat (apply andb_true_iff; split); done.
Qed.

Lemma buildPredicateNode_arity e : refs_ok e = true -> forall n, buildPredicateNode_node al e = Ok n ->
  pred_ok n = true \/ join_pred_ok n = true.
Proof.
  induction e as [e IH1 IH2] using Expr_operand_ind. intros He n. pose proof (all_refs_operand ref_ok e) as Hop.
  pose proof (comparison_ok e n He) as Hcmp. pose proof (collectOr_column e He) as Hor.
  assert (forall o, o = e_expr e \/ o = e_expr2 e -> okc (toColumnFromExpr (unwrapSimpleFunction o) al) = true) as Hcol.
  { intros o Ho. apply operand_ok. intros x ->. apply (Hop x He). by destruct Ho; [left|right]. }
  pose proof (Hcol _ (or_introl eq_refl)) as Hc1. pose proof (Hcol _ (or_intror eq_refl)) as Hc2.
  destruct e as [ty op e1 e2 el nm tb a iv fv sel]. cbn [buildPredicateNode_node e_expr e_expr2] in *.
  case_match; [|case_match].
  - rewrite /buildInPredicate. cbn [e_expr]. intros H0. left.
    destruct (unwrapSimpleFunction e1) as [x|]; [|done]. repeat case_match; try done. inv_ok.
    apply filter_pred_ok, filter_node_ok; [done|]. by rewrite /= Hc1.
  - intros [(c & v & vs & H1 & ->)|(l & r & H1 & H2 & _ & Hall & ->)]%buildOrPredicate_inv; left.
    + apply filter_pred_ok, filter_node_ok; [done|]. rewrite /= andb_true_r. refine (Hor Column_default [] c (v :: vs) _ H1); by apply okc_none.
    + destruct e1 as [x|], e2 as [y|]; try done. apply union_ok; [| |exact Hall].
      * eapply IH1; [done|by eapply Hop; [|left]|done].
      * eapply IH2; [done|by eapply Hop; [|right]|done].
  - destruct (is_join_predicate _) as [[]|]; [|case_match|done].
    + intros [= <-]. right. rewrite /join_pred_ok /cols_ok /=. by rewrite Hc1 Hc2.
    + intros [= <-]. left. apply filter_pred_ok, filter_node_ok; [done|]. by rewrite /= Hc1.
    + intros Hn%Hcmp. by left.
Qed.

End refs.

(** ** Join trees *)

Lemma Arity_scan t : Arity (scan_node t).
Proof. constructor; [done|]. by intros c ?%not_elem_of_nil. Qed.

Lemma join_pred_ok_spec p : join_pred_ok p = true <->
  node_type p = LNT.JOIN /\ (2 <= length (base_columns p) /\ has_comp p = true) /\ cols_ok p = true.
Proof. rewrite /join_pred_ok !andb_true_iff bool_decide_eq_true Nat.leb_le. tauto. Qed.

Lemma Arity_new_join p l r : join_pred_ok p = true -> (forall n, l = Some n -> Arity n) -> (forall n, r = Some n -> Arity n) ->
  Arity (new_join p l r).
Proof.
  intros (_ & [Hl Hcmp] & [[Hc _]%andb_true_iff _]%andb_true_iff)%join_pred_ok_spec HL HR. constructor; simpl.
  - rewrite /local_ok /cols_ok /= Hc /=. apply andb_true_iff. split; [by apply (Nat.leb_le 2)|exact Hcmp].
  - intros c [<-|<-%list_elem_of_singleton]%elem_of_cons; auto.
Qed.

Lemma as_filter_ok p : join_pred_ok p = true -> pred_ok (as_filter p) = true.
Proof.
  intros (_ & [Hl Hcmp] & Hc)%join_pred_ok_spec. apply filter_pred_ok, filter_ok_spec. split; [|done].
  split_and!; [done| |exact Hcmp].
  simpl. by destruct (base_columns p); [simpl in Hl; lia|].
Qed.

Definition tree_ok (tree : gmap string (option LogicalPlanNode)) : Prop :=
  forall r n, tree !! r = Some (Some n) -> Arity n.

Lemma tree_at_ok tree r n : tree_ok tree -> tree_at tree r = Some n -> Arity n.
Proof. rewrite /tree_at. intros Ht H. destruct (tree !! r) as [o|] eqn:E; [|done]. simpl in H. subst o. by eapply Ht. Qed.

Lemma join_step_arity st jp st' : tree_ok (jt_tree st) -> (forall p, p ∈ jt_extra st -> pred_ok p = true) ->
  join_pred_ok jp = true -> join_step st (Some jp) = Ok st' ->
  tree_ok (jt_tree st') /\ forall p, p ∈ jt_extra st' -> pred_ok p = true.
Proof.
  intros Ht He Hjp. rewrite /join_step. destruct (base_columns jp) as [|c1 [|c2 [|]]]; try (by intros [= <-]).
  destruct (comp_type _); [|by intros [= <-]]. case_match; [done|]. intros H0.
  apply bind_ok in H0 as ([r1 d1] & _ & H0). apply bind_ok in H0 as ([r2 d2] & _ & H0). case_match.
  - injection H0 as <-. split; [done|]. simpl. intros q [Hq| ->%list_elem_of_singleton]%elem_of_app; [auto|].
    by apply as_filter_ok.
  - apply bind_ok in H0 as ([u d3] & _ & H0). apply bind_ok in H0 as ([rep d4] & _ & [= <-]). split; [|done].
    simpl. intros r n. rewrite lookup_insert_Some !lookup_delete_Some. intros [[_ [= <-]]|(_ & _ & _ & Hr)]; [|by eapply Ht].
    apply Arity_new_join; [done|..]; intros n' Hn'; by eapply tree_at_ok.
Qed.

Lemma join_steps_arity preds : forall st st', (forall p, p ∈ preds -> join_pred_ok p = true) ->
  tree_ok (jt_tree st) -> (forall p, p ∈ jt_extra st -> pred_ok p = true) ->
  foldR join_step (map Some preds) st = Ok st' ->
  tree_ok (jt_tree st') /\ forall p, p ∈ jt_extra st' -> pred_ok p = true.
Proof.
  induction preds as [|p preds IH]; intros st st' Hp Ht He H; simpl in H; [by injection H as <-|].
  apply bind_ok in H as (st1 & H1 & H). destruct (join_step_arity st p st1) as [Ht1 He1]; [done|done|apply Hp; set_solver|done|].
  eapply IH; [intros; apply Hp; set_solver|exact Ht1|exact He1|exact H].
Qed.

Section trees.
Variable iter : gmap string LogicalPlanNode -> list (string * LogicalPlanNode).
Hypothesis iter_perm : forall m, iter m ≡ₚ map_to_list m.

Lemma fold_tree_ok (l : list (string * LogicalPlanNode)) : forall tree, (forall kv, kv ∈ l -> Arity kv.2) -> tree_ok tree ->
  tree_ok (fold_left (fun m kv => <[kv.1 := Some kv.2]> m) l tree).
Proof.
  induction l as [|kv l IH]; intros tree Hl Ht; [done|]. simpl. apply IH; [intros; apply Hl; set_solver|].
  intros r n. rewrite lookup_insert_Some. intros [[_ [= <-]]|[_ Hr]]; [apply Hl; set_solver|by eapply Ht].
Qed.

Lemma buildJoinTree_arity m preds n ex : scans_ok m -> (forall p, p ∈ preds -> join_pred_ok p = true) ->
  buildJoinTree iter m (map Some preds) [] = Ok (n, ex) -> Arity n /\ forall p, p ∈ ex -> pred_ok p = true.
Proof.
  intros Hm Hp. rewrite /buildJoinTree. case_bool_decide; [done|]. intros (st & Hst & H0)%bind_ok.
  apply bind_ok in H0 as ([rep d] & _ & H0). destruct (jt_tree st !! rep) as [[n'|]|] eqn:Hr; [|done..].
  injection H0 as <- <-. eapply join_steps_arity in Hst as [Ht He]; [split; [by eapply Ht|exact He]|done| |].
  - apply fold_tree_ok; [|by intros ? ? ?%lookup_empty_Some]. intros [k s]. rewrite iter_perm elem_of_map_to_list.
    intros [_ ->]%Hm. apply Arity_scan.
  - by intros p ?%not_elem_of_nil.
Qed.

Lemma order_loop_arity m preds : scans_ok m -> (forall p, p ∈ preds -> join_pred_ok p = true) ->
  forall rest current joined used n used', Arity current ->
  order_loop m (map Some preds) rest current joined used = Ok (Some (n, used')) -> Arity n.
Proof.
  intros Hm Hp. induction rest as [|nm rest IH]; intros current joined used n used' Hc; cbn [order_loop]; [by intros [= <- _]|].
  destruct (m !! nm) as [s|] eqn:Hs; [|done]. destruct (first_connecting _ _ _ _ 0) as [i|]; [|done].
  intros (jp & Hjp & H)%bind_ok. eapply IH; [|exact H]. destruct (Hm nm s Hs) as [_ ->].
  rewrite list_lookup_fmap in Hjp. destruct (preds !! i) as [p|] eqn:Hi; [|done]. simpl in Hjp. injection Hjp as <-.
  apply Arity_new_join; [by eapply Hp, list_elem_of_lookup_2|by intros ? [= <-]|intros ? [= <-]; apply Arity_scan].
Qed.

Lemma unused_filters_arity preds : (forall p, p ∈ preds -> join_pred_ok p = true) ->
  forall used fs, unused_filters (map Some preds) used = Ok fs -> forall p, p ∈ fs -> pred_ok p = true.
Proof.
  intros Hp. induction preds as [|q preds IH]; intros [|u used] fs; simpl; try (by intros [= <-] p ?%not_elem_of_nil).
  assert (forall p, p ∈ preds -> join_pred_ok p = true) as Hp' by (intros; apply Hp; set_solver).
  destruct u; [by apply IH|]. intros (fs' & Hf & [= <-])%bind_ok p [->|Hin]%elem_of_cons; [|by eapply IH].
  apply as_filter_ok, Hp. set_solver.
Qed.

Lemma buildSelectInputTree_arity m preds jo n : scans_ok m -> (forall p, p ∈ preds -> join_pred_ok p = true) ->
  buildSelectInputTree iter m preds jo = Ok n -> Arity n.
Proof.
  intros Hm Hp. rewrite /buildSelectInputTree. case_match; [done|]. intros (o & Ho & H1)%bind_ok.
  apply bind_ok in H1 as ([cur ex] & Hcur & [= <-]).
  assert (Arity cur /\ forall p, p ∈ ex -> pred_ok p = true) as [Hc He]; [|by apply push_all_arity].
  destruct o as [[n' fs]|]; [|by eapply buildJoinTree_arity]. injection Hcur as <- <-.
  case_match; [|done]. rewrite /buildJoinTreeFromOrder in Ho.
  destruct (resolveJoinOrderToScans iter jo m) as [|x [|y rest]]; [discriminate Ho|discriminate Ho|].
  destruct (m !! x) as [s|] eqn:Hs; [|done]. apply bind_ok in Ho as ([[c used]|] & Hol & Ho); [|done].
  apply bind_ok in Ho as (ex' & Hex & [= -> ->]). split; [|by eapply unused_filters_arity].
  eapply order_loop_arity; [done|done| |exact Hol]. destruct (Hm x s Hs) as [_ ->]. apply Arity_scan.
Qed.

(** The input tree of a SELECT. *)
Lemma select_input_arity al w m g jo n : (forall c, table_name c = "" -> okc c = true) -> scans_ok m ->
  from_option (all_refs (ref_ok al)) true w = true -> extractPredicates w al = Ok g ->
  buildSelectInputTree iter m (joinPreds g) jo = Ok n -> Arity (applySelectionPredicates n (selectionPreds g)).
Proof.
  intros Hnone Hm Hw (ns & Hall & Hj & Hs)%extractPredicates_ok Hn.
  assert (forall n, n ∈ ns -> pred_ok n = true \/ join_pred_ok n = true) as Hns.
  { intros x Hx. destruct (Forall2_elem_r _ _ _ _ Hall Hx) as (e & He & Hb). eapply (buildPredicateNode_arity al Hnone e); [|done].
    destruct w as [e0|]; [|by apply not_elem_of_nil in He]. by eapply all_refs_conjuncts. }
  apply applySelectionPredicates_arity.
  - eapply buildSelectInputTree_arity; [exact Hm| |exact Hn]. intros p [Hp Ht]%Hj.
    destruct (Hns p Hp) as [H|H]; [|done]. destruct (pred_ok_cases p H) as [[[? _] _]%filter_ok_spec|(? & _ & ?%is_union_type & _)]; congruence.
  - intros p [Hp Ht]%Hs. destruct (Hns p Hp) as [H|[H _]%join_pred_ok_spec]; [done|congruence].
Qed.

End trees.

End arity.
