(* ===== verification/SelectOutput.v ===== *)
(** * Output layers of a SELECT plan

    The SELECT list, aggregates, ORDER BY and LIMIT of
    [SelectPlanBuilder.cpp], and the plan of a whole statement. *)

From S2P Require Import Prelude PlanTypes SqlAst SchemaResolver TranslatorHelpers.
From S2P Require Import LogicalSemantics Pushdown PredicateBuilder WhereSemantics DSU JoinTree.
From S2P Require Import JoinTreeCorrect SelectPlanBuilder SelectCorrect.

(** ** Aggregates and their specifications stay aligned *)

Definition spec_of (a : AggWithName) (s : AggSpec) : Prop :=
  func s = ap_func (an_pattern a) /\ is_star s = ap_is_star (an_pattern a) /\
  result_alias s = (if negb (is_empty (an_name a)) then Some (an_name a) else None) /\
  (input s = if ap_is_col (an_pattern a) then Some (ap_col (an_pattern a)) else None).

Definition aligned (sa : SelectAnalysis) : Prop :=
  Forall2 spec_of (aggregates sa) (aggSpecs sa) /\
  (hasAgg sa = true <-> aggregates sa <> []).

Lemma analyze_item_ok al sa e ctx : aligned sa -> exists sa' ctx',
  analyze_item al sa e ctx = Ok (sa', ctx') /\ aligned sa' /\ aliasToTable ctx' = aliasToTable ctx.
Proof.
  intros [Hal Hag]. rewrite /analyze_item. destruct (matchAgg e al) as [ap|].
  - assert (exists name ctx', (if negb (is_empty (ap_alias ap)) then mret (ap_alias ap)
      else generateAggAlias (ap_func ap)) ctx = Ok (name, ctx') /\ aliasToTable ctx' = aliasToTable ctx)
      as (name & ctx' & Hn & Hctx).
    { case_match; [by eexists _, _|]. rewrite /generateAggAlias. by eexists _, _. }
    rewrite /mbind /ST_bind Hn. eexists _, ctx'. split; [done|]. split; [|done]. split; simpl.
    + apply Forall2_app; [done|]. constructor; [|constructor]. by split_and!.
    + split; [|done]. intros _. by destruct (aggregates sa).
  - destruct e as [x|]; [|by eexists _, _]. case_match; [|by eexists _, _].
    eexists _, ctx. split; [done|]. by split.
Qed.

Lemma analyze_items_ok al l : forall sa ctx, aligned sa -> exists sa' ctx',
  analyze_items al l sa ctx = Ok (sa', ctx') /\ aligned sa' /\ aliasToTable ctx' = aliasToTable ctx.
Proof.
  induction l as [|e l IH]; intros sa ctx Hal; [by eexists _, _|]. cbn [analyze_items].
  destruct (analyze_item_ok al sa e ctx Hal) as (sa1 & ctx1 & H1 & Hal1 & Hc1).
  destruct (IH sa1 ctx1 Hal1) as (sa2 & ctx2 & H2 & Hal2 & Hc2).
  exists sa2, ctx2. rewrite {1}/mbind /ST_bind H1 H2. split_and!; [done|done|congruence].
Qed.

Lemma aligned_empty : aligned (mkSA false [] [] []).
Proof. split; [constructor|done]. Qed.

(** ** Map nodes *)

(** [stacked inp root]: output layers only, down to [inp]. *)
Inductive stacked (inp : LogicalPlanNode) : LogicalPlanNode -> Prop :=
  | stacked_here : stacked inp inp
  | stacked_over n c : children n = [Some c] ->
      node_type n ∈ [LNT.MAP; LNT.AGGREGATE; LNT.PROJECTION; LNT.SORT] ->
      stacked inp c -> stacked inp n.

Definition is_arith (a : AggWithName) : bool :=
  ap_is_sum_mul (an_pattern a) || ap_is_sum_sub (an_pattern a).

(** One MAP per arithmetic aggregate, the last one on top. *)
Definition map_tower (aggs : list AggWithName) (inp : LogicalPlanNode) : LogicalPlanNode :=
  fold_left (fun n a => if is_arith a then map_node (an_pattern a) n else n) aggs inp.

Lemma applyMapNodes_from_ok aggs : forall i inp specs, i + length aggs <= length specs ->
  exists specs', applyMapNodes_from aggs i inp specs = Ok (map_tower aggs inp, specs') /\
    length specs' = length specs.
Proof.
  induction aggs as [|a aggs IH]; intros i inp specs Hlen; [by eexists|].
  cbn [applyMapNodes_from map_tower fold_left]. rewrite /is_arith. simpl in Hlen.
  destruct (_ || _); [|apply IH; lia].
  destruct (lookup_lt_is_Some_2 specs i) as [s Hs]; [lia|]. rewrite /at_index Hs /=.
  destruct (IH (S i) (map_node (an_pattern a) inp) (<[i:=set_input None s]> specs)) as (sp & Hsp & Hl).
  { rewrite length_insert. lia. }
  exists sp. split; [done|]. by rewrite Hl length_insert.
Qed.

Lemma map_tower_stacked aggs inp n : stacked inp n -> stacked inp (map_tower aggs n).
Proof.
  revert n. induction aggs as [|a aggs IH]; intros n Hn; [done|]. cbn [map_tower fold_left].
  apply IH. destruct (is_arith a); [|done]. eapply stacked_over; [done|set_solver|done].
Qed.

Lemma buildSelectOutputTree_ok inp gb sa b : Forall2 spec_of (aggregates sa) (aggSpecs sa) ->
  exists root sa', buildSelectOutputTree inp gb sa b = Ok (root, sa') /\ stacked inp root /\
    node_type root = LNT.PROJECTION /\ aggregates sa' = aggregates sa /\
    projected_columns root = projections sa ++ (if b then map agg_output (aggregates sa) else []).
Proof.
  intros Hal. rewrite /buildSelectOutputTree. destruct b; simpl.
  - destruct (applyMapNodes_from_ok (aggregates sa) 0 inp (aggSpecs sa)) as (sp & Hsp & _).
    { rewrite (Forall2_length _ _ _ Hal). lia. }
    rewrite /applyMapNodes Hsp /=. eexists _, _. split; [done|]. split_and!; try done.
    eapply stacked_over; [done|set_solver|]. eapply stacked_over; [done|set_solver|].
    apply map_tower_stacked. constructor.
  - eexists _, _. split; [done|]. split_and!; [|done|done|by rewrite app_nil_r].
    eapply stacked_over; [done|set_solver|constructor].
Qed.

Lemma ensureDefaultAggregate_aligned sa : aligned sa ->
  Forall2 spec_of (aggregates (ensureDefaultAggregate sa)) (aggSpecs (ensureDefaultAggregate sa)) /\
  aggSpecs (ensureDefaultAggregate sa) <> [].
Proof.
  intros [Hal _]. rewrite /ensureDefaultAggregate. case_bool_decide as He; simpl; [|done].
  split; [|by destruct (aggSpecs sa)]. apply Forall2_app; [done|]. by repeat constructor.
Qed.

(** ** ORDER BY and LIMIT *)

(** The ORDER BY items the translator accepts. *)
Definition sortable (al : gmap string string) (e : Expr) : bool :=
  isType kExprColumnRef e ||
  (isType kExprFunctionRef e && bool_decide (is_Some (e_name e)) && bool_decide (is_Some (matchAgg (Some e) al))).

Lemma sort_column_ok aggs al e ctx : sortable al e = true ->
  exists c ctx', sort_column aggs al e ctx = Ok (c, ctx').
Proof.
  rewrite /sortable /sort_column. destruct (isType kExprColumnRef e); [by eexists _, _|]. simpl.
  intros [-> [ap Hap]%bool_decide_eq_true]%andb_true_iff. rewrite Hap.
  destruct (is_empty _); rewrite /mbind /ST_bind /=; by eexists _, _.
Qed.

(** One sort column per ORDER BY item that is not skipped. *)
Lemma sort_columns_ok aggs al items : forall ctx, forallb (fun it => sortable al it.1) items = true ->
  exists cs ctx', mapM (fun it : Expr * bool => sort_column aggs al it.1) items ctx = Ok (cs, ctx') /\
    length cs = length items.
Proof.
  induction items as [|it items IH]; intros ctx; [by eexists _, _|].
  intros [Hs Hr]%andb_true_iff. destruct (sort_column_ok aggs al it.1 ctx Hs) as (c & ctx1 & Hc).
  destruct (IH ctx1 Hr) as (cs & ctx2 & Hcs & Hlen). exists (c :: cs), ctx2.
  cbn [mapM]. rewrite {1}/mbind /ST_bind Hc {1}/mbind Hcs. split; [done|]. simpl. by rewrite Hlen.
Qed.

Definition order_ok (al : gmap string string) (sel : SelectStatement) : bool :=
  forallb (fun it => sortable al it.1) (sort_items (default [] (order sel))).

Definition sorted_by (cs : list Column) (items : list (Expr * bool)) (root n : LogicalPlanNode) : Prop :=
  length cs = length items /\
  n = (if bool_decide (cs = []) then root
       else set_children [Some root]
              (set_expression (set_sort_order (Some (map snd items)) Expression_default)
                 (set_base_columns cs (new_node LNT.SORT)))).

Lemma applySortNode_ok root sel aggs al ctx : order_ok al sel = true ->
  exists n ctx' cs, applySortNode root sel aggs al ctx = Ok (n, ctx') /\
    sorted_by cs (sort_items (default [] (order sel))) root n.
Proof.
  rewrite /order_ok /applySortNode. destruct (order sel) as [[|o l]|]; cbn [default from_option id].
  - intros _. by exists root, ctx, [].
  - generalize (sort_items (o :: l)) as items. intros items Hok.
    destruct (sort_columns_ok aggs al items ctx Hok) as (cs & ctx' & Hcs & Hlen).
    rewrite {1}/mbind /ST_bind Hcs. rewrite /sorted_by. case_bool_decide as Hc; simpl; eexists _, ctx', cs;
      (split; [done|]); (split; [done|]); by case_bool_decide.
  - intros _. by exists root, ctx, [].
Qed.

Lemma sorted_by_stacked cs items inp root n : sorted_by cs items root n -> stacked inp root -> stacked inp n.
Proof.
  intros [_ ->] Hs. case_bool_decide; [done|]. eapply stacked_over; [done|set_solver|done].
Qed.

Definition limit_ok (sel : SelectStatement) : bool :=
  match limit sel with
  | Some l => from_option (isType kExprLiteralInt) true (l_limit l) &&
              from_option (isType kExprLiteralInt) true (l_offset l)
  | None => true
  end.

(** LIMIT and OFFSET of the statement, reduced to 32 bits. *)
Definition with_limit (sel : SelectStatement) (root : LogicalPlanNode) : LogicalPlanNode :=
  match limit sel with
  | None => root
  | Some l =>
      let root := match l_limit l with
                  | Some e => set_expression (set_limit_count (Some (to_int32 (e_ival e))) (expression root)) root
                  | None => root
                  end in
      match l_offset l with
      | Some e => set_expression (set_limit_offset (Some (to_int32 (e_ival e))) (expression root)) root
      | None => root
      end
  end.

Lemma applyLimitOffset_ok root sel : limit_ok sel = true -> applyLimitOffset root sel = Ok (with_limit sel root).
Proof.
  rewrite /limit_ok /applyLimitOffset /with_limit /int_literal. destruct (limit sel) as [[[a|] [b|]]|]; simpl; try done.
  - by intros [-> ->]%andb_true_iff.
  - by rewrite andb_true_r; intros ->.
  - by intros ->.
Qed.

Lemma with_limit_stacked inp root sel : stacked inp root -> inp <> root ->
  stacked inp (with_limit sel root).
Proof.
  intros Hs Hne. inversion Hs as [E|n c Hch Hty Hc E]; subst; [done|].
  rewrite /with_limit. destruct (limit sel) as [[[a|] [b|]]|]; try done; by eapply stacked_over.
Qed.

(** ** The whole statement *)

Section plan.
Variable iter : gmap string LogicalPlanNode -> list (string * LogicalPlanNode).
Hypothesis iter_perm : forall m, iter m ≡ₚ map_to_list m.

(** A statement the translator supports, with its scans and predicates. *)
Record supported (sel : SelectStatement) (jo : list string)
    (m : gmap string LogicalPlanNode) (g : PredicateGroups) : Prop := {
  sup_scans : buildScanMap (fromTable sel) = Ok m;
  sup_tables : m <> ∅;
  sup_plain : plain_where (whereClause sel) = true;
  sup_preds : extractPredicates (whereClause sel) (collectAliases (fromTable sel) ∅) = Ok g;
  sup_known : forallb (join_pred (dom m)) (joinPreds g) = true;
  sup_connected : connected (dom m) (joinPreds g);
  sup_jsonorder : order_usable iter m jo;
  sup_orderby : order_ok (collectAliases (fromTable sel) ∅) sel = true;
  sup_limit : limit_ok sel = true;
}.

Lemma output_not_input inp root : WfPlan inp -> node_type root = LNT.PROJECTION \/ node_type root = LNT.SORT ->
  inp <> root.
Proof. intros Hw Ht ->. destruct Hw; destruct Ht; congruence. Qed.

(** What the statement's output layers are. *)
Definition select_plan (sel : SelectStatement) (inp root : LogicalPlanNode) : Prop :=
  exists (gb : bool) sa proj cs,
    stacked inp proj /\ node_type proj = LNT.PROJECTION /\
    projected_columns proj = projections sa ++ (if gb then map agg_output (aggregates sa) else []) /\
    (exists n, sorted_by cs (sort_items (default [] (order sel))) proj n /\ root = with_limit sel n).

Lemma select_plan_stacked sel inp root : WfPlan inp -> select_plan sel inp root -> stacked inp root.
Proof.
  intros Hw (gb & sa & proj & cs & Hs & Hty & _ & n & Hn & ->).
  apply with_limit_stacked; [by eapply sorted_by_stacked|]. apply output_not_input; [done|].
  destruct Hn as [_ ->]. case_bool_decide; auto.
Qed.

Lemma buildPlanForSelect_ok {value} (D : engine value) sel jo m g ctx :
  in_is_disjunction D -> supported sel jo m g ->
  exists root ctx' inp, buildPlanForSelect iter sel jo ctx = Ok (root, ctx') /\
    computes D (collectAliases (fromTable sel) ∅) (dom m) (whereClause sel) inp /\
    select_plan sel inp root.
Proof.
  intros HIN [Hm Hne Hw Hg Hk Hc Hjo Hob Hlim].
  set (al := collectAliases (fromTable sel) ∅) in *.
  destruct (select_input_ok iter iter_perm D al (whereClause sel) m g jo) as (n & Hn & Hcomp);
    [done|done|by eapply buildScanMap_scans|done|done| |done|done|].
  { intros p Hp. rewrite forallb_forall in Hk. apply Hk. by apply list_elem_of_In. }
  set (inp := applySelectionPredicates n (selectionPreds g)) in *.
  set (gb := collectGroupByColumns sel al).
  destruct (analyze_items_ok al (default [] (selectList sel)) (mkSA false [] [] [])
    (initializeSelectContext sel) aligned_empty) as (sa & ctx1 & Hsa & Hal & _).
  set (b := hasAgg sa || negb (bool_decide (gb = []))).
  assert (Forall2 spec_of (aggregates (if b then ensureDefaultAggregate sa else sa))
    (aggSpecs (if b then ensureDefaultAggregate sa else sa))) as Hal'.
  { destruct b; [by apply ensureDefaultAggregate_aligned|by destruct Hal]. }
  destruct (buildSelectOutputTree_ok inp gb _ b Hal') as (proj & sa' & Hproj & Hst & Hty & Hagg & Hpc).
  destruct (applySortNode_ok proj sel (aggregates sa') al ctx1 Hob) as (root & ctx2 & cs & Hroot & Hsort).
  exists (with_limit sel root), ctx2, inp. split_and!; [|done|].
  - rewrite /buildPlanForSelect /mbind /ST_bind /modify /get /lift /=. rewrite Hm -/al Hg Hn.
    rewrite /analyzeSelectClause Hsa -/gb -/b -/inp Hproj Hroot. by rewrite applyLimitOffset_ok.
  - exists b, (if b then ensureDefaultAggregate sa else sa), proj, cs. split_and!; try done. by exists root.
Qed.
End plan.

(** ** Generated names *)

Lemma agg_name_inj f g (a b : Z) :
  kAggFuncToName f +:+ to_string a = kAggFuncToName g +:+ to_string b -> f = g /\ a = b.
Proof.
  rewrite /to_string. destruct f, g; simpl; intros H; try discriminate H; simplify_eq; done.
Qed.

Definition counter (ctx : TranslationContext) (f : PAF.PlanAggFunc) : Z :=
  default 0%Z (aggAliasCounters ctx !! agg_func_index f).

Lemma agg_func_index_inj : Inj (=) (=) agg_func_index.
Proof. by intros [] []. Qed.

(** Names generated one after the other: each counts on from [ctx]. *)
Lemma generate_names fs : forall ctx, exists names ctx',
  mapM generateAggAlias fs ctx = Ok (names, ctx') /\ NoDup names /\
  (forall n, n ∈ names -> exists f k, n = kAggFuncToName f +:+ to_string k /\ (counter ctx f < k)%Z).
Proof.
  induction fs as [|f fs IH]; intros ctx.
  - eexists [], ctx. split; [done|]. split; [constructor|]. intros n Hn. by apply not_elem_of_nil in Hn.
  - set (k := (counter ctx f + 1)%Z).
    set (ctx1 := mkCtx (aliasToTable ctx) (<[agg_func_index f := k]> (aggAliasCounters ctx))).
    destruct (IH ctx1) as (names & ctx' & Hn & Hnd & Hall).
    assert (forall f', (counter ctx f' <= counter ctx1 f')%Z /\ counter ctx1 f = k) as Hmono.
    { intros f'. rewrite /counter /ctx1 /= lookup_insert_eq. split; [|done].
      rewrite lookup_insert. case_decide as E; [|lia]. apply agg_func_index_inj in E as <-.
      rewrite /k /counter /=. lia. }
    exists ((kAggFuncToName f +:+ to_string k) :: names), ctx'. split.
    { cbn [mapM]. rewrite {1}/mbind /ST_bind {1}/generateAggAlias.
      change (mkCtx _ _) with ctx1. rewrite {1}/mbind Hn. done. }
    split.
    + apply NoDup_cons. split; [|done]. intros (g & j & He & Hj)%Hall.
      apply agg_name_inj in He as [<- <-]. rewrite (proj2 (Hmono f)) in Hj. lia.
    + intros n [->|Hin]%elem_of_cons; [exists f, k; split; [done|rewrite /k; lia]|].
      destruct (Hall n Hin) as (g & j & -> & Hj). exists g, j. split; [done|].
      destruct (Hmono g). lia.
Qed.

(** ** NaN in plan JSON *)

(** [s] occurs in the text. *)
Fixpoint occurs (s text : string) : bool :=
  String.prefix s text ||
  match text with EmptyString => false | String _ text => occurs s text end.


Lemma prefix_NaN s : String.prefix "NaN" s = true -> exists r, s = "NaN" +:+ r.
Proof.
  destruct s as [|a [|b [|c s]]]; cbn [String.prefix]; repeat (destruct (ascii_dec _ _); subst); try done.
  intros _. by exists s.
Qed.

(** An output character other than the [n] of "null" is copied. *)
Lemma sanitize_first c out text : c <> "n"%char -> sanitize_from 0 text = String c out ->
  exists rest, text = String c rest /\ out = sanitize_from 0 rest.
Proof.
  intros Hc. destruct text as [|x rest]; cbn [sanitize_from]; [done|].
  destruct (String.prefix _ _); intros H; simpl in H; injection H as H1 H2; subst; [done|]. eauto.
Qed.

Lemma sanitize_no_NaN text : forall skip, occurs "NaN" (sanitize_from skip text) = false.
Proof.
  induction text as [|c rest IH]; intros [|skip]; try done; [|apply IH].
  cbn [sanitize_from]. destruct (String.prefix "NaN" (String c rest)) eqn:Hp.
  - specialize (IH 2). simpl. by destruct (occurs _ _).
  - cbn [occurs]. rewrite IH orb_false_r. apply not_true_iff_false. intros Ho.
    apply prefix_NaN in Ho as [r Hr]. simpl in Hr. injection Hr as -> Hr.
    apply sanitize_first in Hr as (r1 & -> & Hr); [|done]. symmetry in Hr.
    apply sanitize_first in Hr as (r2 & -> & _); [|done]. by destruct r2.
Qed.

(** The pieces of a text put together with a separator. *)
Fixpoint join_with (sep : string) (l : list string) : string :=
  match l with
  | [] => ""
  | [s] => s
  | s :: l => s +:+ sep +:+ join_with sep l
  end.

Lemma join_with_cons sep s l : l <> [] -> join_with sep (s :: l) = s +:+ sep +:+ join_with sep l.
Proof. by destruct l. Qed.

Lemma join_with_char sep c s l : join_with sep (String c s :: l) = String c (join_with sep (s :: l)).
Proof. by destruct l. Qed.

Lemma prefix_app s t u : String.prefix s t = true -> String.prefix s (t +:+ u) = true.
Proof.
  revert t. induction s as [|a s IH]; intros t; [by destruct (t +:+ u)|].
  destruct t as [|b t]; [done|]. cbn [String.prefix]. change (String b t +:+ u) with (String b (t +:+ u)).
  cbn [String.prefix]. destruct (ascii_dec a b); [apply IH|done].
Qed.

(** Sanitizing replaces the separators between pieces free of NaN. *)
Lemma sanitize_pieces n : forall text, String.length text <= n -> exists l, l <> [] /\
  text = join_with "NaN" l /\ sanitize_from 0 text = join_with "null" l /\
  forall p, p ∈ l -> occurs "NaN" p = false.
Proof.
  induction n as [|n IH]; intros text Hn.
  - destruct text; simpl in Hn; [|lia]. exists [""]. split_and!; try done. by intros p ->%list_elem_of_singleton.
  - destruct text as [|c rest]; [exists [""]; split_and!; try done; by intros p ->%list_elem_of_singleton|].
    cbn [sanitize_from]. destruct (String.prefix "NaN" (String c rest)) eqn:Hp.
    + apply prefix_NaN in Hp as [r Hr]. injection Hr as -> ->.
      destruct (IH r) as (l & Hne & Ht & Hs & Hl); [change (S (S (S (String.length r))) <= S n) in Hn; lia|].
      exists ("" :: l). rewrite !join_with_cons //. split_and!; [done|by rewrite -Ht|by rewrite -Hs|].
      intros p [->|Hp]%elem_of_cons; [done|by apply Hl].
    + destruct (IH rest) as (l & Hne & Ht & Hs & Hl); [simpl in Hn; lia|].
      destruct l as [|s l]; [done|]. exists (String c s :: l). rewrite !join_with_char -Ht -Hs. split_and!; try done.
      intros p [->|Hp']%elem_of_cons; [|apply Hl; set_solver].
      cbn [occurs]. rewrite (Hl s) ?orb_false_r; [|set_solver].
      apply not_true_iff_false. intros Hpre. rewrite Ht -join_with_char in Hp.
      assert (String.prefix "NaN" (join_with "NaN" (String c s :: l)) = true) as Hp2; [|congruence].
      destruct l as [|s2 l]; [done|]. rewrite join_with_cons //. by apply prefix_app.
Qed.
