(* ===== verification/TranslatorTheorems.v ===== *)
(** * Theorems on the SQL translator

    The properties of [PredicateBuilder.cpp], [JoinTreeBuilder.cpp],
    [SelectPlanBuilder.cpp] and [TranslatorHelpers.cpp], stated on the model
    and proved from the components' lemmas; each is followed by an instance
    on concrete data. *)

From S2P Require Import Prelude PlanTypes SqlAst SchemaResolver TranslatorHelpers.
From S2P Require Import LogicalSemantics Pushdown PredicateBuilder WhereSemantics DSU JoinTree.
From S2P Require Import JoinTreeCorrect SelectPlanBuilder SelectCorrect SelectOutput.

(** ** A small star-schema instance *)

(** Two rows per table; a comparison holds when the value equals one of the
    literals, or when the two columns agree. *)
Definition demo_engine : engine string := {|
  nrows := fun _ => 2;
  cell := fun _ c i => if c =s "d_year" then to_string (1992 + Z.of_nat i) else to_string (Z.of_nat i);
  holds := fun e args =>
    match args, comp_type e, values e with
    | [Some a], _, vs => existsb (String.eqb a) vs
    | [Some a; Some b], Some PCT.EQ, [] => a =s b
    | _, _, _ => false
    end;
  arith := fun _ args => mjoin (head args);
  aggregate := fun _ vals => mjoin (head vals);
  leq := fun _ _ => true;
|}.

Lemma existsb_false {A} (l : list A) : existsb (fun _ => false) l = false.
Proof. by induction l. Qed.

Lemma demo_engine_in : in_is_disjunction demo_engine.
Proof.
  intros vs args. simpl. destruct args as [|[a|] [|[b|] [|]]]; rewrite ?existsb_false //=.
  induction vs as [|v vs IH]; simpl; [done|]. by rewrite IH orb_false_r.
Qed.

Definition tname (n : string) : TableRef := mkTableRef kTableName (Some n) None None None.
Definition demo_from : TableRef :=
  mkTableRef kTableCrossProduct None None (Some [Some (tname "lineorder"); Some (tname "dates")]) None.

(** [lo_orderdate = d_datekey AND (d_year = 1992 OR d_year = 1993)] *)
Definition demo_where : Expr :=
  eOp kOpAnd (eOp kOpEquals (eCol None "lo_orderdate") (eCol None "d_datekey"))
    (eOp kOpOr (eOp kOpEquals (eCol None "d_year") (eInt 1992))
               (eOp kOpEquals (eCol None "d_year") (eInt 1993))).

Definition demo_select : SelectStatement :=
  mkSelect (Some demo_from) (Some demo_where) (Some [Some (eCol None "lo_revenue")]) None
    (Some [Some (mkOrder true (Some (eCol None "lo_revenue")))]) (Some (mkLimit (Some (eInt 10)) None)).

Definition demo_iter (m : gmap string LogicalPlanNode) : list (string * LogicalPlanNode) := map_to_list m.

Lemma demo_iter_perm m : demo_iter m ≡ₚ map_to_list m.
Proof. done. Qed.

Definition demo_scans : gmap string LogicalPlanNode :=
  <["lineorder" := scan_node "lineorder"]> {["dates" := scan_node "dates"]}.

Definition demo_aliases : gmap string string := collectAliases (Some demo_from) ∅.

Definition demo_groups : PredicateGroups :=
  match extractPredicates (Some demo_where) demo_aliases with
  | Ok g => g
  | Err _ => mkGroups [] []
  end.

Lemma demo_scans_ok : scans_ok demo_scans.
Proof.
  intros t s. rewrite /demo_scans lookup_insert_Some lookup_singleton_Some. naive_solver.
Qed.

Lemma demo_nonempty : demo_scans <> ∅.
Proof. discriminate. Qed.

Lemma demo_connected : connected (dom demo_scans) (joinPreds demo_groups).
Proof.
  assert (exists p, p ∈ joinPreds demo_groups /\ "lineorder" ∈ ctabs p /\ "dates" ∈ ctabs p) as (p & Hp & Hl & Hd).
  { eexists. split; [by apply elem_of_cons; left|]. split; apply (bool_decide_eq_true_1 (_ ∈ _)); by vm_compute. }
  intros x y. rewrite /demo_scans dom_insert_L dom_singleton_L !elem_of_union !elem_of_singleton.
  intros [-> | ->] [-> | ->]; apply rtc_once; by exists p.
Qed.

Lemma demo_known p : p ∈ joinPreds demo_groups -> join_pred (dom demo_scans) p = true.
Proof.
  assert (forallb (join_pred (dom demo_scans)) (joinPreds demo_groups) = true) as H by (vm_compute; done).
  rewrite forallb_forall in H. intros Hp. apply H. by apply list_elem_of_In.
Qed.

Lemma demo_no_confusion : no_confusion (dom demo_scans).
Proof.
  intros x y. rewrite /demo_scans dom_insert_L dom_singleton_L !elem_of_union !elem_of_singleton.
  intros [-> | ->] [-> | ->]; by vm_compute.
Qed.

Lemma demo_order : order_usable demo_iter demo_scans ["dim.DATES"; "public.lineorder"].
Proof. right. split; [by vm_compute|apply demo_no_confusion]. Qed.

Lemma demo_supported : supported demo_iter demo_select ["dim.DATES"; "public.lineorder"] demo_scans demo_groups.
Proof.
  apply Build_supported; [reflexivity|discriminate|by vm_compute|by vm_compute|by vm_compute
    |apply demo_connected|apply demo_order|by vm_compute|by vm_compute].
Qed.

(** ** Statements *)



(** C13: Selection pushdown: pushing a predicate into a well-formed plan gives
    a well-formed plan over the same tables whose rows are exactly the rows
    of the old plan that satisfy the predicate. *)
Theorem pushDownSelectionPredicate_correct n p : wf_plan n = true -> wf_pred p = true ->
  exists n', pushDownSelectionPredicate (Some n) (Some p) = Some n' /\
    wf_plan n' = true /\ tabs n' = tabs n /\
    forall value (D : engine value) t, t ∈ eval D n' <-> t ∈ eval D n /\ pred_holds D p t = true.
Proof.
  intros Hn%wf_plan_WfPlan Hp. destruct (pushDown_pushes n p Hn Hp) as [Hw Ht He].
  exists (pushDown n p). split_and!; [done|by apply wf_plan_WfPlan|done|done].
Qed.

(** A join of the two tables. *)
Definition demo_join : LogicalPlanNode :=
  new_join (buildJoinPredicate (eOp kOpEquals (eCol None "lo_orderdate") (eCol None "d_datekey")) ∅)
    (Some (scan_node "lineorder")) (Some (scan_node "dates")).
Definition demo_filter : LogicalPlanNode :=
  filter_node PCT.EQ [Column3 "dates" "d_year" PTY.INTEGER] ["1993"].

Lemma pushDownSelectionPredicate_correct_witness :
  exists n', pushDownSelectionPredicate (Some demo_join) (Some demo_filter) = Some n' /\
    wf_plan n' = true /\ tabs n' = tabs demo_join /\
    forall value (D : engine value) t,
      t ∈ eval D n' <-> t ∈ eval D demo_join /\ pred_holds D demo_filter t = true.
Proof. apply pushDownSelectionPredicate_correct; by vm_compute. Defined.

(** C16: [buildJoinTree]: if the join predicates connect the FROM tables, the
    loop over the predicates succeeds for every hash order; each predicate
    becomes a JOIN node or an extra filter, and the tree's rows that pass the
    extra filters are exactly the rows of the cross product on which all join
    predicates hold. *)
Theorem buildJoinTree_correct iter m preds : (forall m, iter m ≡ₚ map_to_list m) ->
  m <> ∅ -> scans_ok m -> (forall p, p ∈ preds -> join_pred (dom m) p = true) ->
  connected (dom m) preds ->
  exists n extra, buildJoinTree iter m (map Some preds) [] = Ok (n, extra) /\
    wf_plan n = true /\ tabs n = dom m /\
    forall value (D : engine value) t,
      (t ∈ eval D n /\ forall f, f ∈ extra -> pred_holds D f t = true) <->
      rows D (dom m) t /\ forall p, p ∈ preds -> cond D p t = true.
Proof.
  intros Hi Hne Hm Hp Hc.
  destruct (buildJoinTree_denotes iter Hi m preds Hne Hm Hp Hc) as (n & used & ex & Hb & Hperm & [Hw Ht He]).
  exists n, (map as_filter ex). split_and!; [done|by apply wf_plan_WfPlan|done|].
  intros value D t. rewrite He. setoid_rewrite list_elem_of_fmap. setoid_rewrite <- Hperm.
  setoid_rewrite elem_of_app. setoid_rewrite <- (pred_holds_as_filter D). naive_solver.
Qed.

Lemma buildJoinTree_correct_witness :
  exists n extra, buildJoinTree demo_iter demo_scans (map Some (joinPreds demo_groups)) [] = Ok (n, extra) /\
    wf_plan n = true /\ tabs n = dom demo_scans /\
    forall value (D : engine value) t,
      (t ∈ eval D n /\ forall f, f ∈ extra -> pred_holds D f t = true) <->
      rows D (dom demo_scans) t /\ forall p, p ∈ joinPreds demo_groups -> cond D p t = true.
Proof.
  exact (buildJoinTree_correct demo_iter demo_scans (joinPreds demo_groups) demo_iter_perm
           demo_nonempty demo_scans_ok demo_known demo_connected).
Defined.

(** C17: [buildJoinTreeFromOrder] with an order that lists every FROM table
    once, on tables whose names the builder tells apart: it never reaches
    undefined behaviour, and if it accepts the order, the tree's rows that
    pass the left-over predicates are exactly the cross product filtered by
    all join predicates. *)
Theorem buildJoinTreeFromOrder_correct m preds order : scans_ok m -> no_confusion (dom m) ->
  (forall p, p ∈ preds -> join_pred (dom m) p = true) -> NoDup order -> list_to_set order = dom m ->
  exists o, buildJoinTreeFromOrder m (map Some preds) order = Ok o /\
    forall n extra, o = Some (n, extra) ->
      wf_plan n = true /\ tabs n = dom m /\
      forall value (D : engine value) t,
        (t ∈ eval D n /\ forall f, f ∈ extra -> pred_holds D f t = true) <->
        rows D (dom m) t /\ forall p, p ∈ preds -> cond D p t = true.
Proof.
  intros Hm Hn Hp Hnd Hset.
  destruct (buildJoinTreeFromOrder_ok m preds Hm Hn Hp order Hnd Hset) as (o & Ho & Hspec).
  exists o. split; [done|]. intros n extra (ex & -> & P & [Hw Ht He] & HP)%Hspec.
  split_and!; [by apply wf_plan_WfPlan|done|]. intros value D t.
  rewrite He. setoid_rewrite list_elem_of_fmap. setoid_rewrite HP.
  setoid_rewrite <- (pred_holds_as_filter D). naive_solver.
Qed.

(** The order is accepted here: the tree is a JOIN. *)
Lemma buildJoinTreeFromOrder_correct_witness :
  exists n extra,
    buildJoinTreeFromOrder demo_scans (map Some (joinPreds demo_groups)) ["dates"; "lineorder"] = Ok (Some (n, extra)) /\
    tabs n = dom demo_scans.
Proof.
  destruct (buildJoinTreeFromOrder_correct demo_scans (joinPreds demo_groups) ["dates"; "lineorder"]
    demo_scans_ok demo_no_confusion demo_known) as (o & Ho & Hspec).
  - apply (bool_decide_eq_true_1 (NoDup _)). by vm_compute.
  - by vm_compute.
  - destruct o as [[n extra]|]; [|by vm_compute in Ho].
    exists n, extra. split; [done|]. by destruct (Hspec n extra eq_refl) as (_ & ? & _).
Defined.

(** The join order taken from the JSON plan does not change the result:
    for any two usable orders and any two hash orders the input trees have
    the same rows. *)
Theorem buildSelectInputTree_order_irrelevant iter1 iter2 m preds jo1 jo2 :
  (forall m, iter1 m ≡ₚ map_to_list m) -> (forall m, iter2 m ≡ₚ map_to_list m) ->
  m <> ∅ -> scans_ok m -> (forall p, p ∈ preds -> join_pred (dom m) p = true) ->
  connected (dom m) preds -> order_usable iter1 m jo1 -> order_usable iter2 m jo2 ->
  exists n1 n2, buildSelectInputTree iter1 m preds jo1 = Ok n1 /\
    buildSelectInputTree iter2 m preds jo2 = Ok n2 /\
    forall value (D : engine value) t, t ∈ eval D n1 <-> t ∈ eval D n2.
Proof.
  intros Hi1 Hi2 Hne Hm Hp Hc Ho1 Ho2.
  destruct (buildSelectInputTree_ok iter1 Hi1 m preds jo1 Hne Hm Hp Hc Ho1) as (n1 & H1 & [_ _ He1]).
  destruct (buildSelectInputTree_ok iter2 Hi2 m preds jo2 Hne Hm Hp Hc Ho2) as (n2 & H2 & [_ _ He2]).
  exists n1, n2. split_and!; [done|done|]. intros. by rewrite He1 He2.
Qed.

Lemma buildSelectInputTree_order_irrelevant_witness :
  exists n1 n2, buildSelectInputTree demo_iter demo_scans (joinPreds demo_groups) [] = Ok n1 /\
    buildSelectInputTree (fun m => reverse (map_to_list m)) demo_scans (joinPreds demo_groups)
      ["dim.DATES"; "public.lineorder"] = Ok n2 /\
    forall value (D : engine value) t, t ∈ eval D n1 <-> t ∈ eval D n2.
Proof.
  apply (buildSelectInputTree_order_irrelevant demo_iter (fun m => reverse (map_to_list m)));
    [done|intros; apply reverse_Permutation|apply demo_nonempty|apply demo_scans_ok|apply demo_known
    |apply demo_connected|by left|].
  right. split; [by vm_compute|apply demo_no_confusion].
Defined.


Definition demo_or : Expr :=
  eOp kOpOr (eOp kOpEquals (eCol None "d_year") (eInt 1992))
    (eOp kOpGreater (eCol None "d_daynum") (eInt 7)).


(** A comparison with the literal on the left is not mirrored: [25 < c]
    is translated to the same node as [c < 25], for every column and literal
    and each of the four order comparisons. *)
Theorem literal_first_not_mirrored al a v op : is_lit v = true -> colref a = true ->
  op ∈ [kOpLess; kOpLessEq; kOpGreater; kOpGreaterEq] ->
  exists n, buildPredicateNode al (Some (eOp op v a)) = Ok n /\
    buildPredicateNode al (Some (eOp op a v)) = Ok n.
Proof.
  intros Hv Ha Hop. destruct (unwrap_plain a) as [_ Hua]; [by left|].
  destruct (unwrap_plain v) as [_ Huv]; [by right|].
  apply bool_decide_eq_true in Hv as [s Hs]. pose proof (lit_not_colref v s Hs) as Hvc.
  assert (isType kExprColumnRef a = true) as Hac by (by rewrite /isType (colref_type a Ha)).
  assert (exists cmp, mapCompOp op = Some cmp /\ op <> kOpEquals) as (cmp & Hcmp & Hne).
  { apply (Forall_forall (fun op => exists cmp, mapCompOp op = Some cmp /\ op <> kOpEquals)) in Hop; [done|].
    repeat constructor; eexists; by split. }
  assert (forall x y, is_join_predicate (eOp op x y) = Ok false) as Hj.
  { intros x y. rewrite /is_join_predicate /is_op /= bool_decide_false //. }
  exists (filter_node cmp [toColumnFromExpr (Some a) al] (option_list (appendLiteralValue (Some v)))).
  split; apply (comparison_node al _ cmp); try done; eapply buildComparison_plain; try done; auto 8.
Qed.

Lemma literal_first_not_mirrored_witness :
  exists n, buildPredicateNode ∅ (Some (eOp kOpLess (eInt 25) (eCol None "lo_quantity"))) = Ok n /\
    buildPredicateNode ∅ (Some (eOp kOpLess (eCol None "lo_quantity") (eInt 25))) = Ok n.
Proof.
  apply (literal_first_not_mirrored ∅ (eCol None "lo_quantity") (eInt 25) kOpLess);
    [reflexivity|reflexivity|apply elem_of_cons; by left].
Defined.

(** [DSU::find] and [DSU::unite] on a well-formed parent map: [find]
    terminates within the recursion bound, returns the representative and
    only compresses paths (same elements, same representatives); [unite] of
    two elements of different groups merges exactly these two groups, under
    the representative of its first argument. *)
Theorem DSU_correct p a b ra rb : dsu_wf p -> root p a ra -> root p b rb -> ra <> rb ->
  (exists p1, DSU_find p a = Ok (ra, p1) /\ dsu_equiv p p1) /\
  exists p', DSU_unite p a b = Ok (true, p') /\ dsu_wf p' /\ dom p' = dom p /\
    (forall x y, same_group p' x y <->
       same_group p x y \/ (root p x ra /\ root p y rb) \/ (root p x rb /\ root p y ra)) /\
    root p' b ra.
Proof.
  intros Hwf Ha Hb Hne. split.
  - destruct (DSU_find_ok p a Hwf) as (r & p1 & Hf & Hr & He); [by eapply root_dom|].
    exists p1. by rewrite -(root_det _ _ _ _ Hr Ha).
  - destruct (DSU_unite_ok p a b ra rb Hwf Ha Hb Hne) as (p' & Hu & Hwf' & Hd & Hl).
    exists p'. split_and!; [done..| |apply Hl; by right]. intros x y. split.
    + intros (r & [[H1 H1']|[H1 H1']]%Hl & [[H2 H2']|[H2 H2']]%Hl); subst.
      * left. by exists r.
      * right. by left.
      * right. by right.
      * left. by exists rb.
    + intros [(r & H1 & H2)|[[H1 H2]|[H1 H2]]].
      * destruct (decide (r = rb)) as [->|Hr]; [exists ra|exists r]; split; apply Hl; auto.
      * exists ra. split; apply Hl; auto.
      * exists ra. split; apply Hl; auto.
Qed.

Definition demo_dsu : gmap string string := DSU_add (DSU_add (DSU_add ∅ "a") "b") "c".

Lemma DSU_correct_witness :
  exists p', DSU_unite demo_dsu "a" "b" = Ok (true, p') /\ root p' "b" "a".
Proof.
  destruct (DSU_correct demo_dsu "a" "b" "a" "b") as [_ (p' & Hu & _ & _ & _ & Hr)].
  - repeat (apply DSU_add_wf; [|done]). split; [|by rewrite dom_empty_L]. intros x. by rewrite dom_empty_L.
  - by apply root_of_self.
  - by apply root_of_self.
  - done.
  - by exists p'.
Defined.

(** [applySelectionPredicates]: however the selection predicates are
    ordered (ORs go first), the resulting plan is well-formed over the same
    tables and its rows are the input's rows that satisfy all of them. *)
Theorem applySelectionPredicates_correct n ps : wf_plan n = true -> forallb wf_pred ps = true ->
  wf_plan (applySelectionPredicates n ps) = true /\ tabs (applySelectionPredicates n ps) = tabs n /\
  forall value (D : engine value) t, t ∈ eval D (applySelectionPredicates n ps) <->
    t ∈ eval D n /\ forall p, p ∈ ps -> pred_holds D p t = true.
Proof.
  intros Hn%wf_plan_WfPlan Hps. rewrite forallb_forall in Hps.
  destruct (applySelectionPredicates_ok ps n Hn) as [Hw Ht He];
    [intros p Hp; apply Hps; by apply list_elem_of_In|].
  split_and!; [by apply wf_plan_WfPlan|done|done].
Qed.

Lemma applySelectionPredicates_correct_witness :
  wf_plan (applySelectionPredicates demo_join [demo_filter; demo_filter]) = true.
Proof.
  destruct (applySelectionPredicates_correct demo_join [demo_filter; demo_filter]) as [H _];
    [by vm_compute|by vm_compute|exact H].
Defined.

(** Every predicate node the translator builds is either a join
    predicate (JOIN, two columns, EQ and nothing else) or a selection
    predicate (a FILTER, or a non-empty UNION of FILTERs), and
    [extractPredicates] sorts them accordingly without losing or inventing
    any. *)
Theorem extractPredicates_groups w al g : extractPredicates w al = Ok g ->
  (forall p, p ∈ joinPreds g -> wf_join_pred p = true) /\
  (forall p, p ∈ selectionPreds g -> wf_pred p = true) /\
  (forall p, p ∈ joinPreds g \/ p ∈ selectionPreds g <->
     exists e, e ∈ splitConjuncts w /\ buildPredicateNode al (Some e) = Ok p).
Proof.
  intros Hg. destruct (selection_preds_wf _ _ _ Hg) as [Hs Hj]. split_and!; [done|done|].
  destruct (extractPredicates_ok _ _ _ Hg) as (ns & Hall & Hj' & Hs'). intros p.
  rewrite Hj' Hs'. split.
  - intros Hp. assert (p ∈ ns) as Hin by tauto. exact (Forall2_elem_r _ _ _ _ Hall Hin).
  - intros (e & He & Hb). assert (p ∈ ns) as Hin.
    { clear -Hall He Hb. simpl in Hb. induction Hall as [|e' n es ns Hn _ IH]; [set_solver|].
      apply elem_of_cons in He as [->|He]; [|set_solver]. assert (n = p) by congruence. set_solver. }
    destruct (decide (node_type p = LNT.JOIN)); tauto.
Qed.

Lemma extractPredicates_groups_witness :
  (forall p, p ∈ joinPreds demo_groups -> wf_join_pred p = true) /\ length (joinPreds demo_groups) = 1.
Proof.
  split; [|by vm_compute].
  apply (extractPredicates_groups (Some demo_where) demo_aliases demo_groups). by vm_compute.
Defined.

(** FROM tables that no join predicate connects are dropped: without
    join predicates the join tree is the SCAN of one of the tables, however
    many there are, instead of their cross product or an error. *)
Theorem buildJoinTree_drops_unconnected iter m : (forall m, iter m ≡ₚ map_to_list m) ->
  m <> ∅ -> scans_ok m ->
  exists t, t ∈ dom m /\ buildJoinTree iter m [] [] = Ok (scan_node t, []).
Proof.
  intros Hi Hne Hm. destruct (iter_keys iter Hi m) as [Hnd Hk].
  destruct (jt_inv_init iter Hi m Hm) as [Hwf Hdom _ _ _]. simpl in Hwf, Hdom.
  destruct (rep_loop_ok (iter m).*1 _ "" Hwf) as (d' & r & Hrep & _ & Hroot);
    [intros t Ht; rewrite Hdom; by apply Hk|].
  destruct (fold_add_discrete (iter m) ∅) as [Hdisc _]; [by intros ??|].
  destruct ((iter m).*1) as [|t0 ts] eqn:Hl.
  { exfalso. apply Hne, dom_empty_iff_L, elem_of_equiv_empty_L. intros x Hx%Hk. set_solver. }
  pose proof (Hroot eq_refl t0 ts eq_refl) as [-> Hin]%discrete_root; [|done].
  rewrite Hdom in Hin. exists t0. split; [done|]. apply elem_of_dom in Hin as [s Hs].
  destruct (Hm t0 s Hs) as [_ ->].
  rewrite /buildJoinTree bool_decide_false //=. change (map fst (iter m)) with ((iter m).*1).
  rewrite Hl Hrep /=. rewrite (fold_tree_lookup (iter m) ∅ t0 (scan_node t0)) //; [by rewrite Hl|].
  rewrite Hi. by apply elem_of_map_to_list.
Qed.

Lemma buildJoinTree_drops_unconnected_witness :
  exists t, t ∈ dom demo_scans /\ buildJoinTree demo_iter demo_scans [] [] = Ok (scan_node t, []).
Proof.
  exact (buildJoinTree_drops_unconnected demo_iter demo_scans demo_iter_perm demo_nonempty demo_scans_ok).
Defined.

(** The join order read from a JSON plan: the plan's scans sorted deepest
    first (ties in visiting order), from which the first of the names that
    agree up to case is kept; no name is kept twice and none is lost. *)
Theorem extractJoinOrderFromJson_spec plan :
  exists recs, recs ≡ₚ fst (scan_dfs plan 0 0) /\
    StronglySorted (fun a b => (rec_depth b < rec_depth a)%Z \/
      (rec_depth a = rec_depth b /\ (rec_seq a <= rec_seq b)%Z)) recs /\
    extractJoinOrderFromJson plan = dedupe (map rec_table recs) /\
    NoDup (map toLower (extractJoinOrderFromJson plan)) /\
    (forall r, r ∈ recs -> toLower (rec_table r) ∈ map toLower (extractJoinOrderFromJson plan)) /\
    (forall x, x ∈ extractJoinOrderFromJson plan -> exists r, r ∈ recs /\ rec_table r = x).
Proof.
  destruct (stable_sort_sorted (fst (scan_dfs plan 0 0))) as [Hs Hp].
  exists (stable_sort (fst (scan_dfs plan 0 0))). rewrite /extractJoinOrderFromJson.
  destruct (dedupe_spec (map rec_table (stable_sort (fst (scan_dfs plan 0 0))))) as (Hnd & Hin & Hall).
  split_and!; [done| |done|done| |].
  - clear -Hs. induction Hs as [|a l Hs IH Hf]; constructor; [done|].
    eapply Forall_impl; [done|]. intros b. by rewrite scan_leq_spec.
  - intros r Hr. by apply Hall, list_elem_of_fmap_2.
  - intros x (r & -> & Hr)%Hin%list_elem_of_fmap. by exists r.
Qed.

(** The SELECT list analysis keeps the aggregates and their
    specifications aligned (same function, star flag, result name and input),
    so building the output tree never indexes past the specifications: it
    always succeeds, with the SELECT columns first and then one output column
    per aggregate. *)
Theorem select_output_total sel al ctx inp gb :
  exists sa ctx', analyzeSelectClause sel al ctx = Ok (sa, ctx') /\
    Forall2 spec_of (aggregates sa) (aggSpecs sa) /\
    (hasAgg sa = true <-> aggregates sa <> []) /\
    exists root sa', buildSelectOutputTree inp gb (ensureDefaultAggregate sa) true = Ok (root, sa') /\
      stacked inp root /\
      projected_columns root = projections sa ++ map agg_output (aggregates (ensureDefaultAggregate sa)) /\
      aggSpecs (ensureDefaultAggregate sa) <> [].
Proof.
  destruct (analyze_items_ok al (default [] (selectList sel)) (mkSA false [] [] []) ctx aligned_empty)
    as (sa & ctx' & Hsa & Hal & _).
  destruct (ensureDefaultAggregate_aligned sa Hal) as [Hal' Hne].
  destruct (buildSelectOutputTree_ok inp gb _ true Hal') as (root & sa' & Hr & Hst & _ & _ & Hpc).
  exists sa, ctx'. destruct Hal as [Hal Hag]. split_and!; [done|done|apply Hag|].
  exists root, sa'. split_and!; [done|done| |done].
  rewrite Hpc /ensureDefaultAggregate. by case_bool_decide.
Qed.

(** Aliases generated within one translation are pairwise distinct,
    whatever aggregate functions they are generated for and whatever the
    counters are at the start. *)
Theorem generateAggAlias_distinct fs ctx :
  exists names ctx', mapM generateAggAlias fs ctx = Ok (names, ctx') /\ NoDup names /\
    length names = length fs.
Proof.
  destruct (generate_names fs ctx) as (names & ctx' & Hn & Hnd & _).
  exists names, ctx'. split_and!; [done|done|]. clear Hnd. revert ctx names Hn.
  induction fs as [|f fs IH]; intros ctx names Hn; cbn [mapM] in Hn; [by inv_ok|].
  apply ST_bind_ok in Hn as (n & c1 & _ & Hn). apply ST_bind_ok in Hn as (ns & c2 & Hns & Hn).
  injection Hn as <- <-. simpl. f_equal. by eapply IH.
Qed.

(** LIMIT and OFFSET: the literals are stored reduced to 32 bits, which
    is their value exactly when it fits an [int]; a LIMIT or OFFSET that is
    not an integer literal is rejected. *)
Theorem applyLimitOffset_spec root sel :
  (if limit_ok sel then applyLimitOffset root sel = Ok (with_limit sel root)
   else exists msg, applyLimitOffset root sel = Err (Throw msg)) /\
  forall z, (- 2 ^ 31 <= to_int32 z < 2 ^ 31)%Z /\ (to_int32 z = z <-> (- 2 ^ 31 <= z < 2 ^ 31)%Z).
Proof.
  split.
  - destruct (limit_ok sel) eqn:Hl; [by apply applyLimitOffset_ok|].
    rewrite /limit_ok in Hl. rewrite /applyLimitOffset /int_literal.
    destruct (limit sel) as [[[a|] [b|]]|]; simpl in *; try done;
      repeat case_match; simplify_eq/=; try (by eexists); done.
  - intros z. pose proof (to_int32_range z) as Hr. split; [done|]. split; [intros <-; done|].
    apply to_int32_small.
Qed.

(** Sanitizing the JSON text of a plan replaces every [NaN] by [null]
    and changes nothing else: the text is cut at its NaNs, the pieces are kept
    and joined with null, and no [NaN] is left in the result. *)
Theorem sanitizeJsonForNaN_clean text :
  (exists pieces, text = join_with "NaN" pieces /\ sanitizeJsonForNaN text = join_with "null" pieces /\
     forall p, p ∈ pieces -> occurs "NaN" p = false) /\
  occurs "NaN" (sanitizeJsonForNaN text) = false.
Proof.
  split; [|apply sanitize_no_NaN].
  destruct (sanitize_pieces (String.length text) text) as (l & _ & H1 & H2 & H3); [lia|]. by exists l.
Qed.

(** Schema types of the customer table are the wrong way round: its key
    columns are STRING and every other column is INTEGER, unlike all other
    tables of the schema; and the columns of [dates] are not found in the
    schema, whose key is [date]. *)
Theorem customer_types_swapped :
  (forall c, toLower c ∈ ["c_custkey"; "c_nationkey"; "c_regionkey"; "c_mktsegment"] ->
     resolveColumnType "customer" c = PTY.STRING) /\
  resolveColumnType "customer" "c_name" = PTY.INTEGER /\
  (forall c, toLower c ∈ ["s_suppkey"; "s_nationkey"; "s_regionkey"] ->
     resolveColumnType "supplier" c = PTY.INTEGER) /\
  resolveTableName (Column3 "" "d_year" PTY.STRING) = "dates" /\
  resolveColumnType "dates" "d_year" = PTY.STRING /\ resolveColumnType "date" "d_year" = PTY.INTEGER.
Proof.
  split_and!; try reflexivity; intros c Hc%count_in_elem; rewrite /resolveColumnType;
    simpl assoc; cbn [columns listedType]; by rewrite Hc.
Qed.
