(* ===== verification/PhysContext.v ===== *)
(** * State of the physical optimizer

    The structs of [include/optimizer/PhysicalOptimizer.hpp].  Physical nodes
    are shared: they live in a store (a list, the address is the position)
    and are entered when they are complete, so an address never changes its
    meaning except through the post-processing pass.  The identifiers drawn by
    [nextIntermediateName] come from a stream [rnd], one per draw: the random
    generator is not modelled.  [std::map] and [std::set] are [gmap] and
    [gset]; every iteration over them in the code is order-independent. *)

From S2P Require Import Prelude PlanTypes.

Record PosListInfo : Set := mkPos {
  poslist_col : Column;
  pos_producer : option paddr;
}.

Record MaterializedInfo : Set := mkMat {
  mat_col : Column;
  mat_producer : option paddr;
  chain_index : Z;                        (* -1 for a base column *)
}.

(** The flag [optimize_join_outputs] is stored in the context but read only as
    the argument of [ConvertToPhys]; it is an argument there. *)
Record TransformContext : Type := mkTC {
  available_poslists : gmap string Column;
  intermediate_table_name : string;
  poslist_provenance : gmap string string;
  filter_nodes : gmap string paddr;
  table_poslist_chain : gmap string (list PosListInfo);
  materialized_columns : gmap string MaterializedInfo;
  intermediate_results : gmap string MaterializedInfo;
  ctx_projected : list MaterializedInfo;  (* projected_columns *)
  ctx_limit_count : option Z;
  ctx_limit_offset : option Z;
  optimize_chains : bool;
}.

Inductive TransformResultType : Set :=
  | RT_UNKNOWN | RT_SCAN | RT_POSLIST | RT_JOINED | RT_MATERIALIZED | RT_AGGREGATE | RT_GROUPBY.

#[export] Instance TransformResultType_eq_dec : EqDecision TransformResultType.
Proof. solve_decision. Defined.

Record TransformResult : Type := mkTR {
  physical_root : option paddr;
  output_column : Column;
  secondary_output : option Column;
  source_table : string;
  tables_involved : gset string;
  result_type : TransformResultType;
}.

(** The optimizer's state: context, store, and the number of identifiers
    drawn so far. *)
Record opt_state : Type := mkOS {
  os_ctx : TransformContext;
  os_heap : list PhysicalPlanNode;
  os_draws : nat;
}.

Abbreviation opt := (ST opt_state) (only parsing).

(** ** Access *)

Definition set_ctx (c : TransformContext) (s : opt_state) : opt_state :=
  mkOS c (os_heap s) (os_draws s).

Definition get_ctx : opt TransformContext := fun s => Ok (os_ctx s, s).
Definition upd_ctx (f : TransformContext -> TransformContext) : opt unit :=
  modify (fun s => set_ctx (f (os_ctx s)) s).

(** [std::make_shared<PhysicalPlanNode>(...)] of a complete node. *)
Definition alloc (n : PhysicalPlanNode) : opt paddr := fun s =>
  Ok (length (os_heap s), mkOS (os_ctx s) (os_heap s ++ [n]) (os_draws s)).

Definition load (a : paddr) : opt PhysicalPlanNode := fun s =>
  match os_heap s !! a with
  | Some n => Ok (n, s)
  | None => Err (Undef "dangling pointer")
  end.

(** [root && root->node_type == ty] *)
Definition has_type (root : option paddr) (ty : PNT.PhysicalNodeType) : opt bool :=
  match root with
  | None => mret false
  | Some a => n ← load a; mret (bool_decide (p_node_type n = ty))
  end.

Section rnd.
Variable rnd : nat -> Z.
Definition nextIntermediateName : opt Z := fun s =>
  Ok (rnd (os_draws s), mkOS (os_ctx s) (os_heap s) (S (os_draws s))).
End rnd.

(** ** Field updates *)

Definition set_chain (m : gmap string (list PosListInfo)) (c : TransformContext) :=
  mkTC (available_poslists c) (intermediate_table_name c) (poslist_provenance c) (filter_nodes c)
    m (materialized_columns c) (intermediate_results c) (ctx_projected c) (ctx_limit_count c)
    (ctx_limit_offset c) (optimize_chains c).
Definition set_materialized (m : gmap string MaterializedInfo) (c : TransformContext) :=
  mkTC (available_poslists c) (intermediate_table_name c) (poslist_provenance c) (filter_nodes c)
    (table_poslist_chain c) m (intermediate_results c) (ctx_projected c) (ctx_limit_count c)
    (ctx_limit_offset c) (optimize_chains c).
Definition set_intermediate (m : gmap string MaterializedInfo) (c : TransformContext) :=
  mkTC (available_poslists c) (intermediate_table_name c) (poslist_provenance c) (filter_nodes c)
    (table_poslist_chain c) (materialized_columns c) m (ctx_projected c) (ctx_limit_count c)
    (ctx_limit_offset c) (optimize_chains c).
Definition set_projected (l : list MaterializedInfo) (c : TransformContext) :=
  mkTC (available_poslists c) (intermediate_table_name c) (poslist_provenance c) (filter_nodes c)
    (table_poslist_chain c) (materialized_columns c) (intermediate_results c) l (ctx_limit_count c)
    (ctx_limit_offset c) (optimize_chains c).
Definition set_provenance (name table : string) (c : TransformContext) :=
  mkTC (available_poslists c) (intermediate_table_name c)
    (<[name := table]> (poslist_provenance c)) (filter_nodes c)
    (table_poslist_chain c) (materialized_columns c) (intermediate_results c) (ctx_projected c)
    (ctx_limit_count c) (ctx_limit_offset c) (optimize_chains c).
Definition set_filter (key : string) (col : Column) (a : paddr) (c : TransformContext) :=
  mkTC (<[key := col]> (available_poslists c)) (intermediate_table_name c) (poslist_provenance c)
    (<[key := a]> (filter_nodes c)) (table_poslist_chain c) (materialized_columns c)
    (intermediate_results c) (ctx_projected c) (ctx_limit_count c) (ctx_limit_offset c)
    (optimize_chains c).
Definition set_limits (l o : option Z) (c : TransformContext) :=
  mkTC (available_poslists c) (intermediate_table_name c) (poslist_provenance c) (filter_nodes c)
    (table_poslist_chain c) (materialized_columns c) (intermediate_results c) (ctx_projected c)
    l o (optimize_chains c).

(** [context.table_poslist_chain[tbl].push_back(p)] *)
Definition push_chain (p : PosListInfo) (m : gmap string (list PosListInfo)) (tbl : string)
    : gmap string (list PosListInfo) :=
  <[tbl := default [] (m !! tbl) ++ [p]]> m.

(** ... for every table of a set. *)
Definition push_chains (tbls : gset string) (p : PosListInfo) (c : TransformContext) : TransformContext :=
  set_chain (fold_left (push_chain p) (elements tbls) (table_poslist_chain c)) c.
