(* ===== verification/Materialization.v ===== *)
(** * Materialization

    [PhysicalOptimizerMaterialization.cpp]: both strategies of
    [ensureMaterialized], the registration of derived results and the
    creation of MATERIALIZE nodes.  [base_col] is passed by reference: the
    functions return its new value too. *)

From S2P Require Import Prelude PlanTypes PhysContext.

(** A node with everything but the listed fields empty. *)
Definition new_phys (ty : PNT.PhysicalNodeType) (id : Z) (base : list Column) (res : list Column)
    (ch : list (option paddr)) (idx : option Column) : PhysicalPlanNode :=
  mkPhys ty id base None None Expression_default res ch None idx.

Definition set_p_expression (e : Expression) (n : PhysicalPlanNode) : PhysicalPlanNode :=
  mkPhys (p_node_type n) (p_node_id n) (p_base_columns n) (p_aggregationColumn n)
    (p_clusterColumn n) e (p_result_columns n) (p_children n) (p_resultName n) (p_index n).
Definition set_p_aggregationColumn (c : option Column) (n : PhysicalPlanNode) : PhysicalPlanNode :=
  mkPhys (p_node_type n) (p_node_id n) (p_base_columns n) c
    (p_clusterColumn n) (p_expression n) (p_result_columns n) (p_children n) (p_resultName n) (p_index n).
Definition set_p_clusterColumn (c : option Column) (n : PhysicalPlanNode) : PhysicalPlanNode :=
  mkPhys (p_node_type n) (p_node_id n) (p_base_columns n) (p_aggregationColumn n)
    c (p_expression n) (p_result_columns n) (p_children n) (p_resultName n) (p_index n).
Definition set_p_resultName (r : option string) (n : PhysicalPlanNode) : PhysicalPlanNode :=
  mkPhys (p_node_type n) (p_node_id n) (p_base_columns n) (p_aggregationColumn n)
    (p_clusterColumn n) (p_expression n) (p_result_columns n) (p_children n) r (p_index n).

(** The producers that are not null, as children. *)
Definition producers (l : list (option paddr)) : list (option paddr) := map Some (omap id l).

(** ["i" + std::to_string(id)] *)
Definition iname (id : Z) : string := "i" +:+ to_string id.

Definition isBaseTableChainMaterialization (info : MaterializedInfo) : opt bool :=
  match mat_producer info with
  | None => mret false
  | Some a =>
      n ← load a;
      mret (bool_decide (p_node_type n = PNT.MATERIALIZE) &&
            match p_base_columns n with
            | [] => false
            | c :: _ => default false (is_base c)
            end)
  end.

Definition lookupIntermediateResult (col : Column) (context : TransformContext) : option MaterializedInfo :=
  let by_alias :=
    match alias col with
    | Some a => if negb (is_empty a) then intermediate_results context !! a else None
    | None => None
    end in
  match by_alias with
  | Some i => Some i
  | None => intermediate_results context !! column_name col
  end.

Definition registerIntermediateResult (name : string) (col : Column) (producer : option paddr) : opt unit :=
  let info := mkMat col producer INT_MAX in
  upd_ctx (fun c =>
    let m := <[name := info]> (intermediate_results c) in
    set_intermediate
      match alias col with
      | Some a => if negb (is_empty a) then <[a := info]> m else m
      | None => m
      end c).

(** [for (size_t i = chain_index + 1; ...)]: the [int] sum wraps around for
    the sentinel [INT_MAX] (signed overflow, two's complement on every
    supported platform) and is then converted to [size_t]. *)
Definition next_index (ci : Z) : Z := to_size (to_int32 (ci + 1)).

Section rnd.
Variable rnd : nat -> Z.

Definition createMaterializeNode (column_to_materialize poslist : Column) (chs : list (option paddr))
    : opt (paddr * Column) :=
  context ← get_ctx;
  id ← nextIntermediateName rnd;
  let output_col := Column3 (intermediate_table_name context) (iname id) (type column_to_materialize) in
  a ← alloc (new_phys PNT.MATERIALIZE id [column_to_materialize] [output_col] (producers chs) (Some poslist));
  mret (a, output_col).

(** One step of the poslist-to-poslist mapping loop: the new [chain_vec[i]]. *)
Definition map_poslist (table : string) (prev cur : PosListInfo) : opt PosListInfo :=
  is_join ← has_type (pos_producer cur) PNT.HASHJOIN;
  is_filter ← has_type (pos_producer cur) PNT.FILTER;
  if is_join || is_filter then
    context ← get_ctx;
    mid ← nextIntermediateName rnd;
    let mapped_col := Column3 (intermediate_table_name context) (iname mid) PTY.POSLIST in
    a ← alloc (new_phys PNT.MATERIALIZE mid [poslist_col prev] [mapped_col]
                 (producers [pos_producer prev; pos_producer cur]) (Some (poslist_col cur)));
    _ ← upd_ctx (set_provenance (iname mid) table);
    mret (mkPos mapped_col (Some a))
  else mret cur.

(** The loop over [chain_vec[1..]]; [prev] is the updated predecessor. *)
Fixpoint map_chain (table : string) (prev : PosListInfo) (rest : list PosListInfo)
    : opt (list PosListInfo) :=
  match rest with
  | [] => mret []
  | cur :: rest =>
      cur' ← map_poslist table prev cur;
      rest' ← map_chain table cur' rest;
      mret (cur' :: rest')
  end.

Definition ensureMaterializedOptimized (base_col : Column) : opt (MaterializedInfo * Column) :=
  context ← get_ctx;
  match lookupIntermediateResult base_col context with
  | Some info => mret (info, base_col)
  | None =>
      let table := table_name base_col in
      let key := col_key base_col in
      match table_poslist_chain context !! table with
      | None | Some [] =>
          let c := set_is_base (Some true) base_col in
          mret (mkMat c None (-1), c)
      | Some (first :: rest) =>
          rest' ← map_chain table first rest;
          _ ← upd_ctx (fun c => set_chain (<[table := first :: rest']> (table_poslist_chain c)) c);
          let target_chain_index := (Z.of_nat (length (first :: rest')) - 1)%Z in
          let final_pos := List.last rest' first in
          context ← get_ctx;
          reuse ← match materialized_columns context !! key with
                  | None => mret None
                  | Some cached =>
                      base ← isBaseTableChainMaterialization cached;
                      mret (if negb base || (chain_index cached =? target_chain_index)%Z
                            then Some cached else None)
                  end;
          match reuse with
          | Some cached => mret (cached, base_col)
          | None =>
              let c := set_is_base (Some true) base_col in
              '(a, out) ← createMaterializeNode c (poslist_col final_pos) [pos_producer final_pos];
              let out_info := mkMat out (Some a) target_chain_index in
              _ ← upd_ctx (fun x => set_materialized (<[key := out_info]> (materialized_columns x)) x);
              mret (out_info, c)
          end
      end
  end.

(** The loop over [chain[i..]] of the chained variant, starting at [i]. *)
Fixpoint chain_loop (chain : list PosListInfo) (i : nat) (cur : MaterializedInfo) : opt MaterializedInfo :=
  match chain with
  | [] => mret cur
  | pos_info :: chain =>
      '(a, out) ← createMaterializeNode (mat_col cur) (poslist_col pos_info)
                    [mat_producer cur; pos_producer pos_info];
      chain_loop chain (S i) (mkMat out (Some a) (Z.of_nat i))
  end.

Definition ensureMaterialized (base_col : Column) : opt (MaterializedInfo * Column) :=
  context ← get_ctx;
  if optimize_chains context then ensureMaterializedOptimized base_col
  else
    match lookupIntermediateResult base_col context with
    | Some info => mret (info, base_col)
    | None =>
        let table := table_name base_col in
        let key := col_key base_col in
        let current_info :=
          match materialized_columns context !! key with
          | Some i => i
          | None => mkMat (set_is_base (Some true) base_col) None (-1)
          end in
        let chain := default [] (table_poslist_chain context !! table) in
        _ ← upd_ctx (fun c => set_chain (<[table := chain]> (table_poslist_chain c)) c);
        let start := next_index (chain_index current_info) in
        current_info ← (if (start <? Z.of_nat (length chain))%Z
                        then chain_loop (drop (Z.to_nat start) chain) (Z.to_nat start) current_info
                        else mret current_info);
        _ ← upd_ctx (fun c => set_materialized (<[key := current_info]> (materialized_columns c)) c);
        mret (current_info, base_col)
    end.

Definition resolveAggregateInput (agg_spec : AggSpec) (child_result : TransformResult)
    : opt (Column * option paddr) :=
  match input agg_spec with
  | Some base_col =>
      '(mat_info, _) ← ensureMaterialized base_col;
      mret (mat_col mat_info, mat_producer mat_info)
  | None => mret (output_column child_result, physical_root child_result)
  end.

(** One iteration per key; [group_mats[i]] is read at every index. *)
Fixpoint materializeGroupedKeys (group_mats : list MaterializedInfo) (group_cols_logical : list Column)
    (idx_poslist : Column) (groupby_node : paddr) : opt unit :=
  match group_cols_logical with
  | [] => mret tt
  | col :: cols =>
      match group_mats with
      | [] => raise (Undef "group_mats[i]")
      | gm :: gms =>
          '(a, out) ← createMaterializeNode (mat_col gm) idx_poslist [Some groupby_node; mat_producer gm];
          _ ← upd_ctx (fun c => set_materialized
                (<[col_key col := mkMat out (Some a) INT_MAX]> (materialized_columns c)) c);
          materializeGroupedKeys gms cols idx_poslist groupby_node
      end
  end.

End rnd.
