(* ===== verification/PhysicalOptimizer.v ===== *)
(** * Logical to physical plans

    [PhysicalOptimizer.cpp], [PhysicalOptimizerPostProcess.cpp] and
    [PhysicalOptimizerCardinality.cpp].  A handler of an operator with
    children receives the transformations of its children as computations and
    runs them where the code calls [transformNode].  The flag [is_base] that
    the code sets on columns of the logical plan is kept where a physical node
    copies the column afterwards; the logical plan itself is not read again. *)

From S2P Require Import Prelude PlanTypes PhysContext Materialization.

Definition getSSBCardinality (table_name : string) : Z :=
  (if table_name =s "lineorder" then 6000000
  else if table_name =s "customer" then 30000
  else if table_name =s "part" then 200000
  else if table_name =s "supplier" then 2000
  else if (table_name =s "date") || (table_name =s "ddate") then 2556
  else 1000)%Z.

Definition getCardinality (table_name : string) : Z := getSSBCardinality table_name.

(** A node result without secondary output. *)
Definition tr (root : option paddr) (out : Column) (src : string) (tbls : gset string)
    (ty : TransformResultType) : TransformResult := mkTR root out None src tbls ty.

Definition handleScan (n : LogicalPlanNode) : TransformResult :=
  tr None Column_default (scan_table n) {[scan_table n]} RT_SCAN.

(** ["count"], ["sum"], ... as a prefix of the name. *)
Definition isAggregateRef (name : string) : bool :=
  String.prefix "count" name || String.prefix "sum" name || String.prefix "avg" name ||
  String.prefix "min" name || String.prefix "max" name.

Definition same_sort_column (a b : Column) : bool :=
  (table_name a =s table_name b) && (column_name a =s column_name b) &&
  bool_decide (type a = type b).

(** Sizes agree and [std::equal] holds. *)
Fixpoint columns_equal (l1 l2 : list Column) : bool :=
  match l1, l2 with
  | [], [] => true
  | a :: l1, b :: l2 => same_sort_column a b && columns_equal l1 l2
  | _, _ => false
  end.

Definition agg_alias_col (spec : option AggSpec) (c : Column) : Column :=
  match spec with
  | Some s => match result_alias s with Some a => set_alias (Some a) c | None => c end
  | None => c
  end.

Section optimizer.
Variable rnd : nat -> Z.

(** A fresh name and an output column of the intermediate table. *)
Definition fresh_col (suffix : string) (ty : PTY.PlanColumnType) : opt (Z * Column) :=
  context ← get_ctx;
  id ← nextIntermediateName rnd;
  mret (id, Column3 (intermediate_table_name context) (iname id +:+ suffix) ty).

Definition createSetOperationNode (child_results : list TransformResult) (op_type : PRO.PlanLogicalRelOp)
    : opt TransformResult :=
  match child_results with
  | first :: _ :: _ =>
      '(id, output_col) ← fresh_col "" PTY.POSLIST;
      a ← alloc (set_p_expression (set_logical_rel_op (Some op_type) Expression_default)
                   (new_phys PNT.SETOPERATION id (map output_column child_results) [output_col]
                      (map physical_root child_results) None));
      let src := source_table first in
      let tbls := ⋃ (map tables_involved child_results) in
      _ ← upd_ctx (set_provenance (column_name output_col) src);
      _ ← upd_ctx (fun c =>
            if negb (is_empty src) then
              set_filter (src +:+ "_filter") output_col a
                (set_chain (<[src := [mkPos output_col (Some a)]]> (table_poslist_chain c)) c)
            else c);
      mret (tr (Some a) output_col src tbls RT_POSLIST)
  | _ => raise (Throw "SETOPERATION requires at least 2 inputs")
  end.

(** Whether a materialization key belongs to one of the tables. *)
Definition key_of_tables (tbls : gset string) (key : string) : bool :=
  existsb (fun t => String.prefix (t +:+ ".") key) (elements tbls).

Definition handleCrossTableFilter (n : LogicalPlanNode) (c0 c1 : Column) (child_result : TransformResult)
    (src : string) : opt TransformResult :=
  '(left_mat, _) ← ensureMaterialized rnd c0;
  '(right_mat, _) ← ensureMaterialized rnd c1;
  '(id, output_col) ← fresh_col "" PTY.POSLIST;
  a ← alloc (set_p_expression (expression n)
               (new_phys PNT.FILTER id [mat_col left_mat; mat_col right_mat] [output_col]
                  (producers [mat_producer left_mat; mat_producer right_mat]) None));
  _ ← upd_ctx (set_provenance (column_name output_col) (table_name c0));
  _ ← upd_ctx (push_chains (tables_involved child_result) (mkPos output_col (Some a)));
  _ ← upd_ctx (fun c => set_materialized
        (filter (fun kv => key_of_tables (tables_involved child_result) kv.1 = false)
           (materialized_columns c)) c);
  mret (tr (Some a) output_col src
          ({[table_name c1]} ∪ ({[table_name c0]} ∪ tables_involved child_result)) RT_POSLIST).

Definition handleFilter (n : LogicalPlanNode) (child : opt TransformResult) : opt TransformResult :=
  child_result ← child;
  let src := match base_columns n with c :: _ => table_name c | [] => "" end in
  match base_columns n with
  | [] => raise (Undef "base_columns[0]")
  | c0 :: cols =>
      let cross := match cols with
                   | c1 :: _ => if negb (is_empty (table_name c0)) && negb (is_empty (table_name c1)) &&
                                   negb (table_name c0 =s table_name c1) then Some c1 else None
                   | [] => None
                   end in
      match cross with
      | Some c1 => handleCrossTableFilter n c0 c1 child_result src
      | None =>
          '(id, output_col) ← fresh_col "" PTY.POSLIST;
          a ← alloc (set_p_expression (expression n)
                       (new_phys PNT.FILTER id (set_is_base (Some true) c0 :: cols) [output_col] [] None));
          _ ← upd_ctx (set_provenance (column_name output_col) src);
          let tbls := if negb (is_empty src) then {[src]} ∪ tables_involved child_result
                      else tables_involved child_result in
          child_is_filter ← has_type (physical_root child_result) PNT.FILTER;
          let this := tr (Some a) output_col src tbls RT_POSLIST in
          if child_is_filter && (source_table child_result =s src)
          then createSetOperationNode [child_result; this] PRO.INTERSECTION
          else
            _ ← upd_ctx (fun c => set_filter (src +:+ "_filter") output_col a
                  (set_chain (push_chain (mkPos output_col (Some a)) (table_poslist_chain c) src) c));
            mret this
      end
  end.

Definition handleJoin (n : LogicalPlanNode) (lhs rhs : opt TransformResult) : opt TransformResult :=
  left_result ← lhs;
  right_result ← rhs;
  match base_columns n with
  | left_join_col :: right_join_col :: _ =>
      '(left_mat, _) ← ensureMaterialized rnd left_join_col;
      '(right_mat, _) ← ensureMaterialized rnd right_join_col;
      let lt := table_name left_join_col in
      let rt := table_name right_join_col in
      let swap_inputs := (getCardinality rt <? getCardinality lt)%Z in
      let '(inner_mat, outer_mat) := if swap_inputs then (right_mat, left_mat) else (left_mat, right_mat) in
      let '(inner_table, outer_table) := if swap_inputs then (rt, lt) else (lt, rt) in
      let '(inner_res, outer_res) :=
        if swap_inputs then (right_result, left_result) else (left_result, right_result) in
      context ← get_ctx;
      id ← nextIntermediateName rnd;
      let inner_col := Column3 (intermediate_table_name context) (iname id +:+ "_i") PTY.POSLIST in
      let outer_col := Column3 (intermediate_table_name context) (iname id +:+ "_o") PTY.POSLIST in
      a ← alloc (set_p_expression (expression n)
                   (new_phys PNT.HASHJOIN id [mat_col inner_mat; mat_col outer_mat] [inner_col; outer_col]
                      (producers [mat_producer inner_mat; mat_producer outer_mat]) None));
      _ ← upd_ctx (fun c => set_provenance (column_name outer_col) outer_table
                              (set_provenance (column_name inner_col) inner_table c));
      _ ← upd_ctx (push_chains (tables_involved inner_res) (mkPos inner_col (Some a)));
      _ ← upd_ctx (push_chains (tables_involved outer_res) (mkPos outer_col (Some a)));
      mret (mkTR (Some a) inner_col (Some outer_col) ""
              (tables_involved left_result ∪ tables_involved right_result) RT_JOINED)
  | _ => raise (Undef "base_columns[1]")
  end.

Definition materialize_columns (cols : list Column) : opt (list MaterializedInfo) :=
  mapM (fun c => '(i, _) ← ensureMaterialized rnd c; mret i) cols.

Definition handleMap (n : LogicalPlanNode) (child : opt TransformResult) : opt TransformResult :=
  child_result ← child;
  mats ← materialize_columns (base_columns n);
  '(id, output_col) ← fresh_col "" PTY.INTEGER;
  a ← alloc (set_p_expression (expression n)
               (new_phys PNT.MAP id (map mat_col mats) [output_col] (producers (map mat_producer mats)) None));
  _ ← registerIntermediateResult (column_name output_col) output_col (Some a);
  mret (tr (Some a) output_col "" (tables_involved child_result) RT_MATERIALIZED).

(** ** Aggregation *)

(** One AGGREGATE node per specification; returns the first, with its output. *)
Fixpoint parallel_loop (agg_specs : list AggSpec) (child_result : TransformResult)
    : opt (list (paddr * Column)) :=
  match agg_specs with
  | [] => mret []
  | agg_spec :: specs =>
      '(agg_col, agg_node) ← resolveAggregateInput rnd agg_spec child_result;
      '(id, out) ← fresh_col "" PTY.INTEGER;
      let output_col := agg_alias_col (Some agg_spec) out in
      a ← alloc (set_p_expression (set_agg_specs [agg_spec] Expression_default)
                   (new_phys PNT.AGGREGATE id [agg_col] [output_col] (producers [agg_node]) None));
      _ ← registerIntermediateResult (column_name out) output_col (Some a);
      rest ← parallel_loop specs child_result;
      mret ((a, output_col) :: rest)
  end.

Definition createParallelAggregateNodes (agg_specs : list AggSpec) (child_result : TransformResult)
    : opt TransformResult :=
  nodes ← parallel_loop agg_specs child_result;
  let '(root, out) := match nodes with
                      | (a, c) :: _ => (Some a, c)
                      | [] => (None, Column_default)
                      end in
  mret (tr root out "" (tables_involved child_result) RT_AGGREGATE).

Definition createSingleAggregateNode (n : LogicalPlanNode) (child_result : TransformResult)
    : opt TransformResult :=
  let first_agg := head (agg_specs (expression n)) in
  '(agg_col, agg_node) ←
    match bool_decide (result_type child_result = RT_JOINED), first_agg ≫= input with
    | true, Some base_col =>
        '(m, _) ← ensureMaterialized rnd base_col;
        mret (mat_col m, mat_producer m)
    | _, _ => mret (output_column child_result, physical_root child_result)
    end;
  '(id, out) ← fresh_col "" PTY.INTEGER;
  let output_col := agg_alias_col first_agg out in
  a ← alloc (set_p_expression (expression n)
               (new_phys PNT.AGGREGATE id [agg_col] [output_col] (producers [agg_node]) None));
  _ ← registerIntermediateResult (column_name out) output_col (Some a);
  mret (tr (Some a) output_col "" (tables_involved child_result) RT_AGGREGATE).

(** [root->result_columns[0]] *)
Definition first_result (root : option paddr) : opt Column :=
  a ← lift (deref "physical_root" root);
  n ← load a;
  lift (at_index "result_columns[0]" (p_result_columns n) 0).

(** The AGGREGATE nodes of a multi-aggregate GROUP BY.  [ensureMaterialized]
    sees [*agg_spec.input] by reference, so the copied specification carries
    the updated column. *)
Fixpoint multi_agg_loop (agg_specs : list AggSpec) (idx_col cluster_col : Column) (groupby : paddr)
    (child_result : TransformResult) : opt (list (paddr * Column)) :=
  match agg_specs with
  | [] => mret []
  | agg_spec :: specs =>
      is_map ← has_type (physical_root child_result) PNT.MAP;
      '(base, chs, agg_spec) ←
        match input agg_spec with
        | Some c =>
            '(m, c') ← ensureMaterialized rnd c;
            mret ([mat_col m], producers [mat_producer m], set_input (Some c') agg_spec)
        | None =>
            if (is_map : bool) then
              c ← first_result (physical_root child_result);
              mret ([c], [physical_root child_result], agg_spec)
            else mret ([], [], agg_spec)
        end;
      '(id, out) ← fresh_col "" PTY.INTEGER;
      let agg_output_col := agg_alias_col (Some agg_spec) out in
      let agg_res_col := agg_alias_col (Some agg_spec)
                           (set_column_name (column_name out +:+ "_agg") out) in
      a ← alloc (set_p_clusterColumn (Some cluster_col)
                   (set_p_expression (set_agg_specs [agg_spec] Expression_default)
                      (new_phys PNT.AGGREGATE id base [agg_output_col] (chs ++ [Some groupby]) (Some idx_col))));
      _ ← registerIntermediateResult (column_name out) agg_res_col (Some a);
      rest ← multi_agg_loop specs idx_col cluster_col groupby child_result;
      mret ((a, agg_output_col) :: rest)
  end.

Definition handleGroupByMultiAgg (n : LogicalPlanNode) (groupby : PhysicalPlanNode)
    (group_mats : list MaterializedInfo) (group_cols : list Column) (idx_col cluster_col : Column)
    (child_result : TransformResult) : opt TransformResult :=
  g ← alloc (set_p_expression (set_agg_specs [] (expression n))
               (set_result_columns [idx_col; cluster_col] groupby));
  is_map ← has_type (physical_root child_result) PNT.MAP;
  _ ← (if is_map : bool then
         map_output ← first_result (physical_root child_result);
         registerIntermediateResult (column_name map_output) map_output (physical_root child_result)
       else mret tt);
  nodes ← multi_agg_loop (agg_specs (expression n)) idx_col cluster_col g child_result;
  _ ← materializeGroupedKeys rnd group_mats group_cols idx_col g;
  let '(root, out) := match nodes with (a, c) :: _ => (a, c) | [] => (g, idx_col) end in
  mret (tr (Some root) out "" (tables_involved child_result) RT_GROUPBY).

Definition set_first_input (c : Column) (e : Expression) : Expression :=
  match agg_specs e with
  | s :: specs => set_agg_specs (set_input (Some c) s :: specs) e
  | [] => e
  end.

Definition set_p_children (ch : list (option paddr)) (n : PhysicalPlanNode) : PhysicalPlanNode :=
  mkPhys (p_node_type n) (p_node_id n) (p_base_columns n) (p_aggregationColumn n)
    (p_clusterColumn n) (p_expression n) (p_result_columns n) ch (p_resultName n) (p_index n).

Definition handleGroupBySingleAgg (n : LogicalPlanNode) (groupby : PhysicalPlanNode)
    (first_agg : option AggSpec) (group_mats : list MaterializedInfo) (group_cols : list Column)
    (groupby_res_name : string) (idx_ext_col : Column) (child_result : TransformResult)
    : opt TransformResult :=
  context ← get_ctx;
  is_map ← has_type (physical_root child_result) PNT.MAP;
  groupby ← (if is_map : bool then
               c ← first_result (physical_root child_result);
               mret (set_p_aggregationColumn (Some c)
                       (set_p_children (p_children groupby ++ [physical_root child_result]) groupby))
             else mret groupby);
  '(groupby, expr) ←
    match first_agg ≫= input with
    | Some c =>
        '(m, c') ← ensureMaterialized rnd c;
        mret (set_p_aggregationColumn (Some (mat_col m))
                (set_p_children (p_children groupby ++ producers [mat_producer m]) groupby),
              set_first_input c' (expression n))
    | None =>
        first ← lift (deref "first_agg->is_star" first_agg);
        if is_star first && bool_decide (func first = PAF.COUNT) then
          c ← lift (at_index "base_columns[0]" (p_base_columns groupby) 0);
          mret (set_p_aggregationColumn (Some c) groupby, expression n)
        else mret (groupby, expression n)
    end;
  let itn := intermediate_table_name context in
  let res_col := agg_alias_col first_agg (Column3 itn groupby_res_name PTY.INTEGER) in
  let agg_res_col := agg_alias_col first_agg (Column3 itn (groupby_res_name +:+ "_agg") PTY.INTEGER) in
  g ← alloc (set_p_expression expr (set_result_columns [res_col] groupby));
  _ ← registerIntermediateResult groupby_res_name agg_res_col (Some g);
  _ ← materializeGroupedKeys rnd group_mats group_cols idx_ext_col g;
  mret (tr (Some g) res_col "" (tables_involved child_result) RT_GROUPBY).

(** [ensureMaterialized] over copies of the columns; the copies' new values
    are kept by the caller. *)
Definition handleGroupBy (n : LogicalPlanNode) (child_result : TransformResult) : opt TransformResult :=
  mats ← mapM (ensureMaterialized rnd) (base_columns n);
  let group_mats := map fst mats in
  let group_cols := map snd mats in
  context ← get_ctx;
  groupby_id ← nextIntermediateName rnd;
  let name := iname groupby_id in
  let aux suffix := Column3 (intermediate_table_name context) (name +:+ suffix) PTY.POSLIST in
  let groupby := new_phys PNT.GROUPBY groupby_id (map mat_col group_mats) []
                   (producers (map mat_producer group_mats)) None in
  match agg_specs (expression n) with
  | _ :: _ :: _ => handleGroupByMultiAgg n groupby group_mats group_cols (aux "_idx") (aux "_cluster") child_result
  | specs => handleGroupBySingleAgg n groupby (head specs) group_mats group_cols name (aux "_idx_ext") child_result
  end.

Definition handleAggregate (n : LogicalPlanNode) (child : opt TransformResult) : opt TransformResult :=
  child_result ← child;
  match base_columns n with
  | _ :: _ => handleGroupBy n child_result
  | [] =>
      match agg_specs (expression n) with
      | _ :: _ :: _ => createParallelAggregateNodes (agg_specs (expression n)) child_result
      | _ => createSingleAggregateNode n child_result
      end
  end.

(** ** Projection, sort and result *)

Definition nonempty (o : option string) : option string :=
  match o with Some s => if negb (is_empty s) then Some s else None | None => None end.

(** The projected column: alias and base table from the logical column. *)
Definition projected_info (col : Column) (info : MaterializedInfo) : MaterializedInfo :=
  let c := set_alias (Some (default (column_name col) (nonempty (alias col)))) (mat_col info) in
  let c := match nonempty (base_table col) with Some b => set_base_table (Some b) c | None => c end in
  mkMat c (mat_producer info) (chain_index info).

Fixpoint project_loop (cols : list Column) : opt unit :=
  match cols with
  | [] => mret tt
  | col :: cols =>
      '(info, _) ← ensureMaterialized rnd col;
      _ ← upd_ctx (fun c => set_projected (ctx_projected c ++ [projected_info col info]) c);
      project_loop cols
  end.

Definition handleProjection (n : LogicalPlanNode) (child : opt TransformResult) : opt TransformResult :=
  child_result ← child;
  _ ← upd_ctx (set_projected []);
  _ ← project_loop (projected_columns n);
  mret child_result.

Definition handleSetOperation (n : LogicalPlanNode) (children_run : opt (list TransformResult))
    : opt TransformResult :=
  child_results ← children_run;
  createSetOperationNode child_results (default PRO.INTERSECTION (logical_rel_op (expression n))).

(** The sort key of one column: the GROUPBY's cluster column for a reference
    to an aggregate, the materialized column otherwise. *)
Definition sort_key (root : option paddr) (col : Column) : opt (Column * option paddr) :=
  is_group ← has_type root PNT.GROUPBY;
  cluster ←
    (if is_empty (table_name col) && isAggregateRef (column_name col) && is_group then
       a ← lift (deref "physical_root" root);
       g ← load a;
       mret (match p_result_columns g with
             | c :: _ => Some (set_column_name (column_name c +:+ "_cluster") c)
             | [] => None
             end)
     else mret None);
  match cluster with
  | Some c => mret (c, root)
  | None => '(m, _) ← ensureMaterialized rnd col; mret (mat_col m, mat_producer m)
  end.

(** The columns of [children[0]->children[0]]. *)
Definition grandchild_columns (n : LogicalPlanNode) : result (list Column) :=
  c ← deref "children[0]" (mjoin (head (children n)));
  g ← deref "children[0]->children[0]" (mjoin (head (children c)));
  Ok (base_columns g).

Definition handleSort (n : LogicalPlanNode) (child : opt TransformResult) : opt TransformResult :=
  child_result ← child;
  elide ← (if bool_decide (result_type child_result = RT_GROUPBY) then
             cols ← lift (grandchild_columns n);
             mret (columns_equal (base_columns n) cols)
           else mret false);
  if elide : bool then mret child_result
  else
    keys ← mapM (sort_key (physical_root child_result)) (base_columns n);
    '(id, output_col) ← fresh_col "_idx" PTY.POSLIST;
    a ← alloc (set_p_expression (set_sort_order (sort_order (expression n)) Expression_default)
                 (new_phys PNT.SORT id (map fst keys) [output_col] (producers (map snd keys)) None));
    mret (tr (Some a) output_col "" (tables_involved child_result) RT_POSLIST).

(** Children of a sorted RESULT: a producer is added once. *)
Definition add_child (ch : list (option paddr)) (info : MaterializedInfo) : list (option paddr) :=
  match mat_producer info with
  | Some a => if bool_decide (Some a ∈ ch) then ch else ch ++ [Some a]
  | None => ch
  end.

Definition buildResultNode (res : TransformResult) : opt paddr :=
  context ← get_ctx;
  id ← nextIntermediateName rnd;
  let itn := intermediate_table_name context in
  let name := if itn =s "intermediate" then "result" else "result_" +:+ itn in
  has_sort ← has_type (physical_root res) PNT.SORT;
  let infos := ctx_projected context in
  let cols := map mat_col infos in
  let '(ch, idx) :=
    if has_sort : bool then (fold_left add_child infos [physical_root res], Some (output_column res))
    else (producers (map mat_producer infos), None) in
  alloc (set_p_resultName (Some name)
           (set_p_expression
              (set_limit_offset (ctx_limit_offset context)
                 (set_limit_count (ctx_limit_count context) Expression_default))
              (new_phys PNT.RESULT id cols cols ch idx))).

(** ** The traversal *)

Definition read_limits (n : LogicalPlanNode) : opt unit :=
  upd_ctx (fun c =>
    set_limits match limit_count (expression n) with Some l => Some l | None => ctx_limit_count c end
               match limit_offset (expression n) with Some o => Some o | None => ctx_limit_offset c end c).

Fixpoint transformNode (n : LogicalPlanNode) : opt TransformResult :=
  let go o := match o with
              | Some c => transformNode c
              | None => raise (Throw "Null logical node encountered")
              end in
  _ ← read_limits n;
  match node_type n, children n with
  | LNT.SCAN, _ => mret (handleScan n)
  | LNT.FILTER, c :: _ => handleFilter n (go c)
  | LNT.FILTER, [] => raise (Throw "FILTER node must have a child")
  | LNT.JOIN, l :: r :: _ => handleJoin n (go l) (go r)
  | LNT.JOIN, [l] => _ ← go l; raise (Undef "children[1]")
  | LNT.JOIN, [] => raise (Throw "JOIN node must have at least one child")
  | LNT.MAP, c :: _ => handleMap n (go c)
  | LNT.MAP, [] => raise (Throw "MAP node must have a child")
  | LNT.AGGREGATE, c :: _ => handleAggregate n (go c)
  | LNT.AGGREGATE, [] => raise (Throw "AGGREGATE node must have a child")
  | LNT.PROJECTION, c :: _ => handleProjection n (go c)
  | LNT.PROJECTION, [] => raise (Throw "PROJECTION node must have a child")
  | LNT.SETOPERATION, (_ :: _ :: _) as cs => handleSetOperation n (mapM go cs)
  | LNT.SETOPERATION, _ => raise (Throw "SETOPERATION node must have at least 2 children")
  | LNT.SORT, c :: _ => handleSort n (go c)
  | LNT.SORT, [] => raise (Throw "SORT node must have a child")
  end.

End optimizer.
