(* ===== verification/PostProcess.v ===== *)
(** * Post-processing and the optimizer's entry point

    [PhysicalOptimizerPostProcess.cpp] and [ConvertToPhys] of
    [PhysicalOptimizer.cpp].  The two walks over the plan DAG recurse with a
    bound on the depth; children have smaller addresses than their parents
    ([PhysicalInvariant.v]), so the size of the store is enough. *)

From S2P Require Import Prelude PlanTypes PhysContext Materialization PhysicalOptimizer.

(** The columns a node consumes. *)
Definition consumed (n : PhysicalPlanNode) : list Column :=
  p_base_columns n ++ option_list (p_index n) ++ option_list (p_aggregationColumn n) ++
  option_list (p_clusterColumn n).

Definition addCol (referenced : gset string) (c : Column) : gset string :=
  if negb (is_empty (table_name c)) || negb (is_empty (column_name c))
  then {[col_key c]} ∪ referenced else referenced.

Definition store_node (heap : list PhysicalPlanNode) (a : paddr) : result PhysicalPlanNode :=
  deref "dangling pointer" (heap !! a).

(** The state is [visited] and [referenced]. *)
Fixpoint collect_fuel (fuel : nat) (heap : list PhysicalPlanNode) (o : option paddr)
    (st : gset nat * gset string) : result (gset nat * gset string) :=
  match o with
  | None => Ok st
  | Some a =>
      if bool_decide (a ∈ st.1) then Ok st
      else
        match fuel with
        | O => Err (Undef "unbounded recursion")
        | S fuel =>
            n ← store_node heap a;
            foldR (fun st c => collect_fuel fuel heap c st) (p_children n)
              ({[a]} ∪ st.1, fold_left addCol (consumed n) st.2)
        end
  end.

Definition collectReferencedColumns (heap : list PhysicalPlanNode) (root : paddr) : result (gset string) :=
  snd <$> collect_fuel (S (length heap)) heap (Some root) (∅, ∅).

(** The new [result_columns] of a node. *)
Definition trim_outputs (referenced : gset string) (n : PhysicalPlanNode) : result (list Column) :=
  if negb (bool_decide (p_node_type n = PNT.HASHJOIN)) then Ok (p_result_columns n)
  else
    match p_result_columns n with
    | [inner; outer] =>
        let inner_used := bool_decide (col_key inner ∈ referenced) in
        let outer_used := bool_decide (col_key outer ∈ referenced) in
        if inner_used && outer_used then Ok [inner; outer]
        else if negb inner_used && negb outer_used
        then Err (Throw "Post-processing pass: Neither join column referenced (should not happen)")
        else if inner_used then Ok [inner] else Ok [outer]
    | cols => Ok cols
    end.

(** The state is [visited] and the store. *)
Fixpoint optimize_fuel (fuel : nat) (referenced : gset string) (o : option paddr)
    (st : gset nat * list PhysicalPlanNode) : result (gset nat * list PhysicalPlanNode) :=
  match o with
  | None => Ok st
  | Some a =>
      if bool_decide (a ∈ st.1) then Ok st
      else
        match fuel with
        | O => Err (Undef "unbounded recursion")
        | S fuel =>
            n ← store_node st.2 a;
            st ← foldR (fun st c => optimize_fuel fuel referenced c st) (p_children n) ({[a]} ∪ st.1, st.2);
            n ← store_node st.2 a;
            cols ← trim_outputs referenced n;
            Ok (st.1, <[a := set_result_columns cols n]> st.2)
        end
  end.

Definition optimizeJoinOutputs (heap : list PhysicalPlanNode) (root : paddr) (referenced : gset string)
    : result (list PhysicalPlanNode) :=
  snd <$> optimize_fuel (S (length heap)) referenced (Some root) (∅, heap).

Definition context_init (itn : string) (oc : bool) : TransformContext :=
  mkTC ∅ itn ∅ ∅ ∅ ∅ ∅ [] None None oc.

(** The physical plan: its root (null for a bare SCAN) in its store. *)
Record phys_plan : Set := mkPlan { plan_root : option paddr; plan_store : list PhysicalPlanNode }.

Section convert.
Variable rnd : nat -> Z.

(** The body of the [try] block. *)
Definition convert_body (n : LogicalPlanNode) (oc jo : bool) (itn : string) : result phys_plan :=
  '(root, s) ←
    (res ← transformNode rnd n;
     context ← get_ctx;
     if negb (bool_decide (ctx_projected context = []))
     then a ← buildResultNode rnd res; mret (Some a)
     else mret (physical_root res))
    (mkOS (context_init itn oc) [] 0);
  match root, jo with
  | Some a, true =>
      referenced ← collectReferencedColumns (os_heap s) a;
      heap ← optimizeJoinOutputs (os_heap s) a referenced;
      Ok (mkPlan root heap)
  | _, _ => Ok (mkPlan root (os_heap s))
  end.

(** [None] is a [return false]; an exception is caught. *)
Definition ConvertToPhys (o : option LogicalPlanNode) (oc jo : bool) (itn : string) : result (option phys_plan) :=
  match o with
  | None => Ok None
  | Some n =>
      match convert_body n oc jo itn with
      | Ok p => Ok (Some p)
      | Err (Throw _) => Ok None
      | Err e => Err e
      end
  end.

(** The constructor followed by [optimize()]. *)
Definition PhysicalOptimizer_optimize (o : option LogicalPlanNode) (oc jo : bool) (itn : string) : result phys_plan :=
  r ← ConvertToPhys o oc jo itn;
  match r with
  | Some p => Ok p
  | None => Err (Throw "Conversion to physical plan failed!")
  end.

End convert.
