(* ===== verification/PhysicalInvariant.v ===== *)
(** * Invariants of the physical optimizer

    Every state the optimizer reaches satisfies [inv]: the store is acyclic
    (children have smaller addresses), every intermediate column a node
    consumes is produced by one of its children, and every pointer kept in the
    context produces the column it is kept for.  Operations are specified by
    total-correctness triples [tri]: they return, keep [inv] and only extend
    the store. *)

From S2P Require Import Prelude PlanTypes PhysContext Materialization PhysicalOptimizer.
From S2P Require Import PostProcess.

(** The names under which a node's outputs are consumed: GROUPBY and
    AGGREGATE also provide the engine's auxiliary columns. *)
Definition outs (n : PhysicalPlanNode) : list string :=
  flat_map (fun r =>
      col_key r ::
      (if bool_decide (p_node_type n = PNT.GROUPBY) || bool_decide (p_node_type n = PNT.AGGREGATE)
       then map (fun s => col_key r +:+ s) ["_agg"; "_idx_ext"; "_cluster"] else []))
    (p_result_columns n).

Definition produces (h : list PhysicalPlanNode) (o : option paddr) (c : Column) : Prop :=
  exists a n, o = Some a /\ h !! a = Some n /\ col_key c ∈ outs n.

Definition in_store (h : list PhysicalPlanNode) (o : option paddr) : Prop :=
  forall a, o = Some a -> a < length h.

Lemma produces_mono h h' o c : h `prefix_of` h' -> produces h o c -> produces h' o c.
Proof. intros [k ->] (a & n & -> & Hn & Hc). exists a, n. split_and!; [done| |done]. by apply lookup_app_l_Some. Qed.

Lemma in_store_mono h h' o : h `prefix_of` h' -> in_store h o -> in_store h' o.
Proof. intros [k ->] H a Ha. specialize (H a Ha). rewrite length_app. lia. Qed.

Section inv.
(** The name of the intermediate table. *)
Variable itn : string.

(** Column [c] can be read once [o] has run. *)
Definition good (h : list PhysicalPlanNode) (o : option paddr) (c : Column) : Prop :=
  in_store h o /\ (table_name c <> itn \/ produces h o c).

Definition node_ok (h : list PhysicalPlanNode) (n : PhysicalPlanNode) : Prop :=
  (forall c, c ∈ consumed n -> table_name c <> itn \/ exists o, o ∈ p_children n /\ produces h o c) /\
  p_result_columns n <> [] /\ (forall o, o ∈ p_children n -> in_store h o).

(** The store was filled one complete node at a time. *)
Definition heap_ok (h : list PhysicalPlanNode) : Prop :=
  forall a n, h !! a = Some n -> node_ok (take a h) n.

Record ctx_ok (h : list PhysicalPlanNode) (c : TransformContext) : Prop := {
  ok_itn : intermediate_table_name c = itn;
  ok_chain : forall t l p, table_poslist_chain c !! t = Some l -> p ∈ l ->
    good h (pos_producer p) (poslist_col p);
  ok_mat : forall k i, materialized_columns c !! k = Some i -> good h (mat_producer i) (mat_col i);
  ok_int : forall k i, intermediate_results c !! k = Some i -> good h (mat_producer i) (mat_col i);
  ok_proj : forall i, i ∈ ctx_projected c -> good h (mat_producer i) (mat_col i);
}.

Definition inv (s : opt_state) : Prop := heap_ok (os_heap s) /\ ctx_ok (os_heap s) (os_ctx s).

Definition ext (s s' : opt_state) : Prop := os_heap s `prefix_of` os_heap s'.

Lemma good_mono h h' o c : h `prefix_of` h' -> good h o c -> good h' o c.
Proof.
  intros Hp [H1 H2]. split; [by eapply in_store_mono|].
  destruct H2; [by left|right; by eapply produces_mono].
Qed.

Lemma ctx_ok_mono h h' c : h `prefix_of` h' -> ctx_ok h c -> ctx_ok h' c.
Proof. intros Hp [H1 H2 H3 H4 H5]. split; eauto using good_mono. Qed.

Lemma node_ok_mono h h' n : h `prefix_of` h' -> node_ok h n -> node_ok h' n.
Proof.
  intros Hp (H1 & H2 & H3). split_and!; [|done|eauto using in_store_mono].
  intros c [?|(o & ? & ?)]%H1; [by left|right]. exists o. split; [done|]. by eapply produces_mono.
Qed.

Lemma good_null h c : table_name c <> itn -> good h None c.
Proof. intros H. split; [done|by left]. Qed.

(** ** Triples *)

Definition tri {A} (s : opt_state) (m : ST opt_state A) (Q : A -> opt_state -> Prop) : Prop :=
  exists a s', m s = Ok (a, s') /\ inv s' /\ ext s s' /\ Q a s'.

Lemma ext_refl s : ext s s.
Proof. rewrite /ext. reflexivity. Qed.

Lemma ext_trans s1 s2 s3 : ext s1 s2 -> ext s2 s3 -> ext s1 s3.
Proof. rewrite /ext. apply transitivity. Qed.

Lemma tri_ret {A} s (a : A) (Q : A -> opt_state -> Prop) : inv s -> Q a s -> tri s (mret a) Q.
Proof. intros Hi HQ. exists a, s. split_and!; [done|done|apply ext_refl|done]. Qed.

Lemma tri_bind {A B} s (m : ST opt_state A) (f : A -> ST opt_state B) Q1 Q :
  tri s m Q1 -> (forall a s1, inv s1 -> ext s s1 -> Q1 a s1 -> tri s1 (f a) Q) -> tri s (m ≫= f) Q.
Proof.
  intros (a & s1 & Hm & Hi & He & HQ1) Hf.
  destruct (Hf a s1 Hi He HQ1) as (b & s2 & Hb & Hi2 & He2 & HQ).
  exists b, s2. split_and!; [|done|by eapply ext_trans|done].
  apply ST_bind_ok. eauto.
Qed.

Lemma tri_conseq {A} s (m : ST opt_state A) (Q1 Q : A -> opt_state -> Prop) :
  tri s m Q1 -> (forall a s', inv s' -> ext s s' -> Q1 a s' -> Q a s') -> tri s m Q.
Proof. intros (a & s1 & Hm & Hi & He & HQ) H. exists a, s1. eauto 8. Qed.

Lemma tri_get s : inv s -> tri s get_ctx (fun c s' => c = os_ctx s /\ s' = s).
Proof. intros Hi. exists (os_ctx s), s. split_and!; try done. apply ext_refl. Qed.

Lemma tri_upd s f : inv s -> ctx_ok (os_heap s) (f (os_ctx s)) ->
  tri s (upd_ctx f) (fun _ s' => s' = set_ctx (f (os_ctx s)) s).
Proof.
  intros Hi Hc. exists tt, (set_ctx (f (os_ctx s)) s).
  split_and!; [done|by split; [apply Hi|]|rewrite /ext /=; reflexivity|done].
Qed.

Lemma tri_next rnd s : inv s ->
  tri s (nextIntermediateName rnd) (fun _ s' => os_ctx s' = os_ctx s /\ os_heap s' = os_heap s).
Proof.
  intros Hi. eexists _, _. split; [done|]. split_and!; [exact Hi|rewrite /ext /=; reflexivity|done|done].
Qed.

Lemma tri_alloc s n : inv s -> node_ok (os_heap s) n ->
  tri s (alloc n) (fun a s' => os_ctx s' = os_ctx s /\ os_heap s' !! a = Some n /\
    (forall c, col_key c ∈ outs n -> good (os_heap s') (Some a) c)).
Proof.
  intros [Hh Hc] Hn. eexists _, _. split; [done|]. simpl.
  assert (os_heap s `prefix_of` os_heap s ++ [n]) as Hp by by exists [n].
  assert ((os_heap s ++ [n]) !! length (os_heap s) = Some n) as Hl
    by (rewrite lookup_app_r // Nat.sub_diag //).
  split_and!; [split; [|by eapply ctx_ok_mono]|done|done|done|].
  - intros a m Ha. apply lookup_app_Some in Ha as [Ha|[Hge Ha]].
    + rewrite take_app_le; [by apply Hh|]. apply lookup_lt_Some in Ha. lia.
    + apply list_lookup_singleton_Some in Ha as [H0 <-].
      assert (a = length (os_heap s)) as -> by lia. by rewrite take_app_length.
  - intros c Hcn. split.
    + intros a [= <-]. rewrite length_app /=. lia.
    + right. by exists (length (os_heap s)), n.
Qed.

Lemma tri_load s a : inv s -> a < length (os_heap s) ->
  tri s (load a) (fun n s' => s' = s /\ os_heap s !! a = Some n).
Proof.
  intros Hi Ha. destruct (lookup_lt_is_Some_2 _ _ Ha) as [n Hn]. exists n, s.
  rewrite /load Hn. split_and!; try done. apply ext_refl.
Qed.

Lemma tri_has_type s o ty : inv s -> in_store (os_heap s) o ->
  tri s (has_type o ty) (fun b s' => s' = s /\
    (b = true -> exists a n, o = Some a /\ os_heap s !! a = Some n /\ p_node_type n = ty)).
Proof.
  intros Hi Ho. destruct o as [a|]; [|by apply tri_ret].
  eapply tri_bind; [apply tri_load; [done|by apply Ho]|]. intros n s1 Hi1 _ [-> Hn].
  apply tri_ret; [done|]. split; [done|]. intros Hty%bool_decide_eq_true. eauto.
Qed.

(** ** Nodes *)

(** Every consumed column is readable through a child. *)
Lemma node_ok_intro h n :
  (forall c, c ∈ consumed n -> exists o, good h o c /\ (o = None \/ o ∈ p_children n)) ->
  p_result_columns n <> [] -> (forall o, o ∈ p_children n -> in_store h o) -> node_ok h n.
Proof.
  intros H1 H2 H3. split_and!; [|done|done]. intros c Hc.
  destruct (H1 c Hc) as (o & [_ [Hg|Hg]] & Ho); [by left|right].
  destruct Ho as [-> |Ho]; [by destruct Hg as (? & ? & ? & _)|]. by exists o.
Qed.

Lemma elem_of_producers o l : o ∈ producers l <-> o ∈ l /\ o <> None.
Proof.
  rewrite /producers list_elem_of_fmap. setoid_rewrite list_elem_of_omap. unfold id. split.
  - intros (a & -> & o' & Ho & ->). done.
  - intros [Ho Hne]. destruct o as [a|]; [|done]. exists a. split; [done|]. by exists (Some a).
Qed.

Lemma producers_child o l : o ∈ l -> o = None \/ o ∈ producers l.
Proof. intros Ho. destruct o as [a|]; [right|by left]. by apply elem_of_producers. Qed.

Lemma good_in_store h o c : good h o c -> in_store h o.
Proof. by intros [H _]. Qed.

(** A node over materialized columns. *)
Definition infos_ok (h : list PhysicalPlanNode) (l : list (Column * option paddr)) : Prop :=
  forall c o, (c, o) ∈ l -> good h o c.

Lemma new_phys_ok h ty id l res ch idx : infos_ok h l -> res <> [] ->
  (forall o, o ∈ ch -> in_store h o) -> (forall c, idx = Some c -> exists o, good h o c /\ (o = None \/ o ∈ ch)) ->
  (forall c o, (c, o) ∈ l -> o = None \/ o ∈ ch) ->
  node_ok h (new_phys ty id (map fst l) res ch idx).
Proof.
  intros Hl Hr Hch Hidx Hin. apply node_ok_intro; [|done|done].
  intros c. rewrite /consumed /= !app_nil_r elem_of_app. intros [Hc|Hc].
  - apply list_elem_of_fmap in Hc as ([c' o] & -> & Hc). exists o. split; [by apply Hl|by eapply Hin].
  - destruct idx as [i|]; [|set_solver]. apply list_elem_of_singleton in Hc as ->. by apply Hidx.
Qed.

Lemma outs_result n c : c ∈ p_result_columns n -> col_key c ∈ outs n.
Proof.
  intros Hc. rewrite /outs list_elem_of_In in_flat_map. exists c.
  split; [by apply list_elem_of_In|by left].
Qed.

(** ** Context updates *)

Lemma ok_provenance h c k t : ctx_ok h c -> ctx_ok h (set_provenance k t c).
Proof. by intros []. Qed.

Lemma ok_filter h c k col a : ctx_ok h c -> ctx_ok h (set_filter k col a c).
Proof. by intros []. Qed.

Lemma ok_limits h c l o : ctx_ok h c -> ctx_ok h (set_limits l o c).
Proof. by intros []. Qed.

Lemma ok_set_chain h c m : ctx_ok h c ->
  (forall t l p, m !! t = Some l -> p ∈ l -> good h (pos_producer p) (poslist_col p)) ->
  ctx_ok h (set_chain m c).
Proof. by intros []. Qed.

Lemma ok_insert_chain h c t l : ctx_ok h c ->
  (forall p, p ∈ l -> good h (pos_producer p) (poslist_col p)) ->
  ctx_ok h (set_chain (<[t := l]> (table_poslist_chain c)) c).
Proof.
  intros Hc Hl. apply ok_set_chain; [done|]. intros t' l' p Ht Hp.
  apply lookup_insert_Some in Ht as [[<- <-]|[_ Ht]]; [auto|]. by eapply (ok_chain _ _ Hc).
Qed.

Lemma ok_push_chains h c tbls p : ctx_ok h c -> good h (pos_producer p) (poslist_col p) ->
  ctx_ok h (push_chains tbls p c).
Proof.
  intros Hc Hp. rewrite /push_chains. apply ok_set_chain; [done|].
  pose proof (ok_chain _ _ Hc) as Hch. revert Hch. generalize (table_poslist_chain c).
  induction (elements tbls) as [|t ts IH]; intros m Hch; [done|]. simpl. apply IH.
  intros t' l q. rewrite /push_chain lookup_insert_Some.
  intros [[<- <-]|[_ Ht]] Hq; [|by eapply Hch].
  apply elem_of_app in Hq as [Hq|Hq%list_elem_of_singleton]; [|by subst].
  destruct (m !! t) as [l0|] eqn:Ht; [by eapply Hch|by apply not_elem_of_nil in Hq].
Qed.

Lemma ok_insert_mat h c k i : ctx_ok h c -> good h (mat_producer i) (mat_col i) ->
  ctx_ok h (set_materialized (<[k := i]> (materialized_columns c)) c).
Proof.
  intros [H1 H2 H3 H4 H5] Hi. split; try done. simpl. intros k' i'.
  rewrite lookup_insert_Some. intros [[_ <-]|[_ Hk]]; eauto.
Qed.

Lemma ok_filter_mat h c (f : string * MaterializedInfo -> Prop) `{!forall x, Decision (f x)} : ctx_ok h c ->
  ctx_ok h (set_materialized (filter f (materialized_columns c)) c).
Proof.
  intros [H1 H2 H3 H4 H5]. split; try done. simpl. intros k i [Hk _]%map_lookup_filter_Some. eauto.
Qed.

Lemma ok_set_intermediate h c m : ctx_ok h c ->
  (forall k i, m !! k = Some i -> good h (mat_producer i) (mat_col i)) -> ctx_ok h (set_intermediate m c).
Proof. by intros []. Qed.

Lemma ok_set_projected h c l : ctx_ok h c ->
  (forall i, i ∈ l -> good h (mat_producer i) (mat_col i)) -> ctx_ok h (set_projected l c).
Proof. by intros []. Qed.

Lemma good_key h o c c' : col_key c' = col_key c -> table_name c' = table_name c -> good h o c -> good h o c'.
Proof. intros Hk Ht. by rewrite /good /produces Hk Ht. Qed.

Lemma good_ext s s' o c : ext s s' -> good (os_heap s) o c -> good (os_heap s') o c.
Proof. apply good_mono. Qed.

Lemma tri_register s name col o : inv s -> good (os_heap s) o col ->
  tri s (registerIntermediateResult name col o) (fun _ s' => os_heap s' = os_heap s).
Proof.
  intros Hi Hg. eapply tri_conseq; [apply tri_upd; [done|]|by intros ? ? _ _ ->].
  apply ok_set_intermediate; [apply Hi|]. pose proof (ok_int _ _ (proj2 Hi)) as Hint.
  intros k i Hk. assert (forall k i, <[name:=mkMat col o INT_MAX]> (intermediate_results (os_ctx s)) !! k = Some i ->
    good (os_heap s) (mat_producer i) (mat_col i)) as H1.
  { intros k' i'. rewrite lookup_insert_Some. intros [[_ <-]|[_ ?]]; eauto. }
  destruct (alias col) as [a|]; [|by eapply H1]. case_match; [|by eapply H1].
  apply lookup_insert_Some in Hk as [[_ <-]|[_ ?]]; [done|by eapply H1].
Qed.

End inv.
