(* ===== verification/MaterializationInv.v ===== *)
(** * Materialization keeps the optimizer's invariant

    Triples for [Materialization.v]: whichever strategy is chosen, the column
    returned by [ensureMaterialized] is readable once its producer has run. *)

From S2P Require Import Prelude PlanTypes PhysContext Materialization PhysicalOptimizer.
From S2P Require Import PostProcess PhysicalInvariant.

Section materialization.
Variables (itn : string) (rnd : nat -> Z).

Abbreviation inv := (inv itn).
Abbreviation good := (good itn).
Abbreviation tri := (tri itn).

Lemma tri_createMaterializeNode s col pos chs o1 o2 : inv s ->
  good (os_heap s) o1 col -> good (os_heap s) o2 pos -> o1 = None \/ o1 ∈ chs -> o2 = None \/ o2 ∈ chs ->
  (forall o, o ∈ chs -> in_store (os_heap s) o) ->
  tri s (createMaterializeNode rnd col pos chs) (fun r s' => os_ctx s' = os_ctx s /\
    good (os_heap s') (Some r.1) r.2).
Proof.
  intros Hi H1 H2 Ho1 Ho2 Hch. rewrite /createMaterializeNode.
  eapply tri_bind; [by apply tri_get|]. intros c s1 _ _ [-> ->].
  eapply tri_bind; [by apply tri_next|]. intros id s1 Hi1 _ [Hc Hh].
  assert (forall o, o = None \/ o ∈ chs -> o = None \/ o ∈ producers chs) as Hpr.
  { intros o [->|Ho]; [by left|by apply producers_child]. }
  eapply tri_bind; [apply tri_alloc; [done|]|].
  - apply (new_phys_ok itn (os_heap s1) _ _ [(col, o1)]); rewrite ?Hh.
    + intros c o [= -> ->]%list_elem_of_singleton. done.
    + done.
    + intros o [Ho _]%elem_of_producers. auto.
    + intros c [= <-]. exists o2. auto.
    + intros c o [= -> ->]%list_elem_of_singleton. auto.
  - intros a s2 Hi2 _ (Hc2 & _ & Hout). apply tri_ret; [done|]. simpl. split; [congruence|].
    apply Hout, outs_result. simpl. set_solver.
Qed.

Definition pos_good (h : list PhysicalPlanNode) (p : PosListInfo) : Prop := good h (pos_producer p) (poslist_col p).

Lemma tri_map_poslist s table prev cur : inv s -> pos_good (os_heap s) prev -> pos_good (os_heap s) cur ->
  tri s (map_poslist rnd table prev cur) (fun p s' => pos_good (os_heap s') p).
Proof.
  intros Hi Hp Hc. rewrite /map_poslist.
  eapply tri_bind; [apply tri_has_type; [done|by apply Hc]|]. intros b1 s1 _ _ [-> _].
  eapply tri_bind; [apply tri_has_type; [done|by apply Hc]|]. intros b2 s1 _ _ [-> _].
  destruct (b1 || b2); [|by apply tri_ret].
  eapply tri_bind; [by apply tri_get|]. intros c s1 _ _ [-> ->].
  eapply tri_bind; [by apply tri_next|]. intros mid s1 Hi1 _ [Hc1 Hh].
  eapply tri_bind; [apply tri_alloc; [done|]|].
  - apply (new_phys_ok itn (os_heap s1) _ _ [(poslist_col prev, pos_producer prev)]); rewrite ?Hh.
    + intros c o [= -> ->]%list_elem_of_singleton. done.
    + done.
    + intros o [Ho _]%elem_of_producers. apply elem_of_cons in Ho as [-> | ->%list_elem_of_singleton];
        [apply Hp|apply Hc].
    + intros c [= <-]. exists (pos_producer cur). split; [done|]. apply producers_child. set_solver.
    + intros c o [= -> ->]%list_elem_of_singleton. apply producers_child. set_solver.
  - intros a s2 Hi2 _ (_ & _ & Hout).
    eapply tri_bind; [apply tri_upd; [done|apply ok_provenance, Hi2]|]. intros _ s3 Hi3 _ ->.
    apply tri_ret; [done|]. apply Hout, outs_result. simpl. set_solver.
Qed.

Lemma tri_map_chain table rest : forall s prev, inv s -> pos_good (os_heap s) prev ->
  (forall p, p ∈ rest -> pos_good (os_heap s) p) ->
  tri s (map_chain rnd table prev rest) (fun l s' => forall p, p ∈ l -> pos_good (os_heap s') p).
Proof.
  induction rest as [|cur rest IH]; intros s prev Hi Hp Hr; cbn [map_chain].
  - apply tri_ret; [done|]. intros p Hp'. by apply not_elem_of_nil in Hp'.
  - eapply tri_bind; [apply tri_map_poslist; [done|done|apply Hr; set_solver]|].
    intros cur' s1 Hi1 He1 Hcur.
    eapply tri_bind; [apply (IH s1 cur'); [done|done|]|].
    { intros p Hp'. eapply good_ext; [done|]. apply Hr. set_solver. }
    intros l s2 Hi2 He2 Hl. apply tri_ret; [done|]. intros p [->|Hp']%elem_of_cons; [|auto].
    by eapply good_ext.
Qed.

(** What [ensureMaterialized] promises its callers. *)
Definition materialized (base : Column) (r : MaterializedInfo * Column) (s' : opt_state) : Prop :=
  good (os_heap s') (mat_producer r.1) (mat_col r.1) /\ table_name r.2 = table_name base.

Lemma lookup_good s col i : inv s -> lookupIntermediateResult col (os_ctx s) = Some i ->
  good (os_heap s) (mat_producer i) (mat_col i).
Proof.
  intros Hi. pose proof (ok_int _ _ _ (proj2 Hi)) as Hint. rewrite /lookupIntermediateResult.
  destruct (alias col) as [a|]; [destruct (negb (is_empty a))|]; repeat case_match; intros; simplify_eq; eauto.
Qed.

Lemma chain_good s t l : inv s -> table_poslist_chain (os_ctx s) !! t = Some l ->
  forall p, p ∈ l -> pos_good (os_heap s) p.
Proof. intros Hi Hl p Hp. by eapply (ok_chain _ _ _ (proj2 Hi)). Qed.

Lemma last_elem {A} (l : list A) d : List.last l d ∈ d :: l.
Proof.
  revert d. induction l as [|x l IH]; intros d; [set_solver|]. destruct l as [|y l]; [set_solver|].
  change (List.last (x :: y :: l) d) with (List.last (y :: l) d). specialize (IH d). set_solver.
Qed.

Lemma tri_isBase s i : inv s -> in_store (os_heap s) (mat_producer i) ->
  tri s (isBaseTableChainMaterialization i) (fun _ s' => s' = s).
Proof.
  intros Hi Ho. rewrite /isBaseTableChainMaterialization. destruct (mat_producer i) as [a|]; [|by apply tri_ret].
  eapply tri_bind; [apply tri_load; [done|by apply Ho]|]. intros n s1 Hi1 _ [-> _]. by apply tri_ret.
Qed.

Lemma tri_ensureMaterializedOptimized s c : inv s -> table_name c <> itn ->
  tri s (ensureMaterializedOptimized rnd c) (materialized c).
Proof.
  intros Hi Hc. rewrite /ensureMaterializedOptimized.
  eapply tri_bind; [by apply tri_get|]. intros ctx s1 _ _ [-> ->].
  destruct (lookupIntermediateResult c (os_ctx s)) as [i|] eqn:Hl.
  { apply tri_ret; [done|]. split; [by eapply lookup_good|done]. }
  destruct (table_poslist_chain (os_ctx s) !! table_name c) as [[|p0 rest]|] eqn:Hch;
    [apply tri_ret; [done|]; split; [by apply good_null|done]| |
     apply tri_ret; [done|]; split; [by apply good_null|done]].
  pose proof (chain_good _ _ _ Hi Hch) as Hgood.
  eapply tri_bind; [apply tri_map_chain; [done|apply Hgood; set_solver|intros; apply Hgood; set_solver]|].
  intros rest' s1 Hi1 He1 Hrest.
  assert (forall p, p ∈ p0 :: rest' -> pos_good (os_heap s1) p) as Hall.
  { intros p [->|Hp]%elem_of_cons; [|auto]. eapply good_ext; [done|]. apply Hgood. set_solver. }
  eapply tri_bind; [apply tri_upd; [done|apply ok_insert_chain; [apply Hi1|done]]|].
  intros u s2 Hi2 _ Hs2. simpl in Hs2.
  assert (os_heap s2 = os_heap s1) as Hh2 by by rewrite Hs2.
  eapply tri_bind; [by apply tri_get|]. intros ctx s3 _ _ [-> ->].
  eapply tri_bind with (Q1 := fun r s' => s' = s2 /\ forall i, r = Some i ->
    good (os_heap s2) (mat_producer i) (mat_col i)).
  { destruct (materialized_columns (os_ctx s2) !! col_key c) as [i|] eqn:Hm; [|by apply tri_ret].
    pose proof (ok_mat _ _ _ (proj2 Hi2) _ _ Hm) as Hg.
    eapply tri_bind; [apply tri_isBase; [done|by apply Hg]|]. intros b s3 Hi3 _ ->.
    apply tri_ret; [done|]. split; [done|]. intros i'. case_match; [|done]. by intros [= <-]. }
  intros r s3 Hi3 _ [-> Hr]. destruct r as [i|].
  { apply tri_ret; [done|]. split; [by apply Hr|done]. }
  pose proof (Hall _ (last_elem rest' p0)) as Hlast. rewrite -Hh2 in Hlast.
  eapply tri_bind; [eapply tri_createMaterializeNode; [done|by apply (good_null _ _ (set_is_base (Some true) c))
    |exact Hlast|by left|right; set_solver|]|].
  { intros o ->%list_elem_of_singleton. apply Hlast. }
  intros [a out] s4 Hi4 _ [_ Hout].
  eapply tri_bind; [apply tri_upd; [done|apply ok_insert_mat; [apply Hi4|done]]|].
  intros _ s5 Hi5 _ ->. apply tri_ret; [done|]. by split.
Qed.

Lemma tri_chain_loop chain : forall s i cur, inv s -> (forall p, p ∈ chain -> pos_good (os_heap s) p) ->
  good (os_heap s) (mat_producer cur) (mat_col cur) ->
  tri s (chain_loop rnd chain i cur) (fun i s' => good (os_heap s') (mat_producer i) (mat_col i)).
Proof.
  induction chain as [|p chain IH]; intros s i cur Hi Hch Hcur; cbn [chain_loop]; [by apply tri_ret|].
  pose proof (Hch p ltac:(set_solver)) as Hp.
  eapply tri_bind; [eapply tri_createMaterializeNode; [done|exact Hcur|exact Hp|right; set_solver|right; set_solver|]|].
  { intros o [-> | ->%list_elem_of_singleton]%elem_of_cons; [apply Hcur|apply Hp]. }
  intros [a out] s1 Hi1 He1 [_ Hout]. apply IH; [done| |done].
  intros q Hq. eapply good_ext; [done|]. apply Hch. set_solver.
Qed.

(** Both strategies. *)
Lemma tri_ensureMaterialized s c : inv s -> table_name c <> itn ->
  tri s (ensureMaterialized rnd c) (materialized c).
Proof.
  intros Hi Hc. rewrite /ensureMaterialized.
  eapply tri_bind; [by apply tri_get|]. intros ctx s1 _ _ [-> ->].
  destruct (optimize_chains (os_ctx s)); [by apply tri_ensureMaterializedOptimized|].
  destruct (lookupIntermediateResult c (os_ctx s)) as [i|] eqn:Hl.
  { apply tri_ret; [done|]. split; [by eapply lookup_good|done]. }
  set (cur := match materialized_columns (os_ctx s) !! col_key c with Some i => i | None => _ end).
  assert (good (os_heap s) (mat_producer cur) (mat_col cur)) as Hcur.
  { rewrite /cur. destruct (materialized_columns (os_ctx s) !! col_key c) as [i|] eqn:Hm;
      [by eapply (ok_mat _ _ _ (proj2 Hi))|by apply good_null]. }
  set (chain := default [] (table_poslist_chain (os_ctx s) !! table_name c)).
  assert (forall p, p ∈ chain -> pos_good (os_heap s) p) as Hch.
  { rewrite /chain. destruct (table_poslist_chain (os_ctx s) !! table_name c) as [l|] eqn:Hl';
      [by eapply chain_good|intros p Hp; by apply not_elem_of_nil in Hp]. }
  eapply tri_bind; [apply tri_upd; [done|by apply ok_insert_chain; [apply Hi|]]|]. intros _ s1 Hi1 _ ->.
  eapply tri_bind with (Q1 := fun i s' => good (os_heap s') (mat_producer i) (mat_col i)).
  { case_match; [|by apply tri_ret]. apply tri_chain_loop; [done| |done].
    intros p Hp. apply Hch. by eapply subseteq_drop. }
  intros i s2 Hi2 _ Hgi.
  eapply tri_bind; [apply tri_upd; [done|by apply ok_insert_mat; [apply Hi2|]]|]. intros _ s3 Hi3 _ ->.
  apply tri_ret; [done|]. by split.
Qed.

Lemma tri_resolveAggregateInput s spec res : inv s -> good (os_heap s) (physical_root res) (output_column res) ->
  (forall c, input spec = Some c -> table_name c <> itn) ->
  tri s (resolveAggregateInput rnd spec res) (fun r s' => good (os_heap s') r.2 r.1).
Proof.
  intros Hi Hr Hin. rewrite /resolveAggregateInput. destruct (input spec) as [c|]; [|by apply tri_ret].
  eapply tri_bind; [apply tri_ensureMaterialized; [done|by apply Hin]|].
  intros [m c'] s1 Hi1 _ [Hm _]. by apply tri_ret.
Qed.

Lemma tri_materializeGroupedKeys idx g cols : forall s mats, inv s -> length cols = length mats ->
  (forall i, i ∈ mats -> good (os_heap s) (mat_producer i) (mat_col i)) ->
  good (os_heap s) (Some g) idx ->
  tri s (materializeGroupedKeys rnd mats cols idx g) (fun _ _ => True).
Proof.
  induction cols as [|col cols IH]; intros s [|m mats] Hi Hlen Hm Hg; simplify_eq/=; [by apply tri_ret|].
  pose proof (Hm m ltac:(set_solver)) as Hgm.
  eapply tri_bind; [eapply tri_createMaterializeNode; [done|exact Hgm|exact Hg|right; set_solver|right; set_solver|]|].
  { intros o [-> | ->%list_elem_of_singleton]%elem_of_cons; [apply Hg|apply Hgm]. }
  intros [a out] s1 Hi1 He1 [_ Hout].
  eapply tri_bind; [apply tri_upd; [done|by apply ok_insert_mat; [apply Hi1|]]|]. intros _ s2 Hi2 He2 ->.
  apply IH; [done|done| |].
  - intros i Hin. apply (good_ext itn s s1); [done|]. apply Hm. set_solver.
  - by apply (good_ext itn s s1).
Qed.

End materialization.
