(* ===== verification/ChainSemantics.v ===== *)
(** * What the two materialization strategies compute

    A MATERIALIZE node gathers the cells of a column at the positions of a
    position list.  [executes env h]: the contents [env] of the stored columns
    obey every MATERIALIZE node of the store.  Under every such [env] the
    column returned by [ensureMaterialized] holds the base column seen through
    all position lists of its table, whether they are applied one after the
    other (chained) or composed first (optimized). *)

From S2P Require Import Prelude PlanTypes PhysContext Materialization PhysicalInvariant.
From S2P Require Import MaterializationInv.

(** ** Gathering *)

(** The cells of a column; [None] stands for what is read out of bounds. *)
Abbreviation cells := (list (option Z)) (only parsing).

Definition cell_at (vals : cells) (i : Z) : option Z :=
  if (i <? 0)%Z then None else mjoin (vals !! Z.to_nat i).

Definition gather (vals pos : cells) : cells := map (fun o => o ≫= cell_at vals) pos.

Lemma cell_at_gather vals pos i : cell_at (gather vals pos) i = cell_at pos i ≫= cell_at vals.
Proof.
  rewrite /cell_at. destruct (i <? 0)%Z; [done|]. rewrite /gather list_lookup_fmap.
  destruct (pos !! Z.to_nat i) as [[p|]|]; reflexivity.
Qed.

(** Composing position lists first gives the same column. *)
Lemma gather_assoc vals p q : gather vals (gather p q) = gather (gather vals p) q.
Proof.
  rewrite {1 2 3}/gather List.map_map. apply map_ext. intros [i|]; [|done]. simpl.
  by rewrite cell_at_gather.
Qed.

(** A column seen through a chain of position lists. *)
Definition through (env : string -> cells) (vals : cells) (chain : list PosListInfo) : cells :=
  fold_left (fun acc p => gather acc (env (col_key (poslist_col p)))) chain vals.

Definition executes (env : string -> cells) (h : list PhysicalPlanNode) : Prop :=
  forall a n c p r, h !! a = Some n -> p_node_type n = PNT.MATERIALIZE -> p_base_columns n = [c] ->
    p_index n = Some p -> p_result_columns n = [r] ->
    env (col_key r) = gather (env (col_key c)) (env (col_key p)).

Lemma executes_prefix env h h' : h `prefix_of` h' -> executes env h' -> executes env h.
Proof. intros [k ->] H a n c p r Hn. apply (H a). by apply lookup_app_l_Some. Qed.

(** Execution of the MATERIALIZE nodes in the order of the store, from the
    contents of the other columns. *)
Definition run_node (env : string -> cells) (n : PhysicalPlanNode) : string -> cells :=
  match p_node_type n, p_base_columns n, p_index n, p_result_columns n with
  | PNT.MATERIALIZE, [c], Some p, [r] =>
      fun k => if k =s col_key r then gather (env (col_key c)) (env (col_key p)) else env k
  | _, _, _, _ => env
  end.

Definition executesb (env : string -> cells) (h : list PhysicalPlanNode) : bool :=
  forallb (fun n => match p_node_type n, p_base_columns n, p_index n, p_result_columns n with
    | PNT.MATERIALIZE, [c], Some p, [r] =>
        bool_decide (env (col_key r) = gather (env (col_key c)) (env (col_key p)))
    | _, _, _, _ => true
    end) h.

Lemma executesb_ok env h : executesb env h = true -> executes env h.
Proof.
  rewrite /executesb forallb_forall. intros H a n c p r Hn Hty Hc Hp Hr.
  specialize (H n). rewrite Hty Hc Hp Hr in H. apply bool_decide_eq_true_1 in H; [done|].
  apply list_elem_of_In. by eapply list_elem_of_lookup_2.
Qed.

(** A position list that still refers to the rows of its predecessor. *)
Definition linked (h : list PhysicalPlanNode) (p : PosListInfo) : bool :=
  match pos_producer p ≫= fun a => h !! a with
  | Some n => bool_decide (p_node_type n = PNT.HASHJOIN) || bool_decide (p_node_type n = PNT.FILTER)
  | None => false
  end.

(** The rows of the table a chain stands for, as positions in the table. *)
Fixpoint rowmap (env : string -> cells) (h : list PhysicalPlanNode) (acc : cells)
    (rest : list PosListInfo) : cells :=
  match rest with
  | [] => acc
  | cur :: rest =>
      let p := env (col_key (poslist_col cur)) in
      rowmap env h (if linked h cur then gather acc p else p) rest
  end.

Lemma linked_mono h h' p : h `prefix_of` h' -> in_store h (pos_producer p) -> linked h' p = linked h p.
Proof.
  intros [k ->] Hs. rewrite /linked. destruct (pos_producer p) as [a|]; simpl; [|done].
  rewrite lookup_app_l //. by apply Hs.
Qed.

Lemma rowmap_mono env h h' rest : h `prefix_of` h' -> (forall p, p ∈ rest -> in_store h (pos_producer p)) ->
  forall acc, rowmap env h' acc rest = rowmap env h acc rest.
Proof.
  intros Hp. induction rest as [|cur rest IH]; intros Hs acc; [done|]. simpl.
  rewrite (linked_mono h h' cur Hp) ?IH //; intros; apply Hs; set_solver.
Qed.

(** When no entry was composed yet, the base column at the row map is the base
    column through the chain. *)
Lemma gather_rowmap env h rest : forallb (linked h) rest = true -> forall vals acc,
  gather vals (rowmap env h acc rest) = through env (gather vals acc) rest.
Proof.
  induction rest as [|cur rest IH]; intros Hl vals acc; [done|]. simpl in *.
  apply andb_true_iff in Hl as [-> Hl]. rewrite IH // gather_assoc //.
Qed.

(** ** The building blocks *)

Section semantics.
Variables (rnd : nat -> Z) (env : string -> cells).

Lemma createMaterializeNode_sem col pos chs s a out s' : createMaterializeNode rnd col pos chs s = Ok ((a, out), s') ->
  os_ctx s' = os_ctx s /\ os_heap s `prefix_of` os_heap s' /\
  (executes env (os_heap s') -> env (col_key out) = gather (env (col_key col)) (env (col_key pos))).
Proof.
  intros H. rewrite /createMaterializeNode in H. injection H as <- <- <-. simpl. split_and!; [done|by eexists|].
  intros He. eapply (He (length (os_heap s))); [by rewrite lookup_app_r // Nat.sub_diag|done..].
Qed.

Lemma chain_loop_sem chain : forall i cur s r s', chain_loop rnd chain i cur s = Ok (r, s') ->
  os_ctx s' = os_ctx s /\ os_heap s `prefix_of` os_heap s' /\
  (executes env (os_heap s') -> env (col_key (mat_col r)) = through env (env (col_key (mat_col cur))) chain) /\
  chain_index r = if chain then chain_index cur else Z.of_nat (i + length chain - 1).
Proof.
  induction chain as [|p chain IH]; intros i cur s r s' H; cbn [chain_loop] in H.
  - inv_ok. by split_and!.
  - apply ST_bind_ok in H as ([a out] & s1 & H1 & H).
    apply createMaterializeNode_sem in H1 as (Hc1 & Hp1 & He1). apply IH in H as (Hc & Hp & He & Hi).
    split_and!; [congruence|by etransitivity| |].
    + intros Hex. rewrite He //. simpl in *. rewrite He1 //. by eapply executes_prefix.
    + rewrite Hi. destruct chain; simpl; f_equal; lia.
Qed.

Lemma has_type_sem o ty s b s' : has_type o ty s = Ok (b, s') ->
  s' = s /\ b = match o ≫= fun a => os_heap s !! a with
               | Some n => bool_decide (p_node_type n = ty) | None => false end.
Proof.
  destruct o as [a|]; simpl; [|intros; by inv_ok]. intros (n & s1 & Hl & H)%ST_bind_ok.
  rewrite /load in Hl. destruct (os_heap s !! a) as [m|] eqn:Hm; [|done]. inv_ok. done.
Qed.

(** One composition step: the new entry holds positions in the base table and
    is not linked any more. *)
Lemma map_poslist_sem table prev cur s p s' : in_store (os_heap s) (pos_producer cur) ->
  map_poslist rnd table prev cur s = Ok (p, s') ->
  os_heap s `prefix_of` os_heap s' /\ in_store (os_heap s') (pos_producer p) /\ linked (os_heap s') p = false /\
  materialized_columns (os_ctx s') = materialized_columns (os_ctx s) /\
  (executes env (os_heap s') -> env (col_key (poslist_col p)) =
     rowmap env (os_heap s) (env (col_key (poslist_col prev))) [cur]).
Proof.
  rewrite /map_poslist. intros Hin (b1 & s1 & H1 & H)%ST_bind_ok. apply has_type_sem in H1 as [-> ->].
  apply ST_bind_ok in H as (b2 & s1 & H2 & H). apply has_type_sem in H2 as [-> ->].
  assert (linked (os_heap s) cur = match pos_producer cur ≫= fun a => os_heap s !! a with
      | Some n => bool_decide (p_node_type n = PNT.HASHJOIN) | None => false end ||
    match pos_producer cur ≫= fun a => os_heap s !! a with
      | Some n => bool_decide (p_node_type n = PNT.FILTER) | None => false end) as Hlk.
  { rewrite /linked. by destruct (pos_producer cur ≫= _). }
  cbn [rowmap]. rewrite Hlk. destruct (_ || _).
  - injection H as <- <-. simpl. split_and!; [by eexists| | |done|].
    + intros b [= <-]. rewrite length_app /=. lia.
    + rewrite /linked /= lookup_app_r // Nat.sub_diag //.
    + intros He. eapply (He (length (os_heap s))); [by rewrite lookup_app_r // Nat.sub_diag|done..].
  - inv_ok. done.
Qed.

Lemma last_cons {A} (x d : A) l : List.last (x :: l) d = List.last l x.
Proof.
  revert x d. induction l as [|y l IH]; intros x d; [done|].
  change (List.last (x :: y :: l) d) with (List.last (y :: l) d). rewrite !IH //.
Qed.

Lemma map_chain_sem table rest : forall prev s rest' s',
  (forall p, p ∈ rest -> in_store (os_heap s) (pos_producer p)) ->
  map_chain rnd table prev rest s = Ok (rest', s') ->
  os_heap s `prefix_of` os_heap s' /\ forallb (fun p => negb (linked (os_heap s') p)) rest' = true /\
  materialized_columns (os_ctx s') = materialized_columns (os_ctx s) /\ length rest' = length rest /\
  (forall p, p ∈ rest' -> in_store (os_heap s') (pos_producer p)) /\
  (executes env (os_heap s') -> env (col_key (poslist_col (List.last rest' prev))) =
     rowmap env (os_heap s) (env (col_key (poslist_col prev))) rest).
Proof.
  induction rest as [|cur rest IH]; intros prev s rest' s' Hin H; cbn [map_chain] in H.
  - inv_ok. split_and!; [done..| |done]. intros p Hp. by apply not_elem_of_nil in Hp.
  - apply ST_bind_ok in H as (cur' & s1 & H1 & H).
    apply ST_bind_ok in H as (r & s2 & H2 & H). injection H as <- <-.
    apply map_poslist_sem in H1 as (Hp1 & Hi1 & Hl1 & Hm1 & He1); [|apply Hin; set_solver].
    apply IH in H2 as (Hp2 & Hl2 & Hm2 & Hlen & Hi2 & He2).
    2:{ intros p Hp. eapply in_store_mono; [exact Hp1|]. apply Hin. set_solver. }
    assert (os_heap s `prefix_of` os_heap s2) as Hp by by etransitivity.
    split_and!; [done| |congruence|simpl; lia| |].
    + simpl. by rewrite Hl2 andb_true_r (linked_mono _ _ _ Hp2 Hi1) Hl1.
    + intros p [-> | Hp']%elem_of_cons; [exact (in_store_mono _ _ _ Hp2 Hi1)|by apply Hi2].
    + intros Hex. rewrite last_cons He2 //. cbn [rowmap]. rewrite He1; [|by eapply executes_prefix].
      cbn [rowmap]. apply rowmap_mono; [done|]. intros p Hpi. apply Hin. set_solver.
Qed.

(** ** The strategies *)

(** The cached column is the base column through a prefix of the chain. *)
Definition cache_through (c : Column) (chain : list PosListInfo) (i : MaterializedInfo) : Prop :=
  (-1 <= chain_index i < Z.of_nat (length chain))%Z /\
  env (col_key (mat_col i)) = through env (env (col_key c)) (take (Z.to_nat (chain_index i + 1)) chain).

Definition chain_of (s : opt_state) (c : Column) : list PosListInfo :=
  default [] (table_poslist_chain (os_ctx s) !! table_name c).

Lemma chain_of_in_store itn s c : inv itn s -> forall p, p ∈ chain_of s c -> in_store (os_heap s) (pos_producer p).
Proof.
  intros Hi p. rewrite /chain_of. destruct (table_poslist_chain (os_ctx s) !! table_name c) as [l|] eqn:Hl; simpl.
  - intros Hp. apply (chain_good itn s _ l Hi Hl p Hp).
  - intros Hp. by apply not_elem_of_nil in Hp.
Qed.

Lemma next_index_small ci n : (-1 <= ci < n)%Z -> (n < 2 ^ 31)%Z -> next_index ci = (ci + 1)%Z.
Proof. intros H1 H2. rewrite /next_index /to_size to_int32_small; [|lia]. apply Z.mod_small. lia. Qed.

Lemma through_app vals l1 l2 : through env vals (l1 ++ l2) = through env (through env vals l1) l2.
Proof. apply fold_left_app. Qed.

Lemma chained_sem c s i c' s' : optimize_chains (os_ctx s) = false ->
  lookupIntermediateResult c (os_ctx s) = None -> (Z.of_nat (length (chain_of s c)) < 2 ^ 31)%Z ->
  (forall i0, materialized_columns (os_ctx s) !! col_key c = Some i0 -> cache_through c (chain_of s c) i0) ->
  ensureMaterialized rnd c s = Ok ((i, c'), s') -> executes env (os_heap s') ->
  env (col_key (mat_col i)) = through env (env (col_key c)) (chain_of s c) /\
  chain_of s' c = chain_of s c /\ materialized_columns (os_ctx s') !! col_key c = Some i /\
  chain_index i = (Z.of_nat (length (chain_of s c)) - 1)%Z.
Proof.
  intros Hoc Hlk Hlen Hcache H Hex. rewrite /ensureMaterialized in H.
  apply ST_bind_ok in H as (ctx & s0 & [= <- <-] & H). rewrite Hoc Hlk in H.
  set (cur := match materialized_columns (os_ctx s) !! col_key c with Some i => i | None => _ end) in H.
  assert (cache_through c (chain_of s c) cur) as [Hci Hcur].
  { rewrite /cur. destruct (materialized_columns (os_ctx s) !! col_key c) as [i0|]; [by apply Hcache|].
    split; [simpl; lia|done]. }
  change (default [] _) with (chain_of s c) in H. set (chain := chain_of s c) in *.
  apply ST_bind_ok in H as ([] & s1 & [= <-] & H).
  rewrite (next_index_small _ _ Hci Hlen) in H.
  set (k := Z.to_nat (chain_index cur + 1)) in *.
  apply ST_bind_ok in H as (i1 & s2 & Hl & H). injection H as <- <- <-. simpl in Hex |- *.
  assert (table_poslist_chain (os_ctx s2) !! table_name c = Some chain /\
    env (col_key (mat_col i1)) = through env (env (col_key (mat_col cur))) (drop k chain) /\
    chain_index i1 = (Z.of_nat (length chain) - 1)%Z) as (Hch2 & He2 & Hi2).
  { destruct (Z.ltb_spec (chain_index cur + 1) (Z.of_nat (length chain))) as [Hlt|Hge].
    - apply chain_loop_sem in Hl as (Hc & _ & He & Hidx). rewrite Hc /= lookup_insert_eq. split_and!; [done|auto|].
      rewrite Hidx. destruct (drop k chain) as [|q l] eqn:Hd; [apply drop_nil_inv in Hd; lia|].
      rewrite -Hd length_drop. lia.
    - injection Hl as <- <-. rewrite /= lookup_insert_eq. split_and!; [done| |lia].
      rewrite drop_ge //. lia. }
  split_and!; [|by rewrite /chain_of /= Hch2|by rewrite lookup_insert_eq|done].
  by rewrite He2 Hcur -through_app take_drop.
Qed.

(** [isBaseTableChainMaterialization] as a predicate. *)
Definition base_chain (h : list PhysicalPlanNode) (i : MaterializedInfo) : bool :=
  match mat_producer i ≫= fun a => h !! a with
  | Some n => bool_decide (p_node_type n = PNT.MATERIALIZE) &&
      match p_base_columns n with [] => false | c :: _ => default false (is_base c) end
  | None => false
  end.

Lemma isBase_sem i s b s' : isBaseTableChainMaterialization i s = Ok (b, s') ->
  s' = s /\ b = base_chain (os_heap s) i.
Proof.
  rewrite /isBaseTableChainMaterialization /base_chain. destruct (mat_producer i) as [a|]; simpl; [|by intros [= <- <-]].
  intros (n & s1 & Hl & H)%ST_bind_ok. rewrite /load in Hl.
  destruct (os_heap s !! a) as [m|]; [|done]. injection Hl as <- <-. injection H as <- <-. done.
Qed.

(** A cached column of the optimized strategy: a materialization of the base
    column, and up to date when its index says so. *)
Definition cache_rowmap (c : Column) (s : opt_state) (rows : cells) (n : nat) (i : MaterializedInfo) : Prop :=
  base_chain (os_heap s) i = true /\ in_store (os_heap s) (mat_producer i) /\
  (chain_index i = Z.of_nat n -> env (col_key (mat_col i)) = gather (env (col_key c)) rows).

Lemma base_chain_mono h h' i : h `prefix_of` h' -> in_store h (mat_producer i) -> base_chain h' i = base_chain h i.
Proof.
  intros [k ->] Hs. rewrite /base_chain. destruct (mat_producer i) as [a|]; simpl; [|done].
  rewrite lookup_app_l //. by apply Hs.
Qed.

Lemma rowmap_unlinked h rest : forall first,
  forallb (fun p => negb (linked h p)) rest = true ->
  rowmap env h (env (col_key (poslist_col first))) rest = env (col_key (poslist_col (List.last rest first))).
Proof.
  induction rest as [|cur rest IH]; intros first Hl; [done|]. cbn [forallb] in Hl.
  apply andb_true_iff in Hl as [Hc%negb_true_iff Hl]. cbn [rowmap]. by rewrite Hc IH // last_cons.
Qed.

Lemma optimized_sem c s first rest i c' s' : optimize_chains (os_ctx s) = true ->
  lookupIntermediateResult c (os_ctx s) = None -> chain_of s c = first :: rest ->
  (forall p, p ∈ rest -> in_store (os_heap s) (pos_producer p)) ->
  let rows := rowmap env (os_heap s) (env (col_key (poslist_col first))) rest in
  (forall i0, materialized_columns (os_ctx s) !! col_key c = Some i0 -> cache_rowmap c s rows (length rest) i0) ->
  ensureMaterialized rnd c s = Ok ((i, c'), s') -> executes env (os_heap s') ->
  env (col_key (mat_col i)) = gather (env (col_key c)) rows /\
  exists rest', chain_of s' c = first :: rest' /\ length rest' = length rest /\
    rowmap env (os_heap s') (env (col_key (poslist_col first))) rest' = rows.
Proof.
  intros Hoc Hlk Hch Hin rows Hcache H Hex. rewrite /ensureMaterialized in H.
  apply ST_bind_ok in H as (ctx & s0 & [= <- <-] & H). rewrite Hoc in H.
  rewrite /ensureMaterializedOptimized in H.
  apply ST_bind_ok in H as (ctx & s0 & [= <- <-] & H). rewrite Hlk in H.
  rewrite /chain_of in Hch. destruct (table_poslist_chain (os_ctx s) !! table_name c) as [l|]; [|done].
  simpl in Hch. subst l. apply ST_bind_ok in H as (rest' & s1 & Hmap & H).
  apply map_chain_sem in Hmap as (Hp1 & Hl1 & Hm1 & Hlen & Hi1 & He1); [|done].
  apply ST_bind_ok in H as ([] & s2 & [= <-] & H). apply ST_bind_ok in H as (ctx & s3 & [= <- <-] & H).
  simpl in H. rewrite Hm1 in H. apply ST_bind_ok in H as (reuse & s3 & Hr & H).
  assert (s3 = set_ctx (set_chain (<[table_name c:=first :: rest']> (table_poslist_chain (os_ctx s1))) (os_ctx s1)) s1 /\
    (executes env (os_heap s1) -> forall i0, reuse = Some i0 -> env (col_key (mat_col i0)) = gather (env (col_key c)) rows))
    as [-> Hreuse].
  { destruct (materialized_columns (os_ctx s) !! col_key c) as [i0|]; [|by injection Hr as <- <-].
    destruct (Hcache i0 eq_refl) as (Hb & Hs & Hval).
    apply ST_bind_ok in Hr as (b & s4 & Hb' & Hr). apply isBase_sem in Hb' as [-> ->].
    simpl in Hr. rewrite (base_chain_mono _ _ _ Hp1 Hs) Hb /= in Hr. injection Hr as <- <-. split; [done|].
    intros _ i1. destruct (Z.eqb_spec (chain_index i0) (Z.of_nat (S (length rest')) - 1)) as [He|He]; [|done].
    intros [= <-]. apply Hval. lia. }
  assert (os_heap s1 `prefix_of` os_heap s' /\ table_poslist_chain (os_ctx s') !! table_name c = Some (first :: rest') /\
    env (col_key (mat_col i)) = gather (env (col_key c)) rows) as (Hp' & Hch' & Hv).
  { destruct reuse as [i0|].
    - injection H as <- <- <-. simpl in *. rewrite lookup_insert_eq. auto.
    - apply ST_bind_ok in H as ([a out] & s4 & Hn & H).
      pose proof Hn as Hn'. apply createMaterializeNode_sem in Hn' as (Hc4 & Hp4 & He4).
      injection H as <- <- <-. simpl in *. rewrite Hc4 /= lookup_insert_eq. split_and!; [done|done|].
      rewrite He4 // He1 //. by eapply executes_prefix. }
  split; [done|]. exists rest'. rewrite /chain_of Hch'. split_and!; [done|done|].
  rewrite (rowmap_mono env (os_heap s1)) // rowmap_unlinked //. apply He1. by eapply executes_prefix.
Qed.

End semantics.
