(* ===== verification/HandlersInv.v ===== *)
(** * The handlers keep the optimizer's invariant

    Triples for every handler of [PhysicalOptimizer.v] on plans of the shape
    the handlers expect: no exception, no undefined behaviour, and a result
    whose output column its root produces. *)

From S2P Require Import Prelude PlanTypes PhysContext Materialization PhysicalOptimizer.
From S2P Require Import PostProcess PhysicalInvariant MaterializationInv.

Section handlers.
Variables (itn : string) (rnd : nat -> Z).

Abbreviation inv := (inv itn).
Abbreviation good := (good itn).
Abbreviation tri := (tri itn).
Abbreviation node_ok := (node_ok itn).

(** Columns of the logical plan: not of the intermediate table. *)
Definition src_col (c : Column) : bool := negb (table_name c =s itn).

Lemma src_col_spec c : src_col c = true <-> table_name c <> itn.
Proof. rewrite /src_col negb_true_iff. apply String.eqb_neq. Qed.

Definition res_ok (r : TransformResult) (s : opt_state) : Prop :=
  good (os_heap s) (physical_root r) (output_column r).

Definition info_ok (i : MaterializedInfo) (s : opt_state) : Prop :=
  good (os_heap s) (mat_producer i) (mat_col i).

Lemma res_ok_ext r s s' : ext s s' -> res_ok r s -> res_ok r s'.
Proof. apply good_ext. Qed.

Lemma info_ok_ext i s s' : ext s s' -> info_ok i s -> info_ok i s'.
Proof. apply good_ext. Qed.

Lemma tri_fresh_col s suffix ty : inv s ->
  tri s (fresh_col rnd suffix ty) (fun _ s' => os_ctx s' = os_ctx s /\ os_heap s' = os_heap s).
Proof.
  intros Hi. rewrite /fresh_col. eapply tri_bind; [by apply tri_get|]. intros c s1 _ _ [-> ->].
  eapply tri_bind; [by apply tri_next|]. intros id s1 Hi1 _ [H1 H2]. by apply tri_ret.
Qed.

Lemma tri_mapM {A B} (f : A -> ST opt_state B) (R : B -> opt_state -> Prop) l :
  (forall y s s', ext s s' -> R y s -> R y s') ->
  forall s, inv s -> (forall x s', x ∈ l -> inv s' -> ext s s' -> tri s' (f x) R) ->
  tri s (mapM f l) (fun ys s' => length ys = length l /\ forall y, y ∈ ys -> R y s').
Proof.
  intros HR. induction l as [|x l IH]; intros s Hi Hf; cbn [mapM].
  - apply tri_ret; [done|]. split; [done|]. intros y Hy. by apply not_elem_of_nil in Hy.
  - eapply tri_bind; [apply Hf; [set_solver|done|apply ext_refl]|]. intros y s1 Hi1 He1 Hy.
    eapply tri_bind; [apply IH; [done|]|].
    { intros x' s' Hx' Hi' He'. apply Hf; [set_solver|done|by eapply ext_trans]. }
    intros ys s2 Hi2 He2 [Hlen Hys]. apply tri_ret; [done|]. split; [simpl; congruence|].
    intros z [->|Hz]%elem_of_cons; [by eapply HR|auto].
Qed.

(** The base columns of a node over materialized columns. *)
Lemma infos_readable s l : (forall i, i ∈ l -> info_ok i s) ->
  forall c, c ∈ map mat_col l -> exists o, good (os_heap s) o c /\ (o = None \/ o ∈ producers (map mat_producer l)).
Proof.
  intros Hl c (i & -> & Hi)%list_elem_of_fmap. exists (mat_producer i). split; [by apply Hl|].
  apply producers_child. by apply list_elem_of_fmap_2.
Qed.

Lemma infos_in_store s l : (forall i, i ∈ l -> info_ok i s) ->
  forall o, o ∈ producers (map mat_producer l) -> in_store (os_heap s) o.
Proof.
  intros Hl o [(i & -> & Hi)%list_elem_of_fmap _]%elem_of_producers. apply (Hl i Hi).
Qed.

(** A node whose consumed columns are materialized columns. *)
Lemma infos_node_ok s n l : (forall i, i ∈ l -> info_ok i s) -> consumed n = map mat_col l ->
  p_children n = producers (map mat_producer l) -> p_result_columns n <> [] -> node_ok (os_heap s) n.
Proof.
  intros Hl Hc Hch Hr. apply node_ok_intro; [|done|rewrite Hch; by apply infos_in_store].
  rewrite Hc Hch. by apply infos_readable.
Qed.

Lemma info_ok_heap i s s' : os_heap s' = os_heap s -> info_ok i s -> info_ok i s'.
Proof. by rewrite /info_ok => ->. Qed.

Lemma res_ok_heap i s s' : os_heap s' = os_heap s -> res_ok i s -> res_ok i s'.
Proof. by rewrite /res_ok => ->. Qed.

Lemma tri_materialize s c : inv s -> src_col c = true ->
  tri s (ensureMaterialized rnd c) (fun r s' => info_ok r.1 s' /\ src_col r.2 = true).
Proof.
  intros Hi Hc%src_col_spec. eapply tri_conseq; [by apply tri_ensureMaterialized|].
  intros r s' _ _ [H1 H2]. split; [done|]. apply src_col_spec. congruence.
Qed.

(** A result column of a node just stored. *)
Lemma stored_result s' (a : paddr) n c : (forall c, col_key c ∈ outs n -> good (os_heap s') (Some a) c) ->
  c ∈ p_result_columns n -> good (os_heap s') (Some a) c.
Proof. intros H Hc. by apply H, outs_result. Qed.

(** ** Set operations and filters *)

Lemma tri_createSetOperationNode s rs op : inv s -> 2 <= length rs -> (forall r, r ∈ rs -> res_ok r s) ->
  tri s (createSetOperationNode rnd rs op) res_ok.
Proof.
  intros Hi Hlen Hrs. destruct rs as [|r0 [|r1 rs]]; simpl in Hlen; [lia|lia|]. rewrite /createSetOperationNode.
  set (all := r0 :: r1 :: rs) in *.
  eapply tri_bind; [by apply tri_fresh_col|]. intros [id out] s1 Hi1 _ [_ Hh1].
  eapply tri_bind; [apply tri_alloc; [done|]|].
  - apply node_ok_intro; [|done|]; simpl.
    + intros c. rewrite /consumed /= !app_nil_r -/(map output_column all).
      change (output_column r0 :: output_column r1 :: map output_column rs) with (map output_column all).
      intros (r & -> & Hr)%list_elem_of_fmap. exists (physical_root r). rewrite Hh1. split; [by apply Hrs|].
      right. change (physical_root r ∈ map physical_root all). by apply list_elem_of_fmap_2.
    + change (physical_root r0 :: physical_root r1 :: map physical_root rs) with (map physical_root all).
      intros o (r & -> & Hr)%list_elem_of_fmap. rewrite Hh1. apply (Hrs r Hr).
  - intros a s2 Hi2 _ (_ & _ & Hout). pose proof (stored_result _ _ _ out Hout) as Hg. simpl in Hg.
    specialize (Hg ltac:(set_solver)).
    eapply tri_bind; [apply tri_upd; [done|apply ok_provenance, Hi2]|]. intros _ s3 Hi3 _ ->.
    eapply tri_bind; [apply tri_upd; [done|]|].
    { case_match; [|apply Hi3]. apply ok_filter, ok_insert_chain; [apply Hi3|].
      by intros p ->%list_elem_of_singleton. }
    intros _ s4 Hi4 _ ->. by apply tri_ret.
Qed.

Lemma tri_handleCrossTableFilter s n c0 c1 res src : inv s -> src_col c0 = true -> src_col c1 = true ->
  tri s (handleCrossTableFilter rnd n c0 c1 res src) res_ok.
Proof.
  intros Hi H0 H1. rewrite /handleCrossTableFilter.
  eapply tri_bind; [by apply tri_materialize|]. intros [l c0'] s1 Hi1 _ [Hl _].
  eapply tri_bind; [by apply tri_materialize|]. intros [r c1'] s2 Hi2 He2 [Hr _].
  apply (info_ok_ext _ _ _ He2) in Hl.
  eapply tri_bind; [by apply tri_fresh_col|]. intros [id out] s3 Hi3 _ [_ Hh3].
  eapply tri_bind; [apply tri_alloc; [done|]|].
  - apply (infos_node_ok s3 _ [l; r]); try done. intros i Hin. apply (info_ok_heap _ _ _ Hh3).
    apply elem_of_cons in Hin as [-> | ->%list_elem_of_singleton]; done.
  - intros a s4 Hi4 _ (_ & _ & Hout). pose proof (stored_result _ _ _ out Hout) as Hg. simpl in Hg.
    specialize (Hg ltac:(set_solver)).
    eapply tri_bind; [apply tri_upd; [done|apply ok_provenance, Hi4]|]. intros _ s5 Hi5 _ ->.
    eapply tri_bind; [apply tri_upd; [done|by apply ok_push_chains; [apply Hi5|]]|]. intros _ s6 Hi6 _ ->.
    eapply tri_bind; [apply tri_upd; [done|apply ok_filter_mat, Hi6]|]. intros _ s7 Hi7 _ ->.
    by apply tri_ret.
Qed.

Lemma tri_handleFilter s n child : inv s -> base_columns n <> [] -> forallb src_col (base_columns n) = true ->
  tri s child res_ok -> tri s (handleFilter rnd n child) res_ok.
Proof.
  intros Hi Hne Hsrc Hch. rewrite /handleFilter. eapply tri_bind; [done|]. intros res s1 Hi1 _ Hres.
  destruct (base_columns n) as [|c0 cols] eqn:Hbc; [done|]. apply andb_true_iff in Hsrc as [Hs0 Hscols].
  set (cross := match cols with c1 :: _ => _ | [] => None end).
  assert (forall c1, cross = Some c1 -> src_col c1 = true) as Hcross.
  { intros c1. rewrite /cross. destruct cols as [|c cols']; [done|]. case_match; [|done].
    intros [= <-]. by apply andb_true_iff in Hscols as [? _]. }
  destruct cross as [c1|]; [apply tri_handleCrossTableFilter; auto|].
  eapply tri_bind; [by apply tri_fresh_col|]. intros [id out] s2 Hi2 _ [_ Hh2].
  eapply tri_bind; [apply tri_alloc; [done|]|].
  { apply node_ok_intro; [|done|set_solver]. simpl. intros c Hc. exists None. split; [|by left].
    apply good_null. rewrite /consumed /= app_nil_r in Hc. apply src_col_spec.
    apply elem_of_cons in Hc as [->|Hc]; [done|]. rewrite forallb_forall in Hscols.
    apply Hscols. by apply list_elem_of_In. }
  intros a s3 Hi3 He3 (_ & _ & Hout). pose proof (stored_result _ _ _ out Hout) as Hg. simpl in Hg.
  specialize (Hg ltac:(set_solver)).
  eapply tri_bind; [apply tri_upd; [done|apply ok_provenance, Hi3]|]. intros _ s4 Hi4 _ ->.
  assert (res_ok res s3) as Hres3 by (eapply res_ok_ext; [done|]; by eapply res_ok_heap).
  eapply tri_bind; [apply tri_has_type; [done|apply Hres3]|]. intros b s5 Hi5 _ [-> _].
  case_match.
  - apply tri_createSetOperationNode; [done|simpl; lia|].
    intros r [-> | ->%list_elem_of_singleton]%elem_of_cons; done.
  - eapply tri_bind; [apply tri_upd; [done|]|].
    { apply ok_filter. apply (ok_insert_chain itn); [apply Hi5|]. intros p [Hp|Hp%list_elem_of_singleton]%elem_of_app; [|by subst].
      destruct (table_poslist_chain _ !! _) as [l|] eqn:Hl; [|by apply not_elem_of_nil in Hp].
      by eapply (ok_chain _ _ _ (proj2 Hi5)). }
    intros _ s6 Hi6 _ ->. by apply tri_ret.
Qed.

(** ** Joins and maps *)

Lemma tri_handleJoin s n lhs rhs : inv s -> 2 <= length (base_columns n) ->
  forallb src_col (base_columns n) = true -> tri s lhs res_ok ->
  (forall s', inv s' -> tri s' rhs res_ok) -> tri s (handleJoin rnd n lhs rhs) res_ok.
Proof.
  intros Hi Hlen Hsrc Hlhs Hrhs. rewrite /handleJoin.
  eapply tri_bind; [done|]. intros lres s1 Hi1 _ _.
  eapply tri_bind; [by apply Hrhs|]. intros rres s2 Hi2 _ _.
  destruct (base_columns n) as [|c0 [|c1 cols]] eqn:Hbc; simpl in Hlen; [lia|lia|].
  apply andb_true_iff in Hsrc as [H0 [H1 _]%andb_true_iff].
  eapply tri_bind; [by apply tri_materialize|]. intros [l c0'] s3 Hi3 _ [Hl _].
  eapply tri_bind; [by apply tri_materialize|]. intros [r c1'] s4 Hi4 He4 [Hr _].
  apply (info_ok_ext _ _ _ He4) in Hl. simpl in Hl, Hr.
  set (sw := (getCardinality _ <? _)%Z).
  destruct (if sw then (r, l) else (l, r)) as [im om] eqn:Hm.
  assert (info_ok im s4 /\ info_ok om s4) as [Him Hom] by (destruct sw; by simplify_eq).
  destruct (if sw then (table_name c1, table_name c0) else _) as [it ot].
  destruct (if sw then (rres, lres) else (lres, rres)) as [ir or].
  eapply tri_bind; [by apply tri_get|]. intros ctx s5 _ _ [-> ->].
  eapply tri_bind; [by apply tri_next|]. intros id s5 Hi5 _ [_ Hh5].
  eapply tri_bind; [apply tri_alloc; [done|]|].
  - apply (infos_node_ok s5 _ [im; om]); try done. intros i Hin. apply (info_ok_heap _ _ _ Hh5).
    apply elem_of_cons in Hin as [-> | ->%list_elem_of_singleton]; done.
  - intros a s6 Hi6 _ (_ & _ & Hout).
    match type of Hout with context [ [?x; ?y] ] =>
      pose proof (stored_result _ _ _ x Hout ltac:(simpl; set_solver)) as Hg1;
      pose proof (stored_result _ _ _ y Hout ltac:(simpl; set_solver)) as Hg2
    end.
    eapply tri_bind; [apply tri_upd; [done|apply ok_provenance, ok_provenance, Hi6]|]. intros _ s7 Hi7 _ ->.
    eapply tri_bind; [apply tri_upd; [done|by apply ok_push_chains; [apply Hi7|]]|]. intros _ s8 Hi8 _ ->.
    eapply tri_bind; [apply tri_upd; [done|by apply ok_push_chains; [apply Hi8|]]|]. intros _ s9 Hi9 _ ->.
    by apply tri_ret.
Qed.

Lemma tri_materialize_columns s cols : inv s -> forallb src_col cols = true ->
  tri s (materialize_columns rnd cols) (fun l s' => forall i, i ∈ l -> info_ok i s').
Proof.
  intros Hi Hc. rewrite forallb_forall in Hc. eapply tri_conseq; [apply (tri_mapM _ info_ok)|by intros l s' _ _ [_ H]].
  - intros. by eapply info_ok_ext.
  - done.
  - intros c s' Hin Hi' _. eapply tri_bind; [apply tri_materialize; [done|by apply Hc, list_elem_of_In]|].
    intros [i c'] s1 Hi1 _ [H _]. by apply tri_ret.
Qed.

Lemma tri_handleMap s n child : inv s -> forallb src_col (base_columns n) = true ->
  tri s child res_ok -> tri s (handleMap rnd n child) res_ok.
Proof.
  intros Hi Hsrc Hch. rewrite /handleMap. eapply tri_bind; [done|]. intros res s1 Hi1 _ _.
  eapply tri_bind; [by apply tri_materialize_columns|]. intros mats s2 Hi2 _ Hm.
  eapply tri_bind; [by apply tri_fresh_col|]. intros [id out] s3 Hi3 _ [_ Hh3].
  eapply tri_bind; [apply tri_alloc; [done|]|].
  - apply (infos_node_ok s3 _ mats); try done; [|by rewrite /consumed /= app_nil_r].
    intros i Hin. apply (info_ok_heap _ _ _ Hh3). auto.
  - intros a s4 Hi4 _ (_ & _ & Hout). pose proof (stored_result _ _ _ out Hout ltac:(simpl; set_solver)) as Hg.
    eapply tri_bind; [by apply tri_register|]. intros u s5 Hi5 He5 _.
    apply tri_ret; [done|]. by eapply good_ext.
Qed.

(** ** Aggregation *)

Lemma agg_alias_key spec c : col_key (agg_alias_col spec c) = col_key c /\
  table_name (agg_alias_col spec c) = table_name c.
Proof. destruct spec as [s|]; [|done]. simpl. by destruct (result_alias s). Qed.

Lemma col_key_suffix c suffix :
  col_key (set_column_name (column_name c +:+ suffix) c) = col_key c +:+ suffix.
Proof. rewrite /col_key /=. by rewrite !string_app_assoc. Qed.

(** A result column of a GROUPBY or AGGREGATE with an auxiliary suffix. *)
Lemma outs_suffix n c suffix : c ∈ p_result_columns n ->
  p_node_type n = PNT.GROUPBY \/ p_node_type n = PNT.AGGREGATE ->
  suffix ∈ ["_agg"; "_idx_ext"; "_cluster"] -> col_key c +:+ suffix ∈ outs n.
Proof.
  intros Hc Hty Hs. rewrite /outs list_elem_of_In in_flat_map. exists c. split; [by apply list_elem_of_In|].
  right. replace (_ || _) with true by (destruct Hty as [-> | ->]; done).
  apply in_map_iff. exists suffix. split; [done|by apply list_elem_of_In].
Qed.

Lemma first_result_ok s root ty : inv s ->
  (exists a n, root = Some a /\ os_heap s !! a = Some n /\ p_node_type n = ty) ->
  tri s (first_result root) (fun c s' => s' = s /\ good (os_heap s) root c).
Proof.
  intros Hi (a & n & -> & Hn & _). rewrite /first_result.
  assert (a < length (os_heap s)) as Ha by by eapply lookup_lt_Some.
  eapply (tri_bind itn _ _ _ (fun b s' => b = a /\ s' = s)).
  { exists a, s. split_and!; [done|done|apply ext_refl|done|done]. }
  intros ? ? _ _ [-> ->]. eapply tri_bind; [by apply tri_load|]. intros m s1 _ _ [-> Hm].
  assert (m = n) as -> by congruence.
  destruct (proj1 Hi a n Hn) as (_ & Hr & _). destruct (p_result_columns n) as [|c cs] eqn:Hc; [done|].
  exists c, s. split_and!; [done|done|apply ext_refl|done|]. split; [by intros ? [= <-]|].
  right. exists a, n. split_and!; [done|done|]. apply outs_result. rewrite Hc. set_solver.
Qed.

Lemma alias_good h o spec c : good h o c -> good h o (agg_alias_col spec c).
Proof. destruct (agg_alias_key spec c). by apply good_key. Qed.

Lemma tri_parallel_loop specs res : forall s, inv s -> res_ok res s ->
  forallb (fun sp => from_option src_col true (input sp)) specs = true ->
  tri s (parallel_loop rnd specs res) (fun l s' => forall a c, (a, c) ∈ l -> good (os_heap s') (Some a) c).
Proof.
  induction specs as [|spec specs IH]; intros s Hi Hres Hsrc; cbn [parallel_loop].
  - apply tri_ret; [done|]. intros a c Hc. by apply not_elem_of_nil in Hc.
  - apply andb_true_iff in Hsrc as [Hsp Hsrc].
    eapply tri_bind; [apply tri_resolveAggregateInput; [done|done|]|].
    { intros c Hc. rewrite Hc in Hsp. by apply src_col_spec. }
    intros [c o] s1 Hi1 He1 Hco. simpl in Hco.
    eapply tri_bind; [by apply tri_fresh_col|]. intros [id out] s2 Hi2 He2 [_ Hh2].
    eapply tri_bind; [apply tri_alloc; [done|]|].
    { apply (infos_node_ok s2 _ [mkMat c o 0]); try done. intros i ->%list_elem_of_singleton.
      by apply (info_ok_heap _ _ _ Hh2). }
    intros a s3 Hi3 He3 (_ & _ & Hout).
    pose proof (stored_result _ _ _ (agg_alias_col (Some spec) out) Hout ltac:(simpl; set_solver)) as Hg.
    eapply tri_bind; [by apply tri_register|]. intros u s4 Hi4 He4 _.
    assert (ext s s4) as Hes by (do 3 (eapply ext_trans; [done|]); done).
    eapply tri_bind; [apply IH; [done|by eapply res_ok_ext|done]|]. intros l s5 Hi5 He5 Hl.
    apply tri_ret; [done|]. intros a' c' [[= -> ->]|Hin]%elem_of_cons; [|by apply Hl].
    eapply good_ext; [|exact Hg]. by eapply ext_trans.
Qed.

Lemma tri_createParallelAggregateNodes s specs res : inv s -> res_ok res s -> specs <> [] -> itn <> "" ->
  forallb (fun sp => from_option src_col true (input sp)) specs = true ->
  tri s (createParallelAggregateNodes rnd specs res) res_ok.
Proof.
  intros Hi Hres Hne Hitn Hsrc. rewrite /createParallelAggregateNodes.
  eapply tri_bind; [by apply tri_parallel_loop|]. intros l s1 Hi1 _ Hl.
  destruct l as [|[a c] l]; (apply tri_ret; [done|]).
  - by apply good_null.
  - apply Hl. set_solver.
Qed.

Lemma tri_createSingleAggregateNode s n res : inv s -> res_ok res s ->
  forallb (fun sp => from_option src_col true (input sp)) (agg_specs (expression n)) = true ->
  tri s (createSingleAggregateNode rnd n res) res_ok.
Proof.
  intros Hi Hres Hsrc. rewrite /createSingleAggregateNode.
  eapply (tri_bind itn _ _ _ (fun r s' => good (os_heap s') r.2 r.1)).
  - case_bool_decide; [|by apply tri_ret].
    destruct (head (agg_specs (expression n)) ≫= input) as [c|] eqn:Hc; [|by apply tri_ret].
    assert (src_col c = true) as Hs.
    { destruct (agg_specs (expression n)) as [|sp sps]; [done|]. simpl in Hc, Hsrc. rewrite Hc in Hsrc.
      by apply andb_true_iff in Hsrc as [? _]. }
    eapply tri_bind; [by apply tri_materialize|]. intros [m c'] s1 Hi1 _ [Hm _]. by apply tri_ret.
  - intros [c o] s1 Hi1 _ Hco. simpl in Hco.
    eapply tri_bind; [by apply tri_fresh_col|]. intros [id out] s2 Hi2 He2 [_ Hh2].
    eapply tri_bind; [apply tri_alloc; [done|]|].
    { apply (infos_node_ok s2 _ [mkMat c o 0]); try done. intros i ->%list_elem_of_singleton.
      by apply (info_ok_heap _ _ _ Hh2). }
    intros a s3 Hi3 He3 (_ & _ & Hout).
    pose proof (stored_result _ _ _ (agg_alias_col (head (agg_specs (expression n))) out) Hout
      ltac:(simpl; set_solver)) as Hg.
    eapply tri_bind; [by apply tri_register|]. intros u s4 Hi4 He4 _.
    apply tri_ret; [done|]. by eapply good_ext.
Qed.

(** A node under construction. *)
Definition readable (s : opt_state) (n : PhysicalPlanNode) : Prop :=
  (forall c, c ∈ consumed n -> exists o, good (os_heap s) o c /\ (o = None \/ o ∈ p_children n)) /\
  (forall o, o ∈ p_children n -> in_store (os_heap s) o).

Lemma readable_ext s s' n : ext s s' -> readable s n -> readable s' n.
Proof.
  intros He [H1 H2]. split.
  - intros c (o & Hg & Ho)%H1. exists o. split; [by eapply good_ext|done].
  - intros o Ho. eapply in_store_mono; [exact He|]. auto.
Qed.

Lemma consumed_agg n c ch x : x ∈ consumed (set_p_aggregationColumn (Some c) (set_p_children ch n)) ->
  x = c \/ x ∈ consumed n.
Proof. rewrite /consumed /= !elem_of_app elem_of_cons. tauto. Qed.

(** Adding children and an aggregation column they produce. *)
Lemma readable_agg s n c o ch : readable s n -> good (os_heap s) o c -> o = None \/ o ∈ ch ->
  (forall o, o ∈ ch -> in_store (os_heap s) o) ->
  readable s (set_p_aggregationColumn (Some c) (set_p_children (p_children n ++ ch) n)).
Proof.
  intros [H1 H2] Hg Ho Hch. split; simpl.
  - intros x [->|Hx]%consumed_agg; [exists o; split; [done|]; set_solver|].
    destruct (H1 x Hx) as (o' & Hg' & Ho'). exists o'. split; [done|]. set_solver.
  - intros o' [Ho'|Ho']%elem_of_app; auto.
Qed.

End handlers.
