(* ===== verification/PlanInv.v ===== *)
(** * GROUP BY, ORDER BY and the whole traversal

    The remaining handlers of [PhysicalOptimizer.v] and [transformNode]: on a
    plan of the expected shape the optimizer returns a plan whose store is
    acyclic and closed under data flow. *)

From S2P Require Import Prelude PlanTypes PhysContext Materialization PhysicalOptimizer.
From S2P Require Import PostProcess PhysicalInvariant MaterializationInv HandlersInv.

Section plan.
Variables (itn : string) (rnd : nat -> Z).
Hypothesis itn_nonempty : itn <> "".

Abbreviation inv := (inv itn).
Abbreviation good := (good itn).
Abbreviation tri := (tri itn).
Abbreviation src_col := (src_col itn).
Abbreviation res_ok := (res_ok itn).
Abbreviation info_ok := (info_ok itn).
Abbreviation readable := (readable itn).

Definition spec_src (sp : AggSpec) : bool := from_option src_col true (input sp).

(** The input column of an aggregate, with the node that produces it. *)
Lemma tri_agg_input s sp b res : inv s -> spec_src sp = true ->
  (b = true -> exists a n, physical_root res = Some a /\ os_heap s !! a = Some n /\ p_node_type n = PNT.MAP) -> res_ok res s ->
  tri s (match input sp with
         | Some c =>
             '(m, c') ← ensureMaterialized rnd c;
             mret ([mat_col m], producers [mat_producer m], set_input (Some c') sp)
         | None =>
             if b : bool then
               c ← first_result (physical_root res);
               mret ([c], [physical_root res], sp)
             else mret ([], [], sp)
         end)
    (fun r s' => (forall c, c ∈ r.1.1 -> exists o, good (os_heap s') o c /\ (o = None \/ o ∈ r.1.2)) /\
       (forall o, o ∈ r.1.2 -> in_store (os_heap s') o)).
Proof.
  intros Hi Hsp Hb Hres.
  destruct (input sp) as [c|] eqn:Hin.
  - rewrite /spec_src Hin in Hsp. eapply tri_bind; [by apply tri_materialize|].
    intros [m c'] s1 Hi1 _ [Hm _]. apply tri_ret; [done|]. simpl. split.
    + intros x ->%list_elem_of_singleton. exists (mat_producer m). split; [done|].
      apply producers_child. set_solver.
    + intros o [->%list_elem_of_singleton _]%elem_of_producers. apply Hm.
  - destruct b; [|apply tri_ret; [done|]; set_solver].
    eapply tri_bind; [by apply (first_result_ok itn rnd _ _ PNT.MAP), Hb|]. intros c s1 Hi1 _ [-> Hc].
    apply tri_ret; [done|]. simpl. split.
    + intros x ->%list_elem_of_singleton. exists (physical_root res). split; [done|]. right. set_solver.
    + intros o ->%list_elem_of_singleton. apply Hc.
Qed.

Lemma tri_multi_agg_loop specs idx cl g res : forall s, inv s -> res_ok res s ->
  forallb spec_src specs = true -> good (os_heap s) (Some g) idx -> good (os_heap s) (Some g) cl ->
  tri s (multi_agg_loop rnd specs idx cl g res)
    (fun l s' => forall a c, (a, c) ∈ l -> good (os_heap s') (Some a) c).
Proof.
  induction specs as [|sp specs IH]; intros s Hi Hres Hsrc Hidx Hcl; cbn [multi_agg_loop].
  { apply tri_ret; [done|]. intros a c Hc. by apply not_elem_of_nil in Hc. }
  apply andb_true_iff in Hsrc as [Hsp Hsrc].
  eapply tri_bind; [apply tri_has_type; [done|apply Hres]|]. intros b s1 _ _ [-> Hb].
  (* the input column, its producer and the specification *)
  eapply tri_bind; [by apply tri_agg_input|].
  intros [[base chs] sp'] s1 Hi1 He1 [Hbase Hchs]. cbn [fst snd] in *.
  eapply tri_bind; [by apply tri_fresh_col|]. intros [id out] s2 Hi2 He2 [_ Hh2].
  assert (ext s s2) as Hes2 by by eapply ext_trans.
  eapply tri_bind; [apply tri_alloc; [done|]|].
  { apply node_ok_intro; simpl; rewrite ?Hh2; [|done|].
    - intros c Hc. rewrite /consumed /= elem_of_app elem_of_cons list_elem_of_singleton in Hc.
      destruct Hc as [Hc|[-> | ->]].
      + destruct (Hbase c Hc) as (o & Hg & Ho). exists o. split; [done|]. set_solver.
      + exists (Some g). split; [by eapply good_ext|right; set_solver].
      + exists (Some g). split; [by eapply good_ext|right; set_solver].
    - intros o [Ho|Ho%list_elem_of_singleton]%elem_of_app; [by apply Hchs|]. subst o.
      eapply in_store_mono; [exact He1|apply Hidx]. }
  intros a s3 Hi3 He3 (_ & _ & Hout).
  pose proof (stored_result itn _ _ _ (agg_alias_col (Some sp') out) Hout ltac:(simpl; set_solver)) as Hg.
  assert (good (os_heap s3) (Some a) (agg_alias_col (Some sp') (set_column_name (column_name out +:+ "_agg") out))) as Hg2.
  { apply alias_good. apply Hout. rewrite col_key_suffix -(proj1 (agg_alias_key (Some sp') out)).
    apply outs_suffix; [simpl; set_solver|by right|set_solver]. }
  eapply tri_bind; [by apply tri_register|]. intros u s4 Hi4 He4 _.
  assert (ext s s4) as Hes by (eapply ext_trans; [exact Hes2|]; by eapply ext_trans).
  eapply tri_bind; [apply IH; [done|by eapply res_ok_ext|done|by eapply good_ext|by eapply good_ext]|].
  intros l s5 Hi5 He5 Hl. apply tri_ret; [done|].
  intros a' c' [[= -> ->]|Hin]%elem_of_cons; [|by apply Hl].
  eapply good_ext; [|exact Hg]. by eapply ext_trans.
Qed.

Lemma tri_handleGroupByMultiAgg s n gb mats cols idx cl res : inv s -> res_ok res s ->
  forallb spec_src (agg_specs (expression n)) = true -> readable s gb -> length cols = length mats ->
  (forall i, i ∈ mats -> info_ok i s) ->
  tri s (handleGroupByMultiAgg rnd n gb mats cols idx cl res) res_ok.
Proof.
  intros Hi Hres Hsrc [Hgb1 Hgb2] Hlen Hm. rewrite /handleGroupByMultiAgg.
  eapply tri_bind; [apply tri_alloc; [done|by apply node_ok_intro]|].
  intros g s1 Hi1 He1 (_ & _ & Hout).
  pose proof (stored_result itn _ _ _ idx Hout ltac:(simpl; set_solver)) as Hidx.
  pose proof (stored_result itn _ _ _ cl Hout ltac:(simpl; set_solver)) as Hcl.
  apply (res_ok_ext _ _ _ _ He1) in Hres as Hres1.
  eapply tri_bind; [apply tri_has_type; [done|apply Hres1]|]. intros b s2 _ _ [-> Hb].
  eapply (tri_bind itn _ _ _ (fun _ s' => True)).
  { destruct b; [|by apply tri_ret].
    eapply tri_bind; [by apply (first_result_ok itn rnd _ _ PNT.MAP), Hb|]. intros c s2 Hi2 _ [-> Hc].
    eapply tri_conseq; [by apply tri_register|done]. }
  intros u s2 Hi2 He2 _.
  eapply tri_bind; [apply tri_multi_agg_loop; [done|by eapply res_ok_ext|done|by eapply good_ext|by eapply good_ext]|].
  intros l s3 Hi3 He3 Hl.
  assert (ext s1 s3) as He13 by by eapply ext_trans. assert (ext s s3) as He03 by by eapply ext_trans.
  eapply tri_bind; [apply tri_materializeGroupedKeys; [done|done| |eapply good_ext; [exact He13|exact Hidx]]|].
  { intros i Hin. eapply good_ext; [exact He03|]. by apply Hm. }
  intros u' s4 Hi4 He4 _. destruct l as [|[a c] l]; (apply tri_ret; [done|]).
  - eapply good_ext; [|exact Hidx]. by eapply ext_trans.
  - eapply good_ext; [done|]. apply Hl. set_solver.
Qed.

(** The column of the only aggregate of a GROUPBY. *)
Lemma tri_single_agg_column s e spec gb : inv s -> from_option spec_src true spec = true -> (spec = None -> False) ->
  readable s gb -> p_base_columns gb <> [] -> p_node_type gb = PNT.GROUPBY ->
  tri s (match spec ≫= input with
         | Some c =>
             '(m, c') ← ensureMaterialized rnd c;
             mret (set_p_aggregationColumn (Some (mat_col m))
                     (set_p_children (p_children gb ++ producers [mat_producer m]) gb), set_first_input c' e)
         | None =>
             first ← lift (deref "first_agg->is_star" spec);
             if is_star first && bool_decide (func first = PAF.COUNT) then
               c ← lift (at_index "base_columns[0]" (p_base_columns gb) 0);
               mret (set_p_aggregationColumn (Some c) gb, e)
             else mret (gb, e)
         end) (fun r s' => readable s' r.1 /\ p_node_type r.1 = PNT.GROUPBY).
Proof.
  intros Hi Hsrc Hsome Hgb1 Hbne Hty1. destruct (spec ≫= input) as [c|] eqn:Hin.
  - destruct spec as [sp|]; [|done]. simpl in Hin, Hsrc. rewrite /spec_src Hin in Hsrc.
    eapply tri_bind; [by apply tri_materialize|]. intros [m c'] s1 Hi1 He1 [Hmi _].
    apply tri_ret; [done|]. split; [|done]. cbn [fst].
    apply (readable_agg itn s1 gb (mat_col m) (mat_producer m)); [by eapply readable_ext|done| |].
    + apply producers_child. set_solver.
    + intros o [->%list_elem_of_singleton _]%elem_of_producers. apply Hmi.
  - destruct spec as [sp|]; [|by destruct (Hsome eq_refl)].
    eapply (tri_bind itn _ _ _ (fun x s' => s' = s)).
    { exists sp, s. split_and!; [done|done|apply ext_refl|done]. }
    intros sp' s1 _ _ ->. case_match; [|by apply tri_ret].
    destruct (p_base_columns gb) as [|c0 cs] eqn:Hb0; [done|].
    eapply (tri_bind itn _ _ _ (fun x s' => s' = s /\ x = c0)).
    { exists c0, s. split_and!; [done|done|apply ext_refl|done|done]. }
    intros x s1 _ _ [-> ->]. apply tri_ret; [done|]. split; [|done]. cbn [fst].
    assert (c0 ∈ consumed gb) as Hc0 by (rewrite /consumed Hb0; set_solver).
    destruct (proj1 Hgb1 c0 Hc0) as (o & Hg & Ho). destruct Hgb1 as [H1 H2]. split; [|done].
    intros x. rewrite /consumed /= !elem_of_app elem_of_cons. intros Hx.
    assert (x = c0 \/ x ∈ consumed gb) as [->|Hx'] by (rewrite /consumed !elem_of_app; tauto); [by exists o|by apply H1].
Qed.

Lemma tri_handleGroupBySingleAgg s n gb spec mats cols name idx_ext res : inv s -> res_ok res s ->
  from_option spec_src true spec = true -> (spec = None -> False) -> readable s gb ->
  p_base_columns gb <> [] -> p_node_type gb = PNT.GROUPBY -> length cols = length mats ->
  (forall i, i ∈ mats -> info_ok i s) -> idx_ext = Column3 itn (name +:+ "_idx_ext") PTY.POSLIST ->
  tri s (handleGroupBySingleAgg rnd n gb spec mats cols name idx_ext res) res_ok.
Proof.
  intros Hi Hres Hsrc Hsome Hgb Hbne Hty Hlen Hm ->. rewrite /handleGroupBySingleAgg.
  eapply tri_bind; [by apply tri_get|]. intros ctx s1 _ _ [-> ->].
  rewrite (ok_itn _ _ _ (proj2 Hi)).
  eapply tri_bind; [apply tri_has_type; [done|apply Hres]|]. intros b s1 _ _ [-> Hb].
  eapply (tri_bind itn _ _ _ (fun gb' s' => s' = s /\ readable s gb' /\
    p_base_columns gb' = p_base_columns gb /\ p_node_type gb' = PNT.GROUPBY)).
  { destruct b; [|by apply tri_ret].
    eapply tri_bind; [by apply (first_result_ok itn rnd _ _ PNT.MAP), Hb|]. intros c s1 Hi1 _ [-> Hc].
    apply tri_ret; [done|]. split_and!; try done.
    apply (readable_agg itn s gb c (physical_root res)); [done|done|right; set_solver|].
    intros o ->%list_elem_of_singleton. apply Hc. }
  intros gb1 s1 _ _ (-> & Hgb1 & Hbase1 & Hty1).
  eapply tri_bind; [apply tri_single_agg_column; [done..|by rewrite Hbase1|done]|].
  intros [gb2 expr] s1 Hi1 He1 [[Hr1 Hr2] Hty2]. cbn [fst] in *.
  eapply tri_bind; [apply tri_alloc; [done|by apply node_ok_intro]|].
  intros g s2 Hi2 He2 (_ & _ & Hout).
  set (res_col := agg_alias_col spec (Column3 itn name PTY.INTEGER)) in *.
  pose proof (stored_result itn _ _ _ res_col Hout ltac:(simpl; set_solver)) as Hg.
  assert (forall suffix c, suffix ∈ ["_agg"; "_idx_ext"; "_cluster"] -> col_key c = col_key res_col +:+ suffix ->
    good (os_heap s2) (Some g) c) as Hsuf.
  { intros suffix c Hs Hk. apply Hout. rewrite Hk. apply outs_suffix; [simpl; set_solver|by left|done]. }
  assert (forall suffix ty, col_key (Column3 itn (name +:+ suffix) ty) = col_key res_col +:+ suffix) as Hkey.
  { intros suffix ty. rewrite (proj1 (agg_alias_key _ _)). apply (col_key_suffix (Column3 itn name ty) suffix). }
  eapply tri_bind; [apply tri_register; [done|]|].
  { apply alias_good. eapply Hsuf; [|apply Hkey]. set_solver. }
  intros u s3 Hi3 He3 _. assert (ext s s3) as Hes by (eapply ext_trans; [exact He1|]; by eapply ext_trans).
  eapply tri_bind; [apply tri_materializeGroupedKeys; [done|done| |]|].
  { intros i Hin. eapply good_ext; [exact Hes|]. by apply Hm. }
  { eapply good_ext; [exact He3|]. eapply Hsuf; [|apply Hkey]. set_solver. }
  intros u' s4 Hi4 He4 _. apply tri_ret; [done|]. eapply good_ext; [|exact Hg]. by eapply ext_trans.
Qed.

Lemma tri_handleGroupBy s n res : inv s -> res_ok res s -> base_columns n <> [] ->
  agg_specs (expression n) <> [] -> forallb src_col (base_columns n) = true ->
  forallb spec_src (agg_specs (expression n)) = true -> tri s (handleGroupBy rnd n res) res_ok.
Proof.
  intros Hi Hres Hne Hspecs Hsrc Hsp. rewrite /handleGroupBy.
  eapply tri_bind; [apply (tri_mapM itn _ (fun r s' => info_ok r.1 s'))|].
  { intros r s1 s2. apply info_ok_ext. }
  { done. }
  { intros c s' Hc Hi' _. rewrite forallb_forall in Hsrc.
    eapply tri_conseq; [apply tri_materialize; [done|by apply Hsrc, list_elem_of_In]|by intros ? ? _ _ [? _]]. }
  intros mats s1 Hi1 He1 [Hlen Hm].
  assert (forall i, i ∈ map fst mats -> info_ok i s1) as Hm'.
  { intros i (r & -> & Hr)%list_elem_of_fmap. by apply Hm. }
  eapply tri_bind; [by apply tri_get|]. intros ctx s2 _ _ [-> ->].
  rewrite (ok_itn _ _ _ (proj2 Hi1)).
  eapply tri_bind; [by apply tri_next|]. intros id s2 Hi2 He2 [_ Hh2].
  assert (forall i, i ∈ map fst mats -> info_ok i s2) as Hm2.
  { intros i Hin. by apply (info_ok_heap _ _ _ _ Hh2), Hm'. }
  assert (res_ok res s2) as Hres2 by (eapply res_ok_ext; [|done]; by eapply ext_trans).
  assert (readable s2 (new_phys PNT.GROUPBY id (map mat_col (map fst mats)) []
    (producers (map mat_producer (map fst mats))) None)) as Hgb.
  { split; simpl.
    - intros c Hc. rewrite /consumed /= app_nil_r in Hc. by apply infos_readable.
    - by apply (infos_in_store itn). }
  assert (length (map snd mats) = length (map fst mats)) as Hl by by rewrite !length_map.
  assert (mats <> []) as Hmne.
  { destruct mats; [|done]. destruct (base_columns n); [done|discriminate Hlen]. }
  destruct (agg_specs (expression n)) as [|sp [|sp2 sps]] eqn:Hspecs'; [done| |].
  - apply andb_true_iff in Hsp as [Hsp _]. apply tri_handleGroupBySingleAgg; try done.
    simpl. by destruct mats.
  - apply tri_handleGroupByMultiAgg; try done. by rewrite Hspecs'.
Qed.

Lemma tri_handleAggregate s n child : inv s -> (base_columns n = [] \/ agg_specs (expression n) <> []) ->
  forallb src_col (base_columns n) = true -> forallb spec_src (agg_specs (expression n)) = true ->
  tri s child res_ok -> tri s (handleAggregate rnd n child) res_ok.
Proof.
  intros Hi Hshape Hsrc Hsp Hch. rewrite /handleAggregate. eapply tri_bind; [done|]. intros res s1 Hi1 _ Hres.
  destruct (base_columns n) as [|c cs] eqn:Hbc.
  - destruct (agg_specs (expression n)) as [|sp [|sp2 sps]] eqn:Hs;
      try (apply tri_createSingleAggregateNode; [done|done|by rewrite Hs]).
    by apply tri_createParallelAggregateNodes.
  - destruct Hshape as [?|Hne]; [done|]. apply tri_handleGroupBy; rewrite ?Hbc //.
Qed.

(** ** Projection and sort *)

Lemma projected_info_ok s col i : info_ok i s -> info_ok (projected_info col i) s.
Proof.
  rewrite /info_ok /HandlersInv.info_ok /projected_info /=. apply good_key; by destruct (nonempty (base_table col)).
Qed.

Lemma tri_project_loop cols : forall s, inv s -> forallb src_col cols = true ->
  tri s (project_loop rnd cols) (fun _ _ => True).
Proof.
  induction cols as [|c cols IH]; intros s Hi Hsrc; cbn [project_loop]; [by apply tri_ret|].
  apply andb_true_iff in Hsrc as [Hc Hsrc].
  eapply tri_bind; [by apply tri_materialize|]. intros [i c'] s1 Hi1 _ [Hi' _].
  eapply tri_bind; [apply tri_upd; [done|]|]; [|by intros u s2 Hi2 _ _; apply IH].
  apply ok_set_projected; [apply Hi1|]. intros j [Hj|Hj%list_elem_of_singleton]%elem_of_app.
  - by apply (ok_proj _ _ _ (proj2 Hi1)).
  - subst j. by apply projected_info_ok.
Qed.

Lemma tri_handleProjection s n child : inv s -> forallb src_col (projected_columns n) = true ->
  tri s child res_ok -> tri s (handleProjection rnd n child) res_ok.
Proof.
  intros Hi Hsrc Hch. rewrite /handleProjection. eapply tri_bind; [done|]. intros res s1 Hi1 _ Hres.
  eapply tri_bind; [apply tri_upd; [done|]|].
  { apply ok_set_projected; [apply Hi1|]. intros i Hin. by apply not_elem_of_nil in Hin. }
  intros u s2 Hi2 He2 _. eapply tri_bind; [by apply tri_project_loop|]. intros u' s3 Hi3 He3 _.
  apply tri_ret; [done|]. eapply res_ok_ext; [|done]. by eapply ext_trans.
Qed.

Definition key_ok (r : Column * option paddr) (s : opt_state) : Prop := good (os_heap s) r.2 r.1.

Lemma tri_sort_key s root col : inv s -> in_store (os_heap s) root -> src_col col = true ->
  tri s (sort_key rnd root col) key_ok.
Proof.
  intros Hi Hroot Hc. rewrite /sort_key.
  eapply tri_bind; [by apply tri_has_type|]. intros b s1 _ _ [-> Hb].
  eapply (tri_bind itn _ _ _ (fun o s' => s' = s /\ forall c, o = Some c -> good (os_heap s) root c)).
  { case_match eqn:Hcond; [|by apply tri_ret]. apply andb_true_iff in Hcond as [_ ->].
    destruct (Hb eq_refl) as (a & n & -> & Hn & Hty).
    eapply (tri_bind itn _ _ _ (fun b s' => b = a /\ s' = s)).
    { exists a, s. split_and!; [done|done|apply ext_refl|done|done]. }
    intros ? ? _ _ [-> ->]. eapply tri_bind; [apply tri_load; [done|by eapply lookup_lt_Some]|].
    intros m s1 _ _ [-> Hm]. assert (m = n) as -> by congruence. apply tri_ret; [done|]. split; [done|].
    intros c. destruct (p_result_columns n) as [|c0 cs] eqn:Hr; [done|]. intros [= <-]. split; [done|].
    right. exists a, n. split_and!; [done|done|]. rewrite col_key_suffix.
    apply outs_suffix; [rewrite Hr; set_solver|by left|set_solver]. }
  intros o s1 _ _ [-> Ho]. destruct o as [c|]; [apply tri_ret; [done|]; by apply Ho|].
  eapply tri_bind; [by apply tri_materialize|]. intros [m c'] s1 Hi1 _ [Hm _]. by apply tri_ret.
Qed.

Lemma tri_handleSort s n child : inv s -> forallb src_col (base_columns n) = true ->
  (exists c g cs gs, children n = Some c :: cs /\ children c = Some g :: gs) ->
  tri s child res_ok -> tri s (handleSort rnd n child) res_ok.
Proof.
  intros Hi Hsrc (c & g & cs & gs & Hcn & Hcc) Hch. rewrite /handleSort.
  eapply tri_bind; [done|]. intros res s1 Hi1 _ Hres.
  eapply (tri_bind itn _ _ _ (fun _ s' => s' = s1)).
  { case_bool_decide; [|by apply tri_ret].
    rewrite /grandchild_columns Hcn /= Hcc /=.
    eapply (tri_bind itn _ _ _ (fun _ s' => s' = s1)); [|by intros x s2 Hi2 _ ->; apply tri_ret].
    exists (base_columns g), s1. split_and!; [done|done|apply ext_refl|done]. }
  intros b s2 _ _ ->. destruct b; [by apply tri_ret|].
  rewrite forallb_forall in Hsrc.
  eapply tri_bind; [apply (tri_mapM itn _ key_ok)|].
  { intros y sa sb He. by apply good_ext. }
  { done. }
  { intros col s' Hin Hi' He'. apply tri_sort_key; [done| |by apply Hsrc, list_elem_of_In].
    eapply in_store_mono; [exact He'|apply Hres]. }
  intros keys s2 Hi2 _ [_ Hk].
  eapply tri_bind; [by apply tri_fresh_col|]. intros [id out] s3 Hi3 _ [_ Hh3].
  eapply tri_bind; [apply tri_alloc; [done|]|].
  { apply (infos_node_ok itn s3 _ (map (fun k => mkMat k.1 k.2 0) keys)); try done.
    - intros i (k & -> & Hin)%list_elem_of_fmap. apply (info_ok_heap _ _ _ _ Hh3). by apply Hk.
    - rewrite /consumed /= app_nil_r List.map_map. done.
    - by rewrite /= List.map_map. }
  intros a s4 Hi4 _ (_ & _ & Hout). apply tri_ret; [done|].
  by apply (stored_result itn _ _ _ out Hout ltac:(simpl; set_solver)).
Qed.

(** ** The traversal *)

(** The plans the handlers accept: operators have their children, their
    columns come from base tables, a grouped aggregate computes something and
    a SORT stands above another output layer. *)
Fixpoint phys_shape (n : LogicalPlanNode) : bool :=
  forallb src_col (base_columns n) && forallb src_col (projected_columns n) &&
  forallb spec_src (agg_specs (expression n)) &&
  match node_type n, children n with
  | LNT.SCAN, _ => true
  | LNT.FILTER, Some c :: _ => negb (bool_decide (base_columns n = [])) && phys_shape c
  | LNT.JOIN, Some l :: Some r :: _ => (2 <=? length (base_columns n)) && phys_shape l && phys_shape r
  | LNT.MAP, Some c :: _ => phys_shape c
  | LNT.PROJECTION, Some c :: _ => phys_shape c
  | LNT.AGGREGATE, Some c :: _ =>
      (bool_decide (base_columns n = []) || negb (bool_decide (agg_specs (expression n) = []))) && phys_shape c
  | LNT.SETOPERATION, (_ :: _ :: _) as cs =>
      forallb (fun o => match o with Some c => phys_shape c | None => false end) cs
  | LNT.SORT, Some c :: _ =>
      phys_shape c && match children c with Some _ :: _ => true | _ => false end
  | _, _ => false
  end.

Lemma tri_read_limits s n : inv s -> tri s (read_limits n) (fun _ s' => os_heap s' = os_heap s).
Proof.
  intros Hi. eapply tri_conseq; [apply tri_upd; [done|apply ok_limits, Hi]|by intros ? ? _ _ ->].
Qed.

Lemma tri_handleScan s n : inv s -> tri s (mret (handleScan n)) res_ok.
Proof. intros Hi. apply tri_ret; [done|]. by apply good_null. Qed.

Lemma tri_handleSetOperation s n run : inv s ->
  tri s run (fun rs s' => 2 <= length rs /\ forall r, r ∈ rs -> res_ok r s') ->
  tri s (handleSetOperation rnd n run) res_ok.
Proof.
  intros Hi Hrun. rewrite /handleSetOperation. eapply tri_bind; [done|].
  intros rs s1 Hi1 _ [Hlen Hrs]. by apply tri_createSetOperationNode.
Qed.

Lemma tri_transformNode n : phys_shape n = true -> forall s, inv s -> tri s (transformNode rnd n) res_ok.
Proof.
  induction n as [n IH] using LogicalPlanNode_child_ind. intros Hsh s Hi.
  destruct n as [ty st bc ex pc ch]. cbn [phys_shape base_columns projected_columns expression node_type children] in *.
  apply andb_true_iff in Hsh as [[[Hbc Hpc]%andb_true_iff Hsp]%andb_true_iff Hsh].
  cbn [transformNode node_type children]. eapply tri_bind; [by apply tri_read_limits|].
  intros u s1 Hi1 _ _. clear u. destruct ty.
  - by apply tri_handleScan.
  - destruct ch as [|[c|] cs]; try done. apply andb_true_iff in Hsh as [Hne%negb_true_iff%bool_decide_eq_false Hc].
    apply tri_handleFilter; [done|done|done|]. apply IH; [set_solver|done|done].
  - destruct ch as [|[c|] cs]; try done. apply tri_handleProjection; [done|done|]. apply IH; [set_solver|done|done].
  - destruct ch as [|[l|] [|[r|] cs]]; try done.
    apply andb_true_iff in Hsh as [[Hlen%Nat.leb_le Hl]%andb_true_iff Hr].
    apply tri_handleJoin; [done|done|done| |]; intros; (apply IH; [set_solver|done|done]).
  - destruct ch as [|[c|] cs]; try done. apply andb_true_iff in Hsh as [Hag Hc].
    apply tri_handleAggregate; [done| |done|done|apply IH; [set_solver|done|done]].
    apply orb_true_iff in Hag as [Hag%bool_decide_eq_true|Hag%negb_true_iff%bool_decide_eq_false]; auto.
  - destruct ch as [|[c|] cs]; try done. apply tri_handleMap; [done|done|]. apply IH; [set_solver|done|done].
  - destruct ch as [|c0 [|c1 cs]]; try done. apply tri_handleSetOperation; [done|].
    set (l := c0 :: c1 :: cs) in *.
    apply forallb_Some in Hsh as (ns & Hns & Hall).
    eapply tri_conseq; [apply (tri_mapM itn _ res_ok)|].
    + intros r sa sb. by apply res_ok_ext.
    + done.
    + intros o s' Ho Hi' _. rewrite Hns in Ho. apply list_elem_of_fmap in Ho as (c & -> & Hc).
      apply IH; [rewrite Hns; by apply elem_of_map_Some|by apply Hall|done].
    + intros rs s' _ _ [Hlen Hrs]. split; [|done]. rewrite Hlen /l /=. lia.
  - destruct ch as [|[c|] cs]; try done. apply andb_true_iff in Hsh as [Hc Hg].
    destruct (children c) as [|[g|] gs] eqn:Hcc; try done.
    apply tri_handleSort; [done|done| |apply IH; [set_solver|done|done]].
    exists c, g, cs, gs. split; [done|done].
Qed.

(** ** The RESULT node *)

Lemma add_child_spec l : forall ch, (forall o, o ∈ ch -> o ∈ fold_left add_child l ch) /\
  (forall i, i ∈ l -> mat_producer i = None \/ mat_producer i ∈ fold_left add_child l ch) /\
  (forall o, o ∈ fold_left add_child l ch -> o ∈ ch \/ exists i, i ∈ l /\ o = mat_producer i).
Proof.
  induction l as [|i l IH]; intros ch; simpl.
  - split_and!; [done| |auto]. intros i Hi. by apply not_elem_of_nil in Hi.
  - destruct (IH (add_child ch i)) as (H1 & H2 & H3).
    assert (forall o, o ∈ ch -> o ∈ add_child ch i) as Hmono.
    { intros o Ho. rewrite /add_child. repeat case_match; set_solver. }
    assert (mat_producer i = None \/ mat_producer i ∈ add_child ch i) as Hi.
    { rewrite /add_child. destruct (mat_producer i); [right|by left]. case_bool_decide; set_solver. }
    assert (forall o, o ∈ add_child ch i -> o ∈ ch \/ o = mat_producer i) as Hback.
    { intros o. rewrite /add_child. destruct (mat_producer i); [|auto]. case_bool_decide; set_solver. }
    split_and!.
    + intros o Ho. apply H1, Hmono, Ho.
    + intros j [->|Hj]%elem_of_cons; [|by apply H2]. destruct Hi as [?|?]; [by left|right; by apply H1].
    + intros o [Ho|(j & Hj & ->)]%H3; [|right; exists j; split; [set_solver|done]].
      destruct (Hback o Ho) as [?| ->]; [by left|right]. exists i. split; [set_solver|done].
Qed.

Lemma tri_buildResultNode s res : inv s -> res_ok res s -> ctx_projected (os_ctx s) <> [] ->
  tri s (buildResultNode rnd res) (fun a s' => a < length (os_heap s')).
Proof.
  intros Hi Hres Hne. rewrite /buildResultNode.
  eapply tri_bind; [by apply tri_get|]. intros ctx s1 _ _ [-> ->].
  eapply tri_bind; [by apply tri_next|]. intros id s1 Hi1 _ [Hc1 Hh1].
  assert (res_ok res s1) as Hres1 by by eapply res_ok_heap.
  eapply tri_bind; [apply tri_has_type; [done|apply Hres1]|]. intros b s2 _ _ [-> Hb].
  set (infos := ctx_projected (os_ctx s)) in *.
  assert (forall i, i ∈ infos -> info_ok i s1) as Hinf.
  { intros i Hin. apply (info_ok_heap _ _ _ _ Hh1). by apply (ok_proj _ _ _ (proj2 Hi)). }
  set (pair := if b then _ else _). destruct pair as [ch idx] eqn:Hpair.
  assert ((forall i, i ∈ infos -> mat_producer i = None \/ mat_producer i ∈ ch) /\
    (forall o, o ∈ ch -> in_store (os_heap s1) o) /\
    (forall c, idx = Some c -> c = output_column res /\ physical_root res ∈ ch)) as (Hch1 & Hch2 & Hidx).
  { rewrite /pair in Hpair. destruct b; injection Hpair as <- <-.
    - destruct (add_child_spec infos [physical_root res]) as (H1 & H2 & H3). split_and!; [done| |].
      + intros o [->%list_elem_of_singleton|(i & Hin & ->)]%H3; [apply Hres1|apply (Hinf i Hin)].
      + intros c [= <-]. split; [done|]. apply H1. set_solver.
    - split_and!; [|by apply (infos_in_store itn)|done].
      intros i Hin. apply producers_child. by apply list_elem_of_fmap_2. }
  eapply tri_conseq; [apply tri_alloc; [done|]|].
  - apply node_ok_intro; simpl; [|by destruct infos|done].
    intros c. rewrite /consumed /= !app_nil_r elem_of_app. intros [(i & -> & Hin)%list_elem_of_fmap|Hc].
    + exists (mat_producer i). split; [by apply Hinf|by apply Hch1].
    + destruct idx as [x|]; [|set_solver]. apply list_elem_of_singleton in Hc as ->.
      destruct (Hidx x eq_refl) as [-> Hr]. exists (physical_root res). auto.
  - intros a s' _ _ (_ & Ha & _). by eapply lookup_lt_Some.
Qed.

End plan.
