(* ===== verification/PlanShape.v ===== *)
(** * The plans of the translator are the plans the optimizer accepts

    [phys_shape] is what the physical optimizer relies on.  The input tree of a
    supported SELECT has this shape because it is well-formed and has the right
    arities; the output layers have it because every aggregate node gets at
    least one aggregate and every column comes from a column reference of the
    statement or has no table.  The name of the intermediate table must not
    occur as the table of a column reference ([fresh_name]). *)

From S2P Require Import Prelude PlanTypes SqlAst SchemaResolver TranslatorHelpers.
From S2P Require Import LogicalSemantics Pushdown PredicateBuilder WhereSemantics DSU JoinTree JoinTreeCorrect.
From S2P Require Import SelectPlanBuilder SelectCorrect PlanArity SelectOutput.
From S2P Require Import PhysContext Materialization PhysicalOptimizer PostProcess PhysicalInvariant HandlersInv PlanInv.

(** Every column reference of a statement satisfies [P]. *)
Definition select_refs (P : Expr -> bool) (sel : SelectStatement) : bool :=
  from_option (all_refs P) true (whereClause sel) &&
  forallb (from_option (all_refs P) true) (default [] (selectList sel)) &&
  match groupBy sel with Some (Some l) => forallb (from_option (all_refs P) true) l | _ => true end &&
  forallb (fun it => all_refs P it.1) (sort_items (default [] (order sel))).

(** A name for the intermediate table that no column reference uses. *)
Definition fresh_name (itn : string) (sel : SelectStatement) : bool :=
  negb (is_empty itn) && select_refs (ref_ok (src_col itn) (collectAliases (fromTable sel) ∅)) sel.

Section shape.
Variable itn : string.
Hypothesis itn_named : itn <> "".
Variable al : gmap string string.

Abbreviation okc := (src_col itn).
Abbreviation refs := (all_refs (ref_ok okc al)).

Lemma okc_none c : table_name c = "" -> okc c = true.
Proof. intros H. apply src_col_spec. by rewrite H. Qed.

(** ** The input tree *)

Lemma input_shape n : WfPlan n -> Arity okc n -> phys_shape itn n = true.
Proof.
  induction n as [n IH] using LogicalPlanNode_child_ind. intros Hw Ha.
  pose proof (Arity_local _ _ Ha) as [Hc Hl]%andb_true_iff. pose proof (Arity_child okc n) as Hch.
  destruct Hw as [n Ht Hcs _|n c Ht Hcs Hwc|n l r Ht Hcs Hwl Hwr _|n cs T Ht _ Hcs Hne Hwf _];
    destruct n as [ty st bc ex pc ch]; simpl in Ht, Hcs; subst ty ch; cbn [phys_shape node_type children] in *.
  - apply andb_true_iff. by split.
  - apply andb_true_iff. split; [done|]. apply andb_true_iff in Hl as [Hl _]. apply andb_true_iff. split; [exact Hl|]. apply IH; [set_solver|done|by apply Hch; [|set_solver]].
  - apply andb_true_iff. split; [done|]. cbn [node_type base_columns] in Hl |- *. apply andb_true_iff in Hl as [Hl _]. rewrite Hl. apply andb_true_iff.
    split; (apply IH; [set_solver|done|by apply Hch; [|set_solver]]).
  - apply andb_true_iff. split; [done|]. cbn [node_type children] in Hl. rewrite length_map in Hl.
    destruct cs as [|c0 [|c1 cs]]; [done|done|]. apply forallb_Some. exists (c0 :: c1 :: cs). split; [done|].
    intros c Hc'. assert (Some c ∈ map Some (c0 :: c1 :: cs)) as Hin by by apply list_elem_of_fmap_2.
    apply IH; [exact Hin|by apply Hwf|by apply Hch].
Qed.

(** ** The SELECT list *)

Definition pattern_ok (p : AggPattern) : bool := okc (ap_col p) && okc (ap_leftCol p) && okc (ap_rightCol p).

Lemma matchAgg_ok e ap : from_option refs true e = true -> matchAgg e al = Some ap -> pattern_ok ap = true.
Proof.
  intros He. rewrite /matchAgg /pattern_ok. destruct e as [x|]; [|done]. simpl in He.
  pose proof (okc_none Column_default eq_refl) as Hd.
  destruct (isType kExprFunctionRef x); [|done]. destruct (e_name x); [|done]. destruct (agg_func_of_name _) as [p|]; [|done].
  destruct (e_exprList x) as [[|[arg|] l]|] eqn:Hl; try (intros [= <-]; simpl; by rewrite Hd).
  assert (refs arg = true) as Harg by (eapply all_refs_arg; [exact He|exact Hl|by left]).
  case_match; [intros [= <-]; simpl; by rewrite Hd|].
  assert (forall a b, two_columns arg = Some (a, b) -> refs a = true /\ refs b = true) as Htwo.
  { intros a b. rewrite /two_columns. destruct (isType _ arg); [|done]. destruct (e_expr arg) as [a'|] eqn:Ea; [|done].
    destruct (e_expr2 arg) as [b'|] eqn:Eb; [|done]. case_match; [|done]. intros [= <- <-].
    split; eapply all_refs_operand; [exact Harg|by left|exact Harg|by right]. }
  assert (okc (toColumnFromExpr (Some arg) al) = true) as Hcol by (apply (column_ok okc al okc_none); exact Harg).
  destruct (bool_decide (p = PAF.SUM)), (two_columns arg) as [[a b]|];
    try (case_match; [|done]; intros [= <-]; simpl; by rewrite Hcol Hd).
  destruct (Htwo a b eq_refl) as [Ha Hb].
  assert (forall e, refs e = true -> okc (toColumnFromExpr (Some e) al) = true) as Hx by (intros; by apply (column_ok okc al okc_none)).
  case_match; [intros [= <-]; simpl; by rewrite Hd !Hx|]. case_match; [intros [= <-]; simpl; by rewrite Hd !Hx|done].
Qed.

Record sa_ok (sa : SelectAnalysis) : Prop := {
  sa_proj : forallb okc (projections sa) = true;
  sa_aggs : forallb (fun a => pattern_ok (an_pattern a)) (aggregates sa) = true;
  sa_specs : forallb (spec_ok okc) (aggSpecs sa) = true;
}.

Lemma forallb_snoc {A} (f : A -> bool) l x : forallb f l = true -> f x = true -> forallb f (l ++ [x]) = true.
Proof. intros Hl Hx. by rewrite forallb_app Hl /= Hx. Qed.

Lemma analyze_item_shape sa e ctx sa' ctx' : sa_ok sa -> from_option refs true e = true ->
  analyze_item al sa e ctx = Ok (sa', ctx') -> sa_ok sa'.
Proof.
  intros [H1 H2 H3] He. rewrite /analyze_item. destruct (matchAgg e al) as [ap|] eqn:Hap.
  - pose proof (matchAgg_ok e ap He Hap) as Hp. intros (name & c1 & _ & [= <- _])%ST_bind_ok.
    split; simpl; [done|by apply forallb_snoc|]. apply forallb_snoc; [done|]. rewrite /spec_ok /=.
    rewrite /pattern_ok in Hp. destruct (ap_is_col ap); [|done]. by repeat apply andb_true_iff in Hp as [Hp _].
  - destruct e as [x|]; [|by intros [= <- _]]. case_match; [|by intros [= <- _]]. intros [= <- _].
    split; simpl; [|done|done]. apply forallb_snoc; [done|]. apply src_col_spec. rewrite /=.
    apply src_col_spec. by apply (column_ok okc al okc_none).
Qed.

Lemma analyze_items_shape l : forall sa ctx sa' ctx', sa_ok sa -> forallb (from_option refs true) l = true ->
  analyze_items al l sa ctx = Ok (sa', ctx') -> sa_ok sa'.
Proof.
  induction l as [|e l IH]; intros sa ctx sa' ctx' Hs; cbn [analyze_items forallb]; [by intros _ [= <- _]|].
  intros [He Hl]%andb_true_iff (sa1 & c1 & H1 & H)%ST_bind_ok. eapply IH; [by eapply analyze_item_shape|exact Hl|exact H].
Qed.

Lemma ensureDefault_shape sa : sa_ok sa -> sa_ok (ensureDefaultAggregate sa) /\ aggSpecs (ensureDefaultAggregate sa) <> [].
Proof.
  intros Hs. pose proof Hs as [H1 H2 H3]. rewrite /ensureDefaultAggregate. case_bool_decide as He; [|done].
  split; [|by destruct (aggSpecs sa)]. split; simpl; [done| |by apply forallb_snoc].
  apply forallb_snoc; [done|]. rewrite /pattern_ok /=. by rewrite (okc_none Column_default eq_refl).
Qed.

(** ** Output layers *)

Lemma group_columns_ok sel : match groupBy sel with Some (Some l) => forallb (from_option refs true) l | _ => true end = true ->
  forallb okc (collectGroupByColumns sel al) = true.
Proof.
  rewrite /collectGroupByColumns. destruct (groupBy sel) as [[l|]|]; [|done..]. intros Hl. apply forallb_forall.
  intros c (o & Ho & Hc)%list_elem_of_In%list_elem_of_omap. destruct o as [e|]; [|done]. case_match; [|done].
  injection Hc as <-. rewrite forallb_forall in Hl. apply list_elem_of_In, Hl in Ho. by apply (column_ok okc al okc_none).
Qed.

Lemma applyMapNodes_shape aggs : forall i inp specs n specs', forallb (fun a => pattern_ok (an_pattern a)) aggs = true ->
  phys_shape itn inp = true -> forallb (spec_ok okc) specs = true ->
  applyMapNodes_from aggs i inp specs = Ok (n, specs') ->
  phys_shape itn n = true /\ forallb (spec_ok okc) specs' = true /\ length specs' = length specs.
Proof.
  induction aggs as [|a aggs IH]; intros i inp specs n specs'; cbn [applyMapNodes_from forallb]; [by intros _ ? ? [= <- <-]|].
  intros [[[_ Hl]%andb_true_iff Hr]%andb_true_iff Haggs]%andb_true_iff Hi Hs. case_match; [|by apply IH].
  intros (s & Hat & H')%bind_ok. eapply IH in H' as (Hn & Hs' & Hlen); [|done| |].
  - split_and!; [done|done|]. by rewrite Hlen length_insert.
  - cbn [phys_shape map_node set_children set_base_columns set_expression new_node base_columns projected_columns expression node_type children
      agg_specs set_arith_op Expression_default forallb]. by rewrite Hl Hr Hi.
  - apply forallb_forall. intros sp Hsp%list_elem_of_In. apply list_elem_of_lookup in Hsp as [j Hj].
    rewrite list_lookup_insert_Some in Hj. destruct Hj as [(_ & <- & _)|[_ Hj]]; [done|].
    rewrite forallb_forall in Hs. apply Hs. apply list_elem_of_In. by eapply list_elem_of_lookup_2.
Qed.

Lemma agg_outputs_ok aggs : forallb okc (map agg_output aggs) = true.
Proof.
  apply forallb_forall. intros c (a & <- & _)%in_map_iff. by apply okc_none.
Qed.

(** The PROJECTION on top has a child, so a SORT may be put above it. *)
Lemma output_shape inp gb sa b root sa' : phys_shape itn inp = true -> forallb okc gb = true -> sa_ok sa ->
  (b = true -> aggSpecs sa <> []) -> buildSelectOutputTree inp gb sa b = Ok (root, sa') ->
  phys_shape itn root = true /\ exists c, children root = [Some c].
Proof.
  intros Hi Hg [H1 H2 H3] Hb. rewrite /buildSelectOutputTree. destruct b; simpl negb; cbv iota.
  - intros ([n sa1] & Hm & [= <- _])%bind_ok. rewrite /applyMapNodes in Hm. apply bind_ok in Hm as ([n' sp] & Hm & [= <- <-]).
    apply applyMapNodes_shape in Hm as (Hn & Hs & Hlen); [|done..]. split; [|by eexists].
    cbn [phys_shape set_children set_projected_columns set_base_columns set_expression new_node base_columns projected_columns expression
      node_type children agg_specs set_agg_specs Expression_default forallb projections aggregates aggSpecs].
    rewrite forallb_app H1 agg_outputs_ok Hg Hn. change (spec_src itn) with (spec_ok okc). rewrite Hs.
    rewrite (bool_decide_false (sp = [])); [by rewrite orb_true_r|]. intros ->. by destruct (aggSpecs sa); [destruct (Hb eq_refl)|].
  - intros [= <- _]. split; [|by eexists].
    cbn [phys_shape set_children set_projected_columns new_node base_columns projected_columns expression node_type children agg_specs
      Expression_default forallb]. by rewrite H1 Hi.
Qed.

Lemma sort_column_shape aggs e ctx c ctx' : refs e = true -> sort_column aggs al e ctx = Ok (c, ctx') -> okc c = true.
Proof.
  intros He. rewrite /sort_column. case_match; [intros [= <- _]; by apply (column_ok okc al okc_none)|].
  case_match; [|done]. destruct (matchAgg (Some e) al); [|done].
  intros (name & c1 & _ & [= <- _])%ST_bind_ok. by apply okc_none.
Qed.

Lemma sort_columns_shape aggs items : forall ctx cs ctx', forallb (fun it => refs it.1) items = true ->
  mapM (fun it : Expr * bool => sort_column aggs al it.1) items ctx = Ok (cs, ctx') -> forallb okc cs = true.
Proof.
  induction items as [|it items IH]; intros ctx cs ctx'; cbn [mapM forallb]; [by intros _ [= <- _]|].
  intros [Hi Hs]%andb_true_iff (c & c1 & Hc & (cs' & c2 & Hcs & [= <- _])%ST_bind_ok)%ST_bind_ok. simpl.
  by rewrite (sort_column_shape _ _ _ _ _ Hi Hc) (IH _ _ _ Hs Hcs).
Qed.

Lemma sort_shape root sel aggs ctx n ctx' : phys_shape itn root = true -> (exists c, children root = [Some c]) ->
  forallb (fun it => refs it.1) (sort_items (default [] (order sel))) = true ->
  applySortNode root sel aggs al ctx = Ok (n, ctx') -> phys_shape itn n = true.
Proof.
  intros Hr [c Hc] Hs. rewrite /applySortNode. destruct (order sel) as [[|o l]|]; [by intros [= <- _]| |by intros [= <- _]].
  cbn [default from_option id] in Hs. intros (cs & c1 & Hcs & H)%ST_bind_ok. apply sort_columns_shape in Hcs; [|done].
  case_match; injection H as <- _; [|done].
  cbn [phys_shape set_children set_base_columns set_expression new_node base_columns projected_columns expression node_type children
    agg_specs set_sort_order Expression_default forallb]. by rewrite Hcs Hr Hc.
Qed.

(** LIMIT and OFFSET change nothing the shape looks at. *)
Lemma set_expression_shape e n : agg_specs e = agg_specs (expression n) -> phys_shape itn (set_expression e n) = phys_shape itn n.
Proof. destruct n as [ty st bc ex pc ch]. simpl. by intros ->. Qed.

Lemma limit_shape root sel n : phys_shape itn root = true -> applyLimitOffset root sel = Ok n -> phys_shape itn n = true.
Proof.
  intros Hr. rewrite /applyLimitOffset. destruct (limit sel) as [l|]; [|by intros [= <-]]. intros (r & Hl & Ho)%bind_ok.
  assert (phys_shape itn r = true) as Hr'.
  { destruct (l_limit l); [|by injection Hl as <-]. apply bind_ok in Hl as (z & _ & [= <-]). by rewrite set_expression_shape. }
  destruct (l_offset l); [|by injection Ho as <-]. apply bind_ok in Ho as (z & _ & [= <-]). by rewrite set_expression_shape.
Qed.

End shape.

(** ** The whole statement *)

Lemma supported_shape iter itn sel jo m g ctx root ctx' : (forall m, iter m ≡ₚ map_to_list m) ->
  supported iter sel jo m g -> fresh_name itn sel = true -> buildPlanForSelect iter sel jo ctx = Ok (root, ctx') ->
  phys_shape itn root = true.
Proof.
  intros Hiter [Hm Hne Hw Hg Hk Hc Hjo _ _] [Hitn%negb_true_iff Hf]%andb_true_iff. apply is_empty_false in Hitn.
  set (al := collectAliases (fromTable sel) ∅) in *.
  repeat apply andb_true_iff in Hf as [Hf ?].
  pose proof (buildScanMap_scans _ _ Hm) as Hscans.
  assert (forall p, p ∈ joinPreds g -> join_pred (dom m) p = true) as Hjp.
  { intros p Hp. rewrite forallb_forall in Hk. apply Hk. by apply list_elem_of_In. }
  destruct (buildSelectInputTree_ok iter Hiter m (joinPreds g) jo Hne Hscans Hjp Hc Hjo) as (n & Hn & [Hwf _ _]).
  destruct (applySelectionPredicates_ok (selectionPreds g) n Hwf) as [Hwf' _ _]; [by eapply selection_preds_wf|].
  pose proof (select_input_arity (src_col itn) iter Hiter al (whereClause sel) m g jo n (okc_none itn Hitn) Hscans Hf Hg Hn) as Har.
  assert (phys_shape itn (applySelectionPredicates n (selectionPreds g)) = true) as Hin by by apply input_shape. set (inp := applySelectionPredicates n (selectionPreds g)) in *.
  rewrite /buildPlanForSelect /mbind /ST_bind /modify /get /lift /=. rewrite Hm -/al Hg Hn -/inp.
  rewrite /analyzeSelectClause. set (sa0 := mkSA false [] [] []).
  destruct (analyze_items al (default [] (selectList sel)) sa0 _) as [[sa c1]|] eqn:Hsa; [|done].
  assert (sa_ok itn sa) as Hok by by eapply (analyze_items_shape itn Hitn al); [| |exact Hsa].
  set (gb := collectGroupByColumns sel al). set (b := hasAgg sa || _).
  assert (sa_ok itn (if b then ensureDefaultAggregate sa else sa) /\
    (b = true -> aggSpecs (if b then ensureDefaultAggregate sa else sa) <> [])) as [Hok' Hspecs].
  { destruct (ensureDefault_shape itn Hitn sa Hok). by destruct b. }
  destruct (buildSelectOutputTree inp gb _ b) as [[r sa']|] eqn:Hout; [|done].
  apply (output_shape itn Hitn) in Hout as [Hr Hrc]; [|done|by apply (group_columns_ok itn Hitn)|done|done].
  destruct (applySortNode r sel _ al c1) as [[r2 c2]|] eqn:Hsort; [|done].
  apply (sort_shape itn Hitn) in Hsort; [|done|done|done].
  destruct (applyLimitOffset r2 sel) as [r3|] eqn:Hlim; [|done]. intros [= <- _]. by eapply limit_shape.
Qed.
