(* ===== verification/PostProcessInv.v ===== *)
(** * Post-processing keeps the plan closed under data flow

    [collectReferencedColumns] finds exactly the columns consumed by the nodes
    reachable from the root; [optimizeJoinOutputs] therefore never drops a
    join output that some node of the plan still reads. *)

From S2P Require Import Prelude PlanTypes PhysContext Materialization PhysicalOptimizer.
From S2P Require Import PostProcess PhysicalInvariant.

(** ** Reachability in the store *)

Definition edge (h : list PhysicalPlanNode) (a b : paddr) : Prop :=
  exists n, h !! a = Some n /\ Some b ∈ p_children n.

Definition reach (h : list PhysicalPlanNode) : paddr -> paddr -> Prop := rtc (edge h).

(** Children exist and have smaller addresses. *)
Definition acyclic (h : list PhysicalPlanNode) : Prop :=
  forall a n b, h !! a = Some n -> Some b ∈ p_children n -> b < a.

(** Acyclicity of a given store, by evaluation. *)
Definition acyclicb (h : list PhysicalPlanNode) : bool :=
  forallb (fun '(a, n) => forallb (fun o => match o with Some c => c <? a | None => true end) (p_children n))
    (zip (seq 0 (length h)) h).

Lemma acyclicb_acyclic h : acyclicb h = true -> acyclic h.
Proof.
  rewrite /acyclicb forallb_forall. intros H a n c Hn Hc.
  assert ((a, n) ∈ zip (seq 0 (length h)) h) as Hin.
  { apply list_elem_of_lookup. exists a. rewrite lookup_zip_with Hn lookup_seq_lt //. by eapply lookup_lt_Some. }
  apply list_elem_of_In, H in Hin. rewrite forallb_forall in Hin.
  apply list_elem_of_In, Hin, Nat.ltb_lt in Hc. done.
Qed.

Lemma heap_ok_acyclic itn h : heap_ok itn h -> acyclic h.
Proof.
  intros Hh a n b Hn Hb. destruct (Hh a n Hn) as (_ & _ & Hs). specialize (Hs _ Hb b eq_refl).
  rewrite length_take in Hs. lia.
Qed.

Section visit.
Variable h : list PhysicalPlanNode.

(** A walk that started at [rs] with the nodes [V] already visited has
    visited [V']: only nodes reachable from [rs], and with every new node all
    its children. *)
Record visit (rs V V' : gset nat) : Prop := {
  vis_mono : V ⊆ V';
  vis_roots : rs ⊆ V';
  vis_reach : forall b, b ∈ V' -> b ∉ V -> exists a, a ∈ rs /\ reach h a b;
  vis_closed : forall b n c, b ∈ V' -> b ∉ V -> h !! b = Some n -> Some c ∈ p_children n -> c ∈ V';
}.

Lemma visit_nil V : visit ∅ V V.
Proof. split; [done|set_solver|set_solver|set_solver]. Qed.

Lemma visit_known a V : a ∈ V -> visit {[a]} V V.
Proof. intros Ha. split; [done|set_solver|set_solver|set_solver]. Qed.

Lemma visit_trans r1 r2 V V1 V2 : visit r1 V V1 -> visit r2 V1 V2 -> visit (r1 ∪ r2) V V2.
Proof.
  intros [M1 R1 C1 D1] [M2 R2 C2 D2]. split.
  - set_solver.
  - set_solver.
  - intros b Hb Hn. destruct (decide (b ∈ V1)) as [Hb1|Hb1].
    + destruct (C1 b Hb1 Hn) as (a & ? & ?). exists a. split; [set_solver|done].
    + destruct (C2 b Hb Hb1) as (a & ? & ?). exists a. split; [set_solver|done].
  - intros b n c Hb Hn Hbn Hc. destruct (decide (b ∈ V1)) as [Hb1|Hb1]; [|by eapply D2].
    apply M2. by eapply D1.
Qed.

Definition child_set (n : PhysicalPlanNode) : gset nat := list_to_set (omap id (p_children n)).

Lemma elem_of_child_set n b : b ∈ child_set n <-> Some b ∈ p_children n.
Proof.
  rewrite /child_set elem_of_list_to_set list_elem_of_omap. unfold id. split; [by intros (? & ? & ->)|eauto].
Qed.

Lemma visit_node a n V V' : a ∉ V -> h !! a = Some n -> visit (child_set n) ({[a]} ∪ V) V' -> visit {[a]} V V'.
Proof.
  intros Ha Hn [M R C D]. split.
  - set_solver.
  - set_solver.
  - intros b Hb Hbn. exists a. split; [set_solver|]. destruct (decide (b = a)) as [->|Hne]; [apply rtc_refl|].
    destruct (C b Hb) as (c & Hc & Hr); [set_solver|]. apply elem_of_child_set in Hc.
    eapply rtc_l; [|exact Hr]. by exists n.
  - intros b m c Hb Hbn Hm Hc. destruct (decide (b = a)) as [->|Hne].
    + assert (m = n) as -> by congruence. apply R. by apply elem_of_child_set.
    + eapply D; [exact Hb| |done|done]. set_solver.
Qed.

(** A complete walk visits exactly the reachable nodes. *)
Lemma visit_all a V' : visit {[a]} ∅ V' -> forall b, b ∈ V' <-> reach h a b.
Proof.
  intros [M R C D] b. split.
  - intros Hb. destruct (C b Hb) as (a' & Ha & Hr); [set_solver|]. apply elem_of_singleton in Ha as ->. done.
  - intros Hr. assert (a ∈ V') as Ha by set_solver. clear R C. induction Hr as [|x y z (n & Hn & Hy) _ IH]; [done|].
    apply IH. eapply D; [exact Ha|set_solver|done|done].
Qed.

(** Walking over a list of children, one call after the other.  [Q] is what a
    call does to the rest of the state, [st]. *)
Lemma visit_fold {S} (f : gset nat * S -> option paddr -> result (gset nat * S))
    (Q : gset nat -> gset nat -> S -> S -> Prop) (ok : S -> Prop) (E : err -> Prop)
    (l : list (option paddr)) :
  (forall V s, Q V V s s) ->
  (forall V V1 V2 s s1 s2, V ⊆ V1 -> V1 ⊆ V2 -> Q V V1 s s1 -> Q V1 V2 s1 s2 -> Q V V2 s s2) ->
  (forall o V s, o ∈ l -> ok s -> match f (V, s) o with
     | Ok (V', s') => visit (list_to_set (option_list o)) V V' /\ Q V V' s s' /\ ok s'
     | Err e => E e end) ->
  forall V s, ok s -> match foldR f l (V, s) with
     | Ok (V', s') => visit (list_to_set (omap id l)) V V' /\ Q V V' s s' /\ ok s'
     | Err e => E e end.
Proof.
  intros Qr Qt. induction l as [|o l IH]; intros Hf V s Hok; cbn [foldR].
  - split_and!; [apply visit_nil|apply Qr|done].
  - pose proof (Hf o V s ltac:(set_solver) Hok) as H1. destruct (f (V, s) o) as [[V1 s1]|e]; [|done]. simpl.
    destruct H1 as (Hv1 & HQ1 & Hok1).
    assert (forall o V s, o ∈ l -> ok s -> match f (V, s) o with
     | Ok (V', s') => visit (list_to_set (option_list o)) V V' /\ Q V V' s s' /\ ok s'
     | Err e => E e end) as Hf' by (intros; apply Hf; [set_solver|done]).
    pose proof (IH Hf' V1 s1 Hok1) as H2. destruct (foldR f l (V1, s1)) as [[V2 s2]|e]; [|done].
    destruct H2 as (Hv2 & HQ2 & Hok2). split_and!; [|eapply Qt; [apply Hv1|apply Hv2|done|done]|done].
    destruct o as [a|]; simpl in *.
    + pose proof (visit_trans _ _ _ _ _ Hv1 Hv2) as H. by rewrite right_id_L in H.
    + pose proof (visit_trans _ _ _ _ _ Hv1 Hv2) as H. by rewrite left_id_L in H.
Qed.
End visit.

(** ** Referenced columns *)

Definition named_col (c : Column) : bool := negb (is_empty (table_name c)) || negb (is_empty (column_name c)).

Lemma fold_addCol l : forall R k, k ∈ fold_left addCol l R <->
  k ∈ R \/ exists c, c ∈ l /\ named_col c = true /\ col_key c = k.
Proof.
  induction l as [|c l IH]; intros R k; simpl.
  - split; [auto|]. intros [?|(c & Hc & _)]; [done|by apply not_elem_of_nil in Hc].
  - rewrite IH /addCol -/(named_col c). setoid_rewrite elem_of_cons.
    destruct (named_col c) eqn:Hc; rewrite ?elem_of_union ?elem_of_singleton; split.
    + intros [[->|?]|(c' & ? & ?)]; [right; exists c; auto|by left|right; exists c'; auto].
    + intros [?|(c' & [->|?] & ? & ?)]; [auto|auto|right; exists c'; auto].
    + intros [?|(c' & ? & ?)]; [by left|right; exists c'; auto].
    + intros [?|(c' & [->|?] & ? & ?)]; [auto|congruence|right; exists c'; auto].
Qed.

Section collect.
Variable h : list PhysicalPlanNode.
Hypothesis Hac : acyclic h.

(** Keys of the columns consumed by the nodes of [V' \ V]. *)
Definition adds (V V' : gset nat) (R R' : gset string) : Prop :=
  forall k, k ∈ R' <-> k ∈ R \/ exists b n c, b ∈ V' /\ b ∉ V /\ h !! b = Some n /\
    c ∈ consumed n /\ named_col c = true /\ col_key c = k.

Lemma adds_refl V R : adds V V R R.
Proof. intros k. split; [auto|]. intros [?|(b & n & c & ? & ? & _)]; done. Qed.

Lemma adds_trans V V1 V2 R R1 R2 : V ⊆ V1 -> V1 ⊆ V2 -> adds V V1 R R1 -> adds V1 V2 R1 R2 -> adds V V2 R R2.
Proof.
  intros S1 S2 H1 H2 k. rewrite (H2 k) (H1 k). split.
  - intros [[?|(b & n & c & ? & ? & ?)]|(b & n & c & ? & ? & ?)]; [by left| |]; right; exists b, n, c; set_solver.
  - intros [?|(b & n & c & Hb & Hn & Hrest)]; [by left; left|].
    destruct (decide (b ∈ V1)); [left; right|right]; exists b, n, c; auto.
Qed.

Lemma collect_fuel_ok fuel : forall a V R, a < fuel -> a < length h ->
  match collect_fuel fuel h (Some a) (V, R) with
  | Ok (V', R') => visit h {[a]} V V' /\ adds V V' R R' /\ True
  | Err _ => False
  end.
Proof.
  induction fuel as [|fuel IH]; intros a V R Hf Ha; [lia|]. cbn [collect_fuel fst snd].
  case_bool_decide as Hin; [split_and!; [by apply visit_known|apply adds_refl|done]|].
  destruct (lookup_lt_is_Some_2 h a Ha) as [n Hn]. rewrite /store_node Hn /=.
  pose proof (visit_fold h (fun st c => collect_fuel fuel h c st) adds (fun _ => True) (fun _ => False)
    (p_children n) adds_refl adds_trans) as Hfold.
  assert (forall o V R, o ∈ p_children n -> True -> match collect_fuel fuel h o (V, R) with
    | Ok (V', R') => visit h (list_to_set (option_list o)) V V' /\ adds V V' R R' /\ True
    | Err _ => False end) as Hcall.
  { intros [b|] V2 R2 Hb _; cbn [option_list list_to_set].
    - pose proof (Hac a n b Hn Hb) as Hlt. specialize (IH b V2 R2 ltac:(lia) ltac:(lia)).
      replace (list_to_set (option_list (Some b))) with ({[b]} : gset nat) by (simpl; set_solver).
      exact IH.
    - destruct fuel; simpl; split_and!; try done; try apply visit_nil; apply adds_refl. }
  specialize (Hfold Hcall ({[a]} ∪ V) (fold_left addCol (consumed n) R) I).
  destruct (foldR _ _ _) as [[V' R']|]; [|done]. destruct Hfold as (Hv & HA & _).
  split_and!; [by eapply visit_node| |done]. eapply (adds_trans V ({[a]} ∪ V)); [set_solver|apply Hv| |exact HA].
  intros k. rewrite fold_addCol. split.
  - intros [?|(c & Hc & Hnm & Hk)]; [by left|right]. exists a, n, c. set_solver.
  - intros [?|(b & m & c & Hb & Hnb & Hm & Hc & Hnm & Hk)]; [by left|right].
    assert (b = a) as -> by set_solver. assert (m = n) as -> by congruence. by exists c.
Qed.

(** Exactly the columns read by reachable nodes. *)
Lemma collectReferencedColumns_ok root : root < length h ->
  exists R, collectReferencedColumns h root = Ok R /\
    forall k, k ∈ R <-> exists b n c, reach h root b /\ h !! b = Some n /\
      c ∈ consumed n /\ named_col c = true /\ col_key c = k.
Proof.
  intros Hr. pose proof (collect_fuel_ok (S (length h)) root ∅ ∅ ltac:(lia) Hr) as H.
  rewrite /collectReferencedColumns. destruct (collect_fuel _ _ _ _) as [[V' R']|]; [|done].
  destruct H as (Hv & HA & _). exists R'. split; [done|]. intros k. rewrite (HA k).
  pose proof (visit_all h root V' Hv) as Hall. split.
  - intros [?|(b & n & c & Hb & _ & Hrest)]; [set_solver|]. exists b, n, c. split; [by apply Hall|done].
  - intros (b & n & c & Hb & Hrest). right. exists b, n, c. split; [by apply Hall|]. split; [set_solver|done].
Qed.
End collect.

(** ** Trimming join outputs *)

(** What trimming leaves of a node: everything but the unused output of a
    HASHJOIN. *)
Record trimmed (refs : gset string) (n n' : PhysicalPlanNode) : Prop := {
  trim_same : exists cols, trim_outputs refs n = Ok cols /\ n' = set_result_columns cols n;
  trim_sub : forall c, c ∈ p_result_columns n' -> c ∈ p_result_columns n;
  trim_keep : forall c, c ∈ p_result_columns n -> col_key c ∈ refs -> c ∈ p_result_columns n';
  trim_other : p_node_type n <> PNT.HASHJOIN -> n' = n;
}.

Lemma set_result_columns_id n : set_result_columns (p_result_columns n) n = n.
Proof. by destruct n. Qed.

Lemma trim_outputs_cases refs n :
  (p_node_type n <> PNT.HASHJOIN /\ trim_outputs refs n = Ok (p_result_columns n)) \/
  match trim_outputs refs n with
  | Ok cols => (forall c, c ∈ cols -> c ∈ p_result_columns n) /\
      (forall c, c ∈ p_result_columns n -> col_key c ∈ refs -> c ∈ cols)
  | Err e => exists msg, e = Throw msg
  end.
Proof.
  rewrite /trim_outputs. case_bool_decide as Hty; simpl; [right|by left].
  destruct (p_result_columns n) as [|i [|o [|x cs]]]; try done.
  repeat case_bool_decide; simpl; try (by eexists); set_solver.
Qed.

Lemma trim_outputs_ok refs n : match trim_outputs refs n with
  | Ok cols => trimmed refs n (set_result_columns cols n)
  | Err e => exists msg, e = Throw msg
  end.
Proof.
  destruct (trim_outputs_cases refs n) as [[Hty ->]|H].
  - rewrite set_result_columns_id. split; auto. exists (p_result_columns n).
    rewrite set_result_columns_id /trim_outputs bool_decide_eq_false_2 //.
  - destruct (trim_outputs refs n) as [cols|e] eqn:Ht; [|done]. destruct H as [H1 H2].
    split; [by exists cols|done|done|].
    intros Hty. rewrite /trim_outputs bool_decide_eq_false_2 // in Ht. injection Ht as <-.
    apply set_result_columns_id.
Qed.

(** Trimming twice changes nothing more. *)
Lemma trim_outputs_idem refs n cols : trim_outputs refs n = Ok cols ->
  trim_outputs refs (set_result_columns cols n) = Ok cols.
Proof.
  rewrite /trim_outputs /=. case_bool_decide; simpl; [|done].
  destruct (p_result_columns n) as [|i [|o [|x cs]]] eqn:Hr; simpl; try (by intros [= <-]).
  destruct (bool_decide (col_key i ∈ refs)) eqn:Hi, (bool_decide (col_key o ∈ refs)) eqn:Ho; simpl;
    try done; intros [= <-]; [|done|done]. by rewrite Hi Ho.
Qed.

Section optimize.
Variables (h : list PhysicalPlanNode) (refs : gset string).
Hypothesis Hac : acyclic h.

(** The store after trimming the nodes of [V' \ V]. *)
Definition trims (V V' : gset nat) (h1 h2 : list PhysicalPlanNode) : Prop :=
  forall b, (b ∈ V' /\ b ∉ V -> exists n n', h1 !! b = Some n /\ h2 !! b = Some n' /\ trimmed refs n n') /\
    (~ (b ∈ V' /\ b ∉ V) -> h2 !! b = h1 !! b).

(** A node of the store is the original one, or that one trimmed. *)
Definition orig_or_trimmed (n m : PhysicalPlanNode) : Prop :=
  m = n \/ exists cols, trim_outputs refs n = Ok cols /\ m = set_result_columns cols n.

Definition same_shape (h1 : list PhysicalPlanNode) : Prop :=
  length h1 = length h /\
  forall b n, h !! b = Some n -> exists m, h1 !! b = Some m /\ orig_or_trimmed n m.

(** A reachable join neither of whose outputs is read. *)
Definition starved (a : paddr) (e : err) : Prop :=
  exists b n, reach h a b /\ h !! b = Some n /\ trim_outputs refs n = Err e.

Lemma orig_or_trimmed_children n m : orig_or_trimmed n m -> p_children m = p_children n.
Proof. by intros [-> | (cols & _ & ->)]. Qed.

Lemma orig_or_trimmed_trim n m : orig_or_trimmed n m ->
  match trim_outputs refs m with
  | Ok cols => orig_or_trimmed n (set_result_columns cols m)
  | Err e => trim_outputs refs n = Err e
  end.
Proof.
  intros [-> | (cols & Hc & ->)].
  - destruct (trim_outputs refs n) eqn:Ht; [right; eauto|done].
  - rewrite (trim_outputs_idem _ _ _ Hc). right. exists cols. done.
Qed.

Lemma trims_refl V h1 : trims V V h1 h1.
Proof. intros b. split; [tauto|done]. Qed.

Lemma trims_trans V V1 V2 h1 h2 h3 : V ⊆ V1 -> V1 ⊆ V2 -> trims V V1 h1 h2 -> trims V1 V2 h2 h3 -> trims V V2 h1 h3.
Proof.
  intros S1 S2 H1 H2 b. destruct (H1 b) as [A1 B1], (H2 b) as [A2 B2]. split.
  - intros [Hb Hn]. destruct (decide (b ∈ V1)) as [Hv|Hv].
    + destruct (A1 (conj Hv Hn)) as (n & n' & ? & ? & ?). exists n, n'. rewrite B2; [done|tauto].
    + destruct (A2 (conj Hb Hv)) as (n & n' & Hh & ? & ?). exists n, n'. rewrite B1 in Hh; [done|tauto].
  - intros Hnb. rewrite B2; [apply B1|]; set_solver.
Qed.

Lemma same_shape_lookup h1 b n : same_shape h1 -> h !! b = Some n ->
  exists m, h1 !! b = Some m /\ p_children m = p_children n.
Proof. intros [_ H] Hn. destruct (H b n Hn) as (m & Hm & Ho). exists m. split; [done|by apply orig_or_trimmed_children]. Qed.

Lemma optimize_fuel_ok fuel : forall a V h1, a < fuel -> a < length h -> same_shape h1 ->
  match optimize_fuel fuel refs (Some a) (V, h1) with
  | Ok (V', h2) => visit h {[a]} V V' /\ trims V V' h1 h2 /\ same_shape h2
  | Err e => starved a e
  end.
Proof.
  induction fuel as [|fuel IH]; intros a V h1 Hf Ha Hs; [lia|]. cbn [optimize_fuel fst snd].
  case_bool_decide as Hin; [split_and!; [by apply visit_known|apply trims_refl|exact Hs]|].
  destruct (lookup_lt_is_Some_2 h a Ha) as [n Hn].
  destruct (same_shape_lookup h1 a n Hs Hn) as (m & Hm & Hch). rewrite /store_node Hm /= Hch.
  pose proof (visit_fold h (fun st c => optimize_fuel fuel refs c st) trims same_shape
    (starved a) (p_children n) trims_refl trims_trans) as Hfold.
  assert (forall o V h1, o ∈ p_children n -> same_shape h1 -> match optimize_fuel fuel refs o (V, h1) with
    | Ok (V', h2) => visit h (list_to_set (option_list o)) V V' /\ trims V V' h1 h2 /\ same_shape h2
    | Err e => starved a e end) as Hcall.
  { intros [b|] V2 h2 Hb Hs2; cbn [option_list list_to_set].
    - pose proof (Hac a n b Hn Hb) as Hlt. specialize (IH b V2 h2 ltac:(lia) ltac:(lia) Hs2).
      replace (list_to_set (option_list (Some b))) with ({[b]} : gset nat) by (simpl; set_solver).
      destruct (optimize_fuel fuel refs (Some b) (V2, h2)) as [[? ?]|e]; [exact IH|].
      destruct IH as (b' & k & Hrb & Hk). exists b', k. split; [|done].
      eapply rtc_l; [|exact Hrb]. by exists n.
    - destruct fuel; simpl; split_and!; try done; try apply visit_nil; try apply trims_refl; apply Hs2. }
  specialize (Hfold Hcall ({[a]} ∪ V) h1 Hs).
  destruct (foldR _ _ _) as [[V' h2]|e]; [|done]. destruct Hfold as (Hv & HT & Hs2). simpl.
  pose proof (visit_node h a n V V' Hin Hn Hv) as Hv'.
  assert (h2 !! a = Some m) as Ha2.
  { destruct (HT a) as [_ HB]. rewrite HB //. rewrite elem_of_union elem_of_singleton. tauto. }
  rewrite Ha2 /=. pose proof (trim_outputs_ok refs m) as Htrim.
  assert (orig_or_trimmed n m) as Hnm.
  { destruct Hs as [_ Hs]. destruct (Hs a n Hn) as (m' & Hm' & ?). by simplify_eq. }
  apply orig_or_trimmed_trim in Hnm.
  destruct (trim_outputs refs m) as [cols|e]; [|by exists a, n; split; [apply rtc_refl|]]. simpl.
  split_and!; [done| |].
  - assert (a ∈ V') as HaV by (apply (vis_roots _ _ _ _ Hv'); by apply elem_of_singleton).
    intros b. destruct (HT b) as [HA HB]. destruct (decide (b = a)) as [->|Hne].
    + split; [|by intros Hno; exfalso; apply Hno]. intros _. exists m, (set_result_columns cols m). split_and!; [done| |done].
      apply list_lookup_insert_eq. by eapply lookup_lt_Some.
    + assert (b ∈ {[a]} ∪ V <-> b ∈ V) as Hiff by (rewrite elem_of_union elem_of_singleton; tauto).
      rewrite list_lookup_insert_ne //. split; [intros [? ?]; apply HA|intros Hno; apply HB]; by rewrite Hiff.
  - destruct Hs2 as [Hl2 Hs2]. split; [by rewrite length_insert|]. intros b k Hk.
    destruct (decide (b = a)) as [->|Hne].
    + assert (k = n) as -> by congruence. eexists. split; [|exact Hnm].
      rewrite list_lookup_insert_eq //. by eapply lookup_lt_Some.
    + rewrite list_lookup_insert_ne //. by apply Hs2.
Qed.

(** The reachable nodes are trimmed, the others untouched; the pass fails
    only because of a starved join. *)
Lemma optimizeJoinOutputs_ok root : root < length h ->
  match optimizeJoinOutputs h root refs with
  | Ok h' => same_shape h' /\
      (forall b n', reach h root b -> h' !! b = Some n' -> exists n, h !! b = Some n /\ trimmed refs n n') /\
      (forall b, ~ reach h root b -> h' !! b = h !! b)
  | Err e => starved root e
  end.
Proof.
  intros Hr. assert (same_shape h) as Hs.
  { split; [done|]. intros b n Hn. exists n. split; [done|by left]. }
  pose proof (optimize_fuel_ok (S (length h)) root ∅ h ltac:(lia) Hr Hs) as H.
  rewrite /optimizeJoinOutputs. destruct (optimize_fuel _ _ _ _) as [[V' h']|e]; [|done].
  destruct H as (Hv & HT & Hl). pose proof (visit_all h root V' Hv) as Hall. simpl. split_and!; [done| |].
  - intros b n' Hb Hn'. destruct (HT b) as [HA _]. destruct HA as (n & n2 & ? & ? & ?); [split; [by apply Hall|set_solver]|].
    exists n. split; [done|]. by simplify_eq.
  - intros b Hb. destruct (HT b) as [_ HB]. apply HB. intros [Hin _]. by apply Hb, Hall.
Qed.

Lemma reach_in_store root b : root < length h -> reach h root b -> exists n, h !! b = Some n.
Proof.
  intros Hr Hb. assert (b <= root) as Hle.
  { clear Hr. induction Hb as [|x y z (n & Hn & Hy) _ IH]; [done|]. pose proof (Hac x n y Hn Hy). lia. }
  apply lookup_lt_is_Some_2. lia.
Qed.

Lemma optimizeJoinOutputs_Ok_iff root : root < length h ->
  (exists h', optimizeJoinOutputs h root refs = Ok h') <-> forall e, ~ starved root e.
Proof.
  intros Hr. pose proof (optimizeJoinOutputs_ok root Hr) as H.
  destruct (optimizeJoinOutputs h root refs) as [h'|e].
  - split; [|by exists h']. intros _ e (b & n & Hb & Hn & He). destruct H as ([_ Hs] & Ht & _).
    destruct (Hs b n Hn) as (m & Hm & _). destruct (Ht b m Hb Hm) as (n2 & Hn2 & Htr).
    assert (n2 = n) as -> by congruence. destruct (trim_same _ _ _ Htr) as (cols & ? & _). congruence.
  - split; [by intros [? ?]|]. intros Hno. by apply Hno in H.
Qed.
End optimize.

(** ** Closed plans *)

(** Every intermediate column read by a node of the plan is an output of one
    of the node's children, and the plan has no cycles. *)
Definition closed_plan (itn : string) (h : list PhysicalPlanNode) (root : paddr) : Prop :=
  acyclic h /\
  forall a n c, reach h root a -> h !! a = Some n -> c ∈ consumed n -> table_name c = itn ->
    exists b m, Some b ∈ p_children n /\ h !! b = Some m /\ col_key c ∈ outs m.

Lemma heap_ok_closed itn h root : heap_ok itn h -> closed_plan itn h root.
Proof.
  intros Hh. split; [by eapply heap_ok_acyclic|]. intros a n c _ Hn Hc Ht.
  destruct (Hh a n Hn) as (H1 & _ & _). destruct (H1 c Hc) as [?|(o & Ho & b & m & -> & Hm & Hk)]; [done|].
  exists b, m. split_and!; [done| |done]. by apply lookup_take_Some in Hm as [? _].
Qed.

(** Trimming by the referenced columns keeps what is read. *)
Lemma trimmed_outs refs n n' k : trimmed refs n n' -> k ∈ outs n -> k ∈ refs -> k ∈ outs n'.
Proof.
  intros [_ _ Hk Ho] Hin Href. destruct (decide (p_node_type n = PNT.HASHJOIN)) as [Hty|Hty];
    [|by rewrite Ho].
  rewrite /outs Hty /= in Hin. apply list_elem_of_In, in_flat_map in Hin as (c & Hc & [<-|[]]).
  apply outs_result, Hk; [by apply list_elem_of_In|done].
Qed.

Lemma reach_child h a b n c : reach h a b -> h !! b = Some n -> Some c ∈ p_children n -> reach h a c.
Proof. intros Hr Hn Hc. eapply rtc_r; [exact Hr|]. by exists n. Qed.

(** The whole post-processing step. *)
Lemma postprocess_closed itn h root : itn <> "" -> heap_ok itn h -> root < length h ->
  match (R ← collectReferencedColumns h root; optimizeJoinOutputs h root R) with
  | Ok h' => root < length h' /\ closed_plan itn h' root
  | Err e => exists msg, e = Throw msg
  end.
Proof.
  intros Hitn Hh Hr. pose proof (heap_ok_acyclic _ _ Hh) as Hac.
  destruct (collectReferencedColumns_ok h Hac root Hr) as (R & -> & HR). simpl.
  pose proof (optimizeJoinOutputs_ok h R Hac root Hr) as Ho.
  destruct (optimizeJoinOutputs h root R) as [h'|e].
  2:{ destruct Ho as (b & n & _ & _ & He). pose proof (trim_outputs_ok R n) as Ht. by rewrite He in Ht. }
  destruct Ho as ([Hl Hs] & Ht & _). split; [lia|].
  assert (forall a n', h' !! a = Some n' -> exists n, h !! a = Some n /\ p_children n' = p_children n) as Hch.
  { intros a n' Hn'. destruct (lookup_lt_is_Some_2 h a) as [n Hn]; [rewrite -Hl; by eapply lookup_lt_Some|].
    exists n. split; [done|]. destruct (Hs a n Hn) as (m & Hm & Ho). simplify_eq. by eapply orig_or_trimmed_children. }
  assert (forall a, reach h' root a -> reach h root a) as Hreach.
  { intros a. apply (rtc_subrel (edge h') (edge h)). intros x y (n' & Hn' & Hy).
    destruct (Hch x n' Hn') as (n & Hn & Heq). exists n. by rewrite -Heq. }
  destruct (heap_ok_closed itn h root Hh) as [_ Hcl]. split.
  - intros a n' b Hn' Hb. destruct (Hch a n' Hn') as (n & Hn & Heq). rewrite Heq in Hb. by eapply Hac.
  - intros a n' c Ha%Hreach Hn' Hc Htab. destruct (Ht a n' Ha Hn') as (n & Hn & [(cols & _ & ->) _ _ _]).
    destruct (Hcl a n c Ha Hn Hc Htab) as (b & m & Hb & Hm & Hk).
    pose proof (reach_child h root a n b Ha Hn Hb) as Hrb.
    destruct (Hs b m Hm) as (m' & Hm' & _). destruct (Ht b _ Hrb Hm') as (m2 & Hm2 & Htr).
    assert (m2 = m) as -> by congruence. eexists b, _. split_and!; [done|done|].
    eapply trimmed_outs; [exact Htr|done|]. apply HR. exists a, n, c. split_and!; try done.
    rewrite /named_col Htab. apply is_empty_false in Hitn. by rewrite Hitn.
Qed.
