(* ===== verification/PhysicalTheorems.v ===== *)
(** * The physical optimizer: main results

    The properties of [PhysicalOptimizer] as a whole, from the invariants of
    [PlanInv.v] and [PostProcessInv.v]. *)

From S2P Require Import Prelude PlanTypes PhysContext Materialization PhysicalOptimizer.
From S2P Require Import PostProcess PhysicalInvariant MaterializationInv ChainSemantics.
From S2P Require Import HandlersInv PlanInv PostProcessInv.

(** ** The initial state *)

Lemma inv_init itn oc : inv itn (mkOS (context_init itn oc) [] 0).
Proof.
  split; [by intros a n Hn|]. split; simpl; try done.
  intros i Hi. by apply not_elem_of_nil in Hi.
Qed.

(** The result of the traversal, RESULT node included, before
    post-processing. *)
Lemma tri_convert rnd itn n oc : itn <> "" -> phys_shape itn n = true ->
  tri itn (mkOS (context_init itn oc) [] 0)
    (res ← transformNode rnd n;
     context ← get_ctx;
     if negb (bool_decide (ctx_projected context = []))
     then a ← buildResultNode rnd res; mret (Some a)
     else mret (physical_root res))
    (fun o s => in_store (os_heap s) o).
Proof.
  intros Hitn Hsh. eapply tri_bind; [by apply tri_transformNode, inv_init|].
  intros res s Hi _ Hres. eapply tri_bind; [by apply tri_get|]. intros ctx s' _ _ [-> ->].
  case_bool_decide as Hp; simpl.
  - apply tri_ret; [done|apply Hres].
  - eapply tri_bind; [by apply tri_buildResultNode|]. intros a s1 Hi1 _ Ha. apply tri_ret; [done|].
    by intros b [= <-].
Qed.

(** A plan that can be executed: the root is a node of the store, the nodes
    form an acyclic graph and every intermediate column a node reads is an
    output of one of its children. *)
Definition executable (itn : string) (p : phys_plan) : Prop :=
  forall root, plan_root p = Some root -> root < length (plan_store p) /\ closed_plan itn (plan_store p) root.

Lemma convert_body_ok rnd itn n oc jo : itn <> "" -> phys_shape itn n = true ->
  match convert_body rnd n oc jo itn with
  | Ok p => executable itn p
  | Err (Throw _) => jo = true
  | Err (Undef _) => False
  end.
Proof.
  intros Hitn Hsh. destruct (tri_convert rnd itn n oc Hitn Hsh) as (o & s & Heq & [Hh _] & _ & Ho).
  rewrite /convert_body Heq /=. destruct o as [a|]; [|by destruct jo].
  specialize (Ho a eq_refl). destruct jo.
  - pose proof (postprocess_closed itn _ a Hitn Hh Ho) as H.
    destruct (collectReferencedColumns (os_heap s) a) as [R|e]; simpl in *; [|by destruct H as [m ->]].
    destruct (optimizeJoinOutputs (os_heap s) a R) as [h'|e]; simpl in *; [|by destruct H as [m ->]].
    by intros r [= <-].
  - intros r [= <-]. split; [done|]. by apply heap_ok_closed.
Qed.

(** ** Position list chains *)

Lemma push_chain_fold p l : NoDup l -> forall m t,
  fold_left (push_chain p) l m !! t = if decide (t ∈ l) then Some (default [] (m !! t) ++ [p]) else m !! t.
Proof.
  induction 1 as [|x l Hx _ IH]; intros m t; [done|]. simpl. rewrite IH /push_chain.
  destruct (decide (t = x)) as [->|Hne].
  - rewrite decide_False // lookup_insert_eq decide_True //. set_solver.
  - rewrite lookup_insert_ne //. destruct (decide (t ∈ l)) as [Hl|Hl].
    + rewrite decide_True //. set_solver.
    + rewrite decide_False //. set_solver.
Qed.

Lemma push_chains_lookup tbls p c t : table_poslist_chain (push_chains tbls p c) !! t =
  if decide (t ∈ tbls) then Some (default [] (table_poslist_chain c !! t) ++ [p])
  else table_poslist_chain c !! t.
Proof.
  rewrite /push_chains /= push_chain_fold; [|apply NoDup_elements].
  destruct (decide (t ∈ tbls)) as [Ht|Ht]; [rewrite decide_True //|rewrite decide_False //]; set_solver.
Qed.

(** The position list rows of table [t] are found with. *)
Definition current_poslist (s : opt_state) (t : string) : option PosListInfo :=
  list.last (default [] (table_poslist_chain (os_ctx s) !! t)).

(** ** Filters on one table *)

(** [FILTER e4 (FILTER e3 (FILTER e2 (FILTER e1 (SCAN t))))] *)
Definition filter_on (c : Column) (e : Expression) (n : LogicalPlanNode) : LogicalPlanNode :=
  set_children [Some n] (set_expression e (set_base_columns [c] (new_node LNT.FILTER))).

(** The state in which the child of a FILTER is transformed. *)
Definition limits_read (n : LogicalPlanNode) (s : opt_state) : opt_state :=
  match read_limits n s with Ok (_, s') => s' | Err _ => s end.

Definition is_filter_at (h : list PhysicalPlanNode) (o : option paddr) : bool :=
  match o ≫= fun a => h !! a with
  | Some n => bool_decide (p_node_type n = PNT.FILTER)
  | None => false
  end.

Lemma has_filter s o : in_store (os_heap s) o -> has_type o PNT.FILTER s = Ok (is_filter_at (os_heap s) o, s).
Proof.
  intros Hs. rewrite /is_filter_at. destruct o as [a|]; [|done]. simpl.
  destruct (lookup_lt_is_Some_2 (os_heap s) a (Hs a eq_refl)) as [n Hn].
  rewrite /mbind /ST_bind /load Hn //.
Qed.

Lemma is_filter_app h k o : in_store h o -> is_filter_at (h ++ k) o = is_filter_at h o.
Proof.
  intros Hs. destruct o as [a|]; [|done]. rewrite /is_filter_at /= lookup_app_l //. by apply Hs.
Qed.

(** One single-column filter: the new FILTER node, and what happens to it. *)
Lemma filter_on_step rnd c e n s r s1 :
  transformNode rnd n (limits_read (filter_on c e n) s) = Ok (r, s1) -> in_store (os_heap s1) (physical_root r) ->
  table_name c <> "" ->
  exists r' s' f, transformNode rnd (filter_on c e n) s = Ok (r', s') /\
    p_node_type f = PNT.FILTER /\ p_expression f = e /\ p_children f = [] /\ source_table r' = table_name c /\
    let a := length (os_heap s1) in
    if is_filter_at (os_heap s1) (physical_root r) && (source_table r =s table_name c)
    then exists g, os_heap s' = os_heap s1 ++ [f; g] /\ physical_root r' = Some (S a) /\
      p_node_type g = PNT.SETOPERATION /\ p_children g = [physical_root r; Some a] /\
      table_poslist_chain (os_ctx s') !! table_name c = Some [mkPos (output_column r') (Some (S a))]
    else os_heap s' = os_heap s1 ++ [f] /\ physical_root r' = Some a.
Proof.
  intros Hn Hs Ht%is_empty_false.
  change (transformNode rnd (filter_on c e n) s)
    with (handleFilter rnd (filter_on c e n) (transformNode rnd n) (limits_read (filter_on c e n) s)).
  rewrite /handleFilter. unfold mbind at 1, ST_bind at 1. rewrite Hn. cbn [filter_on base_columns set_children set_expression set_base_columns new_node].
  assert (forall ctx k d, has_type (physical_root r) PNT.FILTER (mkOS ctx (os_heap s1 ++ k) d) =
    Ok (is_filter_at (os_heap s1) (physical_root r), mkOS ctx (os_heap s1 ++ k) d)) as Hty.
  { intros ctx k d. rewrite has_filter /= ?is_filter_app //. eapply in_store_mono; [|done]. by exists k. }
  pose (f := set_p_expression e (new_phys PNT.FILTER (rnd (os_draws s1)) [set_is_base (Some true) c]
    [Column3 (intermediate_table_name (os_ctx s1)) (iname (rnd (os_draws s1)) +:+ "") PTY.POSLIST] [] None)).
  destruct (is_filter_at (os_heap s1) (physical_root r) && (source_table r =s table_name c)) eqn:Hcond.
  - assert (source_table r = table_name c) as Hsrc by by apply andb_true_iff in Hcond as [_ ?%String.eqb_eq].
    eexists _, _, f. split.
    { unfold mbind, ST_bind. cbn. rewrite /set_ctx /= Hty Hcond. unfold mbind, ST_bind. cbn. rewrite Hsrc Ht. reflexivity. }
    cbn. split_and!; try done. eexists. rewrite -app_assoc length_app /= Nat.add_1_r lookup_insert_eq. done.
  - eexists _, _, f. split.
    { unfold mbind, ST_bind. cbn. rewrite /set_ctx /= Hty Hcond. reflexivity. }
    done.
Qed.


(** The same state under the other strategy. *)
Definition with_chains (oc : bool) (s : opt_state) : opt_state :=
  let c := os_ctx s in
  set_ctx (mkTC (available_poslists c) (intermediate_table_name c) (poslist_provenance c)
    (filter_nodes c) (table_poslist_chain c) (materialized_columns c) (intermediate_results c)
    (ctx_projected c) (ctx_limit_count c) (ctx_limit_offset c) oc) s.

Lemma with_chains_inv itn oc s : inv itn s -> inv itn (with_chains oc s).
Proof. intros [H1 [? ? ? ? ?]]. split; [done|by split]. Qed.

(** ** A small instance *)

Definition lo (c : string) : Column := Column3 "lineorder" c PTY.INTEGER.
Definition da (c : string) : Column := Column3 "dates" c PTY.INTEGER.
Definition demo_rnd (k : nat) : Z := Z.of_nat k.
Definition scan (t : string) : LogicalPlanNode := set_scan_table t (new_node LNT.SCAN).
Definition eq_expr (vs : list string) : Expression := set_comp_type (Some PCT.EQ) (set_values vs Expression_default).

(** [SELECT lo_revenue FROM lineorder, dates WHERE lo_orderdate = d_datekey AND d_year = 1993] *)
Definition demo_join : LogicalPlanNode :=
  set_children [Some (scan "lineorder"); Some (filter_on (da "d_year") (eq_expr ["1993"]) (scan "dates"))]
    (set_expression (eq_expr []) (set_base_columns [lo "lo_orderdate"; da "d_datekey"] (new_node LNT.JOIN))).
Definition demo_logical : LogicalPlanNode :=
  set_children [Some demo_join] (set_projected_columns [lo "lo_revenue"] (new_node LNT.PROJECTION)).

(** The state after the join was transformed. *)
Definition demo_state (oc : bool) : opt_state :=
  match transformNode demo_rnd demo_join (mkOS (context_init "im" oc) [] 0) with
  | Ok (_, s) => s
  | Err _ => mkOS (context_init "im" oc) [] 0
  end.

Lemma demo_state_inv oc : inv "im" (demo_state oc).
Proof.
  destruct (tri_transformNode "im" demo_rnd ltac:(done) demo_join ltac:(by vm_compute) _ (inv_init "im" oc))
    as (r & s & H & Hi & _). rewrite /demo_state H. exact Hi.
Qed.

(** Five dates, of which the filter selects three and the join the first and
    the third of these. *)
Definition demo_cells (k : string) : list (option Z) :=
  map Some (if k =s "dates.d_month" then [1; 2; 3; 4; 5]
            else if k =s "im.i0" then [0; 2; 4]
            else if k =s "im.i2_i" then [0; 2; 0]
            else if k =s "im.i2_o" then [0; 1; 2; 3] else [])%Z.

Definition demo_env (h : list PhysicalPlanNode) : string -> list (option Z) := fold_left run_node h demo_cells.

Definition demo_call (oc : bool) : MaterializedInfo * Column * opt_state :=
  match ensureMaterialized demo_rnd (da "d_month") (demo_state oc) with
  | Ok r => r
  | Err _ => (mkMat Column_default None 0, Column_default, demo_state oc)
  end.

Lemma tl_elem {A} (x : A) l : x ∈ List.tl l -> x ∈ l.
Proof. destruct l; [done|]. intros H. apply elem_of_cons. by right. Qed.

(** ** Statements *)

(** C7: The optimizer turns every well-shaped logical plan into an executable
    physical plan: the root is a node of the store, the nodes form an acyclic
    graph, and every intermediate column a node reads is an output of one of
    its children.  With join-output trimming switched off it never fails; with
    trimming the only failure is the exception that a join's outputs are both
    unused. *)
Theorem PhysicalOptimizer_executable rnd itn n oc jo : itn <> "" -> phys_shape itn n = true ->
  match PhysicalOptimizer_optimize rnd (Some n) oc jo itn with
  | Ok p => executable itn p
  | Err e => jo = true /\ e = Throw "Conversion to physical plan failed!"
  end.
Proof.
  intros Hitn Hsh. pose proof (convert_body_ok rnd itn n oc jo Hitn Hsh) as H.
  rewrite /PhysicalOptimizer_optimize /ConvertToPhys.
  destruct (convert_body rnd n oc jo itn) as [p|[m|m]]; done.
Qed.

Lemma PhysicalOptimizer_executable_witness : exists p,
  PhysicalOptimizer_optimize demo_rnd (Some demo_logical) true true "im" = Ok p /\
  plan_root p <> None /\ executable "im" p.
Proof.
  pose proof (PhysicalOptimizer_executable demo_rnd "im" demo_logical true true ltac:(discriminate)
    ltac:(by vm_compute)) as H.
  eexists. split_and!; [by vm_compute|discriminate|]. exact H.
Defined.

(** A column requested with [ensureMaterialized] is available: in every
    state the optimizer reaches the call returns, only adds nodes to the plan,
    keeps the state's invariant, and the returned column is either a base
    column or an output of the returned producer, whichever strategy is on. *)
Theorem ensureMaterialized_readable itn rnd s c : inv itn s -> table_name c <> itn ->
  exists i c' s', ensureMaterialized rnd c s = Ok ((i, c'), s') /\ inv itn s' /\
    os_heap s `prefix_of` os_heap s' /\ good itn (os_heap s') (mat_producer i) (mat_col i).
Proof.
  intros Hi Hc. destruct (tri_ensureMaterialized itn rnd s c Hi Hc) as ([i c'] & s' & H & Hi' & He & Hm & _).
  exists i, c', s'. done.
Qed.

Lemma ensureMaterialized_readable_witness :
  exists i c' s', ensureMaterialized demo_rnd (da "d_month") (demo_state true) = Ok ((i, c'), s') /\
    inv "im" s' /\ os_heap (demo_state true) `prefix_of` os_heap s' /\
    good "im" (os_heap s') (mat_producer i) (mat_col i).
Proof.
  apply (ensureMaterialized_readable "im" demo_rnd); [apply demo_state_inv|discriminate].
Defined.

(** C15: The optimized strategy is equivalent to the chained one: for a column
    that is not cached yet, applying the table's position lists one after the
    other and composing them first give columns with the same contents, in
    every execution of the MATERIALIZE nodes of the respective plan. *)
Theorem materialization_strategies_agree itn rnd c s first rest :
  inv itn s -> table_name c <> itn -> lookupIntermediateResult c (os_ctx s) = None ->
  materialized_columns (os_ctx s) !! col_key c = None -> chain_of s c = first :: rest ->
  forallb (linked (os_heap s)) rest = true -> (Z.of_nat (length (first :: rest)) < 2 ^ 31)%Z ->
  exists i1 c1 s1 i2 c2 s2,
    ensureMaterialized rnd c (with_chains false s) = Ok ((i1, c1), s1) /\
    ensureMaterialized rnd c (with_chains true s) = Ok ((i2, c2), s2) /\
    forall env,
      (executes env (os_heap s1) ->
       env (col_key (mat_col i1)) = through env (env (col_key c)) (first :: rest)) /\
      (executes env (os_heap s2) ->
       env (col_key (mat_col i2)) = through env (env (col_key c)) (first :: rest)).
Proof.
  intros Hi Hc Hlk Hmat Hch Hl Hlen.
  destruct (tri_ensureMaterialized itn rnd _ c (with_chains_inv itn false s Hi) Hc) as ([i1 c1] & s1 & H1 & _).
  destruct (tri_ensureMaterialized itn rnd _ c (with_chains_inv itn true s Hi) Hc) as ([i2 c2] & s2 & H2 & _).
  exists i1, c1, s1, i2, c2, s2. split_and!; [done|done|]. intros env. rewrite -Hch in Hlen |- *. split; intros Hex.
  - apply (chained_sem rnd env c (with_chains false s) i1 c1 s1); try done.
    intros i0. by rewrite /= Hmat.
  - destruct (optimized_sem rnd env c (with_chains true s) first rest i2 c2 s2) as [-> _]; try done.
    + intros p Hp. apply (chain_of_in_store itn s c Hi p). rewrite Hch. set_solver.
    + intros i0. by rewrite /= Hmat.
    + by rewrite gather_rowmap // Hch.
Qed.

Lemma materialization_strategies_agree_witness :
  exists i1 c1 s1 i2 c2 s2, let chain := chain_of (demo_state true) (da "d_month") in
    ensureMaterialized demo_rnd (da "d_month") (with_chains false (demo_state true)) = Ok ((i1, c1), s1) /\
    ensureMaterialized demo_rnd (da "d_month") (with_chains true (demo_state true)) = Ok ((i2, c2), s2) /\
    length chain = 2 /\
    (forall env,
      (executes env (os_heap s1) -> env (col_key (mat_col i1)) = through env (env "dates.d_month") chain) /\
      (executes env (os_heap s2) -> env (col_key (mat_col i2)) = through env (env "dates.d_month") chain)) /\
    executes (demo_env (os_heap s2)) (os_heap s2) /\
    demo_env (os_heap s2) (col_key (mat_col i2)) = [Some 1%Z; Some 5%Z; Some 1%Z].
Proof.
  assert (exists first rest, chain_of (demo_state true) (da "d_month") = first :: rest /\
    forallb (linked (os_heap (demo_state true))) rest = true /\ length (first :: rest) = 2) as (p & l & Hch & Hl & Hn).
  { eexists _, _. split; [by vm_compute|]. split; by vm_compute. }
  destruct (materialization_strategies_agree "im" demo_rnd (da "d_month") (demo_state true) p l)
    as (i1 & c1 & s1 & i2 & c2 & s2 & H1 & H2 & He);
    [exact (demo_state_inv true)|discriminate|by vm_compute|by vm_compute|exact Hch|exact Hl|rewrite Hn; lia|].
  exists i1, c1, s1, i2, c2, s2. cbv zeta. rewrite Hch. split; [exact H1|]. split; [exact H2|].
  split; [exact Hn|]. split; [exact He|]. clear H1 He.
  vm_compute in H2. injection H2 as <- <- <-. split; [apply executesb_ok|]; by vm_compute.
Defined.

(** The chained strategy resumes where the cache stopped: when the cached
    column is the base column through a prefix of the table's chain, the
    returned column is the base column through the whole chain, and the cache
    describes it again with the last index. *)
Theorem ensureMaterialized_resumes rnd env c s i c' s' : optimize_chains (os_ctx s) = false ->
  lookupIntermediateResult c (os_ctx s) = None -> (Z.of_nat (length (chain_of s c)) < 2 ^ 31)%Z ->
  (forall i0, materialized_columns (os_ctx s) !! col_key c = Some i0 -> cache_through env c (chain_of s c) i0) ->
  ensureMaterialized rnd c s = Ok ((i, c'), s') -> executes env (os_heap s') ->
  env (col_key (mat_col i)) = through env (env (col_key c)) (chain_of s' c) /\
  materialized_columns (os_ctx s') !! col_key c = Some i /\ cache_through env c (chain_of s' c) i.
Proof.
  intros Hoc Hlk Hlen Hca H Hex.
  destruct (chained_sem rnd env c s i c' s' Hoc Hlk Hlen Hca H Hex) as (Hv & Hch & Hm & Hi).
  rewrite Hch. split_and!; [done|done|]. rewrite /cache_through Hi. split; [lia|].
  rewrite Hv take_ge //. lia.
Qed.

Lemma ensureMaterialized_resumes_witness :
  let r := demo_call false in let env := demo_env (os_heap r.2) in
  env (col_key (mat_col r.1.1)) = through env (env "dates.d_month") (chain_of r.2 (da "d_month")) /\
  materialized_columns (os_ctx r.2) !! "dates.d_month" = Some r.1.1 /\
  cache_through env (da "d_month") (chain_of r.2 (da "d_month")) r.1.1.
Proof.
  intros r env. apply (ensureMaterialized_resumes demo_rnd env (da "d_month") (demo_state false) r.1.1 r.1.2 r.2).
  - by vm_compute.
  - by vm_compute.
  - by vm_compute.
  - intros i0 H. vm_compute in H. discriminate.
  - by vm_compute.
  - apply executesb_ok. by vm_compute.
Defined.

(** The optimized strategy composes lazily and only once: the returned
    column holds the base column at the rows the table's chain stands for,
    and the rewritten chain of equal length stands for the same rows, so a
    later call composes only position lists added since. *)
Theorem ensureMaterializedOptimized_composes rnd env c s first rest i c' s' : optimize_chains (os_ctx s) = true ->
  lookupIntermediateResult c (os_ctx s) = None -> chain_of s c = first :: rest ->
  (forall p, p ∈ rest -> in_store (os_heap s) (pos_producer p)) ->
  let rows := rowmap env (os_heap s) (env (col_key (poslist_col first))) rest in
  (forall i0, materialized_columns (os_ctx s) !! col_key c = Some i0 -> cache_rowmap env c s rows (length rest) i0) ->
  ensureMaterialized rnd c s = Ok ((i, c'), s') -> executes env (os_heap s') ->
  env (col_key (mat_col i)) = gather (env (col_key c)) rows /\
  exists rest', chain_of s' c = first :: rest' /\ length rest' = length rest /\
    rowmap env (os_heap s') (env (col_key (poslist_col first))) rest' = rows.
Proof. intros. by eapply optimized_sem. Qed.

Lemma ensureMaterializedOptimized_composes_witness :
  let r := demo_call true in let env := demo_env (os_heap r.2) in
  let chain := chain_of (demo_state true) (da "d_month") in
  let first := List.hd (mkPos Column_default None) chain in
  let rows := rowmap env (os_heap (demo_state true)) (env (col_key (poslist_col first))) (List.tl chain) in
  rows = [Some 0%Z; Some 4%Z; Some 0%Z] /\
  env (col_key (mat_col r.1.1)) = gather (env "dates.d_month") rows /\
  exists rest', chain_of r.2 (da "d_month") = first :: rest' /\ length rest' = length (List.tl chain) /\
    rowmap env (os_heap r.2) (env (col_key (poslist_col first))) rest' = rows.
Proof.
  intros r env chain first rows. split; [by vm_compute|].
  apply (ensureMaterializedOptimized_composes demo_rnd env (da "d_month") (demo_state true) first (List.tl chain)
           r.1.1 r.1.2 r.2).
  - by vm_compute.
  - by vm_compute.
  - by vm_compute.
  - intros p Hp. exact (chain_of_in_store "im" _ _ (demo_state_inv true) p (tl_elem _ _ Hp)).
  - intros i0 H. vm_compute in H. discriminate.
  - by vm_compute.
  - apply executesb_ok. by vm_compute.
Defined.

(** [collectReferencedColumns] ends on every acyclic plan and returns
    exactly the named columns that some node reachable from the root
    consumes. *)
Theorem collectReferencedColumns_exact h root : acyclic h -> root < length h ->
  exists R, collectReferencedColumns h root = Ok R /\
    forall k, k ∈ R <-> exists b n c, reach h root b /\ h !! b = Some n /\
      c ∈ consumed n /\ named_col c = true /\ col_key c = k.
Proof. intros Hac Hr. by apply collectReferencedColumns_ok. Qed.

Lemma collectReferencedColumns_exact_witness : exists R,
  collectReferencedColumns (os_heap (demo_state true)) 2 = Ok R /\ "im.i1" ∈ R /\
  forall k, k ∈ R <-> exists b n c, reach (os_heap (demo_state true)) 2 b /\
    os_heap (demo_state true) !! b = Some n /\ c ∈ consumed n /\ named_col c = true /\ col_key c = k.
Proof.
  destruct (collectReferencedColumns_exact (os_heap (demo_state true)) 2) as (R & HR & He).
  - exact (heap_ok_acyclic "im" _ (proj1 (demo_state_inv true))).
  - vm_compute. lia.
  - exists R. split_and!; [done| |done].
    assert (match collectReferencedColumns (os_heap (demo_state true)) 2 with
      | Ok R => bool_decide ("im.i1" ∈ R) | Err _ => false end = true) as Hb by by vm_compute.
    rewrite HR in Hb. by apply bool_decide_eq_true_1 in Hb.
Defined.

(** C31: [optimizeJoinOutputs] on an acyclic plan: it fails exactly when a
    reachable HASHJOIN has two outputs of which none is referenced; otherwise
    nodes that are not reachable stay as they are, and a reachable node keeps
    every referenced output and everything but its outputs, and changes only
    when it is a HASHJOIN. *)
Theorem optimizeJoinOutputs_exact h refs root : acyclic h -> root < length h ->
  match optimizeJoinOutputs h root refs with
  | Ok h' => length h' = length h /\ (forall b, ~ reach h root b -> h' !! b = h !! b) /\
      forall b n n', reach h root b -> h !! b = Some n -> h' !! b = Some n' ->
        trimmed refs n n' /\
        ~ (exists x y, p_node_type n = PNT.HASHJOIN /\ p_result_columns n = [x; y] /\
             col_key x ∉ refs /\ col_key y ∉ refs)
  | Err e => exists b n x y, reach h root b /\ h !! b = Some n /\ p_node_type n = PNT.HASHJOIN /\
      p_result_columns n = [x; y] /\ col_key x ∉ refs /\ col_key y ∉ refs
  end.
Proof.
  intros Hac Hr. pose proof (optimizeJoinOutputs_ok h refs Hac root Hr) as H.
  destruct (optimizeJoinOutputs h root refs) as [h'|e].
  - destruct H as ([Hl _] & Ht & Hno). split_and!; [done|done|]. intros b n n' Hb Hn Hn'.
    destruct (Ht b n' Hb Hn') as (m & Hm & Htr). simplify_eq. split; [done|].
    intros (x & y & Hty & Hres & Hx & Hy). destruct (trim_same _ _ _ Htr) as (cols & He & _). revert He.
    rewrite /trim_outputs Hty Hres /=. rewrite !bool_decide_eq_false_2 //.
  - destruct H as (b & n & Hb & Hn & He). revert He. rewrite /trim_outputs.
    case_bool_decide; simpl; [|done]. destruct (p_result_columns n) as [|x [|y [|]]] eqn:Hres; try done.
    repeat case_bool_decide; simpl; try done. intros _. by exists b, n, x, y.
Qed.

Lemma optimizeJoinOutputs_exact_witness : exists h',
  optimizeJoinOutputs (os_heap (demo_state true)) 2 {["im.i2_o"]} = Ok h' /\
  map (fun n => length (p_result_columns n)) h' = [1; 1; 1] /\
  forall b n n', reach (os_heap (demo_state true)) 2 b -> os_heap (demo_state true) !! b = Some n ->
    h' !! b = Some n' -> trimmed {["im.i2_o"]} n n'.
Proof.
  pose proof (optimizeJoinOutputs_exact (os_heap (demo_state true)) {["im.i2_o"]} 2
    (heap_ok_acyclic "im" _ (proj1 (demo_state_inv true))) ltac:(vm_compute; lia)) as H.
  assert (exists h', optimizeJoinOutputs (os_heap (demo_state true)) 2 {["im.i2_o"]} = Ok h' /\
    map (fun n => length (p_result_columns n)) h' = [1; 1; 1]) as (h' & E & Hm)
    by (eexists; split; by vm_compute).
  rewrite E in H. exists h'. split; [exact E|]. split; [exact Hm|]. intros b n n' Hb Hn Hn'.
  exact (proj1 (proj2 (proj2 H) b n n' Hb Hn Hn')).
Defined.

(** Build side of a join: [handleJoin] enters one HASHJOIN whose first
    output (inner) belongs to the input with the smaller estimated table, the
    left one on a tie; from then on the tables of that input are read through
    the inner position list and the tables of the other input through the
    outer one. *)
Theorem handleJoin_build_side rnd n lhs rhs s s1 s2 lres rres r s' c0 c1 cols :
  base_columns n = c0 :: c1 :: cols -> lhs s = Ok (lres, s1) -> rhs s1 = Ok (rres, s2) ->
  handleJoin rnd n lhs rhs s = Ok (r, s') ->
  exists a node inner outer tin tout ires ores,
    physical_root r = Some a /\ os_heap s' !! a = Some node /\ p_node_type node = PNT.HASHJOIN /\
    p_expression node = expression n /\ p_result_columns node = [inner; outer] /\
    output_column r = inner /\ secondary_output r = Some outer /\
    tables_involved r = tables_involved lres ∪ tables_involved rres /\
    ((tin, tout, ires, ores) = (table_name c0, table_name c1, lres, rres) /\
       (getCardinality tin <= getCardinality tout)%Z \/
     (tin, tout, ires, ores) = (table_name c1, table_name c0, rres, lres) /\
       (getCardinality tin < getCardinality tout)%Z) /\
    poslist_provenance (os_ctx s') !! column_name inner = Some tin /\
    poslist_provenance (os_ctx s') !! column_name outer = Some tout /\
    (forall t, t ∈ tables_involved ires -> t ∉ tables_involved ores ->
       current_poslist s' t = Some (mkPos inner (Some a))) /\
    (forall t, t ∈ tables_involved ores -> current_poslist s' t = Some (mkPos outer (Some a))).
Proof.
  intros Hb Hl Hr H. rewrite /handleJoin in H.
  apply ST_bind_ok in H as (x & sx & Hx & H). rewrite Hl in Hx. injection Hx as <- <-.
  apply ST_bind_ok in H as (x & sx & Hx & H). rewrite Hr in Hx. injection Hx as <- <-.
  rewrite Hb in H. apply ST_bind_ok in H as ([lm c0'] & s3 & _ & H).
  apply ST_bind_ok in H as ([rm c1'] & s4 & _ & H).
  destruct (Z.ltb_spec (getCardinality (table_name c1)) (getCardinality (table_name c0))) as [Hsw|Hsw];
    injection H as <- <-; eexists _, _, _, _, _, _, _, _; simpl;
    (split_and!; [done|by rewrite lookup_app_r // Nat.sub_diag|done|done|done|done|done|done
      |first [by left|by right]| | | |]).
  all: try (rewrite /push_chains /= lookup_insert_ne ?lookup_insert_eq //;
            intros He; by apply (inj (String.append _)) in He).
  all: try (by rewrite /push_chains /= lookup_insert_eq).
  all: intros t Ht; try intros Hno; rewrite /current_poslist; cbn [os_ctx set_ctx]; rewrite push_chains_lookup.
  all: rewrite ?(decide_False _ _ Hno) ?(decide_True _ _ Ht) ?push_chains_lookup ?(decide_True _ _ Ht) last_snoc //.
Qed.

Lemma handleJoin_build_side_witness : exists r s' a inner outer,
  handleJoin demo_rnd demo_join (mret (handleScan (scan "lineorder"))) (mret (handleScan (scan "dates")))
    (mkOS (context_init "im" true) [] 0) = Ok (r, s') /\
  physical_root r = Some a /\ output_column r = inner /\ secondary_output r = Some outer /\
  current_poslist s' "dates" = Some (mkPos inner (Some a)) /\
  current_poslist s' "lineorder" = Some (mkPos outer (Some a)).
Proof.
  assert (exists r s', handleJoin demo_rnd demo_join (mret (handleScan (scan "lineorder")))
    (mret (handleScan (scan "dates"))) (mkOS (context_init "im" true) [] 0) = Ok (r, s')) as (r & s' & H)
    by (eexists _, _; by vm_compute).
  destruct (handleJoin_build_side demo_rnd demo_join _ _ _ _ _ (handleScan (scan "lineorder"))
    (handleScan (scan "dates")) r s' (lo "lo_orderdate") (da "d_datekey") [] eq_refl eq_refl eq_refl H)
    as (a & node & inner & outer & tin & tout & ires & ores & Ha & _ & _ & _ & _ & Ho & Hs & _ & Hside & _ & _ & Hi & Hout).
  destruct Hside as [[Heq Hle]|[Heq _]].
  - injection Heq as -> -> -> ->. vm_compute in Hle. by destruct Hle.
  - injection Heq as -> -> -> ->. exists r, s', a, inner, outer. split_and!; try done.
    + apply Hi; simpl; set_solver.
    + apply Hout. simpl. set_solver.
Defined.

(** Four filters on one table: the plan intersects only the last two.
    The first two are combined by a SETOPERATION, the third is not combined
    with that node because it is no FILTER, and the fourth is combined with
    the third and replaces the whole chain of the table; nothing refers to
    the first two filters any more. *)
Theorem four_filters_lose_two rnd itn oc t c1 c2 c3 c4 e1 e2 e3 e4 :
  table_name c1 = t -> table_name c2 = t -> table_name c3 = t -> table_name c4 = t -> t <> "" ->
  exists r s' a a3 a4 node n3 n4,
    transformNode rnd (filter_on c4 e4 (filter_on c3 e3 (filter_on c2 e2 (filter_on c1 e1 (scan t)))))
      (mkOS (context_init itn oc) [] 0) = Ok (r, s') /\
    physical_root r = Some a /\ os_heap s' !! a = Some node /\ p_children node = [Some a3; Some a4] /\
    os_heap s' !! a3 = Some n3 /\ p_expression n3 = e3 /\ p_children n3 = [] /\
    os_heap s' !! a4 = Some n4 /\ p_expression n4 = e4 /\ p_children n4 = [] /\
    table_poslist_chain (os_ctx s') !! t = Some [mkPos (output_column r) (Some a)].
Proof.
  intros H1 H2 H3 H4 Ht. assert (table_name c1 <> "" /\ table_name c2 <> "" /\ table_name c3 <> "" /\ table_name c4 <> "")
    as (T1 & T2 & T3 & T4) by (by rewrite H1 H2 H3 H4).
  set (p1 := filter_on c1 e1 (scan t)). set (p2 := filter_on c2 e2 p1). set (p3 := filter_on c3 e3 p2).
  set (p4 := filter_on c4 e4 p3). set (s4 := mkOS (context_init itn oc) [] 0).
  set (s3 := limits_read p4 s4). set (s2 := limits_read p3 s3). set (s1 := limits_read p2 s2).
  destruct (filter_on_step rnd c1 e1 (scan t) s1 _ _ eq_refl) as (r1 & u1 & f1 & E1 & F1 & _ & _ & S1 & HH1 & R1); [done|done|].
  cbn in HH1, R1. destruct (filter_on_step rnd c2 e2 p1 s2 _ _ E1) as (r2 & u2 & f2 & E2 & F2 & _ & _ & S2 & C2).
  { rewrite R1 HH1. by intros a [= <-]; simpl; lia. }
  { done. }
  rewrite /is_filter_at R1 HH1 /= F1 S1 H1 H2 String.eqb_refl /= in C2. destruct C2 as (g2 & HH2 & R2 & G2 & _).
  destruct (filter_on_step rnd c3 e3 p2 s3 _ _ E2) as (r3 & u3 & f3 & E3 & F3 & X3 & Y3 & S3 & C3).
  { rewrite R2 HH2. by intros a [= <-]; simpl; lia. }
  { done. }
  rewrite /is_filter_at R2 HH2 /= G2 /= in C3. destruct C3 as (HH3 & R3).
  destruct (filter_on_step rnd c4 e4 p3 s4 _ _ E3) as (r4 & u4 & f4 & E4 & F4 & X4 & Y4 & S4 & C4).
  { rewrite R3 HH3. by intros a [= <-]; simpl; lia. }
  { done. }
  rewrite /is_filter_at R3 HH3 /= F3 S3 H3 H4 String.eqb_refl /= in C4. destruct C4 as (g4 & HH4 & R4 & G4 & K4 & L4).
  exists r4, u4, 5, 3, 4, g4, f3, f4. rewrite HH4. change (filter_on c4 e4 p3) with p4 in E4.
  clear -E4 R4 K4 X3 Y3 X4 Y4 L4. clearbody p4 s4.
  split_and!; [exact E4|exact R4|reflexivity|exact K4|reflexivity|exact X3|exact Y3|reflexivity|exact X4|exact Y4|exact L4].
Qed.

Lemma four_filters_lose_two_witness :
  exists r s' a a3 a4 node n3 n4,
    transformNode demo_rnd (filter_on (da "d_year") (eq_expr ["1993"]) (filter_on (da "d_month") (eq_expr ["5"])
      (filter_on (da "d_week") (eq_expr ["6"]) (filter_on (da "d_day") (eq_expr ["7"]) (scan "dates")))))
      (mkOS (context_init "im" true) [] 0) = Ok (r, s') /\
    physical_root r = Some a /\ os_heap s' !! a = Some node /\ p_children node = [Some a3; Some a4] /\
    os_heap s' !! a3 = Some n3 /\ p_expression n3 = eq_expr ["5"] /\ p_children n3 = [] /\
    os_heap s' !! a4 = Some n4 /\ p_expression n4 = eq_expr ["1993"] /\ p_children n4 = [] /\
    table_poslist_chain (os_ctx s') !! "dates" = Some [mkPos (output_column r) (Some a)].
Proof. apply four_filters_lose_two; [reflexivity|reflexivity|reflexivity|reflexivity|discriminate]. Defined.

(** A plan whose root is a join fails when join outputs are trimmed:
    nothing reads either output, and the pass throws instead of leaving the
    node unchanged as its comment says; without trimming the same plan is
    built. *)
Theorem bare_join_fails oc :
  PhysicalOptimizer_optimize demo_rnd (Some demo_join) oc true "im" =
    Err (Throw "Conversion to physical plan failed!") /\
  exists p, PhysicalOptimizer_optimize demo_rnd (Some demo_join) oc false "im" = Ok p /\ plan_root p <> None.
Proof. destruct oc; (split; [by vm_compute|]; eexists; split; [by vm_compute|done]). Qed.
