(* ===== verification/WorkItems.v ===== *)
(** * Work items

    [include/Translator.hpp]: the physical plan DAG is turned into a list of
    protobuf work items, children before parents, and into levels for parallel
    execution.  The messages are records with the fields of
    [proto/WorkItem.proto] that the code sets; an enumerator is its number in
    that file. *)

From S2P Require Import Prelude PlanTypes PhysContext PostProcess.

(** ** Enums *)

Definition columnTypeToProto (t : PTY.PlanColumnType) : nat :=
  match t with
  | PTY.INTEGER => 0 | PTY.FLOAT => 1 | PTY.STRING => 2
  | PTY.BITMASK => 3 | PTY.POSLIST => 4 | PTY.PAIR_POSLIST => 5
  end.

Definition compTypeToProto (t : PCT.PlanCompType) : nat :=
  match t with
  | PCT.LT => 0 | PCT.LE => 1 | PCT.EQ => 2 | PCT.GE => 3 | PCT.GT => 4
  | PCT.NE => 5 | PCT.BETWEEN => 6 | PCT.IN => 7 | PCT.LIKE => 8
  end.

Definition stringOpToProto (t : PSO.PlanStringOp) : nat :=
  match t with PSO.LOWER => 1 | PSO.UPPER => 2 end.

Definition relOpToProto (t : PRO.PlanLogicalRelOp) : nat :=
  match t with PRO.UNION => 1 | PRO.INTERSECTION => 2 | PRO.NEGATION => 3 end.

Definition arithOpToProto (t : PAO.PlanArithOp) : nat :=
  match t with PAO.ADD => 1 | PAO.SUB => 2 | PAO.MUL => 3 | PAO.DIV => 4 | PAO.MOD => 5 end.

Definition aggFuncToProto (t : PAF.PlanAggFunc) : nat :=
  match t with PAF.COUNT => 1 | PAF.SUM => 2 | PAF.MIN => 3 | PAF.MAX => 4 | PAF.AVG => 5 end.

(** [OperatorType]; [None] when the code sets none. *)
Definition operatorId (t : PNT.PhysicalNodeType) : option nat :=
  match t with
  | PNT.FILTER => Some 1 | PNT.IDXSCAN => Some 2 | PNT.NLJ => Some 3 | PNT.HASHJOIN => Some 4
  | PNT.MERGEJOIN => Some 5 | PNT.AGGREGATE => Some 6 | PNT.SETOPERATION => Some 7
  | PNT.SORT => Some 8 | PNT.MAP => Some 9 | PNT.MATERIALIZE => Some 10 | PNT.GROUPBY => Some 11
  | PNT.RESULT => Some 12 | PNT.INTERMEDIATE => None
  end.

(** ** Messages *)

Record ColumnMessage : Set := mkCM {
  cm_tabName : string;
  cm_colName : string;
  cm_colType : nat;
  cm_isBase : option bool;
}.

Definition columnToProto (c : Column) : ColumnMessage :=
  mkCM (getBaseTableName c) (column_name c) (columnTypeToProto (type c)) (is_base c).

Inductive MapPartner : Set :=
  | NoPartner | PartnerColumn (c : ColumnMessage) | StaticVal (s : string).

Inductive OpData : Set :=
  | NoData
  | FilterItem (inputColumn outputColumn : ColumnMessage) (filterType : nat)
      (filterValue : list string) (stringOp : list nat) (compareColumn : option ColumnMessage)
  | JoinItem (innerColumn outerColumn outputColumn : ColumnMessage) (joinPredicate : nat)
      (produceInnerOutput produceOuterOutput : option bool)
  | AggItem (inputColumn outputColumn : ColumnMessage) (aggFunc : nat)
  | SetOperationItem (innerColumn outerColumn outputColumn : ColumnMessage) (operation : nat)
  | SortItem (inputColumns : list ColumnMessage) (sortOrder : list bool) (indexOutput : ColumnMessage)
  | MapItem (inputColumn outputColumn : ColumnMessage) (operatorType : nat) (partner : MapPartner)
  | MultiGroupItem (groupColumns : list ColumnMessage) (aggregationColumn aggregationResultColumn
      outputIndex outputClusters : ColumnMessage) (sortOrders : list bool)
  | MaterializeItem (filterColumn indexColumn outputColumn : ColumnMessage)
  | ResultItem (filename : string) (resultColumns : list ColumnMessage) (resultHeader : list string)
      (limitCount offsetCount : option Z).

Record WorkItem : Set := mkWI {
  wi_planId : Z;
  wi_itemId : Z;
  wi_dependsOn : list Z;
  wi_operatorId : option nat;
  wi_opData : OpData;
}.

(** Conversion to [uint32]. *)
Definition to_uint32 (z : Z) : Z := (z `mod` 2 ^ 32)%Z.

(** ** Post-order walk with an explicit stack *)

Record Frame : Set := mkFrame { fr_node : paddr; nextChildIndex : nat }.

Record walk : Type := mkWalk {
  w_stack : list Frame;                  (* top first *)
  w_seen : gset nat;
  w_order : list paddr;
}.

(** One iteration of the [while] loop; [None] when the stack is empty. *)
Definition walk_step (h : list PhysicalPlanNode) (w : walk) : result (option walk) :=
  match w_stack w with
  | [] => Ok None
  | f :: rest =>
      n ← store_node h (fr_node f);
      match p_children n !! nextChildIndex f with
      | Some child =>
          let f' := mkFrame (fr_node f) (S (nextChildIndex f)) in
          match child with
          | Some c =>
              if bool_decide (c ∈ w_seen w) then Ok (Some (mkWalk (f' :: rest) (w_seen w) (w_order w)))
              else Ok (Some (mkWalk (mkFrame c 0 :: f' :: rest) ({[c]} ∪ w_seen w) (w_order w)))
          | None => Ok (Some (mkWalk (f' :: rest) (w_seen w) (w_order w)))
          end
      | None => Ok (Some (mkWalk rest (w_seen w) (w_order w ++ [fr_node f])))
      end
  end.

Fixpoint walk_loop (fuel : nat) (h : list PhysicalPlanNode) (w : walk) : result (list paddr) :=
  match fuel with
  | O => Err (Undef "walk does not end")
  | S fuel =>
      r ← walk_step h w;
      match r with
      | None => Ok (w_order w)
      | Some w => walk_loop fuel h w
      end
  end.

(** An iteration per child and per node: enough for the whole store. *)
Definition walk_bound (h : list PhysicalPlanNode) : nat :=
  S (sum_list (map (fun n => S (length (p_children n))) h)).

Definition postorder (h : list PhysicalPlanNode) (root : paddr) : result (list paddr) :=
  walk_loop (walk_bound h) h (mkWalk [mkFrame root 0] {[root]} []).

(** ** Items *)

(** [name.substr(0, name.size() - 2)]; the length wraps around for shorter
    names, and the whole name is taken. *)
Definition drop_last2 (s : string) : string :=
  if String.length s <? 2 then s else String.substring 0 (String.length s - 2) s.

Definition last2 (s : string) : string :=
  if String.length s <? 2 then "" else String.substring (String.length s - 2) 2 s.

Definition col_at (what : string) (l : list Column) (i : nat) : result Column := at_index what l i.

Definition join_data (n : PhysicalPlanNode) : result OpData :=
  inner ← col_at "base_columns[0]" (p_base_columns n) 0;
  outer ← col_at "base_columns[1]" (p_base_columns n) 1;
  r ← col_at "result_columns[0]" (p_result_columns n) 0;
  cmp ← deref "comp_type" (comp_type (p_expression n));
  let out := mkCM (table_name r) (drop_last2 (column_name r)) (columnTypeToProto (type r)) None in
  let single := length (p_result_columns n) =? 1 in
  let is_inner := last2 (column_name r) =s "_i" in
  Ok (JoinItem (columnToProto inner) (columnToProto outer) out (compTypeToProto cmp)
        (if single then Some is_inner else None) (if single then Some (negb is_inner) else None)).

Definition filter_data (n : PhysicalPlanNode) : result OpData :=
  c ← col_at "base_columns[0]" (p_base_columns n) 0;
  r ← col_at "result_columns[0]" (p_result_columns n) 0;
  cmp ← deref "comp_type" (comp_type (p_expression n));
  Ok match p_base_columns n with
     | _ :: c2 :: _ =>
         FilterItem (columnToProto c) (columnToProto r) (compTypeToProto cmp) [] [] (Some (columnToProto c2))
     | _ =>
         FilterItem (columnToProto c) (columnToProto r) (compTypeToProto cmp) (values (p_expression n))
           (map stringOpToProto (option_list (string_op (p_expression n)))) None
     end.

Definition agg_data (n : PhysicalPlanNode) : result OpData :=
  c ← col_at "base_columns[0]" (p_base_columns n) 0;
  r ← col_at "result_columns[0]" (p_result_columns n) 0;
  s ← deref "agg_specs.front()" (head (agg_specs (p_expression n)));
  Ok (AggItem (columnToProto c) (columnToProto r) (aggFuncToProto (func s))).

(** Only the first two inputs are passed on. *)
Definition setop_data (n : PhysicalPlanNode) : result OpData :=
  c1 ← col_at "base_columns[0]" (p_base_columns n) 0;
  c2 ← col_at "base_columns[1]" (p_base_columns n) 1;
  r ← col_at "result_columns[0]" (p_result_columns n) 0;
  op ← deref "logical_rel_op" (logical_rel_op (p_expression n));
  Ok (SetOperationItem (columnToProto c1) (columnToProto c2) (columnToProto r) (relOpToProto op)).

Definition sort_data (n : PhysicalPlanNode) : result OpData :=
  o ← deref "sort_order" (sort_order (p_expression n));
  r ← col_at "result_columns[0]" (p_result_columns n) 0;
  Ok (SortItem (map columnToProto (p_base_columns n)) o (columnToProto r)).

Definition map_data (n : PhysicalPlanNode) : result OpData :=
  c ← col_at "base_columns[0]" (p_base_columns n) 0;
  r ← col_at "result_columns[0]" (p_result_columns n) 0;
  op ← deref "arith_op" (arith_op (p_expression n));
  Ok (MapItem (columnToProto c) (columnToProto r) (arithOpToProto op)
        match p_base_columns n, values (p_expression n) with
        | _ :: c2 :: _, _ => PartnerColumn (columnToProto c2)
        | _, v :: _ => StaticVal v
        | _, [] => NoPartner
        end).

Definition group_data (n : PhysicalPlanNode) : result OpData :=
  a ← deref "*aggregationColumn" (p_aggregationColumn n);
  r ← col_at "result_columns[0]" (p_result_columns n) 0;
  let aux suffix := mkCM (table_name r) (column_name r +:+ suffix) (columnTypeToProto PTY.POSLIST) None in
  Ok (MultiGroupItem (map columnToProto (p_base_columns n)) (columnToProto a) (columnToProto r)
        (aux "_idx") (aux "_cluster") (default [] (sort_order (p_expression n)))).

Definition materialize_data (n : PhysicalPlanNode) : result OpData :=
  c ← col_at "base_columns[0]" (p_base_columns n) 0;
  match p_index n with
  | None => Err (Throw "bad optional access")          (* index.value() *)
  | Some i =>
      r ← col_at "result_columns[0]" (p_result_columns n) 0;
      Ok (MaterializeItem (columnToProto c) (columnToProto i) (columnToProto r))
  end.

Definition result_data (n : PhysicalPlanNode) : result OpData :=
  name ← deref "*resultName" (p_resultName n);
  headers ← mapR (fun c => deref "*col.alias" (alias c)) (p_result_columns n);
  Ok (ResultItem name (map columnToProto (p_result_columns n)) headers
        (to_uint32 <$> limit_count (p_expression n)) (to_uint32 <$> limit_offset (p_expression n))).

Definition op_data (n : PhysicalPlanNode) : result OpData :=
  match p_node_type n with
  | PNT.FILTER => filter_data n
  | PNT.IDXSCAN => Ok NoData
  | PNT.NLJ | PNT.MERGEJOIN | PNT.HASHJOIN => join_data n
  | PNT.AGGREGATE => agg_data n
  | PNT.SETOPERATION => setop_data n
  | PNT.SORT => sort_data n
  | PNT.MAP => map_data n
  | PNT.GROUPBY => group_data n
  | PNT.MATERIALIZE => materialize_data n
  | PNT.RESULT => result_data n
  | PNT.INTERMEDIATE => Ok NoData
  end.

(** [idOf]: filled from the walk; a missing entry reads as 0. *)
Definition id_map (h : list PhysicalPlanNode) (order : list paddr) : result (gmap nat Z) :=
  foldR (fun m a => n ← store_node h a; Ok (<[a := p_node_id n]> m)) order ∅.

Definition build_item (h : list PhysicalPlanNode) (planId : Z) (idOf : gmap nat Z) (a : paddr) : result WorkItem :=
  n ← store_node h a;
  let id_of b := default 0%Z (idOf !! b) in
  data ← op_data n;
  Ok (mkWI (to_uint32 planId) (to_uint32 (id_of a))
        (map (fun b => to_uint32 (id_of b)) (omap id (p_children n)))
        (operatorId (p_node_type n)) data).

Definition crateWorkItems (p : phys_plan) (planId : Z) : result (list WorkItem) :=
  match plan_root p with
  | None => Err (Undef "f.node->children")
  | Some root =>
      let h := plan_store p in
      order ← postorder h root;
      idOf ← id_map h order;
      mapR (build_item h planId idOf) order
  end.

(** ** Levels *)

(** The loop that assigns levels; the keys are item ids. *)
Definition level_of (level : gmap Z Z) (wi : WorkItem) : Z :=
  fold_left (fun cur dep => match level !! dep with
                            | Some l => Z.max cur (l + 1)
                            | None => cur
                            end) (wi_dependsOn wi) 0%Z.

Definition level_step (st : gmap Z Z * Z) (wi : WorkItem) : gmap Z Z * Z :=
  let '(level, maxLevel) := st in
  let curLevel := level_of level wi in
  (<[wi_itemId wi := curLevel]> level, Z.max maxLevel curLevel).

(** [grouped[l].push_back(wi)] *)
Definition group_step (level : gmap Z Z) (grouped : list (list WorkItem)) (wi : WorkItem)
    : result (list (list WorkItem)) :=
  let l := Z.to_nat (default 0%Z (level !! wi_itemId wi)) in
  g ← at_index "grouped[l]" grouped l;
  Ok (<[l := g ++ [wi]]> grouped).

(** The levels of a list of items. *)
Definition group_levels (linear : list WorkItem) : result (list (list WorkItem)) :=
  match linear with
  | [] => Ok []
  | _ =>
      let '(level, maxLevel) := fold_left level_step linear (∅, 0%Z) in
      foldR (group_step level) linear (replicate (Z.to_nat (maxLevel + 1)) [])
  end.

(** [planId] is the random identifier drawn by [generateRandomId]. *)
Definition crateWorkItemsParallel (p : phys_plan) (planId : Z) : result (list (list WorkItem)) :=
  linear ← crateWorkItems p planId;
  group_levels linear.

Record QueryPlan : Set := mkQP { qp_planid : Z; qp_planitems : list WorkItem }.

Definition createQueryPlan (p : phys_plan) (planId : Z) : result QueryPlan :=
  items ← crateWorkItems p planId;
  Ok (mkQP (to_uint32 planId) items).
