(* ===== verification/WorkItemsInv.v ===== *)
(** * The walk behind the work items

    [postorder] is the explicit-stack loop of [crateWorkItems].  On an acyclic
    store it ends within [walk_bound] iterations and lists every node
    reachable from the root exactly once, children before parents. *)

From S2P Require Import Prelude PlanTypes PhysContext PostProcess PostProcessInv WorkItems.

Lemma sum_list_with_sub {A} (f : A -> nat) (l k : list A) : NoDup l -> (forall x, x ∈ l -> x ∈ k) ->
  sum_list_with f l <= sum_list_with f k.
Proof.
  intros Hl Hs. destruct (submseteq_Permutation l k) as [k' ->]; [by apply NoDup_submseteq|].
  rewrite sum_list_with_app. lia.
Qed.

Section walk.
Variables (h : list PhysicalPlanNode) (root : paddr).
Hypothesis Hac : acyclic h.
Hypothesis Hroot : root < length h.

(** Children come before parents. *)
Definition topo (l : list paddr) : Prop :=
  forall l1 a l2 n c, l = l1 ++ a :: l2 -> h !! a = Some n -> Some c ∈ p_children n -> c ∈ l1.

(** The iterations a node takes: one per child and one to leave it. *)
Definition weight (a : paddr) : nat := default 0 ((fun n => S (length (p_children n))) <$> h !! a).

Lemma total_weight : sum_list_with weight (seq 0 (length h)) = pred (walk_bound h).
Proof.
  rewrite /walk_bound /=. trans (sum_list (map weight (seq 0 (length h)))).
  { induction (seq 0 (length h)) as [|a l IH]; simpl; [done|]. by rewrite IH. }
  f_equal. apply list_eq. intros i. rewrite !list_lookup_fmap.
  destruct (decide (i < length h)) as [Hi|Hi].
  - destruct (lookup_lt_is_Some_2 h i Hi) as [n Hn]. rewrite lookup_seq_lt // Hn /= /weight Hn //.
  - rewrite lookup_seq_ge ?lookup_ge_None_2 //; lia.
Qed.

(** Iterations done so far. *)
Definition progress (w : walk) : nat :=
  sum_list_with weight (w_order w) + sum_list_with nextChildIndex (w_stack w).

Record walk_inv (w : walk) : Prop := {
  wi_sorted : StronglySorted lt (map fr_node (w_stack w));
  wi_nodup : NoDup (w_order w ++ map fr_node (w_stack w));
  wi_seen : forall a, a ∈ w_seen w <-> a ∈ w_order w ++ map fr_node (w_stack w);
  wi_frames : forall f n, f ∈ w_stack w -> h !! fr_node f = Some n ->
    nextChildIndex f <= length (p_children n) /\
    forall i c, i < nextChildIndex f -> p_children n !! i = Some (Some c) -> c ∈ w_seen w;
  wi_topo : topo (w_order w);
  wi_reach : forall a, a ∈ w_seen w -> reach h root a;
  wi_root : root ∈ w_seen w;
}.

Lemma walk_init : walk_inv (mkWalk [mkFrame root 0] {[root]} []).
Proof.
  split; simpl.
  - repeat constructor.
  - apply NoDup_singleton.
  - intros a. by rewrite elem_of_singleton list_elem_of_singleton.
  - intros f n ->%list_elem_of_singleton Hn. simpl. split; [lia|]. intros i c Hi. lia.
  - intros l1 a l2 n c Hl. by destruct l1.
  - intros a ->%elem_of_singleton. apply rtc_refl.
  - by apply elem_of_singleton.
Qed.

Lemma reach_lookup a : reach h root a -> exists n, h !! a = Some n.
Proof. by apply reach_in_store. Qed.

Lemma progress_bound w : walk_inv w -> progress w < walk_bound h.
Proof.
  intros Hw. assert (forall a, a ∈ w_order w ++ map fr_node (w_stack w) -> exists n, h !! a = Some n) as Hin.
  { intros a Ha. apply reach_lookup, (wi_reach w Hw), (wi_seen w Hw), Ha. }
  assert (sum_list_with nextChildIndex (w_stack w) <= sum_list_with weight (map fr_node (w_stack w))) as Hst.
  { assert (forall f, f ∈ w_stack w -> nextChildIndex f <= weight (fr_node f)) as Hf.
    { intros f Hf. destruct (Hin (fr_node f)) as [n Hn].
      { apply elem_of_app. right. by apply list_elem_of_fmap_2. }
      destruct (wi_frames w Hw f n Hf Hn) as [? _]. rewrite /weight Hn /=. lia. }
    clear -Hf. induction (w_stack w) as [|f l IH]; simpl; [lia|].
    pose proof (Hf f ltac:(set_solver)). specialize (IH ltac:(intros; apply Hf; set_solver)). lia. }
  pose proof (sum_list_with_sub weight _ (seq 0 (length h)) (wi_nodup w Hw)) as Hs.
  rewrite total_weight sum_list_with_app in Hs. rewrite /progress.
  assert (walk_bound h = S (pred (walk_bound h))) as Hb by done.
  specialize (Hs ltac:(intros x [n Hx]%Hin; apply elem_of_seq; apply lookup_lt_Some in Hx; lia)). lia.
Qed.

(** *** One iteration *)

(** Advancing the top frame over a null or known child. *)
Lemma walk_advance a i rest seen order n :
  walk_inv (mkWalk (mkFrame a i :: rest) seen order) -> h !! a = Some n ->
  i < length (p_children n) -> (forall c, p_children n !! i = Some (Some c) -> c ∈ seen) ->
  walk_inv (mkWalk (mkFrame a (S i) :: rest) seen order).
Proof.
  intros Hw Hn Hi Hc. split; [apply (wi_sorted _ Hw)|apply (wi_nodup _ Hw)|apply (wi_seen _ Hw)| |
    apply (wi_topo _ Hw)|apply (wi_reach _ Hw)|apply (wi_root _ Hw)].
  simpl. intros f m [-> | Hf]%elem_of_cons Hm.
  - simpl in *. simplify_eq. split; [lia|]. intros j c Hj Hjc.
    destruct (decide (j = i)) as [->|Hne]; [by apply Hc|].
    destruct (wi_frames _ Hw (mkFrame a i) n ltac:(set_solver) Hn) as [_ Hs]. apply (Hs j c); [simpl; lia|done].
  - apply (wi_frames _ Hw); [set_solver|done].
Qed.

(** Entering a new child. *)
Lemma walk_push a i rest seen order n c :
  walk_inv (mkWalk (mkFrame a i :: rest) seen order) -> h !! a = Some n ->
  p_children n !! i = Some (Some c) -> c ∉ seen ->
  walk_inv (mkWalk (mkFrame c 0 :: mkFrame a (S i) :: rest) ({[c]} ∪ seen) order).
Proof.
  intros Hw Hn Hc Hns. pose proof (Hac a n c Hn (list_elem_of_lookup_2 _ _ _ Hc)) as Hlt.
  pose proof (wi_sorted _ Hw) as Hs. simpl in Hs. apply StronglySorted_inv in Hs as [Hs Hf].
  split; simpl.
  - constructor; [by constructor|]. constructor; [done|]. eapply Forall_impl; [exact Hf|]. simpl. lia.
  - pose proof (wi_nodup _ Hw) as Hd. simpl in Hd. rewrite -Permutation_middle. apply NoDup_cons. split; [|done].
    intros Hin. apply Hns, (wi_seen _ Hw). exact Hin.
  - intros b. rewrite elem_of_union elem_of_singleton (wi_seen _ Hw b) /= !elem_of_app !elem_of_cons. tauto.
  - intros f m [-> | [-> | Hf']%elem_of_cons]%elem_of_cons Hm; simpl in *.
    + split; [lia|]. intros. lia.
    + simplify_eq. pose proof (lookup_lt_Some _ _ _ Hc). split; [lia|]. intros j d Hj Hd.
      destruct (decide (j = i)) as [->|Hne]; [simplify_eq; set_solver|]. apply elem_of_union. right.
      destruct (wi_frames _ Hw (mkFrame a i) n ltac:(set_solver) Hn) as [_ Hfr]. apply (Hfr j d); [simpl; lia|done].
    + destruct (wi_frames _ Hw f m ltac:(set_solver) Hm) as [? Hfr]. split; [done|].
      intros j d Hj Hd. apply elem_of_union. right. by apply (Hfr j d).
  - apply (wi_topo _ Hw).
  - intros b [->%elem_of_singleton|Hb]%elem_of_union; [|by apply (wi_reach _ Hw)].
    eapply reach_child; [apply (wi_reach _ Hw a)|done|by eapply list_elem_of_lookup_2].
    apply (wi_seen _ Hw). simpl. set_solver.
  - apply elem_of_union. right. apply (wi_root _ Hw).
Qed.

(** Leaving a node: its children were all left before. *)
Lemma walk_pop a i rest seen order n :
  walk_inv (mkWalk (mkFrame a i :: rest) seen order) -> h !! a = Some n -> length (p_children n) <= i ->
  walk_inv (mkWalk rest seen (order ++ [a])) /\ i = length (p_children n).
Proof.
  intros Hw Hn Hi. destruct (wi_frames _ Hw (mkFrame a i) n ltac:(set_solver) Hn) as [Hle Hall]. simpl in *.
  split; [|lia]. pose proof (wi_sorted _ Hw) as Hs. simpl in Hs. apply StronglySorted_inv in Hs as [Hs Hf].
  split; simpl.
  - done.
  - rewrite -app_assoc. apply (wi_nodup _ Hw).
  - intros b. rewrite -app_assoc. apply (wi_seen _ Hw).
  - intros f m Hf' Hm. apply (wi_frames _ Hw); [set_solver|done].
  - intros l1 b l2 m c Heq Hb Hc. destruct l2 as [|x l2 _] using rev_ind.
    + apply app_inj_tail in Heq as [<- <-]. simplify_eq.
      apply list_elem_of_lookup_1 in Hc as [j Hj]. pose proof (lookup_lt_Some _ _ _ Hj) as Hjl.
      pose proof (Hall j c ltac:(lia) Hj) as Hseen. apply (wi_seen _ Hw) in Hseen. simpl in Hseen.
      apply elem_of_app in Hseen as [?|Hst]; [done|]. exfalso.
      pose proof (Hac _ _ c Hn (list_elem_of_lookup_2 _ _ _ Hj)) as Hlt.
      apply elem_of_cons in Hst as [->|Hst]; [lia|]. rewrite Forall_forall in Hf.
      specialize (Hf c Hst). lia.
    + rewrite app_comm_cons app_assoc in Heq. apply app_inj_tail in Heq as [-> _].
      by eapply (wi_topo _ Hw).
  - apply (wi_reach _ Hw).
  - apply (wi_root _ Hw).
Qed.

Lemma walk_step_ok w : walk_inv w ->
  match w_stack w with
  | [] => walk_step h w = Ok None
  | _ => exists w', walk_step h w = Ok (Some w') /\ walk_inv w' /\ progress w' = S (progress w)
  end.
Proof.
  intros Hw. destruct w as [[|[a i] rest] seen order]; simpl; [done|].
  destruct (reach_lookup a) as [n Hn].
  { apply (wi_reach _ Hw), (wi_seen _ Hw). simpl. set_solver. }
  rewrite /walk_step /store_node /= Hn /=. destruct (p_children n !! i) as [o|] eqn:Hi.
  - pose proof (lookup_lt_Some _ _ _ Hi) as Hlt. destruct o as [c|].
    + case_bool_decide as Hc; eexists; (split; [done|]).
      * split; [eapply walk_advance; [done|done|done|]|].
        -- intros c' Hc'. by simplify_eq.
        -- rewrite /progress /=. lia.
      * split; [by eapply walk_push|]. rewrite /progress /=. lia.
    + eexists. split; [done|]. split; [eapply walk_advance; [done|done|done|]|].
      * intros c' Hc'. by simplify_eq.
      * rewrite /progress /=. lia.
  - apply lookup_ge_None_1 in Hi. destruct (walk_pop a i rest seen order n Hw Hn Hi) as [Hw' ->].
    eexists. split; [done|]. split; [done|]. rewrite /progress /= sum_list_with_app /= /weight Hn /=. lia.
Qed.

(** *** The loop *)

Lemma topo_closed order b c : topo order -> (forall a, a ∈ order -> exists n, h !! a = Some n) ->
  b ∈ order -> edge h b c -> c ∈ order.
Proof.
  intros Ht Hin Hb (n & Hn & Hc). apply list_elem_of_split in Hb as (l1 & l2 & ->).
  apply elem_of_app. left. by eapply Ht.
Qed.

Lemma walk_loop_ok fuel : forall w, walk_inv w -> walk_bound h <= fuel + progress w ->
  exists order, walk_loop fuel h w = Ok order /\ NoDup order /\ topo order /\
    forall a, a ∈ order <-> reach h root a.
Proof.
  induction fuel as [|fuel IH]; intros w Hw Hb; [pose proof (progress_bound w Hw); lia|].
  simpl. pose proof (walk_step_ok w Hw) as Hstep. destruct (w_stack w) as [|f rest] eqn:Hst.
  - rewrite Hstep. simpl. exists (w_order w).
    pose proof (wi_seen w Hw) as Hseen. rewrite Hst /= app_nil_r in Hseen.
    split; [done|]. split; [pose proof (wi_nodup w Hw) as Hd; by rewrite Hst /= app_nil_r in Hd|].
    split; [apply Hw|]. intros a. rewrite -Hseen. split; [apply (wi_reach w Hw)|].
    intros Ha. apply (rtc_ind_r (R := edge h) (fun b => b ∈ w_seen w) root); [apply (wi_root w Hw)| |exact Ha].
    intros b c _ Hbc Hbs. apply Hseen. eapply topo_closed; [apply Hw| |by apply Hseen|done].
    intros d Hd. apply reach_lookup, (wi_reach w Hw). by apply Hseen.
  - destruct Hstep as (w' & -> & Hw' & Hp). simpl. apply IH; [done|lia].
Qed.

Lemma postorder_ok : exists order, postorder h root = Ok order /\ NoDup order /\ topo order /\
  forall a, a ∈ order <-> reach h root a.
Proof. apply walk_loop_ok; [apply walk_init|]. change (progress _) with 0. lia. Qed.

End walk.

(** ** Items *)

Section items.
Variables (h : list PhysicalPlanNode) (planId : Z).

(** The item of a node. *)
Definition item_of (a : paddr) (wi : WorkItem) : Prop :=
  exists n, h !! a = Some n /\ op_data n = Ok (wi_opData wi) /\
    wi_planId wi = to_uint32 planId /\ wi_itemId wi = to_uint32 (p_node_id n) /\
    wi_operatorId wi = operatorId (p_node_type n) /\
    Forall2 (fun b d => exists m, h !! b = Some m /\ d = to_uint32 (p_node_id m))
      (omap id (p_children n)) (wi_dependsOn wi).

Lemma id_map_ok order : forall m0 : gmap nat Z, (forall a, a ∈ order -> exists n, h !! a = Some n) ->
  exists m : gmap nat Z, foldR (fun m a => n ← store_node h a; Ok (<[a := p_node_id n]> m)) order m0 = Ok m /\
    (forall a n, a ∈ order -> h !! a = Some n -> m !! a = Some (p_node_id n)) /\
    (forall a, a ∉ order -> m !! a = m0 !! a).
Proof.
  induction order as [|a order IH]; intros m0 Hin; cbn [foldR].
  - exists m0. split_and!; [done| |done]. intros a n Ha. by apply not_elem_of_nil in Ha.
  - destruct (Hin a ltac:(set_solver)) as [n Hn]. rewrite /store_node Hn /=.
    destruct (IH (<[a := p_node_id n]> m0)) as (m & Hm & H1 & H2); [intros; apply Hin; set_solver|].
    exists m. split_and!; [done| |].
    + intros b k Hb Hk. destruct (decide (b ∈ order)) as [Hbo|Hbo]; [by apply H1|].
      rewrite H2 //. assert (b = a) as -> by set_solver. simplify_eq. by rewrite lookup_insert_eq.
    + intros b Hb. rewrite H2; [|set_solver]. rewrite lookup_insert_ne //. set_solver.
Qed.

Lemma build_item_ok (order : list paddr) (idOf : gmap nat Z) a n d : h !! a = Some n -> op_data n = Ok d ->
  (forall b m, b ∈ order -> h !! b = Some m -> idOf !! b = Some (p_node_id m)) ->
  a ∈ order -> (forall b, Some b ∈ p_children n -> b ∈ order /\ exists m, h !! b = Some m) ->
  exists wi, build_item h planId idOf a = Ok wi /\ item_of a wi.
Proof.
  intros Hn Hd Hid Ha Hch. rewrite /build_item /store_node Hn /= Hd /=. eexists. split; [done|].
  exists n. simpl. rewrite (Hid a n Ha Hn) /=. split_and!; try done.
  assert (forall b, b ∈ omap id (p_children n) -> b ∈ order /\ exists m, h !! b = Some m) as Hch'.
  { intros b Hb. apply Hch. apply list_elem_of_omap in Hb as (o & Ho & Hob). by simpl in Hob; subst. }
  clear Hch. induction (omap id (p_children n)) as [|b l IH]; constructor; [|apply IH; intros; apply Hch'; set_solver].
  destruct (Hch' b ltac:(set_solver)) as [Hbo [m Hm]]. exists m. by rewrite (Hid b m Hbo Hm).
Qed.

Lemma mapR_err {A B} (f : A -> result B) l : 
  (exists ys, mapR f l = Ok ys) \/ exists x e, x ∈ l /\ f x = Err e /\ mapR f l = Err e.
Proof.
  induction l as [|x l IH]; simpl; [left; by eexists|].
  destruct (f x) as [y|e] eqn:Hx; simpl; [|right; exists x, e; split; [set_solver|done]].
  destruct IH as [[ys ->]|(z & e & Hz & Hf & ->)]; [left; by eexists|].
  right. exists z, e. split; [set_solver|done].
Qed.
End items.

(** ** Levels *)

Lemma level_of_bounds level wi : (0 <= level_of level wi)%Z /\
  forall d l, d ∈ wi_dependsOn wi -> level !! d = Some l -> (l < level_of level wi)%Z.
Proof.
  rewrite /level_of. assert (forall deps cur, let r := fold_left (fun cur dep => match level !! dep with
      | Some l => Z.max cur (l + 1) | None => cur end) deps cur in
    (cur <= r)%Z /\ forall d l, d ∈ deps -> level !! d = Some l -> (l < r)%Z) as H.
  { induction deps as [|d deps IH]; intros cur; simpl.
    - split; [lia|]. intros d l Hd. by apply not_elem_of_nil in Hd.
    - destruct (IH (match level !! d with Some l => Z.max cur (l + 1) | None => cur end)) as [H1 H2]. split.
      + destruct (level !! d); lia.
      + intros d' l [-> | Hd]%elem_of_cons Hl; [|by eapply H2]. rewrite Hl in H1 |- *. lia. }
  apply H.
Qed.

(** Every dependency is the id of an earlier item. *)
Definition deps_before (linear : list WorkItem) : Prop :=
  forall i wi d, linear !! i = Some wi -> d ∈ wi_dependsOn wi ->
    exists j wj, j < i /\ linear !! j = Some wj /\ wi_itemId wj = d.

Definition levels_ok (linear : list WorkItem) (st : gmap Z Z * Z) : Prop :=
  (0 <= st.2)%Z /\
  (forall k, is_Some (st.1 !! k) <-> k ∈ map wi_itemId linear) /\
  forall wi, wi ∈ linear -> exists l, st.1 !! wi_itemId wi = Some l /\ (0 <= l <= st.2)%Z /\
    forall d, d ∈ wi_dependsOn wi -> exists ld, st.1 !! d = Some ld /\ (ld < l)%Z.

Lemma levels_ok_fold linear : NoDup (map wi_itemId linear) -> deps_before linear ->
  levels_ok linear (fold_left level_step linear (∅, 0%Z)).
Proof.
  induction linear as [|wi linear IH] using rev_ind; intros Hnd Hdep; simpl.
  - split; [done|]. split; [|intros wi Hwi; by apply not_elem_of_nil in Hwi].
    intros k. rewrite lookup_empty. split; [by intros [? ?]|intros Hk; by apply not_elem_of_nil in Hk].
  - rewrite map_app /= in Hnd. apply NoDup_app in Hnd as (Hnd & Hdis & _).
    assert (deps_before linear) as Hdep'.
    { intros i w d Hi Hd. destruct (Hdep i w d) as (j & wj & Hj & Hjj & Hid); [by apply lookup_app_l_Some|done|].
      pose proof (lookup_lt_Some _ _ _ Hi). rewrite lookup_app_l in Hjj; [eauto|lia]. }
    rewrite fold_left_app /=. specialize (IH Hnd Hdep').
    destruct (fold_left level_step linear (∅, 0%Z)) as [level mx]. destruct IH as (H0 & Hdom & Hall). simpl in *.
    assert (wi_itemId wi ∉ map wi_itemId linear) as Hnew by (intros Hin; apply (Hdis _ Hin); set_solver).
    pose proof (level_of_bounds level wi) as [Hlo Hld]. split; [simpl; lia|]. split.
    + intros k. simpl. rewrite lookup_insert_is_Some map_app elem_of_app list_elem_of_singleton Hdom.
      destruct (decide (k = wi_itemId wi)); naive_solver.
    + assert (forall d, d ∈ map wi_itemId linear -> (<[wi_itemId wi := level_of level wi]> level) !! d = level !! d) as Hold.
      { intros d Hd. rewrite lookup_insert_ne //. by intros <-. }
      intros w [Hw | ->%list_elem_of_singleton]%elem_of_app; simpl.
      * destruct (Hall w Hw) as (l & Hl & Hb & Hds). exists l. rewrite Hold; [|by apply list_elem_of_fmap_2].
        split_and!; [done|lia|lia|]. intros d Hd. destruct (Hds d Hd) as (ld & Hld' & ?). exists ld.
        rewrite Hold //. apply Hdom. by exists ld.
      * exists (level_of level wi). rewrite lookup_insert_eq. split_and!; [done|lia|lia|]. intros d Hd.
        destruct (Hdep (length linear) wi d) as (j & wj & Hj & Hjj & <-); [by rewrite lookup_app_r // Nat.sub_diag|done|].
        rewrite lookup_app_l // in Hjj.
        assert (wi_itemId wj ∈ map wi_itemId linear) as Hin by (apply list_elem_of_fmap_2; by eapply list_elem_of_lookup_2).
        destruct (proj2 (Hdom _) Hin) as [ld Hl]. exists ld. rewrite Hold //. split; [done|by eapply Hld].
Qed.

(** Items land in the list of their level, in their order. *)
Definition at_level (level : gmap Z Z) (l : nat) (wi : WorkItem) : bool :=
  Z.to_nat (default 0%Z (level !! wi_itemId wi)) =? l.

Lemma group_fold level linear : forall grouped,
  (forall wi, wi ∈ linear -> Z.to_nat (default 0%Z (level !! wi_itemId wi)) < length grouped) ->
  exists res, foldR (group_step level) linear grouped = Ok res /\ length res = length grouped /\
    (forall l g, grouped !! l = Some g -> res !! l = Some (g ++ List.filter (at_level level l) linear)) /\
    concat res ≡ₚ concat grouped ++ linear.
Proof.
  induction linear as [|wi linear IH]; intros grouped Hl; cbn [foldR].
  - exists grouped. rewrite app_nil_r. split_and!; [done|done| |done]. intros l g Hg. by rewrite /= app_nil_r.
  - rewrite /group_step. set (k := Z.to_nat (default 0%Z (level !! wi_itemId wi))).
    destruct (lookup_lt_is_Some_2 grouped k) as [g Hg]; [apply Hl; set_solver|]. rewrite /at_index Hg /=.
    destruct (IH (<[k := g ++ [wi]]> grouped)) as (res & Hr & Hlen & Hget & Hperm).
    { intros w Hw. rewrite length_insert. apply Hl. set_solver. }
    rewrite length_insert in Hlen. exists res. split_and!; [done|done| |].
    + intros l g' Hg'. simpl. rewrite {1}/at_level -/k. destruct (decide (l = k)) as [->|Hne].
      * simplify_eq. rewrite Nat.eqb_refl (Hget k (g ++ [wi])); [by rewrite -app_assoc|].
        apply list_lookup_insert_eq. by eapply lookup_lt_Some.
      * rewrite (proj2 (Nat.eqb_neq k l)) //. apply Hget. by rewrite list_lookup_insert_ne.
    + assert (concat grouped = concat (take k grouped) ++ g ++ concat (drop (S k) grouped)) as ->.
      { rewrite -{1}(take_drop_middle grouped k g Hg) concat_app //. }
      rewrite Hperm insert_take_drop; [|by eapply lookup_lt_Some].
      rewrite concat_app /= -!app_assoc /=.
      do 2 apply Permutation_app_head. apply (Permutation_middle (concat (drop (S k) grouped)) linear wi).
Qed.

Lemma group_levels_ok linear : NoDup (map wi_itemId linear) -> deps_before linear ->
  exists res, group_levels linear = Ok res /\ concat res ≡ₚ linear /\
    (forall l g wi, res !! l = Some g -> wi ∈ g -> wi ∈ linear /\
       forall d, d ∈ wi_dependsOn wi -> exists l' g' wd, l' < l /\ res !! l' = Some g' /\ wd ∈ g' /\ wi_itemId wd = d).
Proof.
  intros Hnd Hdep. pose proof (levels_ok_fold linear Hnd Hdep) as Hlv. rewrite /group_levels.
  destruct linear as [|w0 linear]; [exists []; split_and!; [done|done|by intros l g wi Hl]|].
  set (ls := w0 :: linear) in *. destruct (fold_left level_step ls (∅, 0%Z)) as [level mx]. destruct Hlv as (H0 & Hdom & Hall).
  simpl in H0, Hdom, Hall.
  destruct (group_fold level ls (replicate (Z.to_nat (mx + 1)) [])) as (res & Hr & Hlen & Hget & Hperm).
  { intros wi Hwi. destruct (Hall wi Hwi) as (l & -> & Hb & _). rewrite length_replicate /=. lia. }
  assert (forall l g, res !! l = Some g -> g = List.filter (at_level level l) ls) as Hlev.
  { intros l g Hg. assert (l < Z.to_nat (mx + 1)) as Hlt.
    { apply lookup_lt_Some in Hg. by rewrite Hlen length_replicate in Hg. }
    pose proof (Hget l [] (lookup_replicate_2 _ _ _ Hlt)) as Hg'. simplify_eq. done. }
  exists res. split; [exact Hr|]. split.
  { rewrite Hperm. assert (forall k, concat (replicate k ([] : list WorkItem)) = []) as -> by (by induction k). done. }
  intros l g wi Hg Hwi. rewrite (Hlev l g Hg) in Hwi. apply list_elem_of_In, filter_In in Hwi as [Hwi%list_elem_of_In Hat].
  split; [done|]. destruct (Hall wi Hwi) as (lw & Hlw & Hb & Hds). intros d Hd.
  destruct (Hds d Hd) as (ld & Hld & Hlt). pose proof (proj1 (Hdom d) (ex_intro _ ld Hld)) as Hin. change (d ∈ map wi_itemId ls) in Hin.
  apply list_elem_of_fmap in Hin as (wd & -> & Hwd).
  destruct (Hall wd Hwd) as (ld' & Hld' & Hb' & _). assert (ld' = ld) as -> by congruence.
  rewrite /at_level Hlw /= in Hat. apply Nat.eqb_eq in Hat.
  destruct (lookup_lt_is_Some_2 res (Z.to_nat ld)) as [gd Hgd]; [rewrite Hlen length_replicate; lia|].
  exists (Z.to_nat ld), gd, wd. split_and!; [lia|done| |done].
  rewrite (Hlev _ _ Hgd). apply list_elem_of_In, filter_In. split; [by apply list_elem_of_In|].
  by rewrite /at_level Hld' /= Nat.eqb_refl.
Qed.
