(* ===== verification/WorkItemTheorems.v ===== *)
(** * Work items: main results

    What [crateWorkItems] and [crateWorkItemsParallel] guarantee to the
    executor, alone and for the plans of the physical optimizer. *)

From S2P Require Import Prelude PlanTypes PhysContext Materialization PhysicalOptimizer.
From S2P Require Import PostProcess PhysicalInvariant HandlersInv PlanInv PostProcessInv.
From S2P Require Import PhysicalTheorems WorkItems WorkItemsInv.

(** ** From walks to items *)

Lemma Forall2_lookup {A B} (P : A -> B -> Prop) l k i y : Forall2 P l k -> k !! i = Some y ->
  exists x, l !! i = Some x /\ P x y.
Proof. intros H Hi. by apply (Forall2_lookup_r _ _ _ _ _ H Hi). Qed.

Lemma topo_child_before h order i a n c : topo h order -> order !! i = Some a -> h !! a = Some n ->
  Some c ∈ p_children n -> exists j, j < i /\ order !! j = Some c.
Proof.
  intros Ht Hi Hn Hc. pose proof (take_drop_middle order i a Hi) as Heq.
  pose proof (Ht (take i order) a (drop (S i) order) n c (eq_sym Heq) Hn Hc) as Hin.
  apply list_elem_of_lookup_1 in Hin as [j Hj]. apply lookup_take_Some in Hj as [Hj Hlt]. by exists j.
Qed.

Lemma items_deps_before h planId order items : topo h order -> Forall2 (item_of h planId) order items ->
  deps_before items.
Proof.
  intros Ht HF i wi d Hi Hd. destruct (Forall2_lookup _ _ _ _ _ HF Hi) as (a & Ha & n & Hn & _ & _ & _ & _ & Hdeps).
  apply list_elem_of_lookup_1 in Hd as [k Hk]. destruct (Forall2_lookup _ _ _ _ _ Hdeps Hk) as (b & Hb & m & Hm & ->).
  apply list_elem_of_lookup_2, list_elem_of_omap in Hb as (o & Ho & Hob). simpl in Hob. subst o.
  destruct (topo_child_before h order i a n b Ht Ha Hn Ho) as (j & Hj & Hjb).
  destruct (Forall2_lookup_l _ _ _ _ _ HF Hjb) as (wj & Hwj & m' & Hm' & _ & _ & Hid & _).
  exists j, wj. split_and!; [done|done|]. rewrite Hid. congruence.
Qed.

Lemma crateWorkItems_items p root planId : plan_root p = Some root -> acyclic (plan_store p) ->
  root < length (plan_store p) ->
  exists order, postorder (plan_store p) root = Ok order /\ NoDup order /\ topo (plan_store p) order /\
    (forall a, a ∈ order <-> reach (plan_store p) root a) /\
    match crateWorkItems p planId with
    | Ok items => Forall2 (item_of (plan_store p) planId) order items
    | Err e => exists a n, reach (plan_store p) root a /\ plan_store p !! a = Some n /\ op_data n = Err e
    end.
Proof.
  intros Hr Hac Hlt. set (h := plan_store p) in *.
  destruct (postorder_ok h root Hac Hlt) as (order & Hpo & Hnd & Ht & Hre).
  exists order. split_and!; [done|done|done|done|]. rewrite /crateWorkItems Hr -/h Hpo /=.
  assert (forall a, a ∈ order -> exists n, h !! a = Some n) as Hin.
  { intros a Ha. eapply reach_in_store; [done|done|by apply Hre]. }
  rewrite /id_map. destruct (id_map_ok h order ∅ Hin) as (m & -> & Hid & _). simpl.
  assert (forall a n, a ∈ order -> h !! a = Some n -> match op_data n with
    | Ok _ => exists wi, build_item h planId m a = Ok wi /\ item_of h planId a wi
    | Err e => build_item h planId m a = Err e end) as Hb.
  { intros a n Ha Hn. destruct (op_data n) as [d|e] eqn:Hd; [|by rewrite /build_item /store_node Hn /= Hd].
    eapply (build_item_ok h planId order); [done|done|done|done|]. intros b Hbc.
    assert (b ∈ order) as Hbo by (apply Hre; eapply reach_child; [by apply Hre|done|done]). auto. }
  destruct (mapR_err (build_item h planId m) order) as [[items Hi]|(a & e & Ha & Hf & ->)].
  - rewrite Hi. apply mapR_Forall2 in Hi. apply Forall2_same_length_lookup.
    split; [by eapply Forall2_length|]. intros i a wi Ha Hwi.
    pose proof (Forall2_lookup_lr _ _ _ _ _ _ Hi Ha Hwi) as Hbi. simpl in Hbi.
    apply list_elem_of_lookup_2 in Ha. destruct (Hin a Ha) as [n Hn]. specialize (Hb a n Ha Hn).
    destruct (op_data n); [|congruence]. destruct Hb as (wi' & Hw & Hit). congruence.
  - destruct (Hin a Ha) as [n Hn]. exists a, n. split; [by apply Hre|]. split; [done|].
    specialize (Hb a n Ha Hn). destruct (op_data n) as [d|e']; [destruct Hb as (? & ? & _)|]; congruence.
Qed.

Lemma mapM_in_store (h : list PhysicalPlanNode) (order : list paddr) : (forall a, a ∈ order -> exists n, h !! a = Some n) ->
  exists nodes, Forall2 (fun a n => h !! a = Some n) order nodes.
Proof.
  induction order as [|a order IH]; intros Hin; [by exists []|].
  destruct (Hin a ltac:(set_solver)) as [n Hn]. destruct IH as [l Hl]; [intros; apply Hin; set_solver|].
  exists (n :: l). by constructor.
Qed.

(** ** A small instance *)

Definition demo_plan : phys_plan :=
  match PhysicalOptimizer_optimize demo_rnd (Some demo_logical) true true "im" with
  | Ok p => p
  | Err _ => mkPlan None []
  end.

Definition demo_root : paddr := default 0 (plan_root demo_plan).

Definition demo_items : list WorkItem :=
  match crateWorkItems demo_plan 77 with Ok l => l | Err _ => [] end.

Lemma demo_root_ok : plan_root demo_plan = Some demo_root.
Proof. by vm_compute. Qed.

Lemma demo_executable : executable "im" demo_plan.
Proof.
  pose proof (convert_body_ok demo_rnd "im" demo_logical true true ltac:(discriminate) ltac:(by vm_compute)) as H.
  rewrite /demo_plan /PhysicalOptimizer_optimize /ConvertToPhys.
  destruct (convert_body demo_rnd demo_logical true true "im") as [p|[m|m]]; [exact H| |done].
  by intros r Hr.
Qed.

Lemma demo_acyclic : acyclic (plan_store demo_plan).
Proof. apply (demo_executable demo_root demo_root_ok). Qed.

Lemma demo_root_lt : demo_root < length (plan_store demo_plan).
Proof. apply (demo_executable demo_root demo_root_ok). Qed.

(** ** Statements *)

(** C22: The explicit-stack walk over the plan ends within its bound of one
    iteration per node and per child, and lists every node reachable from the
    root exactly once, children before their parents. *)
Theorem postorder_correct h root : acyclic h -> root < length h ->
  exists order, postorder h root = Ok order /\ NoDup order /\ (forall a, a ∈ order <-> reach h root a) /\
    forall i a n c, order !! i = Some a -> h !! a = Some n -> Some c ∈ p_children n ->
      exists j, j < i /\ order !! j = Some c.
Proof.
  intros Hac Hr. destruct (postorder_ok h root Hac Hr) as (order & Hp & Hn & Ht & Ha).
  exists order. split_and!; [done|done|done|]. intros. by eapply topo_child_before.
Qed.

Lemma postorder_correct_witness : exists order,
  postorder (plan_store demo_plan) demo_root = Ok order /\ NoDup order /\
  (forall a, a ∈ order <-> reach (plan_store demo_plan) demo_root a) /\
  forall i a n c, order !! i = Some a -> plan_store demo_plan !! a = Some n -> Some c ∈ p_children n ->
    exists j, j < i /\ order !! j = Some c.
Proof. exact (postorder_correct (plan_store demo_plan) demo_root demo_acyclic demo_root_lt). Defined.

(** C20: The work items of an acyclic plan: one item per reachable node, each
    with the node's id, operator and encoded parameters and with the ids of
    its children as dependencies, and every dependency is the id of an
    earlier item.  The only failure is a node whose parameters cannot be
    encoded. *)
Theorem crateWorkItems_correct p root planId : plan_root p = Some root -> acyclic (plan_store p) ->
  root < length (plan_store p) ->
  match crateWorkItems p planId with
  | Ok items => exists order, NoDup order /\ (forall a, a ∈ order <-> reach (plan_store p) root a) /\
      Forall2 (item_of (plan_store p) planId) order items /\ deps_before items
  | Err e => exists a n, reach (plan_store p) root a /\ plan_store p !! a = Some n /\ op_data n = Err e
  end.
Proof.
  intros Hr Hac Hlt. destruct (crateWorkItems_items p root planId Hr Hac Hlt) as (order & _ & Hnd & Ht & Hre & H).
  destruct (crateWorkItems p planId) as [items|e]; [|done]. exists order. split_and!; [done|done|done|].
  by eapply items_deps_before.
Qed.

Lemma crateWorkItems_correct_witness :
  map wi_operatorId demo_items = [Some 1; Some 10; Some 4; Some 10; Some 12] /\
  exists order, NoDup order /\ (forall a, a ∈ order <-> reach (plan_store demo_plan) demo_root a) /\
    Forall2 (item_of (plan_store demo_plan) 77) order demo_items /\ deps_before demo_items.
Proof.
  split; [by vm_compute|].
  assert (crateWorkItems demo_plan 77 = Ok demo_items) as E by by vm_compute.
  pose proof (crateWorkItems_correct demo_plan demo_root 77 demo_root_ok demo_acyclic demo_root_lt) as H.
  rewrite E in H. exact H.
Defined.

(** C21: Parallel execution: when the item ids of a plan are distinct,
    [crateWorkItemsParallel] returns the same items grouped into levels, and
    every dependency of an item lies in a strictly lower level, so the levels
    can be run one after the other with the items of a level in parallel. *)
Theorem crateWorkItemsParallel_levels p root planId items : plan_root p = Some root ->
  acyclic (plan_store p) -> root < length (plan_store p) ->
  crateWorkItems p planId = Ok items -> NoDup (map wi_itemId items) ->
  exists levels, crateWorkItemsParallel p planId = Ok levels /\ concat levels ≡ₚ items /\
    forall l g wi d, levels !! l = Some g -> wi ∈ g -> d ∈ wi_dependsOn wi ->
      exists l' g' wd, l' < l /\ levels !! l' = Some g' /\ wd ∈ g' /\ wi_itemId wd = d.
Proof.
  intros Hr Hac Hlt Hi Hnd.
  destruct (crateWorkItems_items p root planId Hr Hac Hlt) as (order & _ & _ & Ht & _ & H).
  rewrite Hi in H. destruct (group_levels_ok items Hnd (items_deps_before _ _ _ _ Ht H)) as (res & Hg & Hp & Hd).
  exists res. rewrite /crateWorkItemsParallel Hi /=. split_and!; [done|done|].
  intros l g wi d Hl Hwi Hdd. by apply (proj2 (Hd l g wi Hl Hwi)).
Qed.

Lemma crateWorkItemsParallel_levels_witness : exists levels,
  crateWorkItemsParallel demo_plan 77 = Ok levels /\ concat levels ≡ₚ demo_items /\
  forall l g wi d, levels !! l = Some g -> wi ∈ g -> d ∈ wi_dependsOn wi ->
    exists l' g' wd, l' < l /\ levels !! l' = Some g' /\ wd ∈ g' /\ wi_itemId wd = d.
Proof.
  apply (crateWorkItemsParallel_levels demo_plan demo_root 77 demo_items demo_root_ok demo_acyclic demo_root_lt).
  - by vm_compute.
  - apply (bool_decide_eq_true_1 (NoDup _)). by vm_compute.
Defined.

(** The items are those of nodes in which whatever an item reads of the
    intermediate table is an output of an earlier node. *)
Definition dataflow_ok (itn : string) (items : list WorkItem) : Prop :=
  exists nodes, Forall2 (fun m wi => wi_itemId wi = to_uint32 (p_node_id m) /\ op_data m = Ok (wi_opData wi)) nodes items /\
    forall i m c, nodes !! i = Some m -> c ∈ consumed m -> table_name c = itn ->
      exists j k, j < i /\ nodes !! j = Some k /\ col_key c ∈ outs k.

Lemma executable_dataflow itn p planId items : executable itn p -> crateWorkItems p planId = Ok items -> dataflow_ok itn items.
Proof.
  intros H Hi. destruct (plan_root p) as [root|] eqn:Hr; [|by rewrite /crateWorkItems Hr in Hi].
  destruct (H root Hr) as [Hlt [Hac Hcl]].
  destruct (crateWorkItems_items p root planId Hr Hac Hlt) as (order & _ & _ & Ht & Hre & HF).
  rewrite Hi in HF. set (h := plan_store p) in *.
  destruct (mapM_in_store h order) as (nodes & Hnodes).
  { intros a Ha. eapply reach_in_store; [done|done|by apply Hre]. }
  exists nodes. split.
  - apply Forall2_same_length_lookup.
    split; [by rewrite -(Forall2_length _ _ _ Hnodes) (Forall2_length _ _ _ HF)|].
    intros i m wi Hm Hwi. destruct (Forall2_lookup_r _ _ _ _ _ Hnodes Hm) as (a & Ha & Hn). simpl in Hn.
    destruct (Forall2_lookup_lr _ _ _ _ _ _ HF Ha Hwi) as (m' & Hm' & Hd & _ & Hid & _).
    assert (m' = m) as -> by congruence. done.
  - intros i m c Hm Hc Htab. destruct (Forall2_lookup_r _ _ _ _ _ Hnodes Hm) as (a & Ha & Hn). simpl in Hn.
    destruct (Hcl a m c) as (b & k & Hb & Hk & Hkey); [apply Hre; by eapply list_elem_of_lookup_2|done..|].
    destruct (topo_child_before h order i a m b Ht Ha Hn Hb) as (j & Hj & Hjb).
    destruct (Forall2_lookup_l _ _ _ _ _ Hnodes Hjb) as (k' & Hk' & Hk2). simpl in Hk2.
    exists j, k. split_and!; [done|congruence|done].
Qed.



(** Colliding ids break the levels: the ids are drawn at random, and when
    two nodes of a plan draw the same id, an item can end up in the same level
    as an item it depends on.  Here a FILTER and the MATERIALIZE node above it
    share the id 5. *)
Theorem id_collision_breaks_levels : exists p items g wi,
  crateWorkItems p 77 = Ok items /\ crateWorkItemsParallel p 77 = Ok [[]; g] /\
  length g = 2 /\ wi ∈ g /\ exists d wd, d ∈ wi_dependsOn wi /\ wd ∈ g /\ wd <> wi /\ wi_itemId wd = d.
Proof.
  set (pos := Column3 "im" "i5" PTY.POSLIST).
  set (f := set_p_expression (eq_expr ["1993"]) (new_phys PNT.FILTER 5 [da "d_year"] [pos] [] None)).
  set (m := new_phys PNT.MATERIALIZE 5 [da "d_month"] [Column3 "im" "i6" PTY.INTEGER] [Some 0] (Some pos)).
  eexists (mkPlan (Some 1) [f; m]), _, _, _. split; [by vm_compute|]. split; [by vm_compute|].
  split; [done|]. split; [by apply elem_of_cons; right; apply elem_of_cons; left|].
  eexists _, _. split; [by apply elem_of_cons; left|]. split; [by apply elem_of_cons; left|]. done.
Qed.
