(* ===== verification/Engine.v ===== *)
(** * What the nodes of a physical plan compute

    The engine that runs physical plans is not part of the repository; this is
    the documented behaviour of the operators that translate the FROM, WHERE and
    ORDER BY clauses and of aggregates without GROUP BY.  Columns have contents
    ([cells]); a position list is a column of row numbers.  [node_exec env n]
    relates the contents of the columns a node reads to those it writes; it
    fixes neither the order in which a join, a filter or a set operation lists
    its positions, nor the order of rows that a sort does not distinguish, nor
    the contents of any other column.  [exec_node] is one engine that behaves
    like this. *)

From stdpp Require Import sorting.
From S2P Require Import Prelude PlanTypes LogicalSemantics PhysContext PostProcess ChainSemantics WorkItems.

(** ** Position lists *)

Definition positions (l : list nat) : list (option Z) := map (fun i => Some (Z.of_nat i)) l.

Definition decode (v : list (option Z)) : list nat :=
  omap (fun o => o ≫= fun z => if (z <? 0)%Z then None else Some (Z.to_nat z)) v.

Lemma decode_positions l : decode (positions l) = l.
Proof.
  induction l as [|i l IH]; [done|]. rewrite /decode /positions /=.
  rewrite (proj2 (Z.ltb_ge _ _)); [|lia]. rewrite Nat2Z.id. by f_equal.
Qed.

Lemma positions_length l : length (positions l) = length l.
Proof. apply length_map. Qed.

Lemma gather_positions vals l : gather vals (positions l) = map (fun i => mjoin (vals !! i)) l.
Proof.
  rewrite /gather /positions List.map_map. apply map_ext. intros i. cbn. rewrite /cell_at.
  rewrite (proj2 (Z.ltb_ge _ _)); [|lia]. by rewrite Nat2Z.id.
Qed.

(** Positions into a list of positions. *)
Lemma gather_index l k : (forall i, i ∈ k -> i < length l) ->
  gather (positions l) (positions k) = positions (map (fun i => l !!! i) k).
Proof.
  intros Hk. rewrite gather_positions /positions List.map_map. apply map_ext_in. intros i Hi%list_elem_of_In.
  rewrite list_lookup_fmap. destruct (lookup_lt_is_Some_2 l i (Hk i Hi)) as [x Hx].
  by rewrite Hx (list_lookup_total_correct l i x Hx).
Qed.

(** ** The operators *)
Section engine.
Context (D : engine Z).

Definition at_pos (v : list (option Z)) (i : nat) : option Z := mjoin (v !! i).

Definition passes (e : Expression) (cols : list (list (option Z))) (i : nat) : bool :=
  holds D e (map (fun v => at_pos v i) cols).

(** FILTER: the rows of its columns on which the condition holds. *)
Definition filter_sem (e : Expression) (cols : list (list (option Z))) (l : list nat) : Prop :=
  NoDup l /\ forall i, i ∈ l <-> i < length (default [] (head cols)) /\ passes e cols i = true.

(** HASHJOIN: the pairs of rows that match. *)
Definition join_sem (e : Expression) (inner outer : list (option Z)) (ps : list (nat * nat)) : Prop :=
  NoDup ps /\ forall i j, (i, j) ∈ ps <->
    i < length inner /\ j < length outer /\ holds D e [at_pos inner i; at_pos outer j] = true.

(** SETOPERATION on position lists. *)
Definition set_mem (op : PRO.PlanLogicalRelOp) (ins : list (list nat)) (i : nat) : bool :=
  match op, ins with
  | PRO.UNION, _ => existsb (fun v => bool_decide (i ∈ v)) ins
  | PRO.INTERSECTION, v :: vs => forallb (fun v => bool_decide (i ∈ v)) ins
  | PRO.NEGATION, v :: vs => bool_decide (i ∈ v) && forallb (fun v => negb (bool_decide (i ∈ v))) vs
  | _, [] => false
  end.

Definition set_sem (op : PRO.PlanLogicalRelOp) (ins : list (list nat)) (l : list nat) : Prop :=
  NoDup l /\ forall i, i ∈ l <-> set_mem op ins i = true.

(** MAP: the operation on every row of its columns. *)
Definition map_rows (op : PAO.PlanArithOp) (cols : list (list (option Z))) : list (option Z) :=
  map (fun i => arith D op (map (fun v => at_pos v i) cols)) (seq 0 (length (default [] (head cols)))).

(** SORT: the first key decides, then the next; [true] is ascending. *)
Fixpoint keys_leq (dirs : list bool) (xs ys : list (option Z)) : bool :=
  match dirs, xs, ys with
  | asc :: dirs, x :: xs, y :: ys =>
      let le := if asc then leq D x y else leq D y x in
      let ge := if asc then leq D y x else leq D x y in
      le && (negb ge || keys_leq dirs xs ys)
  | _, _, _ => true
  end.

Definition row_leq (dirs : list bool) (cols : list (list (option Z))) (i j : nat) : Prop :=
  keys_leq dirs (map (fun v => at_pos v i) cols) (map (fun v => at_pos v j) cols) = true.

Definition sort_sem (dirs : list bool) (cols : list (list (option Z))) (l : list nat) : Prop :=
  l ≡ₚ seq 0 (length (default [] (head cols))) /\ Sorted (row_leq dirs cols) l.

(** The order of values is total. *)
Definition leq_total : Prop := forall x y, leq D x y = false -> leq D y x = true.

Definition contents (env : string -> list (option Z)) (c : Column) : list (option Z) := env (col_key c).

Definition node_exec (env : string -> list (option Z)) (n : PhysicalPlanNode) : Prop :=
  let ins := map (contents env) (p_base_columns n) in
  match p_node_type n, p_base_columns n, p_result_columns n with
  | PNT.MATERIALIZE, [c], [r] =>
      forall p, p_index n = Some p -> contents env r = gather (contents env c) (contents env p)
  | PNT.FILTER, _, [r] => exists l, contents env r = positions l /\ filter_sem (p_expression n) ins l
  | PNT.HASHJOIN, [inner; outer], rs =>
      exists ps, join_sem (p_expression n) (contents env inner) (contents env outer) ps /\
        match rs with
        | [ri; ro] => contents env ri = positions (map fst ps) /\ contents env ro = positions (map snd ps)
        | [r] => contents env r = positions (map (if last2 (column_name r) =s "_i" then fst else snd) ps)
        | _ => True
        end
  | PNT.SETOPERATION, _, [r] =>
      exists l, contents env r = positions l /\
        forall op, logical_rel_op (p_expression n) = Some op -> set_sem op (map decode ins) l
  | PNT.MAP, _, [r] =>
      forall op, arith_op (p_expression n) = Some op -> contents env r = map_rows op ins
  | PNT.AGGREGATE, [c], [r] =>
      forall sp, p_index n = None -> head (agg_specs (p_expression n)) = Some sp ->
        contents env r = [aggregate D (func sp) (contents env c)]
  | PNT.SORT, _, [r] =>
      exists l, contents env r = positions l /\ sort_sem (default [] (sort_order (p_expression n))) ins l
  | _, _, _ => True
  end.

Definition runs_plan (env : string -> list (option Z)) (h : list PhysicalPlanNode) : Prop := Forall (node_exec env) h.

Lemma runs_plan_prefix env h h' : h `prefix_of` h' -> runs_plan env h' -> runs_plan env h.
Proof. intros [k ->]. rewrite /runs_plan Forall_app. tauto. Qed.

Lemma runs_plan_lookup env h a n : runs_plan env h -> h !! a = Some n -> node_exec env n.
Proof. intros H. by apply Forall_lookup_1. Qed.

(** The MATERIALIZE nodes are those of [ChainSemantics]. *)
Lemma runs_plan_executes env h : runs_plan env h -> executes env h.
Proof.
  intros H a n c p r Hn Hty Hc Hp Hr. pose proof (runs_plan_lookup env h a n H Hn) as He.
  rewrite /node_exec Hty Hc Hr in He. exact (He p Hp).
Qed.

(** ** One engine *)

Definition filter_rows (e : Expression) (cols : list (list (option Z))) : list nat :=
  List.filter (passes e cols) (seq 0 (length (default [] (head cols)))).

Definition join_rows (e : Expression) (inner outer : list (option Z)) : list (nat * nat) :=
  List.filter (fun ij => holds D e [at_pos inner ij.1; at_pos outer ij.2])
    (i ← seq 0 (length inner); pair i <$> seq 0 (length outer)).

Definition set_rows (op : PRO.PlanLogicalRelOp) (ins : list (list nat)) : list nat :=
  List.filter (set_mem op ins) (remove_dups (concat ins)).

#[local] Instance row_leq_dec dirs cols i j : Decision (row_leq dirs cols i j).
Proof. rewrite /row_leq. apply _. Defined.

Definition sort_rows (dirs : list bool) (cols : list (list (option Z))) : list nat :=
  merge_sort (row_leq dirs cols) (seq 0 (length (default [] (head cols)))).

Definition write (k : string) (v : list (option Z)) (env : string -> list (option Z)) : string -> list (option Z) :=
  fun x => if x =s k then v else env x.

Definition exec_node (env : string -> list (option Z)) (n : PhysicalPlanNode) : string -> list (option Z) :=
  let ins := map (contents env) (p_base_columns n) in
  match p_node_type n, p_base_columns n, p_result_columns n with
  | PNT.MATERIALIZE, [c], [r] =>
      match p_index n with Some p => write (col_key r) (gather (contents env c) (contents env p)) env | None => env end
  | PNT.FILTER, _, [r] => write (col_key r) (positions (filter_rows (p_expression n) ins)) env
  | PNT.HASHJOIN, [inner; outer], rs =>
      let ps := join_rows (p_expression n) (contents env inner) (contents env outer) in
      match rs with
      | [ri; ro] => write (col_key ro) (positions (map snd ps)) (write (col_key ri) (positions (map fst ps)) env)
      | [r] => write (col_key r) (positions (map (if last2 (column_name r) =s "_i" then fst else snd) ps)) env
      | _ => env
      end
  | PNT.SETOPERATION, _, [r] =>
      match logical_rel_op (p_expression n) with
      | Some op => write (col_key r) (positions (set_rows op (map decode ins))) env
      | None => write (col_key r) [] env
      end
  | PNT.MAP, _, [r] =>
      match arith_op (p_expression n) with Some op => write (col_key r) (map_rows op ins) env | None => env end
  | PNT.AGGREGATE, [c], [r] =>
      match p_index n, agg_specs (p_expression n) with
      | None, sp :: _ => write (col_key r) [aggregate D (func sp) (contents env c)] env
      | _, _ => env
      end
  | PNT.SORT, _, [r] => write (col_key r) (positions (sort_rows (default [] (sort_order (p_expression n))) ins)) env
  | _, _, _ => env
  end.

Definition run_plan (env : string -> list (option Z)) (h : list PhysicalPlanNode) : string -> list (option Z) :=
  fold_left exec_node h env.

Lemma filter_rows_sem e cols : filter_sem e cols (filter_rows e cols).
Proof.
  split; [apply NoDup_ListNoDup, List.NoDup_filter, NoDup_ListNoDup, NoDup_seq|]. intros i.
  rewrite /filter_rows list_elem_of_In filter_In in_seq. split; intros [? ?]; (split; [lia|done]).
Qed.

Lemma join_rows_sem e v w : join_sem e v w (join_rows e v w).
Proof.
  split.
  - apply NoDup_ListNoDup, List.NoDup_filter, NoDup_ListNoDup. apply NoDup_bind; [|intros i _|apply NoDup_seq].
    + intros i j [a b] _ _ (? & [= -> ->] & _)%list_elem_of_fmap (? & [= -> _] & _)%list_elem_of_fmap. done.
    + apply NoDup_fmap; [by intros ?? [= ->]|apply NoDup_seq].
  - intros i j. rewrite /join_rows list_elem_of_In filter_In -list_elem_of_In list_elem_of_bind /=.
    setoid_rewrite list_elem_of_fmap. setoid_rewrite elem_of_seq. split.
    + intros [(i' & (j' & [= -> ->] & ?) & ?) ?]. split_and!; [lia|lia|done].
    + intros (? & ? & ?). split; [|done]. exists i. split; [|lia]. exists j. split; [done|lia].
Qed.

Lemma set_mem_concat op ins i : set_mem op ins i = true -> i ∈ concat ins.
Proof.
  rewrite list_elem_of_In in_concat. destruct op, ins as [|v vs]; try done; cbn [set_mem].
  - rewrite existsb_exists. intros (w & Hw & Hi%bool_decide_eq_true). exists w. split; [done|by apply list_elem_of_In].
  - rewrite forallb_forall. intros H. exists v. split; [by left|]. apply list_elem_of_In.
    apply (bool_decide_eq_true_1 _), H. by left.
  - rewrite andb_true_iff. intros [Hi%bool_decide_eq_true _]. exists v. split; [by left|by apply list_elem_of_In].
Qed.

Lemma set_rows_sem op ins : set_sem op ins (set_rows op ins).
Proof.
  split; [apply NoDup_ListNoDup, List.NoDup_filter, NoDup_ListNoDup, NoDup_remove_dups|]. intros i.
  rewrite /set_rows list_elem_of_In filter_In -list_elem_of_In elem_of_remove_dups. split; [by intros [_ ?]|].
  intros H. split; [by eapply set_mem_concat|done].
Qed.

Lemma keys_leq_total dirs : leq_total -> forall xs ys, keys_leq dirs xs ys = false -> keys_leq dirs ys xs = true.
Proof.
  intros Ht. induction dirs as [|asc dirs IH]; intros [|x xs] [|y ys]; cbn [keys_leq]; try done.
  set (le := if asc then leq D x y else leq D y x). set (ge := if asc then leq D y x else leq D x y).
  assert (le = false -> ge = true) as Hle by (destruct asc; apply Ht).
  destruct le, ge; simpl; try done; by [apply IH|specialize (Hle eq_refl)].
Qed.

Lemma sort_rows_sem dirs cols : leq_total -> sort_sem dirs cols (sort_rows dirs cols).
Proof.
  intros Ht. split; [apply merge_sort_Permutation|]. apply Sorted_merge_sort. intros i j.
  destruct (decide (row_leq dirs cols i j)) as [|Hn]; [by left|right]. apply keys_leq_total; [done|]. by apply not_true_is_false.
Qed.

(** ** A run obeys every node *)

(** The keys a node reads and writes. *)
Definition reads (n : PhysicalPlanNode) : list string := map col_key (p_base_columns n ++ option_list (p_index n)).

Definition writes (n : PhysicalPlanNode) : list string :=
  match p_node_type n with
  | PNT.MATERIALIZE | PNT.FILTER | PNT.HASHJOIN | PNT.SETOPERATION | PNT.MAP | PNT.AGGREGATE | PNT.SORT =>
      map col_key (p_result_columns n)
  | _ => []
  end.

Definition writes_of (h : list PhysicalPlanNode) : list string := h ≫= writes.

(** Every key is written once, and never after it was read. *)
Fixpoint single_assignment (h : list PhysicalPlanNode) : bool :=
  match h with
  | [] => true
  | n :: h =>
      bool_decide (NoDup (writes n)) && bool_decide (Forall (fun k => k ∉ writes_of h) (writes n)) &&
      bool_decide (Forall (fun k => k ∉ writes n ++ writes_of h) (reads n)) && single_assignment h
  end.

Lemma write_eq k v env : write k v env k = v.
Proof. by rewrite /write String.eqb_refl. Qed.
Lemma write_ne k k' v env : k' <> k -> write k v env k' = env k'.
Proof. intros Hne. by rewrite /write (proj2 (String.eqb_neq _ _) Hne). Qed.

Lemma exec_other env n k : k ∉ writes n -> exec_node env n k = env k.
Proof.
  rewrite /exec_node /writes. destruct (p_node_type n); try done; destruct (p_base_columns n) as [|? [|? [|? ?]]];
    destruct (p_result_columns n) as [|? [|? [|? ?]]]; try done; cbn [map];
    rewrite ?not_elem_of_cons; intros Hk; repeat case_match; rewrite ?write_ne //; tauto.
Qed.

Lemma run_plan_other env h k : k ∉ writes_of h -> run_plan env h k = env k.
Proof.
  rewrite /run_plan. revert env. induction h as [|n h IH]; intros env Hk; [done|]. cbn in Hk |- *.
  rewrite not_elem_of_app in Hk. rewrite IH ?exec_other //; tauto.
Qed.

(** A node looks at nothing else. *)
Lemma node_exec_ext env env' n : (forall k, k ∈ reads n \/ k ∈ writes n -> env' k = env k) -> node_exec env n -> node_exec env' n.
Proof.
  intros He. assert (forall c, c ∈ p_base_columns n -> contents env' c = contents env c) as Hb.
  { intros c Hc. apply He. left. rewrite /reads list_elem_of_fmap. exists c. set_solver. }
  assert (map (contents env') (p_base_columns n) = map (contents env) (p_base_columns n)) as Hm.
  { apply map_ext_in. intros c Hc%list_elem_of_In. by apply Hb. }
  assert (forall p, p_index n = Some p -> contents env' p = contents env p) as Hp.
  { intros p Hp. apply He. left. rewrite /reads list_elem_of_fmap. exists p. rewrite Hp. set_solver. }
  assert (writes n = map col_key (p_result_columns n) -> forall c, c ∈ p_result_columns n -> contents env' c = contents env c) as Hr.
  { intros Hw c Hc. apply He. right. rewrite Hw. by apply list_elem_of_fmap_2. }
  rewrite /node_exec Hm. rewrite /writes in Hr. destruct (p_node_type n); try done.
  - destruct (p_result_columns n) as [|r []]; try done. rewrite Hr; [|done|set_solver]. done.
  - destruct (p_base_columns n) as [|v [|w []]]; try done. intros (ps & Hj & Hrs). exists ps. rewrite !Hb; [|set_solver..]. split; [done|].
    destruct (p_result_columns n) as [|r1 [|r2 []]]; try done; rewrite !Hr; (done || set_solver).
  - destruct (p_base_columns n) as [|v []]; try done. destruct (p_result_columns n) as [|r []]; try done.
    rewrite Hr; [|done|set_solver]. rewrite Hb; [|set_solver]. done.
  - destruct (p_result_columns n) as [|r []]; try done. rewrite Hr; [|done|set_solver]. done.
  - destruct (p_result_columns n) as [|r []]; try done. rewrite Hr; [|done|set_solver]. done.
  - destruct (p_result_columns n) as [|r []]; try done. rewrite Hr; [|done|set_solver]. done.
  - destruct (p_base_columns n) as [|v []]; try done. destruct (p_result_columns n) as [|r []]; try done.
    intros Hx p Hpi. rewrite Hr; [|done|set_solver]. rewrite Hb; [|set_solver]. rewrite Hp //. by apply Hx.
Qed.

Lemma exec_node_ok env n : leq_total -> NoDup (writes n) -> (forall k, k ∈ reads n -> k ∉ writes n) -> node_exec (exec_node env n) n.
Proof.
  intros Htot Hnd Hrw.
  assert (forall c, c ∈ p_base_columns n -> contents (exec_node env n) c = contents env c) as Hb.
  { intros c Hc. apply exec_other, Hrw. rewrite /reads list_elem_of_fmap. exists c. set_solver. }
  assert (map (contents (exec_node env n)) (p_base_columns n) = map (contents env) (p_base_columns n)) as Hm.
  { apply map_ext_in. intros c Hc%list_elem_of_In. by apply Hb. }
  assert (forall p, p_index n = Some p -> contents (exec_node env n) p = contents env p) as Hp.
  { intros p Hp. apply exec_other, Hrw. rewrite /reads list_elem_of_fmap. exists p. rewrite Hp. set_solver. }
  clear Hrw. rewrite /node_exec Hm. destruct (p_node_type n) eqn:Hty; try done.
  - destruct (p_result_columns n) as [|r []] eqn:Hr; try done. eexists. split; [|apply filter_rows_sem].
    rewrite /contents /exec_node Hty Hr write_eq //.
  - destruct (p_base_columns n) as [|v [|w []]] eqn:Hbc; try done. eexists. rewrite !Hb; [|set_solver..]. split; [apply join_rows_sem|].
    destruct (p_result_columns n) as [|r1 [|r2 []]] eqn:Hr; try done; rewrite /contents /exec_node Hty Hbc Hr.
    + by rewrite write_eq.
    + rewrite write_eq write_ne ?write_eq //. rewrite /writes Hty Hr /= in Hnd. apply NoDup_cons in Hnd as [Hnd _].
      intros He. apply Hnd, list_elem_of_singleton. done.
  - destruct (p_base_columns n) as [|v []] eqn:Hbc; try done. destruct (p_result_columns n) as [|r []] eqn:Hr; try done.
    intros sp Hi Hsp. rewrite (Hb v); [|set_solver]. rewrite /contents /exec_node Hty Hbc Hr Hi.
    destruct (agg_specs (p_expression n)) as [|sp' specs]; [done|]. injection Hsp as ->. by rewrite write_eq.
  - destruct (p_result_columns n) as [|r []] eqn:Hr; try done. destruct (logical_rel_op (p_expression n)) as [op|] eqn:Hop.
    + exists (set_rows op (map decode (map (contents env) (p_base_columns n)))). split; [|intros op' [= <-]; apply set_rows_sem].
      rewrite /contents /exec_node Hty Hr Hop write_eq //.
    + exists []. split; [|done]. rewrite /contents /exec_node Hty Hr Hop write_eq //.
  - destruct (p_result_columns n) as [|r []] eqn:Hr; try done. eexists. split; [|by apply sort_rows_sem].
    rewrite /contents /exec_node Hty Hr write_eq //.
  - destruct (p_result_columns n) as [|r []] eqn:Hr; try done. intros op Hop.
    rewrite /contents /exec_node Hty Hr Hop write_eq //.
  - destruct (p_base_columns n) as [|v []] eqn:Hbc; try done. destruct (p_result_columns n) as [|r []] eqn:Hr; try done.
    intros p Hpi. rewrite (Hb v); [|set_solver]. rewrite (Hp p Hpi) /contents /exec_node Hty Hbc Hr Hpi write_eq //.
Qed.

(** Running a plan in which every key is written once gives contents that obey
    all of its nodes. *)
Lemma run_plan_runs env h : leq_total -> single_assignment h = true -> runs_plan (run_plan env h) h.
Proof.
  intros Ht. revert env. induction h as [|n h IH]; intros env; cbn [single_assignment]; [constructor|].
  rewrite !andb_true_iff. intros [[[Hnd%bool_decide_eq_true Hw%bool_decide_eq_true] Hr%bool_decide_eq_true] Hs].
  rewrite Forall_forall in Hw. rewrite Forall_forall in Hr. constructor; [|by apply IH].
  apply (node_exec_ext (exec_node env n)).
  - intros k Hk. change (run_plan env (n :: h)) with (run_plan (exec_node env n) h). apply run_plan_other.
    destruct Hk as [Hk%Hr|Hk%Hw]; [|done]. set_solver.
  - apply exec_node_ok; [done|done|]. intros k Hk%Hr. set_solver.
Qed.

Lemma write_ext k0 v env1 env2 k : k = k0 \/ env1 k = env2 k -> write k0 v env1 k = write k0 v env2 k.
Proof. intros Hk. rewrite /write. destruct (String.eqb_spec k k0); [done|]. by destruct Hk. Qed.

(** What a node writes depends on what it reads only. *)
Lemma exec_node_ext env1 env2 n k : (forall x, x ∈ reads n -> env1 x = env2 x) -> env1 k = env2 k -> exec_node env1 n k = exec_node env2 n k.
Proof.
  intros Hr Hk. assert (forall c, c ∈ p_base_columns n -> contents env1 c = contents env2 c) as Hb.
  { intros c Hc. apply Hr. rewrite /reads list_elem_of_fmap. exists c. set_solver. }
  assert (map (contents env1) (p_base_columns n) = map (contents env2) (p_base_columns n)) as Hm.
  { apply map_ext_in. intros c Hc%list_elem_of_In. by apply Hb. }
  assert (forall p, p_index n = Some p -> contents env1 p = contents env2 p) as Hp.
  { intros p Hp. apply Hr. rewrite /reads list_elem_of_fmap. exists p. rewrite Hp. set_solver. }
  rewrite /exec_node Hm. destruct (p_node_type n); try done.
  - destruct (p_result_columns n) as [|r []]; try done. apply write_ext. by right.
  - destruct (p_base_columns n) as [|v [|w []]]; try done. rewrite (Hb v) ?(Hb w); [|set_solver..].
    destruct (p_result_columns n) as [|r1 [|r2 []]]; try done; repeat (apply write_ext; right); done.
  - destruct (p_base_columns n) as [|v []]; try done. destruct (p_result_columns n) as [|r []]; try done.
    rewrite (Hb v); [|set_solver]. repeat case_match; (done || apply write_ext; by right).
  - destruct (p_result_columns n) as [|r []]; try done. case_match; apply write_ext; by right.
  - destruct (p_result_columns n) as [|r []]; try done. apply write_ext. by right.
  - destruct (p_result_columns n) as [|r []]; try done. case_match; [apply write_ext; by right|done].
  - destruct (p_base_columns n) as [|v []]; try done. destruct (p_result_columns n) as [|r []]; try done.
    destruct (p_index n) as [p|]; [|done]. rewrite (Hb v) ?(Hp p eq_refl); [|set_solver]. apply write_ext. by right.
Qed.

End engine.
