(* ===== verification/RelInvariant.v ===== *)
(** * The rows a state of the optimizer stands for

    While the optimizer translates a tree of scans, filters and joins, the
    position lists it has chained for a table stand for the rows of that table
    in the intermediate result.  [Rel s rho]: in state [s] the chain of each
    table [t] that was translated stands for the rows [rho !! t], and the cached
    columns are valid.  [ensureMaterialized] keeps [Rel] and returns a column
    that holds exactly the cells of these rows, in both strategies. *)

From S2P Require Import Prelude PlanTypes LogicalSemantics PhysContext Materialization PhysicalOptimizer PostProcess.
From S2P Require Import PhysicalInvariant MaterializationInv ChainSemantics WorkItems Engine.

(** ** Operations that only extend the store *)

Definition grows {A} (m : ST opt_state A) : Prop := forall s a s', m s = Ok (a, s') -> os_heap s `prefix_of` os_heap s'.

Create HintDb grows.

Lemma grows_ret {A} (a : A) : grows (mret a).
Proof. by intros s b s' [= _ <-]. Qed.
Lemma grows_raise {A} e : grows (raise e : ST opt_state A).
Proof. by intros s b s'. Qed.
Lemma grows_lift {A} (r : result A) : grows (lift r).
Proof. intros s b s'. rewrite /lift. destruct r; [|done]. by intros [= _ <-]. Qed.
Lemma grows_bind {A B} (m : ST opt_state A) (f : A -> ST opt_state B) : grows m -> (forall a, grows (f a)) -> grows (m ≫= f).
Proof. intros Hm Hf s b s' (a & s1 & H1 & H2)%ST_bind_ok. etrans; [by eapply Hm|by eapply Hf]. Qed.
Lemma grows_get : grows get_ctx.
Proof. by intros s b s' [= _ <-]. Qed.
Lemma grows_upd f : grows (upd_ctx f).
Proof. by intros s b s' [= _ <-]. Qed.
Lemma grows_next rnd : grows (nextIntermediateName rnd).
Proof. by intros s b s' [= _ <-]. Qed.
Lemma grows_load a : grows (load a).
Proof. intros s b s'. rewrite /load. case_match; [|done]. by intros [= _ <-]. Qed.
Lemma grows_alloc n : grows (alloc n).
Proof. intros s b s' [= _ <-]. by exists [n]. Qed.
Lemma grows_mapM_in {A B} (f : A -> ST opt_state B) l : (forall x, x ∈ l -> grows (f x)) -> grows (mapM f l).
Proof.
  intros Hf. induction l as [|x l IH]; simpl; [apply grows_ret|]. apply grows_bind; [apply Hf; set_solver|]. intros ?.
  apply grows_bind; [apply IH; set_solver|]. intros ?. apply grows_ret.
Qed.
Lemma grows_mapM {A B} (f : A -> ST opt_state B) l : (forall x, grows (f x)) -> grows (mapM f l).
Proof. intros Hf. by apply grows_mapM_in. Qed.

#[export] Hint Resolve grows_ret grows_raise grows_lift grows_get grows_upd grows_next grows_load grows_alloc : grows.

Ltac grows_step :=
  first [ solve [auto with grows] | apply grows_bind; [|intros ?] | case_match ].
Ltac grows_tac := repeat grows_step.

Section grow.
Variable rnd : nat -> Z.

Lemma grows_has_type o ty : grows (has_type o ty).
Proof. rewrite /has_type. grows_tac. Qed.
#[local] Hint Resolve grows_has_type : grows.
Lemma grows_create c p chs : grows (createMaterializeNode rnd c p chs).
Proof. rewrite /createMaterializeNode. grows_tac. Qed.
#[local] Hint Resolve grows_create : grows.
Lemma grows_map_chain t rest : forall prev, grows (map_chain rnd t prev rest).
Proof. induction rest as [|cur rest IH]; intros prev; simpl; [grows_tac|]. rewrite /map_poslist. grows_tac. Qed.
#[local] Hint Resolve grows_map_chain : grows.
Lemma grows_chain_loop chain : forall i cur, grows (chain_loop rnd chain i cur).
Proof. induction chain as [|p chain IH]; intros i cur; simpl; grows_tac. Qed.
#[local] Hint Resolve grows_chain_loop : grows.
Lemma grows_isBase i : grows (isBaseTableChainMaterialization i).
Proof. rewrite /isBaseTableChainMaterialization. grows_tac. Qed.
#[local] Hint Resolve grows_isBase : grows.
Lemma grows_ensure c : grows (ensureMaterialized rnd c).
Proof. rewrite /ensureMaterialized /ensureMaterializedOptimized. grows_tac. Qed.
Lemma grows_fresh suffix ty : grows (fresh_col rnd suffix ty).
Proof. rewrite /fresh_col. grows_tac. Qed.
End grow.

#[export] Hint Resolve grows_has_type grows_create grows_map_chain grows_chain_loop grows_isBase grows_ensure grows_fresh : grows.

(** ** What [ensureMaterialized] leaves alone *)

Record keeps (x x' : TransformContext) : Prop := {
  keep_mode : optimize_chains x' = optimize_chains x;
  keep_int : intermediate_results x' = intermediate_results x;
  keep_proj : ctx_projected x' = ctx_projected x;
}.

Lemma keeps_refl x : keeps x x.
Proof. done. Qed.
Lemma keeps_trans x y z : keeps x y -> keeps y z -> keeps x z.
Proof. intros [] []. split; congruence. Qed.

Section frame.
Variable rnd : nat -> Z.

Lemma map_chain_frame t rest : forall prev s rest' s', map_chain rnd t prev rest s = Ok (rest', s') ->
  keeps (os_ctx s) (os_ctx s') /\ table_poslist_chain (os_ctx s') = table_poslist_chain (os_ctx s).
Proof.
  induction rest as [|cur rest IH]; intros prev s rest' s' H; cbn [map_chain] in H; [inv_ok; done|].
  apply ST_bind_ok in H as (cur' & s1 & H1 & H). apply ST_bind_ok in H as (r & s2 & H2 & H). injection H as <- <-.
  apply IH in H2 as [Hk Ht]. rewrite /map_poslist in H1.
  apply ST_bind_ok in H1 as (b1 & s3 & Hb1 & H1). apply has_type_sem in Hb1 as [-> _].
  apply ST_bind_ok in H1 as (b2 & s3 & Hb2 & H1). apply has_type_sem in Hb2 as [-> _].
  destruct (b1 || b2); injection H1 as <- <-; [|done]. rewrite Ht.
  split; [|done]. eapply keeps_trans; [|exact Hk]. done.
Qed.

Lemma chained_frame c s i c' s' : optimize_chains (os_ctx s) = false -> lookupIntermediateResult c (os_ctx s) = None ->
  ensureMaterialized rnd c s = Ok ((i, c'), s') -> keeps (os_ctx s) (os_ctx s') /\
  table_poslist_chain (os_ctx s') = <[table_name c := chain_of s c]> (table_poslist_chain (os_ctx s)) /\
  materialized_columns (os_ctx s') = <[col_key c := i]> (materialized_columns (os_ctx s)).
Proof.
  intros Hoc Hlk H. rewrite /ensureMaterialized in H.
  apply ST_bind_ok in H as (ctx & s0 & [= <- <-] & H). rewrite Hoc Hlk in H.
  apply ST_bind_ok in H as ([] & s1 & [= <-] & H). apply ST_bind_ok in H as (i1 & s2 & Hl & H). injection H as <- <- <-.
  case_match; [apply (chain_loop_sem _ (fun _ => [])) in Hl as (-> & _)|injection Hl as _ <-]; done.
Qed.

Lemma optimized_frame c s first rest i c' s' : optimize_chains (os_ctx s) = true ->
  lookupIntermediateResult c (os_ctx s) = None -> chain_of s c = first :: rest ->
  (forall p, p ∈ rest -> in_store (os_heap s) (pos_producer p)) ->
  ensureMaterialized rnd c s = Ok ((i, c'), s') -> keeps (os_ctx s) (os_ctx s') /\ exists rest',
  table_poslist_chain (os_ctx s') = <[table_name c := first :: rest']> (table_poslist_chain (os_ctx s)) /\
  (forall p, p ∈ rest' -> in_store (os_heap s') (pos_producer p)) /\
  (materialized_columns (os_ctx s') = materialized_columns (os_ctx s) \/
   materialized_columns (os_ctx s') = <[col_key c := i]> (materialized_columns (os_ctx s)) /\
   base_chain (os_heap s') i = true /\ in_store (os_heap s') (mat_producer i) /\ chain_index i = Z.of_nat (length rest)).
Proof.
  intros Hoc Hlk Hch Hin H. rewrite /ensureMaterialized in H.
  apply ST_bind_ok in H as (ctx & s0 & [= <- <-] & H). rewrite Hoc in H. rewrite /ensureMaterializedOptimized in H.
  apply ST_bind_ok in H as (ctx & s0 & [= <- <-] & H). rewrite Hlk in H.
  rewrite /chain_of in Hch. destruct (table_poslist_chain (os_ctx s) !! table_name c) as [l|]; [|done].
  simpl in Hch. subst l. apply ST_bind_ok in H as (rest' & s1 & Hmap & H).
  pose proof (map_chain_frame _ _ _ _ _ _ Hmap) as [Hk1 Ht1].
  apply (map_chain_sem _ (fun _ => [])) in Hmap as (_ & _ & Hm1 & Hlen & Hi1 & _); [|done].
  apply ST_bind_ok in H as ([] & s2 & [= <-] & H). apply ST_bind_ok in H as (ctx & s3 & [= <- <-] & H).
  apply ST_bind_ok in H as (reuse & s3 & Hr & H).
  assert (s3 = set_ctx (set_chain (<[table_name c:=first :: rest']> (table_poslist_chain (os_ctx s1))) (os_ctx s1)) s1) as ->.
  { simpl in Hr. destruct (materialized_columns (os_ctx s1) !! col_key c); [|by injection Hr as _ <-]. apply ST_bind_ok in Hr as (b & s4 & Hb & Hr).
    apply isBase_sem in Hb as [-> _]. by injection Hr as _ <-. }
  split; [|exists rest']; destruct reuse as [i0|].
  - injection H as _ _ <-. destruct Hk1. by split.
  - apply ST_bind_ok in H as ([a out] & s4 & Hn & H).
    apply (createMaterializeNode_sem _ (fun _ => [])) in Hn as (Hc & _). injection H as _ _ <-. rewrite Hc.
    destruct Hk1. by split.
  - injection H as _ _ <-. simpl. rewrite Ht1. eauto.
  - apply ST_bind_ok in H as ([a out] & s4 & Hn & H). rewrite /createMaterializeNode in Hn. injection Hn as <- <- <-.
    injection H as <- _ <-. simpl. rewrite Ht1 Hm1. split_and!; [done| |].
    + intros p Hp. eapply in_store_mono; [by eexists|by apply Hi1].
    + right. split_and!; [done|by rewrite /base_chain /= lookup_app_r // Nat.sub_diag| |lia].
      intros b [= <-]. rewrite length_app /=. lia.
Qed.

End frame.

(** ** The relation *)

Definition no_char (x : ascii) (s : string) : bool := forallb (fun a => negb (Ascii.eqb x a)) (String.list_ascii_of_string s).

(** The separator [x], or the end of the string. *)
Definition stops (x : ascii) (s : string) : bool := match s with EmptyString => true | String y _ => Ascii.eqb x y end.

(** The part before the separator. *)
Lemma split_at x a b s1 s2 : no_char x a = true -> no_char x b = true -> stops x s1 = true -> stops x s2 = true ->
  a +:+ s1 = b +:+ s2 -> a = b.
Proof.
  rewrite /no_char. revert b. induction a as [|y a IH]; intros [|z b]; cbn [String.list_ascii_of_string forallb]; [done| | |].
  - intros _ [Hz _]%andb_true_iff H1 _ He. change (s1 = String z (b +:+ s2)) in He. subst s1. cbn in H1. by rewrite H1 in Hz.
  - intros [Hy _]%andb_true_iff _ _ H2 He. change (String y (a +:+ s1) = s2) in He. subst s2. cbn in H2. by rewrite H2 in Hy.
  - intros [_ Ha]%andb_true_iff [_ Hb]%andb_true_iff H1 H2 [= -> He]. f_equal. by apply IH.
Qed.

Definition no_dot : string -> bool := no_char "."%char.

Lemma key_table t1 t2 c1 c2 : no_dot t1 = true -> no_dot t2 = true ->
  t1 +:+ "." +:+ c1 = t2 +:+ "." +:+ c2 -> t1 = t2.
Proof. intros H1 H2. by apply (split_at "."%char). Qed.

(** The table and the column of a key. *)
Fixpoint key_split (k : string) : string * string :=
  match k with
  | EmptyString => ("", "")
  | String x k => if Ascii.eqb "."%char x then ("", k) else let '(t, c) := key_split k in (String x t, c)
  end.

Lemma key_split_key t c : no_dot t = true -> key_split (t +:+ "." +:+ c) = (t, c).
Proof.
  rewrite /no_dot. induction t as [|a t IH]; [done|]. intros [Ha%negb_true_iff Ht]%andb_true_iff.
  change (key_split (String a t +:+ "." +:+ c)) with (if Ascii.eqb "."%char a then ("", t +:+ "." +:+ c)
    else let '(x, y) := key_split (t +:+ "." +:+ c) in (String a x, y)). by rewrite Ha IH.
Qed.

Section rel.
Context (D : engine Z) (env : string -> list (option Z)) (rnd : nat -> Z) (oc : bool).
(** The stored tables. *)
Variable base : gset string.
(** The store of the finished plan, which [env] executes. *)
Variable H : list PhysicalPlanNode.
(** The derived columns registered so far. *)
Variable ints : gmap string MaterializedInfo.

(** The contents of the base columns. *)
Definition base_cells (t c : string) : list (option Z) := map (fun i => Some (cell D t c i)) (seq 0 (nrows D t)).

Definition stored : Prop := forall t, t ∈ base -> t <> "" /\ no_dot t = true /\
  forall c, env (t +:+ "." +:+ c) = base_cells t c.

(** One way to store all tables. *)
Definition tables_env (k : string) : list (option Z) := let '(t, c) := key_split k in base_cells t c.

Definition small (h : list PhysicalPlanNode) : Prop := (Z.of_nat (length h) < 2 ^ 31)%Z.

Definition chain_at (s : opt_state) (t : string) : list PosListInfo := default [] (table_poslist_chain (os_ctx s) !! t).

(** The rows of table [t] its chain stands for. *)
Definition chain_rows (t : string) (chain : list PosListInfo) : list (option Z) :=
  match chain with
  | [] => positions (seq 0 (nrows D t))
  | first :: rest =>
      let p := env (col_key (poslist_col first)) in
      if oc then rowmap env H p rest else through env p rest
  end.

Definition cache_ok (h : list PhysicalPlanNode) (c : Column) (chain : list PosListInfo) (i : MaterializedInfo) : Prop :=
  if oc then
    base_chain h i = true /\ in_store h (mat_producer i) /\ (chain_index i < Z.of_nat (length chain))%Z /\ chain <> [] /\
    (chain_index i = Z.of_nat (length chain) - 1 -> contents env (mat_col i) = gather (contents env c) (chain_rows (table_name c) chain))%Z
  else cache_through env c chain i.

(** [opn]: tables that are being translated, about whose chain nothing is
    said. *)
Record Rel (opn : gset string) (s : opt_state) (rho : string -> option (list nat)) : Prop := {
  rel_mode : optimize_chains (os_ctx s) = oc;
  rel_int : intermediate_results (os_ctx s) = ints;
  rel_len : forall t, length (chain_at s t) <= length (os_heap s);
  rel_store : forall t p, p ∈ chain_at s t -> in_store (os_heap s) (pos_producer p);
  rel_rows : forall t l, rho t = Some l -> t ∈ base /\ (forall i, i ∈ l -> i < nrows D t) /\
    chain_rows t (chain_at s t) = positions l;
  rel_new : forall t, rho t = None -> t ∉ opn -> chain_at s t = [];
  rel_cache : forall c i, table_name c ∈ base -> materialized_columns (os_ctx s) !! col_key c = Some i ->
    is_Some (rho (table_name c)) /\ cache_ok (os_heap s) c (chain_at s (table_name c)) i;
}.

Hypothesis Hstored : stored.
Hypothesis Hruns : runs_plan D env H.
Hypothesis Hsmall : small H.

Lemma runs_executes h : h `prefix_of` H -> executes env h.
Proof. intros Hp. eapply runs_plan_executes, runs_plan_prefix; [exact Hp|exact Hruns]. Qed.

Lemma stored_key c c' : table_name c ∈ base -> table_name c' ∈ base -> col_key c = col_key c' -> table_name c = table_name c'.
Proof. intros H1 H2. apply key_table; by apply Hstored. Qed.

Lemma positions_inj l l' : positions l = positions l' -> l = l'.
Proof. intros He. by rewrite -(decode_positions l) He decode_positions. Qed.

(** A base column at the rows of the table. *)
Definition cells_at (c : Column) (l : list nat) : list (option Z) :=
  map (fun i => Some (cell D (table_name c) (column_name c) i)) l.

Lemma gather_base c l : table_name c ∈ base -> (forall i, i ∈ l -> i < nrows D (table_name c)) ->
  gather (contents env c) (positions l) = cells_at c l.
Proof.
  intros Ht Hl. rewrite gather_positions /contents /col_key. destruct (Hstored _ Ht) as (_ & _ & ->).
  apply map_ext_in. intros i Hi%list_elem_of_In. rewrite /base_cells list_lookup_fmap lookup_seq_lt; [done|by apply Hl].
Qed.

Lemma contents_base c : table_name c ∈ base -> contents env c = cells_at c (seq 0 (nrows D (table_name c))).
Proof. intros Ht. rewrite /contents /col_key. by destruct (Hstored _ Ht) as (_ & _ & ->). Qed.

(** The column is not taken for a derived one. *)
Definition base_name (c : Column) : Prop := (forall a, alias c = Some a -> ints !! a = None) /\ ints !! column_name c = None.

Lemma rel_lookup opn s rho c : Rel opn s rho -> base_name c -> lookupIntermediateResult c (os_ctx s) = None.
Proof.
  intros [_ Hi _ _ _ _ _] [Ha Hn]. rewrite /lookupIntermediateResult Hi Hn. destruct (alias c) as [a|]; [|done].
  rewrite (Ha a) //. by destruct (negb _).
Qed.

(** The chain seen through the base column, with chained materialization. *)
Lemma through_gather v w rest : through env (gather v w) rest = gather v (through env w rest).
Proof.
  rewrite /through. revert w. induction rest as [|q rest IH]; intros w; [done|]. cbn [fold_left]. by rewrite -gather_assoc IH.
Qed.

(** ** Materialization *)

Lemma cache_ok_mono h h' c chain chain' i : h `prefix_of` h' -> length chain' = length chain ->
  chain_rows (table_name c) chain' = chain_rows (table_name c) chain -> (oc = false -> chain' = chain) ->
  cache_ok h c chain i -> cache_ok h' c chain' i.
Proof.
  intros Hp Hl Hr Hc. rewrite /cache_ok. destruct oc; [|by rewrite Hc].
  intros (Hb & Hs & Hi & Hne & Hv). rewrite Hl Hr (base_chain_mono _ _ _ Hp Hs). split_and!; [done| |done| |done].
  - by eapply in_store_mono.
  - by destruct chain, chain'.
Qed.

Lemma Rel_update opn s s' rho c i : Rel opn s rho -> keeps (os_ctx s) (os_ctx s') -> os_heap s `prefix_of` os_heap s' ->
  (forall t, t <> table_name c -> chain_at s' t = chain_at s t) ->
  length (chain_at s' (table_name c)) = length (chain_at s (table_name c)) ->
  (forall p, p ∈ chain_at s' (table_name c) -> in_store (os_heap s') (pos_producer p)) ->
  chain_rows (table_name c) (chain_at s' (table_name c)) = chain_rows (table_name c) (chain_at s (table_name c)) ->
  (oc = false -> chain_at s' (table_name c) = chain_at s (table_name c)) ->
  table_name c ∈ base -> is_Some (rho (table_name c)) ->
  materialized_columns (os_ctx s') = materialized_columns (os_ctx s) \/
    materialized_columns (os_ctx s') = <[col_key c := i]> (materialized_columns (os_ctx s)) /\
    cache_ok (os_heap s') c (chain_at s' (table_name c)) i ->
  Rel opn s' rho.
Proof.
  intros [H1 H2 H3 H4 H5 H6 H7] [Hk1 Hk2 _] Hp Ho Hl Hs Hr Hc Ht Hrho Hm.
  assert (forall c' j, table_name c' ∈ base -> materialized_columns (os_ctx s) !! col_key c' = Some j ->
    is_Some (rho (table_name c')) /\ cache_ok (os_heap s') c' (chain_at s' (table_name c')) j) as Hold.
  { intros c' j Ht' [Hsome Hj]%H7; [|done]. split; [done|].
    destruct (decide (table_name c' = table_name c)) as [He|He].
    - rewrite He in Hj |- *. by apply (cache_ok_mono (os_heap s) _ c' (chain_at s (table_name c))); rewrite ?He.
    - by apply (cache_ok_mono (os_heap s) _ c' (chain_at s (table_name c'))); rewrite ?Ho. }
  apply prefix_length in Hp as Hlen. split; [congruence|congruence| | | | |].
  - intros t. destruct (decide (t = table_name c)) as [->|Hne]; [rewrite Hl|rewrite Ho //]; etrans; [apply H3|done| apply H3|done].
  - intros t p Hpt. destruct (decide (t = table_name c)) as [->|Hne]; [by apply Hs|]. rewrite Ho // in Hpt.
    eapply in_store_mono; [done|by eapply H4].
  - intros t l Hl'. apply H5 in Hl' as (? & ? & Hrows). split_and!; [done|done|].
    destruct (decide (t = table_name c)) as [->|Hne]; [by rewrite Hr|by rewrite Ho].
  - intros t Hn Hop. destruct (decide (t = table_name c)) as [->|Hne]; [by destruct Hrho; congruence|]. rewrite Ho //. by apply H6.
  - intros c' j Ht' Hj. destruct Hm as [Hm|[Hm Hci]]; rewrite Hm in Hj; [by apply Hold|].
    apply lookup_insert_Some in Hj as [[Hk <-]|[_ Hj]]; [|by apply Hold].
    rewrite (stored_key c' c) //. split; [done|]. move: Hci. rewrite /cache_ok /cache_through /contents Hk.
    by rewrite (stored_key c' c).
Qed.

Lemma chain_at_insert s t l m t' : table_poslist_chain (os_ctx s) = <[t := l]> m ->
  chain_at s t' = if decide (t' = t) then l else default [] (m !! t').
Proof.
  intros Hm. rewrite /chain_at Hm. destruct (decide (t' = t)) as [->|Hne]; [by rewrite lookup_insert_eq|by rewrite lookup_insert_ne].
Qed.

Lemma chain_rows_mono h t chain : oc = true -> h `prefix_of` H -> (forall p, p ∈ chain -> in_store h (pos_producer p)) ->
  chain_rows t chain = match chain with [] => positions (seq 0 (nrows D t))
    | first :: rest => rowmap env h (env (col_key (poslist_col first))) rest end.
Proof.
  intros Hoc Hp Hs. destruct chain as [|first rest]; [done|]. rewrite /chain_rows Hoc.
  apply rowmap_mono; [done|]. intros p Hp'. apply Hs. set_solver.
Qed.

Lemma rel_ensure_chained opn s rho c l i c' s' : oc = false -> Rel opn s rho -> base_name c -> table_name c ∈ base ->
  rho (table_name c) = Some l -> ensureMaterialized rnd c s = Ok ((i, c'), s') -> os_heap s' `prefix_of` H ->
  Rel opn s' rho /\ keeps (os_ctx s) (os_ctx s') /\
  contents env (mat_col i) = gather (contents env c) (chain_rows (table_name c) (chain_at s (table_name c))).
Proof.
  intros Hoc HR Hbn Ht Hl He Hp. pose proof (rel_lookup _ _ _ c HR Hbn) as Hlk. pose proof HR as [H1 H2 H3 H4 H5 H6 H7].
  rewrite Hoc in H1. pose proof (grows_ensure rnd c s _ s' He) as Hg. pose proof (prefix_length _ _ Hg) as Hgl.
  pose proof (prefix_length _ _ Hp) as Hpl. pose proof (runs_executes _ Hp) as Hex.
  assert (chain_of s c = chain_at s (table_name c)) as Hch by done.
  assert (Z.of_nat (length (chain_of s c)) < 2 ^ 31)%Z as Hlen by (rewrite Hch; specialize (H3 (table_name c)); unfold small in Hsmall; lia).
  destruct (chained_frame rnd c s i c' s' H1 Hlk He) as (Hk & Hch' & Hm').
  destruct (chained_sem rnd env c s i c' s' H1 Hlk Hlen) as (Hv & Hsame & _ & Hidx); [|done..|].
  { intros i0 Hi0. destruct (H7 c i0 Ht Hi0) as [_ Hc]. by rewrite /cache_ok Hoc in Hc. }
  assert (forall t, chain_at s' t = chain_at s t) as Hall.
  { intros t. rewrite (chain_at_insert _ _ _ _ _ Hch'). case_decide as Hd; [by rewrite Hd Hch|done]. }
  split_and!; [|exact Hk|].
  - eapply (Rel_update opn s s' rho c i); rewrite ?Hall; try done.
    + intros p Hpt. by eapply in_store_mono, H4.
    + right. split; [done|]. rewrite /cache_ok Hoc. split; [rewrite Hidx Hch; lia|].
      rewrite Hv Hidx Hch Z.sub_add Nat2Z.id firstn_all //.
  - rewrite /contents Hv Hch. destruct (chain_at s (table_name c)) as [|first rest] eqn:Hc0.
    + destruct (H5 _ _ Hl) as (_ & Hr & Hrows). rewrite Hc0 in Hrows. rewrite (gather_base c) // /contents.
      * by rewrite -(contents_base c).
      * intros k. rewrite elem_of_seq. lia.
    + by rewrite /chain_rows Hoc -through_gather.
Qed.

Lemma rel_ensure_optimized opn s rho c l i c' s' : oc = true -> Rel opn s rho -> base_name c -> table_name c ∈ base ->
  rho (table_name c) = Some l -> ensureMaterialized rnd c s = Ok ((i, c'), s') -> os_heap s' `prefix_of` H ->
  Rel opn s' rho /\ keeps (os_ctx s) (os_ctx s') /\
  contents env (mat_col i) = gather (contents env c) (chain_rows (table_name c) (chain_at s (table_name c))).
Proof.
  intros Hoc HR Hbn Ht Hl He Hp. pose proof (rel_lookup _ _ _ c HR Hbn) as Hlk. pose proof HR as [H1 H2 H3 H4 H5 H6 H7].
  rewrite Hoc in H1. pose proof (grows_ensure rnd c s _ s' He) as Hg.
  pose proof (runs_executes _ Hp) as Hex. assert (chain_of s c = chain_at s (table_name c)) as Hch by done.
  destruct (chain_at s (table_name c)) as [|first rest] eqn:Hc0.
  { rewrite /ensureMaterialized in He. apply ST_bind_ok in He as (ctx & s0 & [= <- <-] & He). rewrite H1 in He.
    rewrite /ensureMaterializedOptimized in He. apply ST_bind_ok in He as (ctx & s0 & [= <- <-] & He). rewrite Hlk in He.
    rewrite /chain_of in Hch. destruct (table_poslist_chain (os_ctx s) !! table_name c) as [[|]|]; [|done|];
      injection He as <- _ <-; (split_and!; [done|done|]); rewrite /chain_rows (gather_base c) //; try (by rewrite -(contents_base c));
      intros k; rewrite elem_of_seq; lia. }
  assert (forall p, p ∈ first :: rest -> in_store (os_heap s) (pos_producer p)) as Hin by (rewrite -Hc0; apply H4).
  assert (forall p, p ∈ rest -> in_store (os_heap s) (pos_producer p)) as Hin' by (intros; apply Hin; set_solver).
  assert (os_heap s `prefix_of` H) as Hps by by etrans.
  pose proof (chain_rows_mono _ (table_name c) _ Hoc Hps Hin) as Hrows.
  destruct (optimized_frame rnd c s first rest i c' s' H1 Hlk Hch Hin' He) as (Hk & rest' & Hch' & Hst & Hm).
  destruct (optimized_sem rnd env c s first rest i c' s' H1 Hlk Hch Hin') as (Hv & rest2 & Hc2 & Hlen & Hrm); [|done..|].
  { intros i0 Hi0. destruct (H7 c i0 Ht Hi0) as [_ Hc]. rewrite /cache_ok Hoc Hc0 in Hc. destruct Hc as (Hb & Hs & Hx & _ & Hval).
    split_and!; [done|done|]. intros Hidx. rewrite Hrows in Hval. apply Hval. rewrite Hidx. simpl. lia. }
  assert (chain_at s' (table_name c) = first :: rest') as Hc' by by rewrite (chain_at_insert _ _ _ _ _ Hch') decide_True.
  assert (rest2 = rest') as -> by (rewrite /chain_of in Hc2; rewrite /chain_at Hc2 in Hc'; by injection Hc').
  assert (forall p, p ∈ first :: rest' -> in_store (os_heap s') (pos_producer p)) as Hst'.
  { intros p [->|Hq]%elem_of_cons; [|by apply Hst]. eapply in_store_mono; [done|]. apply Hin. set_solver. }
  pose proof (chain_rows_mono _ (table_name c) _ Hoc Hp Hst') as Hrows'.
  split_and!; [|exact Hk|by rewrite Hrows].
  eapply (Rel_update opn s s' rho c i); rewrite ?Hc' ?Hc0; try done.
  - intros t Hne. by rewrite (chain_at_insert _ _ _ _ _ Hch') decide_False.
  - simpl. by rewrite Hlen.
  - by rewrite Hrows' Hrm Hrows.
  - by rewrite Hoc.
  - destruct Hm as [Hm|(Hm & Hb & Hs & Hidx)]; [by left|right]. split; [done|]. rewrite /cache_ok Hoc.
    split_and!; [done|done|rewrite Hidx; simpl; lia|done|]. intros _. by rewrite Hrows' Hrm.
Qed.

(** Both strategies return the cells of the rows. *)
Lemma rel_ensure opn s rho c l i c' s' : Rel opn s rho -> base_name c -> table_name c ∈ base -> rho (table_name c) = Some l ->
  ensureMaterialized rnd c s = Ok ((i, c'), s') -> os_heap s' `prefix_of` H ->
  Rel opn s' rho /\ keeps (os_ctx s) (os_ctx s') /\ contents env (mat_col i) = cells_at c l.
Proof.
  intros HR Hbn Ht Hl He Hp. assert (Rel opn s' rho /\ keeps (os_ctx s) (os_ctx s') /\
    contents env (mat_col i) = gather (contents env c) (chain_rows (table_name c) (chain_at s (table_name c)))) as (HR' & Hk & ->).
  { destruct oc eqn:Hoc; [by eapply rel_ensure_optimized|by eapply rel_ensure_chained]. }
  split_and!; [done|done|]. destruct (rel_rows _ _ _ HR _ _ Hl) as (_ & Hr & ->). by apply gather_base.
Qed.

End rel.

Lemma base_name_empty c : base_name ∅ c.
Proof. split; intros; apply lookup_empty. Qed.
#[export] Hint Resolve base_name_empty : core.

Lemma tables_stored D base : (forall t, t ∈ base -> t <> "" /\ no_dot t = true) -> stored D (tables_env D) base.
Proof.
  intros Hb t Ht. destruct (Hb t Ht) as [Hne Hd]. split_and!; [done|done|]. intros c. by rewrite /tables_env key_split_key.
Qed.
