(* ===== verification/RelHandlers.v ===== *)
(** * The handlers of scans, filters, unions and joins compute the right rows

    For each operator that the FROM and WHERE clauses are translated to: from a
    state that stands for rows [rho] ([RelInvariant.v]) the handler reaches a
    state that stands for the rows the operator selects. *)

From S2P Require Import Prelude PlanTypes SchemaResolver TranslatorHelpers LogicalSemantics.
From S2P Require Import PhysContext Materialization PhysicalOptimizer PostProcess.
From S2P Require Import PhysicalInvariant MaterializationInv ChainSemantics PhysicalTheorems WorkItems Engine RelInvariant.

(** ** The traversal only extends the store *)
Section grow.
Variable rnd : nat -> Z.

Lemma grows_setop l op : grows (createSetOperationNode rnd l op).
Proof. rewrite /createSetOperationNode. grows_tac. Qed.
#[local] Hint Resolve grows_setop : grows.
Lemma grows_cross n c0 c1 r src : grows (handleCrossTableFilter rnd n c0 c1 r src).
Proof. rewrite /handleCrossTableFilter. grows_tac. Qed.
#[local] Hint Resolve grows_cross : grows.
Lemma grows_filter n m : grows m -> grows (handleFilter rnd n m).
Proof. intros Hm. rewrite /handleFilter. grows_tac. Qed.
Lemma grows_join n l r : grows l -> grows r -> grows (handleJoin rnd n l r).
Proof. intros Hl Hr. rewrite /handleJoin. grows_tac. Qed.
Lemma grows_register name c o : grows (registerIntermediateResult name c o).
Proof. apply grows_upd. Qed.
#[local] Hint Resolve grows_register : grows.
Lemma grows_map n m : grows m -> grows (handleMap rnd n m).
Proof.
  intros Hm. rewrite /handleMap /materialize_columns. apply grows_bind; [done|]. intros r. apply grows_bind; [|intros mats; grows_tac].
  apply grows_mapM. intros c. grows_tac.
Qed.
Lemma grows_first_result o : grows (first_result o).
Proof. rewrite /first_result. grows_tac. Qed.
#[local] Hint Resolve grows_first_result : grows.
Lemma grows_keys cols idx g : forall mats, grows (materializeGroupedKeys rnd mats cols idx g).
Proof. induction cols as [|c cols IH]; intros [|m mats]; simpl; grows_tac. Qed.
Lemma grows_multi idx cl g r specs : grows (multi_agg_loop rnd specs idx cl g r).
Proof. induction specs as [|sp specs IH]; cbn [multi_agg_loop]; grows_tac. Qed.
Lemma grows_parallel r specs : grows (parallel_loop rnd specs r).
Proof. induction specs as [|sp specs IH]; cbn [parallel_loop]; rewrite /resolveAggregateInput; grows_tac. Qed.
#[local] Hint Resolve grows_keys grows_multi grows_parallel : grows.
Lemma grows_groupby n r : grows (handleGroupBy rnd n r).
Proof.
  rewrite /handleGroupBy. apply grows_bind; [apply grows_mapM; grows_tac|]. intros mats.
  rewrite /handleGroupByMultiAgg /handleGroupBySingleAgg. grows_tac.
Qed.
#[local] Hint Resolve grows_groupby : grows.
Lemma grows_aggregate n m : grows m -> grows (handleAggregate rnd n m).
Proof. intros Hm. rewrite /handleAggregate /createParallelAggregateNodes /createSingleAggregateNode. grows_tac. Qed.
Lemma grows_project cols : grows (project_loop rnd cols).
Proof. induction cols as [|c cols IH]; cbn [project_loop]; grows_tac. Qed.
#[local] Hint Resolve grows_project : grows.
Lemma grows_sort n m : grows m -> grows (handleSort rnd n m).
Proof.
  intros Hm. rewrite /handleSort. apply grows_bind; [done|]. intros r. apply grows_bind; [grows_tac|]. intros e.
  destruct e; [grows_tac|]. apply grows_bind; [|intros ks; grows_tac]. apply grows_mapM. intros c. rewrite /sort_key. grows_tac.
Qed.
Lemma grows_result r : grows (buildResultNode rnd r).
Proof. rewrite /buildResultNode. grows_tac. Qed.

Lemma grows_transform n : grows (transformNode rnd n).
Proof.
  induction n as [n IH] using LogicalPlanNode_child_ind. destruct n as [ty st bc ex pc ch]. cbn [transformNode node_type children].
  assert (forall o, o ∈ ch -> grows match o with Some c => transformNode rnd c | None => raise (Throw "Null logical node encountered") end) as Hgo.
  { intros [c|] Hc; [by apply IH|apply grows_raise]. }
  apply grows_bind; [apply grows_upd|]. intros _.
  destruct ty, ch as [|o1 [|o2 ch]]; try (apply grows_raise || apply grows_ret);
    pose proof (Hgo o1 ltac:(set_solver)) as H1; try pose proof (Hgo o2 ltac:(set_solver)) as H2.
  all: first [by apply grows_filter|by apply grows_join|by apply grows_aggregate|by apply grows_map|by apply grows_sort|
    by (apply grows_bind; [done|intros ?; grows_tac])|idtac].
  rewrite /handleSetOperation. apply grows_bind; [by apply grows_mapM_in|]. intros ?. grows_tac.
Qed.

End grow.

(** ** Changing the rows of a state *)
Section states.
Context (D : engine Z) (env : string -> list (option Z)) (oc : bool) (base : gset string) (H : list PhysicalPlanNode).

Abbreviation Rel := (Rel D env oc base H ∅).
Abbreviation chain_rows := (chain_rows D env oc H).
Abbreviation cache_ok := (cache_ok D env oc H).

Definition indexes {A} (k : list nat) (l : list A) : Prop := forall i, i ∈ k -> i < length l.

Lemma rowmap_snoc rest p : forall acc, rowmap env H acc (rest ++ [p]) =
  if linked H p then gather (rowmap env H acc rest) (contents env (poslist_col p)) else contents env (poslist_col p).
Proof. induction rest as [|q rest IH]; intros acc; [done|]. apply IH. Qed.

Lemma chain_rows_snoc t chain p k l : chain_rows t chain = positions l -> contents env (poslist_col p) = positions k ->
  indexes k l -> linked H p = true -> chain_rows t (chain ++ [p]) = positions (map (fun i => l !!! i) k).
Proof.
  intros Hc Hp Hk Hl. destruct chain as [|first rest]; cbn [app RelInvariant.chain_rows] in Hc |- *.
  - apply positions_inj in Hc as <-. transitivity (contents env (poslist_col p)); [by destruct oc|]. rewrite Hp. f_equal.
    rewrite -{1}(map_id k). apply map_ext_in. intros i Hi%list_elem_of_In. apply Hk in Hi. rewrite length_seq in Hi.
    symmetry. apply list_lookup_total_correct. by rewrite lookup_seq_lt.
  - rewrite -gather_index // -Hc -Hp. destruct oc; [by rewrite rowmap_snoc Hl|by rewrite through_app].
Qed.

Lemma cache_ok_snoc h h' c chain p i : h `prefix_of` h' -> cache_ok h c chain i -> cache_ok h' c (chain ++ [p]) i.
Proof.
  intros Hp. rewrite /RelInvariant.cache_ok. destruct oc.
  - intros (Hb & Hs & Hi & Hne & Hv). rewrite length_app (base_chain_mono _ _ _ Hp Hs) /=.
    split_and!; [done|by eapply in_store_mono|lia|by destruct chain|lia].
  - intros [Hi Hv]. split; [rewrite length_app /=; lia|]. rewrite Hv. f_equal. rewrite take_app_le //. lia.
Qed.

Lemma Rel_ext opn s rho rho' : (forall t, rho' t = rho t) -> Rel opn s rho -> Rel opn s rho'.
Proof.
  intros He [H1 H2 H3 H4 H5 H6 H7]. split; try done.
  - intros t l. rewrite He. apply H5.
  - intros t. rewrite He. apply H6.
  - intros c i Ht Hi. rewrite He. by apply H7.
Qed.

(** Only the chains, the cache and the store matter. *)
Lemma Rel_same opn s s' rho : os_heap s' = os_heap s -> optimize_chains (os_ctx s') = optimize_chains (os_ctx s) ->
  intermediate_results (os_ctx s') = intermediate_results (os_ctx s) ->
  table_poslist_chain (os_ctx s') = table_poslist_chain (os_ctx s) ->
  materialized_columns (os_ctx s') = materialized_columns (os_ctx s) -> Rel opn s rho -> Rel opn s' rho.
Proof.
  intros Hh Hk1 Hk2 Hc Hm [H1 H2 H3 H4 H5 H6 H7]. assert (forall t, chain_at s' t = chain_at s t) as Hch by (intros; by rewrite /chain_at Hc).
  split; [congruence|congruence|..].
  - intros t. rewrite Hch Hh. apply H3.
  - intros t p. rewrite Hch Hh. apply H4.
  - intros t l. rewrite Hch. apply H5.
  - intros t. rewrite Hch. apply H6.
  - intros c i. rewrite Hch Hm Hh. apply H7.
Qed.

(** New position lists: [f t] is the one pushed for table [t], with its rows. *)
Lemma Rel_extend opn s s' rho (f : string -> option (PosListInfo * list nat)) : Rel opn s rho ->
  keeps (os_ctx s) (os_ctx s') -> os_heap s `prefix_of` os_heap s' -> length (os_heap s) < length (os_heap s') ->
  (forall k i, materialized_columns (os_ctx s') !! k = Some i -> materialized_columns (os_ctx s) !! k = Some i) ->
  (forall t, chain_at s' t = chain_at s t ++ from_option (fun pk => [pk.1]) [] (f t)) ->
  (forall t p k, f t = Some (p, k) -> exists l, rho t = Some l /\ indexes k l /\ contents env (poslist_col p) = positions k /\
    linked H p = true /\ in_store (os_heap s') (pos_producer p)) ->
  Rel opn s' (fun t => match f t with Some (_, k) => (fun l => map (fun i => l !!! i) k) <$> rho t | None => rho t end).
Proof.
  intros [H1 H2 H3 H4 H5 H6 H7] [Hk1 Hk2 _] Hp Hlt Hm Hch Hf. split; [congruence|congruence|..].
  - intros t. rewrite Hch length_app. specialize (H3 t). destruct (f t); simpl; lia.
  - intros t p. rewrite Hch elem_of_app. intros [Hpt|Hpt]; [by eapply in_store_mono, H4|].
    destruct (f t) as [[q k]|] eqn:Hft; [|by apply not_elem_of_nil in Hpt]. apply list_elem_of_singleton in Hpt as ->.
    by destruct (Hf t q k Hft) as (? & _ & _ & _ & _ & ?).
  - intros t l. rewrite Hch. destruct (f t) as [[p k]|] eqn:Hft; [|rewrite app_nil_r; apply H5].
    destruct (Hf t p k Hft) as (l0 & Hl0 & Hk & Hc & Hlk & _). rewrite Hl0. intros [= <-].
    destruct (H5 t l0 Hl0) as (Hb & Hr & Hrows). split_and!; [done| |by apply chain_rows_snoc].
    intros i (j & -> & Hj)%list_elem_of_fmap. apply Hr. by apply list_elem_of_lookup_total_2, Hk.
  - intros t Hn Ho. rewrite Hch. destruct (f t) as [[p k]|] eqn:Hft; [|rewrite app_nil_r; by apply H6].
    destruct (Hf t p k Hft) as (l0 & Hl0 & _). by rewrite Hl0 in Hn.
  - intros c i Ht Hi%Hm. destruct (H7 c i Ht Hi) as [[l Hl] Hc]. rewrite Hch. split.
    + destruct (f (table_name c)) as [[p k]|]; rewrite Hl; eauto.
    + destruct (f (table_name c)) as [[p k]|]; simpl; [by eapply cache_ok_snoc|]. rewrite app_nil_r. by eapply (cache_ok_mono D env oc H (os_heap s)).
Qed.

(** The chain of a table under translation changes. *)
Lemma Rel_touch opn s s' rho t : Rel opn s rho -> t ∈ opn -> rho t = None -> keeps (os_ctx s) (os_ctx s') ->
  os_heap s `prefix_of` os_heap s' -> materialized_columns (os_ctx s') = materialized_columns (os_ctx s) ->
  (forall t', t' <> t -> chain_at s' t' = chain_at s t') -> length (chain_at s' t) <= length (os_heap s') ->
  (forall p, p ∈ chain_at s' t -> in_store (os_heap s') (pos_producer p)) -> Rel opn s' rho.
Proof.
  intros [H1 H2 H3 H4 H5 H6 H7] Ho Hn [Hk1 Hk2 _] Hp Hm Hch Hlen Hst. apply prefix_length in Hp as Hpl.
  split; [congruence|congruence|..].
  - intros t'. destruct (decide (t' = t)) as [->|Hne]; [done|]. rewrite Hch //. specialize (H3 t'). lia.
  - intros t' p. destruct (decide (t' = t)) as [->|Hne]; [apply Hst|]. rewrite Hch //. intros Hp'. by eapply in_store_mono, H4.
  - intros t' l Hl. rewrite Hch; [by apply H5|]. intros ->. congruence.
  - intros t' Hn' Ho'. rewrite Hch; [by apply H6|]. by intros ->.
  - intros c i Ht. rewrite Hm. intros [Hs Hc]%H7; [|done]. split; [done|]. rewrite Hch.
    + by eapply (cache_ok_mono D env oc H (os_heap s)).
    + intros He. rewrite He Hn in Hs. by destruct Hs.
Qed.

Lemma Rel_open opn s rho t : Rel opn s rho -> Rel ({[t]} ∪ opn) s rho.
Proof. intros []. split; try done. intros t' Hn Ho. set_solver. Qed.

(** The table is translated: the rows of its chain become the rows of the
    table. *)
Lemma Rel_close s rho t l : Rel {[t]} s rho -> rho t = None -> t ∈ base -> (forall i, i ∈ l -> i < nrows D t) ->
  chain_rows t (chain_at s t) = positions l ->
  Rel ∅ s (fun t' => if decide (t' = t) then Some l else rho t').
Proof.
  intros [H1 H2 H3 H4 H5 H6 H7] Hn Ht Hr Hc. split; try done.
  - intros t' l'. case_decide as Hd; [|apply H5]. intros [= <-]. by rewrite Hd.
  - intros t'. case_decide as Hd; [done|]. intros Hn' _. apply H6; [done|]. set_solver.
  - intros c i Htc [Hs Hi]%H7; [|done]. split; [|done]. case_decide; [done|exact Hs].
Qed.

End states.

(** ** The plans whose rows are followed *)

(** A condition on the columns of one table. *)
Definition on_table (t : string) (n : LogicalPlanNode) : bool :=
  match base_columns n with
  | [] => false
  | cols => forallb (fun c => table_name c =s t) cols
  end.

(** At most [k] filters on [t] over its SCAN. *)
Fixpoint filters (t : string) (k : nat) (n : LogicalPlanNode) : bool :=
  match k, node_type n, children n with
  | _, LNT.SCAN, [] => scan_table n =s t
  | S k, LNT.FILTER, [Some c] => on_table t n && filters t k c
  | _, _, _ => false
  end.

(** One or two filters: what a UNION combines. *)
Definition branch (t : string) (n : LogicalPlanNode) : bool := is_filter n && filters t 2 n.

Definition leaf (t : string) (n : LogicalPlanNode) : bool :=
  filters t 2 n ||
  match node_type n, children n with
  | LNT.SETOPERATION, _ :: _ :: _ =>
      bool_decide (logical_rel_op (expression n) = Some PRO.UNION) &&
      forallb (from_option (branch t) false) (children n)
  | _, _ => false
  end.

(** Single-table plans, equi-joins of disjoint plans and conditions between
    two tables of a plan. *)
Fixpoint rel_shape (n : LogicalPlanNode) : bool :=
  existsb (fun t => leaf t n) (elements (tabs n)) ||
  match node_type n, children n, base_columns n with
  | LNT.JOIN, [Some l; Some r], [a; b] =>
      rel_shape l && rel_shape r && bool_decide (tabs l ## tabs r) &&
      bool_decide (table_name a ∈ tabs l) && bool_decide (table_name b ∈ tabs r) &&
      bool_decide (comp_type (expression n) = Some PCT.EQ)
  | LNT.FILTER, [Some c], [a; b] =>
      rel_shape c && bool_decide (table_name a ∈ tabs c) && bool_decide (table_name b ∈ tabs c) &&
      negb (table_name a =s table_name b)
  | _, _, _ => false
  end.

Section handlers.
Context (D : engine Z) (env : string -> list (option Z)) (rnd : nat -> Z) (oc : bool) (base : gset string) (H : list PhysicalPlanNode).
Hypothesis Hstored : stored D env base.
Hypothesis Hruns : runs_plan D env H.
Hypothesis Hsmall : small H.

Abbreviation Rel := (Rel D env oc base H ∅).

Lemma run_at h a n : h `prefix_of` H -> h !! a = Some n -> node_exec D env n.
Proof. intros Hp Hn. eapply runs_plan_lookup; [exact Hruns|]. by eapply prefix_lookup_Some. Qed.

Lemma run_snoc h n : (h ++ [n]) `prefix_of` H -> node_exec D env n.
Proof. intros Hp. apply (run_at _ (length h)) with (1 := Hp). by rewrite lookup_app_r // Nat.sub_diag. Qed.

(** *** Conditions on one table *)

Lemma at_base t c i : i < nrows D t -> at_pos (base_cells D t c) i = Some (cell D t c i).
Proof. intros Hi. by rewrite /at_pos /base_cells list_lookup_fmap lookup_seq_lt. Qed.

Lemma colval_at (u : tuple) c i : table_name c <> "" -> u !! table_name c = Some i ->
  colval D u c = Some (cell D (table_name c) (column_name c) i).
Proof. intros Hne Hu. by rewrite /colval resolveTableName_qualified // Hu. Qed.

(** The FILTER node reads the base columns; its condition holds at a position
    exactly when the condition of the logical node holds for the row. *)
Lemma passes_cond t n c0 cols i : base_columns n = c0 :: cols -> on_table t n = true -> t ∈ base -> i < nrows D t ->
  passes D (expression n) (map (contents env) (set_is_base (Some true) c0 :: cols)) i = cond D n {[t := i]}.
Proof.
  intros Hb Ht Hbase Hi. destruct (Hstored t Hbase) as (Hne & _ & Hst). rewrite /on_table Hb in Ht. rewrite /passes /cond Hb. f_equal.
  change (map (contents env) (set_is_base (Some true) c0 :: cols)) with (map (contents env) (c0 :: cols)).
  rewrite List.map_map. apply map_ext_in. intros c Hc. rewrite forallb_forall in Ht. apply Ht, String.eqb_eq in Hc.
  subst t. rewrite /contents /col_key Hst at_base // (colval_at _ c i) // lookup_singleton_eq //.
Qed.

Definition rows_of (t : string) (l : list nat) (P : nat -> Prop) : Prop := NoDup l /\ forall i, i ∈ l <-> i < nrows D t /\ P i.

Lemma filter_rows_of t n c0 cols l : base_columns n = c0 :: cols -> on_table t n = true -> t ∈ base ->
  filter_sem D (expression n) (map (contents env) (set_is_base (Some true) c0 :: cols)) l ->
  rows_of t l (fun i => cond D n {[t := i]} = true).
Proof.
  intros Hb Ht Hbase [Hnd Hl]. split; [done|]. intros i. rewrite Hl.
  assert (length (default [] (head (map (contents env) (set_is_base (Some true) c0 :: cols)))) = nrows D t) as ->.
  { cbn. rewrite /contents /col_key /=. rewrite /on_table Hb /= in Ht. apply andb_true_iff in Ht as [Ht%String.eqb_eq _].
    destruct (Hstored t Hbase) as (_ & _ & Hst). by rewrite Ht Hst /base_cells length_map length_seq. }
  split; intros [Hi Hp]; (split; [done|]); by rewrite (passes_cond t n c0 cols i) in Hp |- *.
Qed.

(** *** Set operations and filters *)

Lemma setop_sem first l op s r s' : source_table first <> "" -> createSetOperationNode rnd (first :: l) op s = Ok (r, s') ->
  keeps (os_ctx s) (os_ctx s') /\ materialized_columns (os_ctx s') = materialized_columns (os_ctx s) /\
  os_heap s `prefix_of` os_heap s' /\ in_store (os_heap s') (physical_root r) /\ is_Some (physical_root r) /\
  table_poslist_chain (os_ctx s') = <[source_table first := [mkPos (output_column r) (physical_root r)]]> (table_poslist_chain (os_ctx s)) /\
  source_table r = source_table first /\ tables_involved r = ⋃ (map tables_involved (first :: l)) /\
  (os_heap s' `prefix_of` H -> exists k, contents env (output_column r) = positions k /\
     set_sem op (map (fun x => decode (contents env (output_column x))) (first :: l)) k).
Proof.
  intros Hne%is_empty_neg He. rewrite /createSetOperationNode in He. destruct l as [|second l]; [done|].
  unfold mbind, ST_bind in He. cbn in He. rewrite Hne in He. injection He as <- <-. cbn.
  split_and!; [done|done|by eexists| |by eexists|done|done|done|].
  - intros a [= <-]. rewrite length_app /=. lia.
  - intros Hp%run_snoc. destruct Hp as (k & Hk & Hs). exists k. split; [exact Hk|]. specialize (Hs op eq_refl).
    cbn in Hs. rewrite !List.map_map in Hs. exact Hs.
Qed.

(** The FILTER node and what becomes of it. *)
Lemma filter_step t n c0 cols child s r0 s0 r s' : base_columns n = c0 :: cols -> on_table t n = true -> t ∈ base ->
  child s = Ok (r0, s0) -> in_store (os_heap s0) (physical_root r0) -> handleFilter rnd n child s = Ok (r, s') ->
  exists r1 s1 f, physical_root r1 = Some (length (os_heap s0)) /\ source_table r1 = t /\
    tables_involved r1 = {[t]} ∪ tables_involved r0 /\ os_heap s1 = os_heap s0 ++ [f] /\ p_node_type f = PNT.FILTER /\
    keeps (os_ctx s0) (os_ctx s1) /\ materialized_columns (os_ctx s1) = materialized_columns (os_ctx s0) /\
    table_poslist_chain (os_ctx s1) = table_poslist_chain (os_ctx s0) /\
    (os_heap s1 `prefix_of` H -> exists k, contents env (output_column r1) = positions k /\
      rows_of t k (fun i => cond D n {[t := i]} = true)) /\
    if is_filter_at (os_heap s0) (physical_root r0) && (source_table r0 =s t)
    then createSetOperationNode rnd [r0; r1] PRO.INTERSECTION s1 = Ok (r, s')
    else r = r1 /\ os_heap s' = os_heap s1 /\ keeps (os_ctx s1) (os_ctx s') /\
      materialized_columns (os_ctx s') = materialized_columns (os_ctx s1) /\
      table_poslist_chain (os_ctx s') =
        push_chain (mkPos (output_column r1) (physical_root r1)) (table_poslist_chain (os_ctx s1)) t.
Proof.
  intros Hb Ht Hbase Hchild Hroot. destruct (Hstored t Hbase) as (Hne%is_empty_neg & _ & _). rewrite /handleFilter.
  intros (r0' & s0' & Hc & He)%ST_bind_ok. rewrite Hchild in Hc. injection Hc as <- <-. rewrite Hb in He.
  pose proof Ht as Ht'. rewrite /on_table Hb in Ht'. cbn [forallb] in Ht'. apply andb_true_iff in Ht' as [Hc0%String.eqb_eq Hcols].
  assert (match cols with c1 :: _ => if negb (is_empty (table_name c0)) && negb (is_empty (table_name c1)) &&
     negb (table_name c0 =s table_name c1) then Some c1 else None | [] => None end = None) as Hcross.
  { destruct cols as [|c1 cols']; [done|]. cbn [forallb] in Hcols. apply andb_true_iff in Hcols as [Hc1%String.eqb_eq _].
    by rewrite Hc0 Hc1 String.eqb_refl andb_false_r. }
  rewrite Hcross in He. unfold fresh_col in He. unfold mbind at 1, ST_bind at 1 in He. unfold mbind at 1, ST_bind at 1 in He.
  cbn [get_ctx] in He. unfold mbind at 1, ST_bind at 1 in He. cbn [nextIntermediateName mret ST_ret] in He.
  apply ST_bind_ok in He as (a & s2 & [= <- <-] & He). apply ST_bind_ok in He as ([] & s3 & [= <-] & He).
  cbn [os_heap set_ctx] in He. rewrite Hc0 Hne in He.
  apply ST_bind_ok in He as (b & s4 & Hty & He). rewrite has_filter /= in Hty.
  2:{ cbn. eapply in_store_mono; [by eexists|done]. }
  injection Hty as <- <-. rewrite is_filter_app // in He. set (out := Column3 _ _ _) in He.
  pose (f := set_p_expression (expression n) (new_phys PNT.FILTER (rnd (os_draws s0)) (set_is_base (Some true) c0 :: cols) [out] [] None)).
  exists (tr (Some (length (os_heap s0))) out t ({[t]} ∪ tables_involved r0) RT_POSLIST).
  exists (mkOS (set_provenance (column_name out) t (os_ctx s0)) (os_heap s0 ++ [f]) (S (os_draws s0))), f.
  split_and!; [done..| |].
  - cbn [os_heap output_column tr]. intros Hp%run_snoc. destruct Hp as (k & Hk & Hs). exists k. split; [exact Hk|].
    by eapply filter_rows_of.
  - rewrite /f. destruct (_ && _); [exact He|]. apply ST_bind_ok in He as ([] & s5 & [= <-] & [= <- <-]). done.
Qed.

(** *** Plans over one table *)

Lemma handleFilter_child n child s r s' : handleFilter rnd n child s = Ok (r, s') -> exists r0 s0,
  child s = Ok (r0, s0) /\ os_heap s0 `prefix_of` os_heap s'.
Proof.
  rewrite /handleFilter. intros (r0 & s0 & Hc & He)%ST_bind_ok. exists r0, s0. split; [done|].
  revert He. apply (fun g : grows _ => g s0 r s'). pose proof (grows_setop rnd). pose proof (grows_cross rnd). grows_tac.
Qed.

Lemma Rel_limits n opn s rho : Rel opn s rho -> Rel opn (limits_read n s) rho.
Proof. by apply Rel_same. Qed.

Lemma transform_scan n s r s' : node_type n = LNT.SCAN -> transformNode rnd n s = Ok (r, s') ->
  r = handleScan n /\ s' = limits_read n s.
Proof. destruct n; simpl. intros -> [= <- <-]. done. Qed.

Lemma transform_filter n c s r s' : node_type n = LNT.FILTER -> children n = [Some c] ->
  transformNode rnd n s = Ok (r, s') -> handleFilter rnd n (transformNode rnd c) (limits_read n s) = Ok (r, s').
Proof. destruct n; simpl. by intros -> ->. Qed.

Lemma eval_scan n t (u : tuple) : node_type n = LNT.SCAN -> scan_table n = t -> u ∈ eval D n <-> exists i, u = {[t := i]} /\ i < nrows D t.
Proof.
  destruct n; simpl. intros -> ->. rewrite list_elem_of_fmap. setoid_rewrite elem_of_seq. split; intros (i & ? & ?); exists i; split; (done || lia).
Qed.

Lemma on_table_cols t n : on_table t n = true -> exists c0 cols, base_columns n = c0 :: cols.
Proof. rewrite /on_table. destruct (base_columns n); [done|eauto]. Qed.

(** What the translation of a branch leaves: a position list with its rows. *)
Record branch_post (t : string) (n : LogicalPlanNode) (opn : gset string) (rho : string -> option (list nat))
    (s : opt_state) (r : TransformResult) (s' : opt_state) : Prop := {
  bp_rel : Rel opn s' rho;
  bp_src : source_table r = t;
  bp_tabs : tables_involved r = {[t]};
  bp_root : in_store (os_heap s') (physical_root r);
  bp_chain : chain_at s t = [] -> chain_at s' t = [mkPos (output_column r) (physical_root r)];
  bp_rows : exists k, contents env (output_column r) = positions k /\ rows_of t k (fun i => {[t := i]} ∈ eval D n);
}.

Lemma push_chain_at s s' p t : table_poslist_chain (os_ctx s') = push_chain p (table_poslist_chain (os_ctx s)) t ->
  (forall t', t' <> t -> chain_at s' t' = chain_at s t') /\ chain_at s' t = chain_at s t ++ [p].
Proof.
  intros Hc. rewrite /chain_at Hc /push_chain. split; [|by rewrite lookup_insert_eq].
  intros t' Hne. by rewrite lookup_insert_ne.
Qed.

Lemma one_filter t n c opn rho s r s' : t ∈ base -> t ∈ opn -> rho t = None -> Rel opn s rho ->
  node_type n = LNT.FILTER -> children n = [Some c] -> on_table t n = true -> node_type c = LNT.SCAN -> scan_table c = t ->
  transformNode rnd n s = Ok (r, s') -> os_heap s' `prefix_of` H ->
  branch_post t n opn rho s r s' /\ is_filter_at (os_heap s') (physical_root r) = true.
Proof.
  intros Ht Ho Hn HR Hty Hch Hon Hcty Hsc He Hp. destruct (on_table_cols t n Hon) as (c0 & cols & Hb).
  apply (transform_filter n c) in He; [|done..].
  destruct (handleFilter_child _ _ _ _ _ He) as (r0 & s0 & Hc & _). pose proof Hc as Hc'. apply transform_scan in Hc' as [Hr0 Hs0]; [|done].
  pose proof (Rel_limits c _ _ _ (Rel_limits n _ _ _ HR)) as HR0. rewrite -Hs0 in HR0.
  destruct (filter_step t n c0 cols _ _ r0 s0 r s' Hb Hon Ht Hc) as
    (r1 & s1 & f & Hroot & Hsrc & Htb & Hh & Hf & Hk & Hm & Hch1 & Hrows & Hif); [by rewrite Hr0|exact He|].
  rewrite Hr0 /= in Hif. destruct Hif as (-> & Hh' & Hk' & Hm' & Hch'). rewrite Hh' in Hp |- *.
  destruct (push_chain_at _ _ _ _ Hch') as [Hoth Hat].
  assert (forall t', chain_at s1 t' = chain_at s0 t') as Hc10 by (intros; by rewrite /chain_at Hch1).
  assert (in_store (os_heap s1) (physical_root r1)) as Hin by (rewrite Hroot Hh; intros a [= <-]; rewrite length_app /=; lia).
  split; [split|].
  - eapply (Rel_touch _ _ _ _ _ opn s0 s' rho t); rewrite ?Hh' ?Hm' ?Hm; try done.
    + by eapply keeps_trans.
    + rewrite Hh. by eexists.
    + intros t' Hne. by rewrite Hoth // Hc10.
    + rewrite Hat Hc10 Hh !length_app /=. pose proof (rel_len _ _ _ _ _ _ _ _ _ HR0 t). lia.
    + intros p. rewrite Hat Hc10 elem_of_app list_elem_of_singleton. intros [Hp0| ->]; [|done].
      eapply in_store_mono; [rewrite Hh; by eexists|]. by eapply (rel_store _ _ _ _ _ _ _ _ _ HR0).
  - done.
  - rewrite Htb Hr0 /= Hsc. set_solver.
  - by rewrite Hh'.
  - intros Hnil. rewrite Hat Hc10 Hs0. change (chain_at (limits_read c (limits_read n s)) t) with (chain_at s t). by rewrite Hnil.
  - destruct (Hrows Hp) as (k & Hk1 & Hnd & Hk2). exists k. split; [done|]. split; [done|]. intros i. rewrite Hk2 (eval_filter D n c) //.
    rewrite (eval_scan c t) //. naive_solver.
  - by rewrite Hroot Hh /is_filter_at /= lookup_app_r // Nat.sub_diag /= Hf.
Qed.

Lemma chain_insert_at s s' t p : table_poslist_chain (os_ctx s') = <[t := [p]]> (table_poslist_chain (os_ctx s)) ->
  (forall t', t' <> t -> chain_at s' t' = chain_at s t') /\ chain_at s' t = [p].
Proof. intros Hc. split; [intros t' Hne|]; rewrite (chain_at_insert _ _ _ _ _ Hc); [by rewrite decide_False|by rewrite decide_True]. Qed.

(** The chain of a table under translation is replaced by one position list. *)
Lemma Rel_replace opn rho s s' t p : Rel opn s rho -> t ∈ opn -> rho t = None -> keeps (os_ctx s) (os_ctx s') ->
  os_heap s `prefix_of` os_heap s' -> materialized_columns (os_ctx s') = materialized_columns (os_ctx s) ->
  table_poslist_chain (os_ctx s') = <[t := [p]]> (table_poslist_chain (os_ctx s)) ->
  in_store (os_heap s') (pos_producer p) -> is_Some (pos_producer p) -> Rel opn s' rho.
Proof.
  intros HR Ho Hn Hk Hp Hm Hc Hs [a Ha]. destruct (chain_insert_at _ _ _ _ Hc) as [Hoth Hat].
  eapply (Rel_touch _ _ _ _ _ opn s s' rho t); try done; rewrite Hat.
  - specialize (Hs a Ha). simpl. lia.
  - by intros q ->%list_elem_of_singleton.
Qed.

Lemma two_filters t n c d opn rho s r s' : t ∈ base -> t ∈ opn -> rho t = None -> Rel opn s rho ->
  node_type n = LNT.FILTER -> children n = [Some c] -> on_table t n = true ->
  node_type c = LNT.FILTER -> children c = [Some d] -> on_table t c = true -> node_type d = LNT.SCAN -> scan_table d = t ->
  transformNode rnd n s = Ok (r, s') -> os_heap s' `prefix_of` H -> branch_post t n opn rho s r s'.
Proof.
  intros Ht Ho Hn HR Hty Hch Hon Hcty Hcch Hcon Hdty Hsc He Hp. destruct (on_table_cols t n Hon) as (c0 & cols & Hb).
  apply (transform_filter n c) in He; [|done..]. destruct (handleFilter_child _ _ _ _ _ He) as (r0 & s0 & Hc & Hp0').
  assert (exists r1 s1, os_heap s0 `prefix_of` os_heap s1 /\ os_heap s1 `prefix_of` os_heap s' /\
    keeps (os_ctx s0) (os_ctx s1) /\ materialized_columns (os_ctx s1) = materialized_columns (os_ctx s0) /\
    table_poslist_chain (os_ctx s1) = table_poslist_chain (os_ctx s0) /\
    tables_involved r1 = {[t]} ∪ tables_involved r0 /\
    (exists k, contents env (output_column r1) = positions k /\ rows_of t k (fun i => cond D n {[t := i]} = true)) /\
    branch_post t c opn rho (limits_read n s) r0 s0 /\
    createSetOperationNode rnd [r0; r1] PRO.INTERSECTION s1 = Ok (r, s')) as (r1 & s1 & Hp0 & Hp1 & Hk & Hm & Hch1 & Htb & Hrows & Hbp & Hset).
  { pose proof (Rel_limits n _ _ _ HR) as HR'.
    destruct (one_filter t c d opn rho _ r0 s0 Ht Ho Hn HR') as [Hbp Hfil]; [done..|by etrans|].
    destruct (filter_step t n c0 cols _ _ r0 s0 r s' Hb Hon Ht Hc) as
      (r1 & s1 & f & Hroot & Hsrc & Htb & Hh & Hf & Hk & Hm & Hch1 & Hrows & Hif); [by apply Hbp|exact He|].
    rewrite Hfil (bp_src _ _ _ _ _ _ _ Hbp) String.eqb_refl in Hif. exists r1, s1.
    pose proof (grows_setop rnd _ _ _ _ _ Hif) as Hp1. split_and!; try done; [rewrite Hh; by eexists|]. apply Hrows. by etrans. }
  destruct Hbp as [HR0 Hsrc Htb0 Hin0 _ (k0 & Hk0 & Hnd0 & Hr0)]. destruct Hrows as (k1 & Hk1 & Hnd1 & Hr1).
  destruct (Hstored t Ht) as (Hne & _). rewrite -Hsrc in Hne.
  destruct (setop_sem r0 [r1] _ _ _ _ Hne Hset) as (Hk' & Hm' & _ & Hin & Hsome & Hc' & Hs' & Ht' & Hrow').
  destruct (Hrow' Hp) as (k & Hkk & Hnd & Hset'). rewrite Hsrc Hch1 in Hc'. split; [|congruence|..].
  - eapply (Rel_replace opn rho s0 s' t); [done..|by eapply keeps_trans|by etrans|congruence|exact Hc'|exact Hin|exact Hsome].
  - rewrite Ht' /= Htb Htb0. set_solver.
  - exact Hin.
  - intros _. by apply chain_insert_at with (1 := Hc').
  - exists k. split; [done|]. split; [done|]. intros i. rewrite Hset' /= Hk0 Hk1 !decode_positions andb_true_r andb_true_iff !bool_decide_eq_true.
    rewrite Hr0 Hr1 (eval_filter D n c) //. naive_solver.
Qed.

Lemma filters_inv t k n : filters t k n = true -> (node_type n = LNT.SCAN /\ children n = [] /\ scan_table n = t) \/
  exists k' c, k = S k' /\ node_type n = LNT.FILTER /\ children n = [Some c] /\ on_table t n = true /\ filters t k' c = true.
Proof.
  destruct k, n as [[] st bc ex pc ch]; simpl; try done; destruct ch as [|[c|] []]; try done;
    intros Hf; try (left; by apply String.eqb_eq in Hf). apply andb_true_iff in Hf as [? ?]. right. eauto 8.
Qed.

Lemma branch_ok t n opn rho s r s' : branch t n = true -> t ∈ base -> t ∈ opn -> rho t = None -> Rel opn s rho ->
  transformNode rnd n s = Ok (r, s') -> os_heap s' `prefix_of` H -> branch_post t n opn rho s r s'.
Proof.
  intros [Hf%bool_decide_eq_true Hfs]%andb_true_iff Ht Ho Hn HR He Hp.
  apply filters_inv in Hfs as [(? & _)|(k & c & [= <-] & Hty & Hch & Hon & Hc)]; [congruence|].
  apply filters_inv in Hc as [(Hcty & _ & Hst)|(k & d & [= <-] & Hcty & Hcch & Hcon & Hd)].
  - by eapply one_filter.
  - apply filters_inv in Hd as [(Hdty & _ & Hst)|(? & ? & ? & _)]; [|done]. by eapply two_filters.
Qed.

Abbreviation go := (fun o => match o with Some c => transformNode rnd c | None => raise (Throw "Null logical node encountered") end).

Lemma transform_union n s r s' : node_type n = LNT.SETOPERATION -> 2 <= length (children n) ->
  transformNode rnd n s = Ok (r, s') -> handleSetOperation rnd n (mapM go (children n)) (limits_read n s) = Ok (r, s').
Proof. destruct n as [ty st bc ex pc [|o1 [|o2 ch]]]; simpl; [lia|lia|]. by intros ->. Qed.

(** A position list with the rows of a branch. *)
Definition branch_result (t : string) (c : LogicalPlanNode) (r : TransformResult) : Prop :=
  source_table r = t /\ tables_involved r = {[t]} /\
  exists k, contents env (output_column r) = positions k /\ rows_of t k (fun i => {[t := i]} ∈ eval D c).

Lemma branches_ok t opn rho cs : t ∈ base -> t ∈ opn -> rho t = None -> forall s rs s',
  forallb (from_option (branch t) false) cs = true -> Rel opn s rho -> mapM go cs s = Ok (rs, s') ->
  os_heap s' `prefix_of` H -> Rel opn s' rho /\ exists ns, cs = map Some ns /\ Forall2 (branch_result t) ns rs.
Proof.
  intros Ht Ho Hn. induction cs as [|o cs IH]; intros s rs s'; cbn [mapM forallb].
  { intros _ HR [= <- <-] _. split; [done|]. by exists []. }
  intros [Hb Hbs]%andb_true_iff HR (r & s1 & Hr & (rs' & s2 & Hrs & [= <- <-])%ST_bind_ok)%ST_bind_ok Hp.
  destruct o as [c|]; [|done]. cbn [from_option] in Hb.
  assert (os_heap s1 `prefix_of` os_heap s2) as Hp1.
  { eapply grows_mapM; [|exact Hrs]. intros [d|]; [apply grows_transform|apply grows_raise]. }
  destruct (branch_ok t c opn rho s r s1) as [HR1 Hsrc Htb _ _ Hrows]; [done..|by etrans|].
  destruct (IH _ _ _ Hbs HR1 Hrs Hp) as (HR2 & ns & -> & Hall). split; [done|]. exists (c :: ns). split; [done|]. constructor; [done|exact Hall].
Qed.

Lemma union_rows t ns rs k : Forall2 (branch_result t) ns rs -> ns <> [] ->
  set_sem PRO.UNION (map (fun x => decode (contents env (output_column x))) rs) k ->
  rows_of t k (fun i => exists c, c ∈ ns /\ {[t := i]} ∈ eval D c) /\ ⋃ (map tables_involved rs) = {[t]}.
Proof.
  intros Hall Hne [Hnd Hset]. split; [split; [done|]|].
  - intros i. rewrite Hset. cbn [set_mem]. rewrite existsb_exists. clear Hset Hne. split.
    + intros (v & (x & <- & Hx)%in_map_iff & Hv%bool_decide_eq_true). apply list_elem_of_In in Hx.
      apply list_elem_of_lookup in Hx as [j Hj]. destruct (Forall2_lookup_r _ _ _ _ _ Hall Hj) as (c & Hc & _ & _ & kk & Hk & _ & Hr).
      rewrite Hk decode_positions Hr in Hv. destruct Hv as [Hi He]. split; [done|]. exists c. split; [by eapply list_elem_of_lookup_2|done].
    + intros (Hi & c & [j Hj]%list_elem_of_lookup & He). destruct (Forall2_lookup_l _ _ _ _ _ Hall Hj) as (x & Hx & _ & _ & kk & Hk & _ & Hr).
      exists kk. split; [|by apply bool_decide_eq_true, Hr]. apply in_map_iff. exists x. rewrite Hk decode_positions. split; [done|].
      apply list_elem_of_In. by eapply list_elem_of_lookup_2.
  - clear Hset. destruct Hall as [|c x ns rs (_ & Hx & _) Hall]; [done|]. clear Hne. cbn. rewrite Hx.
    assert (⋃ (map tables_involved rs) ⊆ {[t]}); [|set_solver].
    induction Hall as [|d y ns rs (_ & Hy & _) _ IH]; cbn; [set_solver|]. rewrite Hy. set_solver.
Qed.

Lemma leaf_cases t n : leaf t n = true ->
  (node_type n = LNT.SCAN /\ children n = [] /\ scan_table n = t) \/ branch t n = true \/
  (node_type n = LNT.SETOPERATION /\ logical_rel_op (expression n) = Some PRO.UNION /\ 2 <= length (children n) /\
   forallb (from_option (branch t) false) (children n) = true).
Proof.
  intros [Hf|Hu]%orb_true_iff.
  - pose proof Hf as [?|(k & c & _ & Hty & _)]%filters_inv; [by left|]. right; left. rewrite /branch Hf andb_true_r.
    by apply bool_decide_eq_true.
  - right; right. destruct n as [ty st bc ex pc ch]; cbn [node_type children expression] in *. destruct ty; try done.
    destruct ch as [|o1 [|o2 ch]]; try done. apply andb_true_iff in Hu as [Hop%bool_decide_eq_true Hall].
    split_and!; [done|done|simpl; lia|done].
Qed.

(** The rows of a plan over one table. *)
Lemma leaf_ok t n rho s r s' : leaf t n = true -> t ∈ base -> rho t = None -> Rel ∅ s rho ->
  transformNode rnd n s = Ok (r, s') -> os_heap s' `prefix_of` H -> exists k,
  Rel ∅ s' (fun t' => if decide (t' = t) then Some k else rho t') /\ rows_of t k (fun i => {[t := i]} ∈ eval D n) /\
  tables_involved r = {[t]} /\ (node_type n <> LNT.SCAN -> length (contents env (output_column r)) = length k).
Proof.
  intros Hl Ht Hn HR He Hp.
  assert (chain_at s t = []) as Hnil by (eapply rel_new; [exact HR|done|set_solver]).
  pose proof (Rel_open _ _ _ _ _ ∅ s rho t HR) as HRo. rewrite right_id_L in HRo.
  assert (forall k, rows_of t k (fun i => {[t := i]} ∈ eval D n) -> forall i, i ∈ k -> i < nrows D t) as Hrange
    by (intros k [_ Hk] i Hi; by apply Hk).
  apply leaf_cases in Hl as [(Hty & Hch & Hst)|[Hb|(Hty & Hop & Hlen & Hall)]].
  - apply transform_scan in He as [-> ->]; [|done]. exists (seq 0 (nrows D t)). split_and!; [| |by rewrite /= Hst|done].
    + apply (Rel_close D env oc base H); [by apply Rel_limits|done|done|intros i; rewrite elem_of_seq; lia|].
      change (chain_at (limits_read n s) t) with (chain_at s t). by rewrite Hnil.
    + split; [apply NoDup_seq|]. intros i. rewrite elem_of_seq (eval_scan n t) //. split; [|lia]. split; [lia|]. exists i. split; [done|lia].
  - destruct (branch_ok t n {[t]} rho s r s') as [HR' _ Htb _ Hc (k & Hk & Hrows)]; [done|done|set_solver|done..|].
    exists k. split_and!; [|done|done|by rewrite Hk positions_length]. apply (Rel_close D env oc base H); [done|done|done|by apply Hrange|].
    rewrite Hc // /chain_rows. by destruct oc.
  - apply transform_union in He; [|done|done]. rewrite /handleSetOperation Hop in He. cbn [default from_option] in He.
    apply ST_bind_ok in He as (rs & s1 & Hrs & He). pose proof (grows_setop rnd _ _ _ _ _ He) as Hp1.
    destruct (branches_ok t {[t]} rho (children n) Ht ltac:(set_solver) Hn _ _ _ Hall (Rel_limits n _ _ _ HRo) Hrs) as (HR1 & ns & Hns & Hall2);
      [by etrans|]. pose proof (Forall2_length _ _ _ Hall2) as Hlen2. rewrite Hns length_map in Hlen.
    destruct rs as [|first rs]; [destruct ns; simpl in *; lia|]. destruct ns as [|c0 ns]; [done|].
    destruct (proj1 (Forall2_cons _ _ _ _ _) Hall2) as ((Hsrc & _ & _) & _). destruct (Hstored t Ht) as (Hne & _). rewrite -Hsrc in Hne.
    destruct (setop_sem first rs _ _ _ _ Hne He) as (Hk' & Hm' & _ & Hin & Hsome & Hc' & _ & Htb & Hrow).
    destruct (Hrow Hp) as (k & Hk & Hset). destruct (union_rows t _ _ k Hall2 ltac:(done) Hset) as [[Hnd Hku] Htabs].
    assert (rows_of t k (fun i => {[t := i]} ∈ eval D n)) as Hrows.
    { split; [done|]. intros i. by rewrite Hku (eval_union D n (c0 :: ns)). }
    exists k. rewrite Htb Htabs. split_and!; [|done|done|by rewrite Hk positions_length]. rewrite Hsrc in Hc'.
    apply (Rel_close D env oc base H); [|done|done|by apply Hrange|].
    + by eapply (Rel_replace {[t]} rho s1 s' t); [..|set_solver|done|done|done|done|exact Hc'|exact Hin|exact Hsome].
    + destruct (chain_insert_at _ _ _ _ Hc') as [_ ->]. rewrite /chain_rows /=. by destruct oc.
Qed.

End handlers.
