(* ===== verification/RelPlan.v ===== *)
(** * The rows of a plan of scans, filters, unions and joins

    [transform_rows]: after [transformNode] on a plan of the shape [rel_shape]
    the chains of the optimizer stand for a list of result rows that has
    exactly the rows of the logical plan, without repetition. *)

From S2P Require Import Prelude PlanTypes SchemaResolver TranslatorHelpers LogicalSemantics.
From S2P Require Import PhysContext Materialization PhysicalOptimizer PostProcess.
From S2P Require Import PhysicalInvariant MaterializationInv ChainSemantics PhysicalTheorems WorkItems Engine RelInvariant RelHandlers.

(** ** Well-formedness *)

Lemma filters_wf t k : t <> "" -> forall n, filters t k n = true -> WfPlan n /\ tabs n = {[t]}.
Proof.
  intros Hne. induction k as [|k IH]; intros n [(Hty & Hch & Hst)|(k' & c & Hk & Hty & Hch & _ & Hc)]%filters_inv; try done.
  1,2: split; [apply WfScan; congruence|rewrite tabs_scan; congruence].
  injection Hk as <-. apply IH in Hc as [Hw Ht]. split; [by eapply WfFilter|]. rewrite tabs_children ?Hty // Hch /= Ht. set_solver.
Qed.

Lemma leaf_wf t n : t <> "" -> leaf t n = true -> WfPlan n /\ tabs n = {[t]}.
Proof.
  intros Hne [(Hty & Hch & Hst)|[[_ Hb]%andb_true_iff|(Hty & Hop & Hlen & Hall)]]%leaf_cases.
  - split; [apply WfScan; congruence|rewrite tabs_scan; congruence].
  - by eapply filters_wf.
  - assert (exists ns, children n = map Some ns /\ forall c, c ∈ ns -> branch t c = true) as (ns & Hns & Hb).
    { revert Hall. clear. induction (children n) as [|[c|] cs IH]; cbn [forallb]; [|intros [H1 H2]%andb_true_iff|done].
      { exists []. split; [done|]. intros c Hc. by apply not_elem_of_nil in Hc. }
      destruct (IH H2) as (ns & -> & Hns). exists (c :: ns). split; [done|]. intros d [->|Hd]%elem_of_cons; [done|by apply Hns]. }
    assert (forall c, c ∈ ns -> WfPlan c /\ tabs c = {[t]}) as Hw.
    { intros c [_ Hc]%Hb%andb_true_iff. by eapply filters_wf. }
    assert (ns <> []) as Hnn by (intros ->; rewrite Hns in Hlen; simpl in Hlen; lia).
    split; [eapply (WfUnion n ns {[t]}); [done..|intros c Hc; by apply Hw|intros c Hc; by apply Hw]|].
    eapply tabs_union_same; [by rewrite Hty|done|done|intros c Hc; by apply Hw].
Qed.

Lemma tabs_named n : "" ∉ tabs n.
Proof.
  induction n as [n IH] using LogicalPlanNode_child_ind. destruct (decide (node_type n = LNT.SCAN)) as [Hty|Hty].
  - destruct n as [ty st bc ex pc ch]. cbn in Hty. subst ty. rewrite /tabs /toTableSet /=. destruct (is_empty st) eqn:He; [set_solver|].
    apply is_empty_false in He. set_solver.
  - rewrite tabs_children //. intros (T & (c & -> & Hc)%list_elem_of_fmap & Hin)%elem_of_union_list.
    apply list_elem_of_omap in Hc as (o & Ho & Hid). rewrite /id in Hid. subst o. by apply (IH c).
Qed.

Inductive RelShape : LogicalPlanNode -> Prop :=
  | RelLeaf n t : t ∈ tabs n -> leaf t n = true -> RelShape n
  | RelJoin n l r a b : node_type n = LNT.JOIN -> children n = [Some l; Some r] -> base_columns n = [a; b] ->
      RelShape l -> RelShape r -> tabs l ## tabs r -> table_name a ∈ tabs l -> table_name b ∈ tabs r ->
      comp_type (expression n) = Some PCT.EQ -> RelShape n
  | RelCross n c a b : node_type n = LNT.FILTER -> children n = [Some c] -> base_columns n = [a; b] ->
      RelShape c -> table_name a ∈ tabs c -> table_name b ∈ tabs c -> table_name a <> table_name b -> RelShape n.

Lemma rel_shape_spec n : rel_shape n = true -> RelShape n.
Proof.
  induction n as [n IH] using LogicalPlanNode_child_ind. intros Hs.
  assert (existsb (fun t => leaf t n) (elements (tabs n)) = true \/ match node_type n, children n, base_columns n with
  | LNT.JOIN, [Some l; Some r], [a; b] =>
      rel_shape l && rel_shape r && bool_decide (tabs l ## tabs r) &&
      bool_decide (table_name a ∈ tabs l) && bool_decide (table_name b ∈ tabs r) &&
      bool_decide (comp_type (expression n) = Some PCT.EQ)
  | LNT.FILTER, [Some c], [a; b] =>
      rel_shape c && bool_decide (table_name a ∈ tabs c) && bool_decide (table_name b ∈ tabs c) &&
      negb (table_name a =s table_name b)
  | _, _, _ => false
  end = true) as [Hl|Hn] by (apply orb_true_iff; by destruct n).
  - apply existsb_exists in Hl as (t & Ht%list_elem_of_In%elem_of_elements & Hl). by eapply RelLeaf.
  - destruct n as [ty st bc ex pc ch]; cbn [node_type children base_columns expression] in *.
    destruct ty; try done; destruct ch as [|[c|] [|[d|] []]]; try done; destruct bc as [|a [|b []]]; try done;
      rewrite !andb_true_iff ?negb_true_iff ?String.eqb_neq ?bool_decide_eq_true in Hn.
    + destruct Hn as (((Hc & Ha) & Hb) & Hne). apply (RelCross _ c a b); try done. apply IH; [set_solver|done].
    + destruct Hn as (((((Hc & Hd) & Hdis) & Ha) & Hb) & He).
      apply (RelJoin _ c d a b); try done; (apply IH; [set_solver|done]).
Qed.

Lemma RelShape_wf n : RelShape n -> WfPlan n.
Proof.
  induction 1 as [n t Ht Hl|n l r a b Hty Hch _ _ IHl _ IHr Hd _ _ _|n c a b Hty Hch _ _ IH _ _ _].
  - eapply leaf_wf; [|done]. intros ->. by apply (tabs_named n).
  - by eapply WfJoin.
  - by eapply WfFilter.
Qed.

Lemma eval_bound (D : engine Z) n t u i : WfPlan n -> u ∈ eval D n -> u !! t = Some i -> i < nrows D t.
Proof.
  intros Hw. revert u. induction Hw as [n Hty Hch Hne|n c Hty Hch Hc IH|n l r Hty Hch Hl IHl Hr IHr Hd
                 |n cs T Hty Hop Hch Hne Hcs IH HT]; intros u.
  - rewrite (eval_scan D n (scan_table n)) //. intros (j & -> & Hj) [<- <-]%lookup_singleton_Some. done.
  - rewrite (eval_filter D n c) //. intros [Hu _]. by apply IH.
  - rewrite (eval_join D n l r) //. intros (x & y & Hx & Hy & -> & _) [Hl'|[_ Hr']]%lookup_union_Some_raw; [by eapply IHl|by eapply IHr].
  - rewrite (eval_union D n cs) //. intros (c & Hc & Hu). by eapply IH.
Qed.

(** ** Lists of rows *)

(** The rows [R] of a plan over the tables [T], table by table. *)
Definition over (T : gset string) (R : list tuple) (rho : string -> option (list nat)) (t : string) : option (list nat) :=
  if decide (t ∈ T) then Some (map (fun u => u !!! t) R) else rho t.

Lemma lookup_total_map {A B} `{!Inhabited A, !Inhabited B} (f : A -> B) (l : list A) i : i < length l -> map f l !!! i = f (l !!! i).
Proof.
  intros Hi. destruct (lookup_lt_is_Some_2 l i Hi) as [x Hx]. rewrite (list_lookup_total_correct l i x Hx).
  apply list_lookup_total_correct. by rewrite list_lookup_fmap Hx.
Qed.

Lemma union_total_l (x y : tuple) t : t ∈ dom x -> (x ∪ y) !!! t = x !!! t.
Proof. intros [i Hi]%elem_of_dom. by rewrite /lookup_total /map_lookup_total (lookup_union_Some_l x y t i) // Hi. Qed.

Lemma union_total_r (x y : tuple) t : t ∉ dom x -> (x ∪ y) !!! t = y !!! t.
Proof. intros Hi%not_elem_of_dom. by rewrite /lookup_total /map_lookup_total lookup_union_r. Qed.

Lemma dom_lookup (x : tuple) t : t ∈ dom x -> x !! t = Some (x !!! t).
Proof. intros [i Hi]%elem_of_dom. by rewrite /lookup_total /map_lookup_total Hi. Qed.

Lemma union_inj (x y x' y' : tuple) : dom x = dom x' -> dom y = dom y' -> dom x ## dom y ->
  x ∪ y = x' ∪ y' -> x = x' /\ y = y'.
Proof.
  intros Hx Hy Hd He. assert (forall t, (x ∪ y) !! t = (x' ∪ y') !! t) as Ht by by rewrite He.
  split; apply map_eq; intros t; specialize (Ht t).
  - destruct (decide (t ∈ dom x)) as [Hi|Hi].
    + pose proof Hi as Hi'. rewrite Hx in Hi'. by rewrite (dom_lookup x) // (dom_lookup x') // -(union_total_l x y) // -(union_total_l x' y') // He.
    + pose proof Hi as Hi'. rewrite Hx in Hi'. apply not_elem_of_dom in Hi as ->, Hi' as ->. done.
  - destruct (decide (t ∈ dom x)) as [Hi|Hi].
    + assert (t ∉ dom y) as Hn by set_solver. pose proof Hn as Hn'. rewrite Hy in Hn'. apply not_elem_of_dom in Hn as ->, Hn' as ->. done.
    + pose proof Hi as Hi'. rewrite Hx in Hi'. apply not_elem_of_dom in Hi, Hi'. by rewrite !lookup_union_r in Ht.
Qed.

(** The join of two lists of rows along pairs of indexes. *)
Definition join_tuples (RL RR : list tuple) (ps : list (nat * nat)) : list tuple :=
  map (fun p => RL !!! p.1 ∪ RR !!! p.2) ps.

Section tuples.
Context (TL TR : gset string) (RL RR : list tuple) (ps : list (nat * nat)).
Hypothesis domL : forall u, u ∈ RL -> dom u = TL.
Hypothesis domR : forall u, u ∈ RR -> dom u = TR.
Hypothesis disj : TL ## TR.
Hypothesis bounds : forall i j, (i, j) ∈ ps -> i < length RL /\ j < length RR.

Lemma join_tuples_nodup : NoDup RL -> NoDup RR -> NoDup ps -> NoDup (join_tuples RL RR ps).
Proof.
  intros HL HR. induction ps as [|[i j] ps' IH]; cbn; [constructor|]. intros [Hin Hnd]%NoDup_cons. apply NoDup_cons. split.
  - intros ([i' j'] & He & Hp)%list_elem_of_fmap. cbn in He.
    destruct (bounds i j ltac:(set_solver)) as [Hi Hj]. destruct (bounds i' j' ltac:(set_solver)) as [Hi' Hj'].
    apply union_inj in He as [H1 H2].
    + assert (i = i') as <-. { eapply NoDup_lookup; [exact HL|by apply list_lookup_lookup_total_lt|]. rewrite H1. by apply list_lookup_lookup_total_lt. }
      assert (j = j') as <-. { eapply NoDup_lookup; [exact HR|by apply list_lookup_lookup_total_lt|]. rewrite H2. by apply list_lookup_lookup_total_lt. }
      done.
    + by rewrite !domL //; apply list_elem_of_lookup_total_2.
    + by rewrite !domR //; apply list_elem_of_lookup_total_2.
    + by rewrite domL ?domR //; apply list_elem_of_lookup_total_2.
  - apply IH; [|done]. intros i' j' Hp. apply bounds. set_solver.
Qed.

Lemma join_tuples_left t : t ∈ TL -> map (fun i => map (fun u : tuple => u !!! t) RL !!! i) (map fst ps) = map (fun u : tuple => u !!! t) (join_tuples RL RR ps).
Proof.
  intros Ht. rewrite /join_tuples !List.map_map. apply map_ext_in. intros [i j] Hp%list_elem_of_In. destruct (bounds i j Hp) as [Hi Hj]. cbn.
  rewrite lookup_total_map // union_total_l // domL //. by apply list_elem_of_lookup_total_2.
Qed.

Lemma join_tuples_right t : t ∈ TR -> map (fun i => map (fun u : tuple => u !!! t) RR !!! i) (map snd ps) = map (fun u : tuple => u !!! t) (join_tuples RL RR ps).
Proof.
  intros Ht. rewrite /join_tuples !List.map_map. apply map_ext_in. intros [i j] Hp%list_elem_of_In. destruct (bounds i j Hp) as [Hi Hj]. cbn.
  rewrite lookup_total_map // union_total_r // domL; [set_solver|]. by apply list_elem_of_lookup_total_2.
Qed.

End tuples.

Lemma pick_nodup (R : list tuple) k : NoDup R -> NoDup k -> indexes k R -> NoDup (map (fun i => R !!! i) k).
Proof.
  intros HR. induction 1 as [|i k Hi Hk IH]; cbn; intros Hx; [constructor|]. apply NoDup_cons. split.
  - intros (j & He & Hj)%list_elem_of_fmap. assert (i = j) as <-; [|done].
    eapply NoDup_lookup; [exact HR|apply list_lookup_lookup_total_lt, Hx; set_solver|]. rewrite He.
    apply list_lookup_lookup_total_lt, Hx. set_solver.
  - apply IH. intros j Hj. apply Hx. set_solver.
Qed.

Lemma push_chains_at tbls p s s' : table_poslist_chain (os_ctx s') = table_poslist_chain (push_chains tbls p (os_ctx s)) ->
  forall t, chain_at s' t = chain_at s t ++ if decide (t ∈ tbls) then [p] else [].
Proof.
  intros Hc t. rewrite /chain_at Hc push_chains_lookup. case_decide; [done|]. by rewrite app_nil_r.
Qed.

Section plan.
Context (D : engine Z) (env : string -> list (option Z)) (rnd : nat -> Z) (oc : bool) (base : gset string) (H : list PhysicalPlanNode).
Hypothesis Hstored : stored D env base.
Hypothesis Hruns : runs_plan D env H.
Hypothesis Hsmall : small H.

(** The engine's equality does not depend on the order of its operands. *)
Definition eq_symmetric : Prop := forall e x y, comp_type e = Some PCT.EQ -> holds D e [x; y] = holds D e [y; x].
Hypothesis Hsym : eq_symmetric.

Abbreviation Rel := (Rel D env oc base H ∅).
Abbreviation in_plan s := (os_heap s `prefix_of` H).

(** *** Joins *)

(** What follows the materialization of the keys in [handleJoin], seen from the
    left and the right input. *)
Record joined (e : Expression) (lr rr : TransformResult) (lm rm : Column) (s s' : opt_state) (r : TransformResult) (pl pr : PosListInfo) : Prop := {
  jd_keeps : keeps (os_ctx s) (os_ctx s');
  jd_mats : materialized_columns (os_ctx s') = materialized_columns (os_ctx s);
  jd_heap : os_heap s `prefix_of` os_heap s';
  jd_more : length (os_heap s) < length (os_heap s');
  jd_tabs : tables_involved r = tables_involved lr ∪ tables_involved rr;
  jd_out : output_column r = poslist_col pl \/ output_column r = poslist_col pr;
  jd_chain : forall t, chain_at s' t = chain_at s t ++
    if decide (t ∈ tables_involved lr) then [pl] else if decide (t ∈ tables_involved rr) then [pr] else [];
  jd_store : in_store (os_heap s') (pos_producer pl) /\ in_store (os_heap s') (pos_producer pr);
  jd_linked : in_plan s' -> linked H pl = true /\ linked H pr = true;
  jd_rows : in_plan s' -> exists ps, join_sem D e (contents env lm) (contents env rm) ps /\
    contents env (poslist_col pl) = positions (map fst ps) /\ contents env (poslist_col pr) = positions (map snd ps);
}.

Lemma join_sem_swap e v w ps : comp_type e = Some PCT.EQ -> join_sem D e v w ps -> join_sem D e w v (map (fun p => (p.2, p.1)) ps).
Proof.
  intros He [Hnd Hps]. split.
  - apply NoDup_fmap_2; [|done]. by intros [? ?] [? ?] [= -> ->].
  - intros i j. rewrite list_elem_of_fmap. split.
    + intros ([k l] & [= -> ->] & (? & ? & ?)%Hps). split_and!; [done|done|by rewrite Hsym].
    + intros (? & ? & Hh). exists (j, i). split; [done|]. apply Hps. split_and!; [done|done|by rewrite Hsym].
Qed.

Lemma linked_at h a n p : h `prefix_of` H -> pos_producer p = Some a -> h !! a = Some n ->
  p_node_type n = PNT.HASHJOIN \/ p_node_type n = PNT.FILTER -> linked H p = true.
Proof.
  intros Hp Ha Hn Hty. rewrite /linked Ha /= (prefix_lookup_Some h H a n) //. by destruct Hty as [-> | ->].
Qed.

Lemma joined_swap e lr rr lm rm s s' r pl pr : comp_type e = Some PCT.EQ -> tables_involved lr ## tables_involved rr ->
  joined e lr rr lm rm s s' r pl pr -> joined e rr lr rm lm s s' r pr pl.
Proof.
  intros He Hd [? ? ? ? Htb Ho Hch [? ?] Hlk Hrow]. split; try done.
  - rewrite Htb. set_solver.
  - destruct Ho; auto.
  - intros t. rewrite Hch. do 2 case_decide; try done. set_solver.
  - intros Hp. by destruct (Hlk Hp).
  - intros Hp. destruct (Hrow Hp) as (ps & Hps & Hl & Hr). exists (map (fun p => (p.2, p.1)) ps).
    split_and!; [by apply join_sem_swap| |]; by rewrite List.map_map.
Qed.

Lemma joined_intro f ir outr im om icol ocol s s' r (X : TransformContext) : tables_involved ir ## tables_involved outr ->
  let p := mkPos icol (Some (length (os_heap s))) in let q := mkPos ocol (Some (length (os_heap s))) in
  os_heap s' = os_heap s ++ [f] -> os_ctx s' = push_chains (tables_involved outr) q (push_chains (tables_involved ir) p X) ->
  keeps (os_ctx s) X -> table_poslist_chain X = table_poslist_chain (os_ctx s) ->
  materialized_columns X = materialized_columns (os_ctx s) -> tables_involved r = tables_involved ir ∪ tables_involved outr ->
  output_column r = icol ->
  p_node_type f = PNT.HASHJOIN -> p_base_columns f = [im; om] -> p_result_columns f = [icol; ocol] ->
  joined (p_expression f) ir outr im om s s' r p q.
Proof.
  intros Hd p q Hh Hc [Hk1 Hk2 Hk3] Ht Hm Htb Ho Hty Hbc Hrc.
  assert (os_heap s' !! length (os_heap s) = Some f) as Hf by by rewrite Hh lookup_app_r // Nat.sub_diag.
  split; rewrite ?Hc; try done.
  - rewrite Hh. by eexists.
  - rewrite Hh length_app /=. lia.
  - by left.
  - intros t. rewrite (push_chains_at (tables_involved outr) q (set_ctx (push_chains (tables_involved ir) p X) s) s' ltac:(by rewrite Hc)).
    rewrite (push_chains_at (tables_involved ir) p (set_ctx X s)) // {1}/chain_at /= Ht -/(chain_at s t) -app_assoc. f_equal.
    do 2 case_decide; try done. set_solver.
  - rewrite Hh. split; intros x [= <-]; rewrite length_app /=; lia.
  - intros Hp. split; (eapply linked_at; [exact Hp|done|exact Hf|by left]).
  - intros Hp. pose proof (run_at D env H Hruns _ _ _ Hp Hf) as Hx. rewrite /node_exec Hty Hbc Hrc in Hx. exact Hx.
Qed.

Lemma join_step n lhs rhs s r s' a b : base_columns n = [a; b] -> comp_type (expression n) = Some PCT.EQ ->
  handleJoin rnd n lhs rhs s = Ok (r, s') -> exists lr s1 rr s2 lm a' s3 rm b' s4,
  lhs s = Ok (lr, s1) /\ rhs s1 = Ok (rr, s2) /\ ensureMaterialized rnd a s2 = Ok ((lm, a'), s3) /\
  ensureMaterialized rnd b s3 = Ok ((rm, b'), s4) /\ os_heap s4 `prefix_of` os_heap s' /\
  (tables_involved lr ## tables_involved rr -> exists pl pr, joined (expression n) lr rr (mat_col lm) (mat_col rm) s4 s' r pl pr).
Proof.
  intros Hb Heq. rewrite /handleJoin. intros (lr & s1 & H1 & (rr & s2 & H2 & He)%ST_bind_ok)%ST_bind_ok. rewrite Hb in He.
  apply ST_bind_ok in He as ([lm a'] & s3 & H3 & ([rm b'] & s4 & H4 & He)%ST_bind_ok).
  exists lr, s1, rr, s2, lm, a', s3, rm, b', s4. split_and!; [done..| |].
  { revert He. apply (fun g : grows _ => g s4 r s'). grows_tac. }
  intros Hd. destruct (getCardinality (table_name b) <? getCardinality (table_name a))%Z;
    unfold mbind, ST_bind in He; cbn in He; injection He as <- <-.
  - eexists _, _. apply joined_swap; [done|set_solver|].
    eapply (joined_intro (set_p_expression (expression n) _)); try reflexivity; [set_solver|done|]. cbn. set_solver.
  - eexists _, _. eapply (joined_intro (set_p_expression (expression n) _)); try reflexivity; [set_solver|done].
Qed.

(** *** Rows of a node *)

(** The state after a node stands for its rows. *)
Definition rows_post (n : LogicalPlanNode) (rho : string -> option (list nat)) (r : TransformResult) (s' : opt_state) : Prop :=
  exists R, NoDup R /\ (forall u, u ∈ R <-> u ∈ eval D n) /\ Rel ∅ s' (over (tabs n) R rho) /\ tables_involved r = tabs n /\
    (node_type n <> LNT.SCAN -> length (contents env (output_column r)) = length R).

Lemma leaf_rows t n rho s r s' : leaf t n = true -> t ∈ base -> rho t = None -> Rel ∅ s rho ->
  transformNode rnd n s = Ok (r, s') -> in_plan s' -> rows_post n rho r s'.
Proof.
  intros Hl Ht Hn HR He Hp. destruct (leaf_ok D env rnd oc base H Hstored Hruns Hsmall t n rho s r s') as (k & HR' & [Hnd Hk] & Htb & Hlen); [done..|].
  destruct (leaf_wf t n ltac:(by destruct (Hstored t Ht)) Hl) as [Hw Htabs]. exists (map (fun i => {[t := i]}) k).
  split_and!; [| | |congruence|by rewrite length_map].
  - apply NoDup_fmap_2; [|done]. intros i j He'. apply (f_equal (lookup t)) in He'. rewrite !lookup_singleton_eq in He'. by injection He'.
  - intros u. rewrite list_elem_of_fmap. split; [intros (i & -> & Hi); by apply Hk|].
    intros Hu. pose proof (eval_dom D n u Hw Hu) as Hdom. rewrite Htabs in Hdom.
    assert (is_Some (u !! t)) as [i Hi] by (apply elem_of_dom; set_solver).
    assert (u = {[t := i]}) as ->.
    { apply map_eq. intros t'. destruct (decide (t' = t)) as [->|Hne]; [by rewrite lookup_singleton_eq|].
      rewrite lookup_singleton_ne //. apply not_elem_of_dom. set_solver. }
    exists i. split; [done|]. apply Hk. split; [|done].
    eapply (eval_bound D n t); [done..|]. apply lookup_singleton_eq.
  - eapply Rel_ext; [|exact HR']. intros t'. rewrite /over Htabs List.map_map.
    destruct (decide (t' = t)) as [->|Hne].
    + rewrite decide_True; [|set_solver]. f_equal. rewrite -{2}(map_id k). apply map_ext. intros i.
      apply lookup_total_singleton_eq.
    + rewrite decide_False //. set_solver.
Qed.

Lemma transform_join n l r s res s' : node_type n = LNT.JOIN -> children n = [Some l; Some r] ->
  transformNode rnd n s = Ok (res, s') -> handleJoin rnd n (transformNode rnd l) (transformNode rnd r) (limits_read n s) = Ok (res, s').
Proof. destruct n; simpl. by intros -> ->. Qed.

(** A key column at an index of the rows. *)
Lemma cells_index c R i : i < length R ->
  at_pos (cells_at D c (map (fun u : tuple => u !!! table_name c) R)) i = Some (cell D (table_name c) (column_name c) (R !!! i !!! table_name c)).
Proof.
  intros Hi. rewrite /at_pos /cells_at List.map_map list_lookup_fmap.
  by rewrite (list_lookup_lookup_total_lt R i Hi).
Qed.

Lemma cells_length c R : length (cells_at D c (map (fun u : tuple => u !!! table_name c) R)) = length R.
Proof. by rewrite /cells_at !length_map. Qed.

(** The condition of an equi-join on a combined row. *)
Lemma join_cond n a b (x y : tuple) : base_columns n = [a; b] -> table_name a <> "" -> table_name b <> "" ->
  table_name a ∈ dom x -> table_name b ∉ dom x -> table_name b ∈ dom y ->
  cond D n (x ∪ y) = holds D (expression n) [Some (cell D (table_name a) (column_name a) (x !!! table_name a));
    Some (cell D (table_name b) (column_name b) (y !!! table_name b))].
Proof.
  intros Hb Ha Hb' Hx Hx' Hy. rewrite /cond Hb /=. do 2 f_equal; [|f_equal].
  - apply colval_at; [done|]. rewrite -(union_total_l x y) //. apply dom_lookup. set_solver.
  - apply colval_at; [done|]. rewrite -(union_total_r x y) //. apply dom_lookup. set_solver.
Qed.

Section join.
Context (n l r : LogicalPlanNode) (a b : Column) (RL RR : list tuple) (ps : list (nat * nat)).
Hypothesis Hty : node_type n = LNT.JOIN.
Hypothesis Hch : children n = [Some l; Some r].
Hypothesis Hbc : base_columns n = [a; b].
Hypothesis Hwl : WfPlan l.
Hypothesis Hwr : WfPlan r.
Hypothesis Hdis : tabs l ## tabs r.
Hypothesis Ha : table_name a ∈ tabs l.
Hypothesis Hb : table_name b ∈ tabs r.
Hypothesis HL : forall u, u ∈ RL <-> u ∈ eval D l.
Hypothesis HR : forall u, u ∈ RR <-> u ∈ eval D r.
Hypothesis Hps : join_sem D (expression n) (cells_at D a (map (fun u : tuple => u !!! table_name a) RL))
  (cells_at D b (map (fun u : tuple => u !!! table_name b) RR)) ps.

Lemma join_bounds i j : (i, j) ∈ ps -> i < length RL /\ j < length RR.
Proof. intros (H1 & H2 & _)%Hps. by rewrite !cells_length in H1 H2. Qed.

Lemma join_domL u : u ∈ RL -> dom u = tabs l.
Proof. intros Hu%HL. by apply (eval_dom D l). Qed.
Lemma join_domR u : u ∈ RR -> dom u = tabs r.
Proof. intros Hu%HR. by apply (eval_dom D r). Qed.

Lemma join_pair i j : i < length RL -> j < length RR -> (i, j) ∈ ps <-> cond D n (RL !!! i ∪ RR !!! j) = true.
Proof.
  intros Hi Hj. destruct Hps as [_ ->]. rewrite !cells_length !cells_index //.
  assert (dom (RL !!! i) = tabs l) as Hx by by apply join_domL, list_elem_of_lookup_total_2.
  assert (dom (RR !!! j) = tabs r) as Hy by by apply join_domR, list_elem_of_lookup_total_2.
  pose proof (tabs_no_empty l Hwl) as Hnl. pose proof (tabs_no_empty r Hwr) as Hnr.
  assert (table_name a <> "" /\ table_name b <> "") as [Hna Hnb].
  { split; intros He; [apply Hnl; rewrite -He; exact Ha|apply Hnr; rewrite -He; exact Hb]. }
  rewrite (join_cond n a b) // ?Hx ?Hy; try done; [tauto|set_solver].
Qed.

Lemma join_members u : u ∈ join_tuples RL RR ps <-> u ∈ eval D n.
Proof.
  rewrite (eval_join D n l r) // /join_tuples list_elem_of_fmap. split.
  - intros ([i j] & -> & Hp). destruct (join_bounds i j Hp) as [Hi Hj]. cbn. exists (RL !!! i), (RR !!! j).
    split_and!; [by apply HL, list_elem_of_lookup_total_2|by apply HR, list_elem_of_lookup_total_2|done|by apply join_pair].
  - intros (x & y & [i Hi]%HL%list_elem_of_lookup & [j Hj]%HR%list_elem_of_lookup & -> & Hc).
    pose proof (lookup_lt_Some _ _ _ Hi). pose proof (lookup_lt_Some _ _ _ Hj).
    apply list_lookup_total_correct in Hi, Hj. subst. exists (i, j). split; [done|]. by apply join_pair.
Qed.

End join.

(** The rows of a subplan, from any state that has not seen its tables. *)
Definition rows_ok (n : LogicalPlanNode) : Prop := forall rho s r s', (forall t, t ∈ tabs n -> rho t = None) -> Rel ∅ s rho ->
  transformNode rnd n s = Ok (r, s') -> in_plan s' -> rows_post n rho r s'.

Lemma over_in T R rho t : t ∈ T -> over T R rho t = Some (map (fun u => u !!! t) R).
Proof. intros Ht. by rewrite /over decide_True. Qed.
Lemma over_out T R rho t : t ∉ T -> over T R rho t = rho t.
Proof. intros Ht. by rewrite /over decide_False. Qed.

Lemma rows_join n l r a b : node_type n = LNT.JOIN -> children n = [Some l; Some r] -> base_columns n = [a; b] ->
  comp_type (expression n) = Some PCT.EQ -> WfPlan l -> WfPlan r -> tabs l ∪ tabs r ⊆ base -> tabs l ## tabs r ->
  table_name a ∈ tabs l -> table_name b ∈ tabs r -> rows_ok l -> rows_ok r -> rows_ok n.
Proof.
  intros Hty Hch Hbc Heq Hwl Hwr Hbase Hdis Ha Hb IHl IHr rho s res s' Hn HR He Hp.
  assert (tabs n = tabs l ∪ tabs r) as Htabs by (rewrite tabs_children ?Hty // Hch /=; set_solver).
  assert (tabs l ⊆ base /\ tabs r ⊆ base) as [Hbl Hbr] by (clear -Hbase; set_solver).
  assert (forall t, t ∈ tabs l \/ t ∈ tabs r -> t ∈ tabs n) as Hlr by (rewrite Htabs; clear; set_solver).
  assert (forall t, t ∈ tabs l -> t ∉ tabs r) as Hnot by (clear -Hdis; set_solver).
  apply (transform_join n l r) in He; [|done..].
  destruct (join_step n _ _ _ _ _ a b Hbc Heq He) as (lr & s1 & rr & s2 & lm & a' & s3 & rm & b' & s4 & H1 & H2 & H3 & H4 & Hp4 & Hj).
  assert (in_plan s4) as Hp4' by by etrans. assert (in_plan s3) as Hp3 by (etrans; [by eapply grows_ensure|done]).
  assert (in_plan s2) as Hp2 by (etrans; [by eapply grows_ensure|done]).
  assert (in_plan s1) as Hp1 by (etrans; [by eapply grows_transform|done]).
  destruct (IHl rho (limits_read n s) lr s1) as (RL & HndL & HL & HR1 & HtL & _); [intros t Ht; apply Hn; by eauto|by apply Rel_limits|done|done|].
  destruct (IHr (over (tabs l) RL rho) s1 rr s2) as (RR & HndR & HRR & HR2 & HtR & _); [|done..|].
  { intros t Ht. rewrite over_out; [apply Hn; by eauto|]. intros Hl. by eapply Hnot. }
  assert (forall t, (t ∈ tabs l -> over (tabs r) RR (over (tabs l) RL rho) t = Some (map (fun u => u !!! t) RL)) /\
    (t ∈ tabs r -> over (tabs r) RR (over (tabs l) RL rho) t = Some (map (fun u => u !!! t) RR))) as Hov.
  { intros t. split; intros Ht; [rewrite over_out ?over_in //; by apply Hnot|by rewrite over_in]. }
  destruct (rel_ensure D env rnd oc base H ∅ Hstored Hruns Hsmall _ _ _ a (map (fun u => u !!! table_name a) RL) lm a' s3 HR2 (base_name_empty _)) as (HR3 & Hk3 & Hlm);
    [by apply Hbl|by apply Hov|exact H3|done|].
  destruct (rel_ensure D env rnd oc base H ∅ Hstored Hruns Hsmall _ _ _ b (map (fun u => u !!! table_name b) RR) rm b' s4 HR3 (base_name_empty _)) as (HR4 & Hk4 & Hrm);
    [by apply Hbr|by apply Hov|exact H4|done|].
  rewrite HtL HtR in Hj. destruct (Hj Hdis) as (pl & pr & [Hkj Hmj Hhj Hlj Htj Hoj Hcj [Hsl Hsr] Hlk Hrow]).
  destruct (Hlk Hp) as [Hlkl Hlkr]. destruct (Hrow Hp) as (ps & Hps & Hpl & Hpr). rewrite Hlm Hrm in Hps.
  pose proof (join_bounds n a b RL RR ps Hps) as Hbd.
  pose proof (join_domL l RL Hwl HL) as HdL. pose proof (join_domR r RR Hwr HRR) as HdR.
  exists (join_tuples RL RR ps). split_and!.
  - eapply join_tuples_nodup; [exact HdL|exact HdR|done|exact Hbd|done|done|apply Hps].
  - intros u. by eapply (join_members n l r a b).
  - eapply Rel_ext; [|eapply (Rel_extend D env oc base H ∅ s4 s' _ (fun t =>
      if decide (t ∈ tabs l) then Some (pl, map fst ps) else if decide (t ∈ tabs r) then Some (pr, map snd ps) else None)); [done..|by rewrite Hmj| |]].
    + intros t. cbn beta. destruct (decide (t ∈ tabs l)) as [Hl|Hl]; [|destruct (decide (t ∈ tabs r)) as [Hr|Hr]].
      * rewrite over_in; [|by eauto]. rewrite (proj1 (Hov t)) //=. f_equal. symmetry. by eapply join_tuples_left.
      * rewrite over_in; [|by eauto]. rewrite (proj2 (Hov t)) //=. f_equal. symmetry. by eapply join_tuples_right.
      * rewrite !over_out //. rewrite Htabs. clear -Hl Hr. set_solver.
    + intros t. rewrite Hcj HtL HtR. f_equal. by repeat case_decide.
    + intros t p k. destruct (decide (t ∈ tabs l)) as [Hl|Hl]; [|destruct (decide (t ∈ tabs r)) as [Hr|Hr]; [|done]];
        intros [= <- <-]; eexists; (split; [first [exact (proj1 (Hov t) Hl)|exact (proj2 (Hov t) Hr)]|]); (split; [|by split_and!]);
        intros i ([i1 i2] & -> & [? ?]%Hbd)%list_elem_of_fmap; by rewrite length_map.
  - by rewrite Htj HtL HtR Htabs.
  - intros _. rewrite /join_tuples length_map. destruct Hoj as [-> | ->]; [rewrite Hpl|rewrite Hpr]; by rewrite positions_length length_map.
Qed.

(** *** Conditions between two tables *)

Lemma cross_step n child s r s' a b : base_columns n = [a; b] -> table_name a <> "" -> table_name b <> "" ->
  table_name a <> table_name b -> handleFilter rnd n child s = Ok (r, s') -> exists cr s1 lm a' s2 rm b' s3 p,
  child s = Ok (cr, s1) /\ ensureMaterialized rnd a s1 = Ok ((lm, a'), s2) /\ ensureMaterialized rnd b s2 = Ok ((rm, b'), s3) /\
  os_heap s3 `prefix_of` os_heap s' /\ length (os_heap s3) < length (os_heap s') /\ keeps (os_ctx s3) (os_ctx s') /\
  (forall k i, materialized_columns (os_ctx s') !! k = Some i -> materialized_columns (os_ctx s3) !! k = Some i) /\
  (forall t, chain_at s' t = chain_at s3 t ++ if decide (t ∈ tables_involved cr) then [p] else []) /\
  in_store (os_heap s') (pos_producer p) /\ output_column r = poslist_col p /\
  tables_involved r = {[table_name b]} ∪ ({[table_name a]} ∪ tables_involved cr) /\
  (in_plan s' -> linked H p = true /\ exists k, contents env (poslist_col p) = positions k /\
    filter_sem D (expression n) [contents env (mat_col lm); contents env (mat_col rm)] k).
Proof.
  intros Hb Ha%is_empty_false Hb'%is_empty_false Hne. rewrite /handleFilter. intros (cr & s1 & H1 & He)%ST_bind_ok.
  rewrite Hb Ha Hb' (proj2 (String.eqb_neq _ _) Hne) /= in He. rewrite /handleCrossTableFilter in He.
  apply ST_bind_ok in He as ([lm a'] & s2 & H2 & ([rm b'] & s3 & H3 & He)%ST_bind_ok).
  unfold fresh_col, mbind, ST_bind in He. cbn in He. set (out := Column3 _ _ _) in He. injection He as <- <-.
  exists cr, s1, lm, a', s2, rm, b', s3, (mkPos out (Some (length (os_heap s3)))). cbn [os_heap set_ctx tables_involved tr].
  split_and!; [done..|by eexists|rewrite length_app /=; lia|done| | | |done|done|].
  - intros k i. cbn. by intros [? _]%map_lookup_filter_Some.
  - intros t. by apply push_chains_at.
  - intros x [= <-]. rewrite length_app /=. lia.
  - intros Hp. split.
    + eapply linked_at; [exact Hp|done|by rewrite /= lookup_app_r // Nat.sub_diag|by right].
    + exact (run_snoc D env H Hruns _ _ Hp).
Qed.

Lemma cross_cond n a b (u : tuple) : base_columns n = [a; b] -> table_name a <> "" -> table_name b <> "" ->
  table_name a ∈ dom u -> table_name b ∈ dom u ->
  cond D n u = holds D (expression n) [Some (cell D (table_name a) (column_name a) (u !!! table_name a));
    Some (cell D (table_name b) (column_name b) (u !!! table_name b))].
Proof. intros Hb Ha Hb' Hu Hu'. rewrite /cond Hb /= (colval_at D u a (u !!! table_name a)) ?(colval_at D u b (u !!! table_name b)) //; by apply dom_lookup. Qed.

Lemma rows_cross n c a b : node_type n = LNT.FILTER -> children n = [Some c] -> base_columns n = [a; b] ->
  WfPlan c -> tabs c ⊆ base -> table_name a ∈ tabs c -> table_name b ∈ tabs c -> table_name a <> table_name b ->
  rows_ok c -> rows_ok n.
Proof.
  intros Hty Hch Hbc Hwc Hbase Ha Hb Hne IH rho s res s' Hn HR He Hp.
  assert (tabs n = tabs c) as Htabs by (rewrite tabs_children ?Hty // Hch /=; clear; set_solver).
  pose proof (tabs_no_empty c Hwc) as Hem.
  assert (table_name a <> "" /\ table_name b <> "") as [Hna Hnb] by (split; intros E; apply Hem; by rewrite -E).
  apply (transform_filter rnd n c) in He; [|done..].
  destruct (cross_step n _ _ _ _ a b Hbc Hna Hnb Hne He) as
    (cr & s1 & lm & a' & s2 & rm & b' & s3 & p & H1 & H2 & H3 & Hp3 & Hlt & Hk & Hm & Hchain & Hst & Hout & Htb & Hrow).
  assert (in_plan s3) as Hp3' by by etrans. assert (in_plan s2) as Hp2 by (etrans; [by eapply grows_ensure|done]).
  assert (in_plan s1) as Hp1 by (etrans; [by eapply grows_ensure|done]).
  destruct (IH rho (limits_read n s) cr s1) as (R & Hnd & HRm & HR1 & HtR & _); [intros t Ht; apply Hn; by rewrite Htabs|by apply Rel_limits|done|done|].
  destruct (rel_ensure D env rnd oc base H ∅ Hstored Hruns Hsmall _ _ _ a (map (fun u => u !!! table_name a) R) lm a' s2 HR1 (base_name_empty _)) as (HR2 & _ & Hlm);
    [by apply Hbase|by apply over_in|done|done|].
  destruct (rel_ensure D env rnd oc base H ∅ Hstored Hruns Hsmall _ _ _ b (map (fun u => u !!! table_name b) R) rm b' s3 HR2 (base_name_empty _)) as (HR3 & _ & Hrm);
    [by apply Hbase|by apply over_in|done|done|].
  destruct (Hrow Hp) as (Hlk & k & Hpk & Hknd & Hks). rewrite Hlm Hrm in Hks.
  assert (indexes k R) as Hix. { intros i Hi%Hks. cbn in Hi. rewrite cells_length in Hi. by destruct Hi. }
  assert (forall i, i < length R -> i ∈ k <-> cond D n (R !!! i) = true) as Hcond.
  { intros i Hi. rewrite Hks /passes /= cells_length !cells_index //. assert (dom (R !!! i) = tabs c) as Hdom
      by by apply (eval_dom D c), HRm, list_elem_of_lookup_total_2. rewrite (cross_cond n a b) ?Hdom //. tauto. }
  exists (map (fun i => R !!! i) k). split_and!.
  - by apply pick_nodup.
  - intros u. rewrite list_elem_of_fmap (eval_filter D n c) // -HRm. split.
    + intros (i & -> & Hi). pose proof (Hix i Hi). split; [by apply list_elem_of_lookup_total_2|by apply Hcond].
    + intros [[i Hi]%list_elem_of_lookup Hc]. pose proof (lookup_lt_Some _ _ _ Hi). apply list_lookup_total_correct in Hi. subst.
      exists i. split; [done|]. by apply Hcond.
  - eapply Rel_ext; [|eapply (Rel_extend D env oc base H ∅ s3 s' _ (fun t => if decide (t ∈ tabs c) then Some (p, k) else None)); [done..| |]].
    + intros t. rewrite /over Htabs. destruct (decide (t ∈ tabs c)) as [Ht|Ht]; [|done]. cbn. rewrite !List.map_map. f_equal.
      apply map_ext_in. intros i Hi%list_elem_of_In. by rewrite lookup_total_map; [|apply Hix].
    + intros t. rewrite Hchain HtR. by case_decide.
    + intros t q k'. case_decide as Ht; [|done]. intros [= <- <-]. eexists. split; [by apply over_in|]. split_and!; try done.
      intros i Hi. rewrite length_map. by apply Hix.
  - rewrite Htb HtR Htabs. clear -Ha Hb. set_solver.
  - intros _. by rewrite Hout Hpk positions_length length_map.
Qed.

(** *** All plans *)

Lemma transform_rows n : RelShape n -> tabs n ⊆ base -> rows_ok n.
Proof.
  induction 1 as [n t Ht Hl|n l r a b Hty Hch Hbc Hl IHl Hr IHr Hd Ha Hb He|n c a b Hty Hch Hbc Hc IH Ha Hb Hab]; intros Hbase.
  - intros rho s r s' Hn HR He Hp. eapply (leaf_rows t); [done|by apply Hbase|by apply Hn|done..].
  - rewrite tabs_children ?Hty // Hch /= in Hbase. assert (tabs l ⊆ base /\ tabs r ⊆ base) as [Hbl Hbr] by set_solver.
    eapply (rows_join n l r a b); eauto using RelShape_wf. set_solver.
  - rewrite tabs_children ?Hty // Hch /= in Hbase. assert (tabs c ⊆ base) as Hbc' by set_solver.
    eapply (rows_cross n c a b); eauto using RelShape_wf.
Qed.

End plan.
