(* ===== verification/RelNames.v ===== *)
(** * The names of the columns a plan writes

    Every node writes columns named after its id.  When the ids of a plan
    differ, its nodes write different columns and never one that was read
    before, so the plan can be run. *)

From stdpp Require Import pretty.
From S2P Require Import Prelude PlanTypes LogicalSemantics PhysContext Materialization PhysicalOptimizer PostProcess.
From S2P Require Import PhysicalInvariant MaterializationInv HandlersInv ChainSemantics WorkItems Engine RelInvariant RelHandlers RelPlan.

(** ** Names *)

Lemma str_app_inj (a s1 s2 : string) : a +:+ s1 = a +:+ s2 -> s1 = s2.
Proof. induction a as [|x a IH]; [done|]. intros [= H]. by apply IH. Qed.

Lemma no_char_cons x a s : no_char x (String a s) = negb (Ascii.eqb x a) && no_char x s.
Proof. done. Qed.

(** A character that is neither a digit nor a sign. *)
Definition separator (x : ascii) : bool := bool_decide (x ∈ ["_"; "."]%char).

Lemma pretty_char_digit x n : separator x = true -> Ascii.eqb x (pretty_N_char n) = false.
Proof.
  intros Hx%bool_decide_eq_true. rewrite !elem_of_cons in Hx.
  destruct Hx as [-> |[-> |?%not_elem_of_nil]]; [| |done]; by destruct n as [|[[[[]|[]|]|[[]|[]|]|]|[[[]|[]|]|[[]|[]|]|]|]].
Qed.

Lemma pretty_go_digits x n : separator x = true -> forall s, no_char x s = true -> no_char x (pretty_N_go n s) = true.
Proof.
  intros Hx. induction (N.lt_wf_0 n) as [n _ IH]. intros s Hs. destruct (decide (0 < n)%N) as [Hn|Hn].
  - rewrite pretty_N_go_step //. apply IH; [by apply N.div_lt|]. by rewrite no_char_cons Hs pretty_char_digit.
  - assert (n = 0%N) as -> by lia. by rewrite pretty_N_go_0.
Qed.

Lemma iname_plain x z : separator x = true -> no_char x (iname z) = true.
Proof.
  intros Hx. assert (forall n : N, no_char x (pretty n) = true) as Hn.
  { intros n. rewrite /pretty /pretty_N. case_decide; [|by apply pretty_go_digits].
    apply bool_decide_eq_true in Hx. rewrite !elem_of_cons in Hx. by destruct Hx as [-> |[-> |?%not_elem_of_nil]]. }
  change (no_char x (String "i" (to_string z)) = true). rewrite no_char_cons. apply andb_true_iff. split.
  - apply bool_decide_eq_true in Hx. rewrite !elem_of_cons in Hx. by destruct Hx as [-> |[-> |?%not_elem_of_nil]].
  - destruct z as [|p|p]; [exact (Hn 0%N)|exact (Hn (Npos p))|]. change (no_char x (String "-" (pretty (Npos p))) = true).
    rewrite no_char_cons (Hn (Npos p)) andb_true_r. apply bool_decide_eq_true in Hx. rewrite !elem_of_cons in Hx.
    by destruct Hx as [-> |[-> |?%not_elem_of_nil]].
Qed.

Lemma iname_inj a b s1 s2 : stops "_"%char s1 = true -> stops "_"%char s2 = true -> iname a +:+ s1 = iname b +:+ s2 -> a = b.
Proof.
  intros H1 H2 He. apply (split_at "_"%char) in He; [|by apply iname_plain|by apply iname_plain|done|done].
  rewrite /iname /to_string in He. injection He as He. exact (inj pretty a b He).
Qed.

Lemma no_char_app x s1 s2 : no_char x (s1 +:+ s2) = no_char x s1 && no_char x s2.
Proof. induction s1 as [|a s1 IH]; [done|]. change (String a s1 +:+ s2) with (String a (s1 +:+ s2)). by rewrite !no_char_cons IH andb_assoc. Qed.

(** A key with one dot belongs to one table. *)
Lemma one_dot t c itn y : no_dot itn = true -> no_dot y = true -> t +:+ "." +:+ c = itn +:+ "." +:+ y -> t = itn.
Proof.
  rewrite /no_dot. intros Hi Hy. revert itn Hi. induction t as [|a t IH]; intros [|b itn]; rewrite ?no_char_cons; [done| | |].
  - intros [Hb _]%andb_true_iff [= <- _]. done.
  - intros _ He. exfalso. injection He as _ He. change (t +:+ "." +:+ c = y) in He. subst y.
    by rewrite !no_char_app andb_false_r in Hy.
  - intros [_ Hi]%andb_true_iff [= -> He]. f_equal. by apply IH.
Qed.

(** ** Nodes are named after their identifier *)

(** The outputs of a join are told apart by their suffixes. *)
Definition join_named (n : PhysicalPlanNode) : Prop := p_node_type n = PNT.HASHJOIN -> exists i o,
  p_result_columns n = [i; o] /\ last2 (column_name i) = "_i" /\ last2 (column_name o) = "_o".

(** A column of the intermediate table named after an id. *)
Definition id_key (itn : string) (id : Z) (k : string) : Prop := exists suffix, stops "_"%char suffix = true /\ no_dot suffix = true /\
  k = itn +:+ "." +:+ (iname id +:+ suffix).

(** The node writes columns named after its id. *)
Definition named (itn : string) (n : PhysicalPlanNode) : Prop :=
  writes n = map col_key (p_result_columns n) /\ NoDup (writes n) /\ join_named n /\
  forall k, k ∈ writes n -> id_key itn (p_node_id n) k.

Lemma last2_app s x y : last2 (s +:+ String x (String y "")) = String x (String y "").
Proof.
  assert (forall s, String.length (s +:+ String x (String y "")) = S (S (String.length s))) as Hl.
  { intros t. induction t as [|a t IH]; [done|]. exact (f_equal S IH). }
  rewrite /last2 Hl /=. rewrite Nat.sub_0_r. induction s as [|a s IH]; [done|]. exact IH.
Qed.

(** The types of nodes with one output. *)
Definition one_output (ty : PNT.PhysicalNodeType) : bool :=
  match ty with PNT.MATERIALIZE | PNT.FILTER | PNT.SETOPERATION | PNT.MAP | PNT.AGGREGATE | PNT.SORT => true | _ => false end.

Lemma named_one itn id ty base c ch idx e suffix : one_output ty = true ->
  stops "_"%char suffix = true -> no_dot suffix = true -> col_key c = itn +:+ "." +:+ (iname id +:+ suffix) ->
  named itn (set_p_expression e (new_phys ty id base [c] ch idx)).
Proof.
  intros Hty Hs Hd Hc. assert (writes (set_p_expression e (new_phys ty id base [c] ch idx)) = [col_key c]) as Hw
    by (rewrite /writes /=; by destruct ty).
  split_and!; [done|rewrite Hw; apply NoDup_singleton|intros He; simpl in He; by subst ty|].
  rewrite Hw. intros k ->%list_elem_of_singleton. by exists suffix.
Qed.

Section names.
Variable rnd : nat -> Z.

(** Between two states: new nodes, named after their ids. *)
Definition fresh_ext (s s' : opt_state) : Prop :=
  intermediate_table_name (os_ctx s') = intermediate_table_name (os_ctx s) /\
  exists l, os_heap s' = os_heap s ++ l /\ Forall (named (intermediate_table_name (os_ctx s))) l.

Definition names {A} (m : ST opt_state A) : Prop := forall s a s', m s = Ok (a, s') -> fresh_ext s s'.

Lemma fresh_ext_same s s' : os_heap s' = os_heap s ->
  intermediate_table_name (os_ctx s') = intermediate_table_name (os_ctx s) -> fresh_ext s s'.
Proof. intros Hh Hi. split; [done|]. exists []. by rewrite Hh app_nil_r. Qed.

Lemma fresh_ext_trans s1 s2 s3 : fresh_ext s1 s2 -> fresh_ext s2 s3 -> fresh_ext s1 s3.
Proof.
  intros (Hi1 & l1 & Hh1 & Hf1) (Hi2 & l2 & Hh2 & Hf2). split; [congruence|]. exists (l1 ++ l2). split; [by rewrite Hh2 Hh1 app_assoc|].
  apply Forall_app. split; [done|]. by rewrite -Hi1.
Qed.

Lemma fresh_ext_alloc s n ctx d : named (intermediate_table_name (os_ctx s)) n ->
  intermediate_table_name ctx = intermediate_table_name (os_ctx s) -> fresh_ext s (mkOS ctx (os_heap s ++ [n]) d).
Proof. intros Hn Hi. split; [done|]. exists [n]. by split; [|constructor]. Qed.

Lemma names_ret {A} (a : A) : names (mret a).
Proof. intros s b s' [= _ <-]. by apply fresh_ext_same. Qed.
Lemma names_raise {A} e : names (raise e : ST opt_state A).
Proof. by intros s b s'. Qed.
Lemma names_lift {A} (r : result A) : names (lift r).
Proof. intros s b s'. rewrite /lift. destruct r; [|done]. intros [= _ <-]. by apply fresh_ext_same. Qed.
Lemma names_bind {A B} (m : ST opt_state A) (f : A -> ST opt_state B) : names m -> (forall a, names (f a)) -> names (m ≫= f).
Proof. intros Hm Hf s b s' (a & s1 & H1 & H2)%ST_bind_ok. eapply fresh_ext_trans; [by eapply Hm|by eapply Hf]. Qed.
Lemma names_get : names get_ctx.
Proof. intros s b s' [= _ <-]. by apply fresh_ext_same. Qed.
Lemma names_upd f : (forall c, intermediate_table_name (f c) = intermediate_table_name c) -> names (upd_ctx f).
Proof. intros Hf s b s' [= _ <-]. by apply fresh_ext_same; rewrite /= ?Hf. Qed.
Lemma names_load a : names (load a).
Proof. intros s b s'. rewrite /load. case_match; [|done]. intros [= _ <-]. by apply fresh_ext_same. Qed.
Lemma names_mapM {A B} (f : A -> ST opt_state B) l : (forall x, x ∈ l -> names (f x)) -> names (mapM f l).
Proof.
  intros Hf. induction l as [|x l IH]; simpl; [apply names_ret|]. apply names_bind; [apply Hf; set_solver|]. intros ?.
  apply names_bind; [apply IH; set_solver|]. intros ?. apply names_ret.
Qed.

(** Draw an identifier, then enter the node named after it. *)
Lemma names_draw {B} (f : TransformContext -> Z -> PhysicalPlanNode) (k : TransformContext -> Z -> paddr -> ST opt_state B) :
  (forall ctx id, named (intermediate_table_name ctx) (f ctx id)) -> (forall ctx id a, names (k ctx id a)) ->
  names (ctx ← get_ctx; id ← nextIntermediateName rnd; a ← alloc (f ctx id); k ctx id a).
Proof.
  intros Hf Hk s b s' (ctx & s1 & [= <- <-] & (id & s2 & [= <- <-] & (a & s3 & [= <- <-] & He)%ST_bind_ok)%ST_bind_ok)%ST_bind_ok.
  eapply fresh_ext_trans; [|by eapply Hk]. by apply fresh_ext_alloc.
Qed.

Lemma names_fresh {B} suffix ty (f : Z -> Column -> PhysicalPlanNode) (k : Z -> Column -> paddr -> ST opt_state B) :
  (forall itn id, named itn (f id (Column3 itn (iname id +:+ suffix) ty))) -> (forall id c a, names (k id c a)) ->
  names ('(id, c) ← fresh_col rnd suffix ty; a ← alloc (f id c); k id c a).
Proof.
  intros Hf Hk s b s' ([id c] & s1 & H1 & (a & s3 & H3 & He)%ST_bind_ok)%ST_bind_ok.
  rewrite /fresh_col in H1. injection H1 as <- <- <-. injection H3 as <- <-.
  eapply fresh_ext_trans; [|by eapply Hk]. by apply fresh_ext_alloc.
Qed.

#[local] Hint Resolve names_ret names_raise names_lift names_get names_load : names.
#[local] Hint Extern 1 (names (upd_ctx _)) => apply names_upd; intros; repeat case_match; reflexivity : names.

Ltac names_step := first [ solve [auto with names] | apply names_bind; [|intros ?] | case_match ].
Ltac names_tac := repeat names_step.
Ltac names_one := intros; eapply named_one; [reflexivity| | |reflexivity]; reflexivity.

Lemma names_has_type o ty : names (has_type o ty).
Proof. rewrite /has_type. names_tac. Qed.
#[local] Hint Resolve names_has_type : names.

Lemma new_phys_plain ty id base res ch idx : new_phys ty id base res ch idx = set_p_expression Expression_default (new_phys ty id base res ch idx).
Proof. done. Qed.

Lemma named_default itn id ty base ch idx col : one_output ty = true ->
  named itn (new_phys ty id base [Column3 itn (iname id) col] ch idx).
Proof.
  intros Hty. rewrite new_phys_plain. apply named_one with (suffix := ""); [done..|]. by rewrite string_app_nil.
Qed.

Lemma names_create c p chs : names (createMaterializeNode rnd c p chs).
Proof.
  rewrite /createMaterializeNode.
  apply (names_draw (fun ctx id => new_phys PNT.MATERIALIZE id [c] [Column3 (intermediate_table_name ctx) (iname id) (type c)] (producers chs) (Some p))).
  - intros ctx id. by apply named_default.
  - intros. names_tac.
Qed.
#[local] Hint Resolve names_create : names.

Lemma names_map_chain t rest : forall prev, names (map_chain rnd t prev rest).
Proof.
  induction rest as [|cur rest IH]; intros prev; cbn [map_chain]; [names_tac|]. apply names_bind; [|intros ?; names_tac].
  rewrite /map_poslist. do 2 (apply names_bind; [names_tac|intros ?]). destruct (_ || _); [|names_tac].
  apply (names_draw (fun ctx id => new_phys PNT.MATERIALIZE id [poslist_col prev]
    [Column3 (intermediate_table_name ctx) (iname id) PTY.POSLIST] (producers [pos_producer prev; pos_producer cur]) (Some (poslist_col cur)))).
  - intros ctx id. by apply named_default.
  - intros. names_tac.
Qed.
#[local] Hint Resolve names_map_chain : names.

Lemma names_chain_loop chain : forall i cur, names (chain_loop rnd chain i cur).
Proof. induction chain as [|p chain IH]; intros i cur; simpl; names_tac. Qed.
#[local] Hint Resolve names_chain_loop : names.
Lemma names_isBase i : names (isBaseTableChainMaterialization i).
Proof. rewrite /isBaseTableChainMaterialization. names_tac. Qed.
#[local] Hint Resolve names_isBase : names.
Lemma names_ensure c : names (ensureMaterialized rnd c).
Proof. rewrite /ensureMaterialized /ensureMaterializedOptimized. names_tac. Qed.
#[local] Hint Resolve names_ensure : names.

Lemma names_setop l op : names (createSetOperationNode rnd l op).
Proof.
  rewrite /createSetOperationNode. destruct l as [|first [|second l]]; [names_tac..|].
  apply (names_fresh "" PTY.POSLIST (fun id c => set_p_expression (set_logical_rel_op (Some op) Expression_default)
    (new_phys PNT.SETOPERATION id (map output_column (first :: second :: l)) [c] (map physical_root (first :: second :: l)) None))).
  - names_one.
  - intros. names_tac.
Qed.
#[local] Hint Resolve names_setop : names.

Lemma names_cross n c0 c1 r src : names (handleCrossTableFilter rnd n c0 c1 r src).
Proof.
  rewrite /handleCrossTableFilter. apply names_bind; [names_tac|]. intros [lm ?]. apply names_bind; [names_tac|]. intros [rm ?].
  apply (names_fresh "" PTY.POSLIST (fun id c => set_p_expression (expression n)
    (new_phys PNT.FILTER id [mat_col lm; mat_col rm] [c] (producers [mat_producer lm; mat_producer rm]) None))).
  - names_one.
  - intros. names_tac.
Qed.
#[local] Hint Resolve names_cross : names.

Lemma names_filter n m : names m -> names (handleFilter rnd n m).
Proof.
  intros Hm. rewrite /handleFilter. apply names_bind; [done|]. intros r. destruct (base_columns n) as [|c0 cols]; [names_tac|].
  match goal with |- names ?x => match x with context [match ?y with Some c1 => handleCrossTableFilter _ _ _ _ _ _ | None => _ end] =>
    destruct y as [c1|]; [by names_tac|] end end.
  apply (names_fresh "" PTY.POSLIST (fun id c => set_p_expression (expression n) (new_phys PNT.FILTER id (set_is_base (Some true) c0 :: cols) [c] [] None))).
  - names_one.
  - intros. names_tac.
Qed.

Lemma names_join n l r : names l -> names r -> names (handleJoin rnd n l r).
Proof.
  intros Hl Hr. rewrite /handleJoin. apply names_bind; [done|]. intros lr. apply names_bind; [done|]. intros rr.
  destruct (base_columns n) as [|a [|b cols]]; [names_tac..|]. apply names_bind; [names_tac|]. intros [lm ?]. apply names_bind; [names_tac|].
  intros [rm ?]. generalize (getCardinality (table_name b) <? getCardinality (table_name a))%Z as sw. intros sw.
  destruct (if sw then (rm, lm) else (lm, rm)) as [im om]. destruct (if sw then (table_name b, table_name a) else _) as [it ot].
  destruct (if sw then (rr, lr) else (lr, rr)) as [ir outr].
  apply (names_draw (fun ctx id => set_p_expression (expression n) (new_phys PNT.HASHJOIN id [mat_col im; mat_col om]
    [Column3 (intermediate_table_name ctx) (iname id +:+ "_i") PTY.POSLIST; Column3 (intermediate_table_name ctx) (iname id +:+ "_o") PTY.POSLIST]
    (producers [mat_producer im; mat_producer om]) None))).
  - intros ctx id. split_and!; [done| | |].
    + rewrite /writes /=. apply NoDup_cons. split; [|apply NoDup_singleton]. rewrite list_elem_of_singleton. intros He.
      by repeat apply str_app_inj in He.
    + intros _. by eexists _, _; split_and!; [reflexivity|apply last2_app|apply last2_app].
    + intros k. rewrite /writes /= !elem_of_cons. intros [-> |[-> |?%not_elem_of_nil]]; [| |done]; (eexists; split_and!; [| |reflexivity]; done).
  - intros. names_tac.
Qed.

Lemma names_register name c o : names (registerIntermediateResult name c o).
Proof. apply names_upd. done. Qed.
#[local] Hint Resolve names_register : names.

Lemma names_map n m : names m -> names (handleMap rnd n m).
Proof.
  intros Hm. rewrite /handleMap /materialize_columns. apply names_bind; [done|]. intros r.
  apply names_bind; [apply names_mapM; intros; names_tac|]. intros mats.
  apply (names_fresh "" PTY.INTEGER (fun id c => set_p_expression (expression n)
    (new_phys PNT.MAP id (map mat_col mats) [c] (producers (map mat_producer mats)) None))); [names_one|intros; names_tac].
Qed.

(** An AGGREGATE node over one column. *)
Lemma names_agg {B} e spec col ch (k : Z -> Column -> paddr -> ST opt_state B) : (forall id c a, names (k id c a)) ->
  names ('(id, out) ← fresh_col rnd "" PTY.INTEGER;
         a ← alloc (set_p_expression e (new_phys PNT.AGGREGATE id [col] [agg_alias_col spec out] ch None)); k id out a).
Proof.
  apply (names_fresh "" PTY.INTEGER (fun id c => set_p_expression e (new_phys PNT.AGGREGATE id [col] [agg_alias_col spec c] ch None))).
  intros. eapply named_one with (suffix := ""); [done..|]. by rewrite (proj1 (agg_alias_key _ _)).
Qed.

Lemma names_parallel r specs : names (parallel_loop rnd specs r).
Proof.
  induction specs as [|sp specs IH]; cbn [parallel_loop]; [names_tac|]. rewrite /resolveAggregateInput. apply names_bind; [names_tac|].
  intros [col ch]. apply names_agg. intros. names_tac.
Qed.
#[local] Hint Resolve names_parallel : names.

Lemma names_aggregate n m : base_columns n = [] -> names m -> names (handleAggregate rnd n m).
Proof.
  intros Hb Hm. rewrite /handleAggregate Hb. apply names_bind; [done|]. intros r.
  assert (names (createSingleAggregateNode rnd n r)) as Hs.
  { rewrite /createSingleAggregateNode. apply names_bind; [names_tac|]. intros [col ch]. apply names_agg. intros. names_tac. }
  rewrite /createParallelAggregateNodes. names_tac.
Qed.

Lemma names_sort n m : names m -> names (handleSort rnd n m).
Proof.
  intros Hm. rewrite /handleSort. apply names_bind; [done|]. intros r. apply names_bind; [names_tac|]. intros e.
  destruct e; [names_tac|]. apply names_bind; [apply names_mapM; intros; rewrite /sort_key; names_tac|]. intros ks.
  apply (names_fresh "_idx" PTY.POSLIST (fun id c => set_p_expression (set_sort_order (sort_order (expression n)) Expression_default)
    (new_phys PNT.SORT id (map fst ks) [c] (producers (map snd ks)) None))); [names_one|intros; names_tac].
Qed.

(** *** The traversal *)

Fixpoint plain (n : LogicalPlanNode) : bool :=
  match node_type n with
  | LNT.SCAN | LNT.FILTER | LNT.JOIN | LNT.SETOPERATION | LNT.PROJECTION | LNT.MAP | LNT.SORT => true
  | LNT.AGGREGATE => bool_decide (base_columns n = [])
  end && forallb (fun o => match o with Some c => plain c | None => true end) (children n).

Lemma plain_children n c : plain n = true -> Some c ∈ children n -> plain c = true.
Proof.
  destruct n as [ty st bc ex pc ch]; cbn [plain node_type children]. intros [_ Hc]%andb_true_iff Hin.
  rewrite forallb_forall in Hc. exact (Hc (Some c) (proj1 (list_elem_of_In _ _) Hin)).
Qed.

Lemma plain_up m c : (node_type m = LNT.AGGREGATE -> base_columns m = []) -> children m = [Some c] -> plain c = true -> plain m = true.
Proof.
  destruct m as [ty st bc ex pc ch]; cbn [node_type children plain base_columns]. intros Hty -> Hc. cbn [forallb]. rewrite Hc.
  destruct ty; try done. by rewrite Hty.
Qed.

Lemma WfPlan_plain n : WfPlan n -> plain n = true.
Proof.
  induction 1 as [n Hty Hch _|n c Hty Hch _ IH|n l r Hty Hch _ IHl _ IHr _|n cs T Hty _ Hch _ _ IH _];
    destruct n as [ty st bc ex pc ch]; cbn [node_type children] in *; subst; cbn [plain node_type children forallb].
  - done.
  - by rewrite IH.
  - by rewrite IHl IHr.
  - cbn. apply forallb_forall. intros o (c & <- & Hc)%in_map_iff. apply IH. by apply list_elem_of_In.
Qed.

Lemma names_project cols : names (project_loop rnd cols).
Proof. induction cols as [|c cols IH]; cbn [project_loop]; names_tac. Qed.
#[local] Hint Resolve names_project : names.

Lemma names_transform n : plain n = true -> names (transformNode rnd n).
Proof.
  induction n as [n IH] using LogicalPlanNode_child_ind. intros Hpl. pose proof (plain_children n) as Hc.
  destruct n as [ty st bc ex pc ch]. cbn [transformNode node_type children].
  assert (forall o, o ∈ ch -> names match o with Some c => transformNode rnd c | None => raise (Throw "Null logical node encountered") end) as Hgo.
  { intros [c|] Hin; [apply IH; [done|by apply Hc]|apply names_raise]. }
  apply names_bind; [apply names_upd; done|]. intros _.
  destruct ty, ch as [|o1 [|o2 ch]]; try done; try (apply names_raise || apply names_ret);
    pose proof (Hgo o1 ltac:(set_solver)) as H1; try pose proof (Hgo o2 ltac:(set_solver)) as H2.
  all: first [by apply names_filter|by apply names_join|by apply names_map|by apply names_sort|
    by (apply names_aggregate; [apply andb_true_iff in Hpl as [Hpl%bool_decide_eq_true _]|])|
    by (apply names_bind; [done|intros ?; names_tac])|idtac].
  rewrite /handleSetOperation. apply names_bind; [by apply names_mapM|]. intros ?. names_tac.
Qed.

End names.

(** ** Plans that can be run *)

Lemma single_assignment_intro h : (forall a n, h !! a = Some n -> NoDup (writes n) /\
    (forall b m k, a < b -> h !! b = Some m -> k ∈ writes n -> k ∉ writes m) /\
    (forall b m k, a <= b -> h !! b = Some m -> k ∈ reads n -> k ∉ writes m)) -> single_assignment h = true.
Proof.
  assert (forall (h : list PhysicalPlanNode) k, k ∈ writes_of h -> exists b m, h !! b = Some m /\ k ∈ writes m) as Hin.
  { intros h' k (m & Hk & [b Hb]%list_elem_of_lookup)%list_elem_of_bind. eauto. }
  induction h as [|n h IH]; intros Hh; [done|]. cbn [single_assignment]. destruct (Hh 0 n eq_refl) as (Hnd & Hw & Hr).
  rewrite !andb_true_iff !bool_decide_eq_true !Forall_forall. split_and!; [done| | |].
  - intros k Hk (b & m & Hb & Hm)%Hin. eapply (Hw (S b)); [lia|exact Hb|done|done].
  - intros k Hk [Hk'|(b & m & Hb & Hm)%Hin]%elem_of_app; [by eapply (Hr 0)|]. by eapply (Hr (S b)); [lia|..].
  - apply IH. intros a m Ha. destruct (Hh (S a) m Ha) as (H1 & H2 & H3). split_and!; [done| |].
    + intros b m' k Hlt Hb. apply (H2 (S b)); [lia|done].
    + intros b m' k Hle Hb. apply (H3 (S b)); [lia|done].
Qed.

Lemma named_key itn n k : named itn n -> k ∈ writes n -> exists y, no_dot y = true /\ k = itn +:+ "." +:+ y.
Proof.
  intros (_ & _ & _ & Hk) (suffix & _ & Hd & ->)%Hk. exists (iname (p_node_id n) +:+ suffix). split; [|done].
  rewrite /no_dot no_char_app. apply andb_true_iff. split; [by apply iname_plain|exact Hd].
Qed.

Lemma id_key_inj itn a b k : id_key itn a k -> id_key itn b k -> a = b.
Proof.
  intros (s1 & Hs1 & _ & ->) (s2 & Hs2 & _ & He). do 2 apply str_app_inj in He. exact (iname_inj _ _ _ _ Hs1 Hs2 He).
Qed.

Lemma named_disjoint itn n m k : named itn n -> named itn m -> k ∈ writes n -> k ∈ writes m -> p_node_id n = p_node_id m.
Proof.
  intros (_ & _ & _ & Hn) (_ & _ & _ & Hm) H1%Hn H2%Hm. by eapply id_key_inj.
Qed.

(** The auxiliary columns of an AGGREGATE are named after its id too. *)
Lemma id_key_suffix itn id k s : id_key itn id k -> s ∈ ["_agg"; "_idx_ext"; "_cluster"] -> id_key itn id (k +:+ s).
Proof.
  intros (sf & Hs & Hd & ->) Hin. exists (sf +:+ s). rewrite -!string_app_assoc. split_and!; [| |done].
  - destruct sf as [|a sf]; [|exact Hs]. rewrite !elem_of_cons in Hin. by destruct Hin as [-> |[-> |[-> |?%not_elem_of_nil]]].
  - rewrite /no_dot in Hd |- *. rewrite no_char_app Hd. rewrite !elem_of_cons in Hin. by destruct Hin as [-> |[-> |[-> |?%not_elem_of_nil]]].
Qed.

Lemma named_outs itn n k : named itn n -> k ∈ outs n -> id_key itn (p_node_id n) k.
Proof.
  intros (Hw & _ & _ & Hn). rewrite /outs list_elem_of_In in_flat_map. intros (c & Hc & Hk).
  assert (id_key itn (p_node_id n) (col_key c)) as Hid by (apply Hn; rewrite Hw; by apply list_elem_of_fmap_2, list_elem_of_In).
  destruct Hk as [<-|Hk]; [done|]. destruct (_ || _); [|done]. apply in_map_iff in Hk as (s & <- & Hs%list_elem_of_In). by apply id_key_suffix.
Qed.

Lemma writes_unique itn h : NoDup (map p_node_id h) -> Forall (named itn) h -> forall a b n m k,
  h !! a = Some n -> h !! b = Some m -> k ∈ writes n -> k ∈ writes m -> a = b.
Proof.
  intros Hnd Hall a b n m k Ha Hb H1 H2. rewrite Forall_lookup in Hall.
  pose proof (named_disjoint _ _ _ _ (Hall _ _ Ha) (Hall _ _ Hb) H1 H2) as He.
  eapply (NoDup_lookup (map p_node_id h)); [done|by rewrite list_lookup_fmap Ha|]. by rewrite list_lookup_fmap Hb /= He.
Qed.

Lemma outs_unique itn h : NoDup (map p_node_id h) -> Forall (named itn) h -> forall a b n m k,
  h !! a = Some n -> h !! b = Some m -> k ∈ outs n -> k ∈ writes m -> a = b.
Proof.
  intros Hnd Hall a b n m k Ha Hb H1 H2. rewrite Forall_lookup in Hall. destruct (Hall _ _ Hb) as (_ & _ & _ & Hm).
  pose proof (id_key_inj _ _ _ _ (named_outs _ _ _ (Hall _ _ Ha) H1) (Hm _ H2)) as He.
  eapply (NoDup_lookup (map p_node_id h)); [done|by rewrite list_lookup_fmap Ha|]. by rewrite list_lookup_fmap Hb /= He.
Qed.

Lemma single_assignment_store itn h : no_dot itn = true -> heap_ok itn h -> NoDup (map p_node_id h) ->
  Forall (named itn) h -> single_assignment h = true.
Proof.
  intros Hitn Hh Hnd Hall. pose proof (writes_unique itn h Hnd Hall) as Huniq. pose proof (outs_unique itn h Hnd Hall) as Hout'. rewrite Forall_lookup in Hall.
  apply single_assignment_intro. intros a n Ha. split_and!.
  - by destruct (Hall a n Ha) as (_ & ? & _).
  - intros b m k Hlt Hb H1 H2. assert (a = b) by by eapply Huniq. lia.
  - intros b m k Hle Hb (c & -> & Hc)%list_elem_of_fmap Hw. destruct (Hh a n Ha) as (Hread & _ & _).
    destruct (Hread c) as [Hne|(o & _ & a' & n' & _ & Hn' & Hout)].
    + rewrite /consumed. set_solver.
    + destruct (named_key _ _ _ (Hall b m Hb) Hw) as (y & Hy & He). apply Hne. by eapply one_dot.
    + apply lookup_take_Some in Hn' as [Hn' Hlt].
      assert (a' = b) by by eapply Hout'. lia.
Qed.
