(* ===== verification/RelTrim.v ===== *)
(** * Trimming join outputs does not change what a plan computes

    [optimizeJoinOutputs] removes the outputs of joins that no node of the plan
    reads.  Running the trimmed plan gives every column that the plan reads the
    same contents. *)

From S2P Require Import Prelude PlanTypes LogicalSemantics PhysContext Materialization PhysicalOptimizer PostProcess.
From S2P Require Import PhysicalInvariant ChainSemantics PostProcessInv PhysicalTheorems WorkItems Engine RelInvariant RelNames.

Lemma reach_decide h root a : acyclic h -> root < length h -> reach h root a \/ ~ reach h root a.
Proof.
  intros Hac Hr. pose proof (collect_fuel_ok h Hac (S (length h)) root ∅ ∅ ltac:(lia) Hr) as Hv.
  destruct (collect_fuel _ _ _ _) as [[V R]|]; [|done]. destruct Hv as (Hv & _). rewrite -(visit_all h root V Hv).
  destruct (decide (a ∈ V)); auto.
Qed.

Section trim.
Context (D : engine Z) (itn : string) (h : list PhysicalPlanNode) (m : PhysicalPlanNode) (root : paddr).

(** The store of a finished plan: named nodes and the RESULT node. *)
Hypothesis Hitn : itn <> "".
Hypothesis Hdot : no_dot itn = true.
Hypothesis Hres : p_node_type m = PNT.RESULT.
Hypothesis Hok : heap_ok itn (h ++ [m]).
Hypothesis Hnamed : Forall (named itn) h.
Hypothesis Hids : NoDup (map p_node_id h).
Hypothesis Hroot : root < length (h ++ [m]).

Variables (R : gset string) (h' : list PhysicalPlanNode).
Hypothesis HR : collectReferencedColumns (h ++ [m]) root = Ok R.
Hypothesis Hh' : optimizeJoinOutputs (h ++ [m]) root R = Ok h'.

(** The keys whose contents are kept: those that are read, and those that no
    node writes. *)
Definition kept (k : string) : Prop := k ∈ R \/ k ∉ writes_of h.

Lemma store_node_cases a n : (h ++ [m]) !! a = Some n -> h !! a = Some n \/ n = m.
Proof. intros [?|[_ [_ ->]%list_lookup_singleton_Some]]%lookup_app_Some; auto. Qed.

Lemma named_at a n : h !! a = Some n -> named itn n.
Proof. intros Hn. exact (Forall_lookup_1 _ _ _ _ Hnamed Hn). Qed.

Lemma writes_result : writes m = [].
Proof. by rewrite /writes Hres. Qed.

(** A reachable node reads only kept keys. *)
Lemma reads_kept a n k : reach (h ++ [m]) root a -> (h ++ [m]) !! a = Some n -> k ∈ reads n -> kept k.
Proof.
  intros Ha Hn (c & -> & Hc)%list_elem_of_fmap.
  destruct (collectReferencedColumns_ok _ (heap_ok_acyclic _ _ Hok) root Hroot) as (R' & HR' & Hspec).
  rewrite HR in HR'. injection HR' as <-. destruct (named_col c) eqn:Hnm.
  - left. apply Hspec. exists a, n, c. split_and!; [done|done| |done|done]. rewrite /consumed. set_solver.
  - right. rewrite /named_col orb_false_iff !negb_false_iff !is_empty_spec in Hnm. destruct Hnm as [Ht Hc'].
    intros (x & Hk & [b Hx]%list_elem_of_lookup)%list_elem_of_bind. destruct (named_key _ _ _ (named_at b x Hx) Hk) as (y & Hy & He).
    rewrite /col_key Ht in He. apply Hitn. symmetry. by eapply (one_dot "").
Qed.

(** A node the root does not reach writes no kept key. *)
Lemma unreachable_writes a n k : h !! a = Some n -> ~ reach (h ++ [m]) root a -> k ∈ writes n -> ~ kept k.
Proof.
  intros Ha Hno Hk [HkR|Hkn]; [|apply Hkn, list_elem_of_bind; exists n; split; [done|by eapply list_elem_of_lookup_2]].
  destruct (collectReferencedColumns_ok _ (heap_ok_acyclic _ _ Hok) root Hroot) as (R' & HR' & Hspec).
  rewrite HR in HR'. injection HR' as <-. apply Hspec in HkR as (b & nb & c & Hb & Hnb & Hc & _ & <-).
  destruct (Hok b nb Hnb) as (Hread & _ & _).
  destruct (Hread c Hc) as [Hne|(o & Ho & a' & n' & -> & Hn' & Hout)].
  - destruct (named_key _ _ _ (named_at _ _ Ha) Hk) as (y & Hy & He). apply Hne. by eapply one_dot.
  - apply lookup_take_Some in Hn' as [Hn' Hlt]. pose proof (lookup_lt_Some _ _ _ Hnb) as Hlb. rewrite length_app /= in Hlb.
    rewrite lookup_app_l in Hn'; [|lia]. assert (a = a') as <-.
    { symmetry. by eapply (outs_unique itn h). }
    apply Hno. by eapply reach_child.
Qed.

(** A trimmed join writes its remaining output as before. *)
Lemma trim_exec a n n' env k : (h ++ [m]) !! a = Some n -> trimmed R n n' -> kept k -> exec_node D env n k = exec_node D env n' k.
Proof.
  intros Hn [(cols & Hcols & ->) _ _ Hother] Hk. destruct (decide (p_node_type n = PNT.HASHJOIN)) as [Hty|Hty]; [|by rewrite Hother].
  destruct (store_node_cases a n Hn) as [Hn0| ->]; [|congruence].
  destruct (named_at _ _ Hn0) as (_ & _ & Hj & _). destruct (Hj Hty) as (i & o & Hio & Hi & Ho).
  assert (forall c, c ∈ p_result_columns n -> col_key c ∉ R -> k <> col_key c) as Hne.
  { intros c Hc HcR ->. destruct Hk as [?|Hk]; [done|]. apply Hk, list_elem_of_bind. exists n.
    split; [rewrite /writes Hty; by apply list_elem_of_fmap_2|by eapply list_elem_of_lookup_2]. }
  rewrite /trim_outputs Hty Hio /= in Hcols.
  destruct (bool_decide (col_key i ∈ R)) eqn:HiR, (bool_decide (col_key o ∈ R)) eqn:HoR; cbn in Hcols; try done; injection Hcols as <-;
    [by rewrite -Hio set_result_columns_id| |].
  - apply bool_decide_eq_false in HoR. rewrite /exec_node /= Hty Hio. destruct (p_base_columns n) as [|v [|w []]]; try done.
    rewrite Hi String.eqb_refl write_ne //. apply Hne; [rewrite Hio; set_solver|done].
  - apply bool_decide_eq_false in HiR. rewrite /exec_node /= Hty Hio. destruct (p_base_columns n) as [|v [|w []]]; try done.
    rewrite Ho /=. apply write_ext. right. apply write_ne, Hne; [rewrite Hio; set_solver|done].
Qed.

(** One step of both runs. *)
Lemma trim_step a n n' env1 env2 : (h ++ [m]) !! a = Some n -> h' !! a = Some n' -> (forall k, kept k -> env1 k = env2 k) ->
  forall k, kept k -> exec_node D env1 n k = exec_node D env2 n' k.
Proof.
  intros Hn Hn' Henv k Hk. pose proof (optimizeJoinOutputs_ok _ R (heap_ok_acyclic _ _ Hok) root Hroot) as Hopt. rewrite Hh' in Hopt.
  destruct Hopt as (_ & Htrim & Hsame). destruct (reach_decide _ root a (heap_ok_acyclic _ _ Hok) Hroot) as [Ha|Ha].
  - destruct (Htrim a n' Ha Hn') as (n0 & Hn0 & Htr). assert (n0 = n) as -> by congruence.
    assert (forall x, x ∈ reads n -> env1 x = env2 x) as Hr by (intros x Hx; by eapply Henv, reads_kept).
    assert (exec_node D env1 n k = exec_node D env2 n k) as ->; [by apply exec_node_ext; [|apply Henv]|].
    by eapply trim_exec.
  - rewrite Hsame // in Hn'. assert (n' = n) as -> by congruence.
    destruct (store_node_cases a n Hn) as [Hn0| ->].
    + rewrite !exec_other; [by apply Henv|by intros Hw; eapply unreachable_writes..].
    + rewrite !exec_other ?writes_result; [by apply Henv|by intros ?%not_elem_of_nil..].
Qed.

Lemma trim_run env k : kept k -> run_plan D env (h ++ [m]) k = run_plan D env h' k.
Proof.
  pose proof (optimizeJoinOutputs_ok _ R (heap_ok_acyclic _ _ Hok) root Hroot) as Hopt. rewrite Hh' in Hopt. destruct Hopt as ([Hlen _] & _ & _).
  intros Hk. rewrite /run_plan. enough (forall l l' i env1 env2, drop i (h ++ [m]) = l -> drop i h' = l' -> length l = length l' ->
    (forall x, kept x -> env1 x = env2 x) -> forall x, kept x -> fold_left (exec_node D) l env1 x = fold_left (exec_node D) l' env2 x) as Hall.
  { by apply (Hall _ _ 0). }
  induction l as [|n l IH]; intros [|n' l'] i env1 env2 Hd Hd' Hl Henv x Hx; try done; [by apply Henv|]. cbn [fold_left].
  apply (IH l' (S i)); [| |simpl in Hl; lia| |done].
  - by rewrite -Nat.add_1_r -drop_drop Hd.
  - by rewrite -Nat.add_1_r -drop_drop Hd'.
  - apply (trim_step i); [| |done].
    + rewrite -(Nat.add_0_r i) -lookup_drop Hd //.
    + rewrite -(Nat.add_0_r i) -lookup_drop Hd' //.
Qed.

(** What the root reads, and the root itself up to its outputs. *)
Lemma trim_read env n k : (h ++ [m]) !! root = Some n -> k ∈ reads n -> run_plan D env h' k = run_plan D env (h ++ [m]) k.
Proof. intros Hn Hk. symmetry. apply trim_run. by eapply (reads_kept root); [constructor|..]. Qed.

Lemma trim_root n : (h ++ [m]) !! root = Some n -> exists cols, h' !! root = Some (set_result_columns cols n).
Proof.
  intros Hn. pose proof (optimizeJoinOutputs_ok _ R (heap_ok_acyclic _ _ Hok) root Hroot) as Hopt. rewrite Hh' in Hopt.
  destruct Hopt as ([Hlen _] & Htrim & _). destruct (lookup_lt_is_Some_2 h' root ltac:(by rewrite Hlen)) as [n' Hn'].
  destruct (Htrim root n' ltac:(constructor) Hn') as (n0 & Hn0 & [(cols & _ & ->) _ _ _]). exists cols. rewrite Hn'. congruence.
Qed.

End trim.
