(* ===== verification/RelFrame.v ===== *)
(** * What the traversal leaves alone

    On plans without ORDER BY, LIMIT and GROUP BY the traversal enters no SORT
    node into the store and does not change the limits that were read above
    them; the results of scans, filters, set operations and joins are never
    grouped. *)

From S2P Require Import Prelude PlanTypes SchemaResolver TranslatorHelpers LogicalSemantics.
From S2P Require Import PhysContext Materialization PhysicalOptimizer PostProcess RelInvariant.

(** ** No SORT node, no limit *)

Definition unsorted (n : PhysicalPlanNode) : Prop := p_node_type n <> PNT.SORT.

Definition limits (s : opt_state) : option Z * option Z := (ctx_limit_count (os_ctx s), ctx_limit_offset (os_ctx s)).

Definition calm {A} (m : ST opt_state A) : Prop := forall s a s', m s = Ok (a, s') ->
  limits s' = limits s /\ (Forall unsorted (os_heap s) -> Forall unsorted (os_heap s')) /\
  (ctx_projected (os_ctx s) <> [] -> ctx_projected (os_ctx s') <> []).

Create HintDb calm.

Lemma calm_ret {A} (a : A) : calm (mret a).
Proof. by intros s b s' [= _ <-]. Qed.
Lemma calm_raise {A} e : calm (raise e : ST opt_state A).
Proof. by intros s b s'. Qed.
Lemma calm_lift {A} (r : result A) : calm (lift r).
Proof. intros s b s'. rewrite /lift. destruct r; [|done]. by intros [= _ <-]. Qed.
Lemma calm_bind {A B} (m : ST opt_state A) (f : A -> ST opt_state B) : calm m -> (forall a, calm (f a)) -> calm (m ≫= f).
Proof.
  intros Hm Hf s b s' (a & s1 & H1 & H2)%ST_bind_ok. destruct (Hm _ _ _ H1) as (Hl1 & Hu1 & Hp1). destruct (Hf _ _ _ _ H2) as (Hl2 & Hu2 & Hp2).
  split_and!; [by etrans|auto|auto].
Qed.
Lemma calm_get : calm get_ctx.
Proof. by intros s b s' [= _ <-]. Qed.
Lemma calm_upd f : (forall c, ctx_limit_count (f c) = ctx_limit_count c /\ ctx_limit_offset (f c) = ctx_limit_offset c /\
  (ctx_projected c <> [] -> ctx_projected (f c) <> [])) -> calm (upd_ctx f).
Proof. intros Hf s b s' [= _ <-]. destruct (Hf (os_ctx s)) as (Hc & Ho & Hp). split_and!; [|done|done]. by rewrite /limits /= Hc Ho. Qed.
Lemma calm_next rnd : calm (nextIntermediateName rnd).
Proof. by intros s b s' [= _ <-]. Qed.
Lemma calm_load a : calm (load a).
Proof. intros s b s'. rewrite /load. case_match; [|done]. by intros [= _ <-]. Qed.
Lemma calm_alloc n : unsorted n -> calm (alloc n).
Proof. intros Hn s b s' [= _ <-]. split_and!; [done| |done]. intros Hs. apply Forall_app. by split; [|constructor]. Qed.
Lemma calm_mapM {A B} (f : A -> ST opt_state B) l : (forall x, x ∈ l -> calm (f x)) -> calm (mapM f l).
Proof.
  intros Hf. induction l as [|x l IH]; simpl; [apply calm_ret|]. apply calm_bind; [apply Hf; set_solver|]. intros ?.
  apply calm_bind; [apply IH; set_solver|]. intros ?. apply calm_ret.
Qed.

#[export] Hint Resolve calm_ret calm_raise calm_lift calm_get calm_next calm_load : calm.
#[export] Hint Extern 1 (calm (alloc _)) => apply calm_alloc; discriminate : calm.
#[export] Hint Extern 1 (calm (upd_ctx _)) => apply calm_upd; intros; repeat case_match; (split_and!; [reflexivity..|]);
  first [done|intros ?; simpl; by destruct (ctx_projected _)] : calm.

Ltac calm_step := first [ solve [auto with calm] | apply calm_bind; [|intros ?] | case_match ].
Ltac calm_tac := repeat calm_step.

Section calm.
Variable rnd : nat -> Z.

Lemma calm_has_type o ty : calm (has_type o ty).
Proof. rewrite /has_type. calm_tac. Qed.
#[local] Hint Resolve calm_has_type : calm.
Lemma calm_create c p chs : calm (createMaterializeNode rnd c p chs).
Proof. rewrite /createMaterializeNode. calm_tac. Qed.
#[local] Hint Resolve calm_create : calm.
Lemma calm_map_chain t rest : forall prev, calm (map_chain rnd t prev rest).
Proof. induction rest as [|cur rest IH]; intros prev; simpl; [calm_tac|]. rewrite /map_poslist. calm_tac. Qed.
#[local] Hint Resolve calm_map_chain : calm.
Lemma calm_chain_loop chain : forall i cur, calm (chain_loop rnd chain i cur).
Proof. induction chain as [|p chain IH]; intros i cur; simpl; calm_tac. Qed.
#[local] Hint Resolve calm_chain_loop : calm.
Lemma calm_isBase i : calm (isBaseTableChainMaterialization i).
Proof. rewrite /isBaseTableChainMaterialization. calm_tac. Qed.
#[local] Hint Resolve calm_isBase : calm.
Lemma calm_ensure c : calm (ensureMaterialized rnd c).
Proof. rewrite /ensureMaterialized /ensureMaterializedOptimized. calm_tac. Qed.
#[local] Hint Resolve calm_ensure : calm.
Lemma calm_fresh suffix ty : calm (fresh_col rnd suffix ty).
Proof. rewrite /fresh_col. calm_tac. Qed.
#[local] Hint Resolve calm_fresh : calm.
Lemma calm_setop l op : calm (createSetOperationNode rnd l op).
Proof. rewrite /createSetOperationNode. calm_tac. Qed.
#[local] Hint Resolve calm_setop : calm.
Lemma calm_cross n c0 c1 r src : calm (handleCrossTableFilter rnd n c0 c1 r src).
Proof. rewrite /handleCrossTableFilter. calm_tac. Qed.
#[local] Hint Resolve calm_cross : calm.
Lemma calm_filter n m : calm m -> calm (handleFilter rnd n m).
Proof. intros Hm. rewrite /handleFilter. calm_tac. Qed.
Lemma calm_join n l r : calm l -> calm r -> calm (handleJoin rnd n l r).
Proof. intros Hl Hr. rewrite /handleJoin. calm_tac. Qed.
Lemma calm_register name c o : calm (registerIntermediateResult name c o).
Proof. by apply calm_upd. Qed.
#[local] Hint Resolve calm_register : calm.
Lemma calm_map n m : calm m -> calm (handleMap rnd n m).
Proof.
  intros Hm. rewrite /handleMap /materialize_columns. apply calm_bind; [done|]. intros r.
  apply calm_bind; [apply calm_mapM; intros; calm_tac|]. intros mats. calm_tac.
Qed.
Lemma calm_parallel r specs : calm (parallel_loop rnd specs r).
Proof. induction specs as [|sp specs IH]; cbn [parallel_loop]; rewrite /resolveAggregateInput; calm_tac. Qed.
#[local] Hint Resolve calm_parallel : calm.
Lemma calm_aggregate n m : base_columns n = [] -> calm m -> calm (handleAggregate rnd n m).
Proof. intros Hb Hm. rewrite /handleAggregate Hb /createParallelAggregateNodes /createSingleAggregateNode. calm_tac. Qed.
Lemma calm_project cols : calm (project_loop rnd cols).
Proof. induction cols as [|c cols IH]; cbn [project_loop]; calm_tac. Qed.

(** Plans without SORT, limits and GROUP BY below the projection. *)
Fixpoint quiet (n : LogicalPlanNode) : bool :=
  match node_type n with
  | LNT.SCAN | LNT.FILTER | LNT.JOIN | LNT.SETOPERATION | LNT.MAP => true
  | LNT.AGGREGATE => bool_decide (base_columns n = [])
  | _ => false
  end && bool_decide (limit_count (expression n) = None) && bool_decide (limit_offset (expression n) = None) &&
  forallb (fun o => match o with Some c => quiet c | None => true end) (children n).

Lemma quiet_inv n : quiet n = true -> limit_count (expression n) = None /\ limit_offset (expression n) = None /\
  (node_type n = LNT.AGGREGATE -> base_columns n = []) /\ forall c, Some c ∈ children n -> quiet c = true.
Proof.
  destruct n as [ty st bc ex pc ch]; cbn [quiet node_type children base_columns expression].
  rewrite !andb_true_iff !bool_decide_eq_true. intros [[[Ht Hc] Ho] Hch]. split_and!; [done|done| |].
  - intros ->. by apply bool_decide_eq_true in Ht.
  - intros c Hin. rewrite forallb_forall in Hch. exact (Hch (Some c) (proj1 (list_elem_of_In _ _) Hin)).
Qed.

Lemma calm_limits n : limit_count (expression n) = None -> limit_offset (expression n) = None -> calm (read_limits n).
Proof. intros Hc Ho. rewrite /read_limits Hc Ho. by apply calm_upd. Qed.

Lemma calm_transform n : quiet n = true -> calm (transformNode rnd n).
Proof.
  induction n as [n IH] using LogicalPlanNode_child_ind. intros Hq. destruct (quiet_inv n Hq) as (Hlc & Hlo & Hagg & Hch).
  pose proof (calm_limits n Hlc Hlo) as Hl. destruct n as [ty st bc ex pc ch]. cbn [transformNode node_type children base_columns] in *.
  assert (forall o, o ∈ ch -> calm match o with Some c => transformNode rnd c | None => raise (Throw "Null logical node encountered") end) as Hgo.
  { intros [c|] Hin; [apply IH; [done|by apply Hch]|apply calm_raise]. }
  apply calm_bind; [exact Hl|]. intros _.
  destruct ty, ch as [|o1 [|o2 ch]]; try done; try (apply calm_raise || apply calm_ret);
    pose proof (Hgo o1 ltac:(set_solver)) as H1; try pose proof (Hgo o2 ltac:(set_solver)) as H2.
  all: first [by apply calm_filter|by apply calm_join|by apply calm_map|by (apply calm_aggregate; [apply Hagg|])|
    by (apply calm_bind; [done|intros ?; calm_tac])|idtac].
  rewrite /handleSetOperation. apply calm_bind; [by apply calm_mapM|]. intros ?. calm_tac.
Qed.

End calm.

(** ** The kind of a result *)

Definition yields {A} (P : A -> Prop) (m : ST opt_state A) : Prop := forall s a s', m s = Ok (a, s') -> P a.

Lemma yields_ret {A} (P : A -> Prop) a : P a -> yields P (mret a).
Proof. intros HP s b s' [= <- _]. done. Qed.
Lemma yields_raise {A} (P : A -> Prop) e : yields P (raise e).
Proof. by intros s b s'. Qed.
Lemma yields_bind {A B} (P : B -> Prop) (m : ST opt_state A) f : (forall a, yields P (f a)) -> yields P (m ≫= f).
Proof. intros Hf s b s' (a & s1 & H1 & H2)%ST_bind_ok. by eapply Hf. Qed.

Ltac yields_step :=
  first [ apply yields_raise | apply yields_bind; intros ? | apply yields_ret; reflexivity | case_match ].
Ltac yields_tac := repeat yields_step.

Section kinds.
Variable rnd : nat -> Z.

Definition kind_is (ty : TransformResultType) (r : TransformResult) : Prop := result_type r = ty.

Lemma kind_setop l op : yields (kind_is RT_POSLIST) (createSetOperationNode rnd l op).
Proof. rewrite /createSetOperationNode. yields_tac. Qed.

Lemma kind_filter n m : yields (kind_is RT_POSLIST) (handleFilter rnd n m).
Proof. rewrite /handleFilter /handleCrossTableFilter. repeat first [apply kind_setop|yields_step]. Qed.

Lemma kind_join n l r : yields (kind_is RT_JOINED) (handleJoin rnd n l r).
Proof. rewrite /handleJoin. yields_tac. Qed.

Lemma kind_transform n s r s' : WfPlan n -> transformNode rnd n s = Ok (r, s') ->
  result_type r = match node_type n with LNT.SCAN => RT_SCAN | LNT.JOIN => RT_JOINED | _ => RT_POSLIST end.
Proof.
  intros Hw Ht. destruct Hw as [n Hty Hch _|n c Hty Hch _|n l r' Hty Hch _ _ _|n cs T Hty _ Hch Hne _ _];
    destruct n as [ty st bc ex pc ch]; cbn [node_type children] in *; subst; cbn [transformNode node_type children] in Ht;
    apply ST_bind_ok in Ht as ([] & s1 & _ & Ht).
  - by injection Ht as <- _.
  - by eapply kind_filter.
  - by eapply kind_join.
  - destruct cs as [|c1 [|c2 cs]]; [done|done|]. apply ST_bind_ok in Ht as (rs & s2 & _ & Ht). by eapply kind_setop.
Qed.

End kinds.
