(* ===== verification/RelResult.v ===== *)
(** * What the RESULT node receives

    The upper part of a plan: projection, ORDER BY and LIMIT.  [result_table] is
    the table the RESULT node stands for: the columns it reads, in the order of
    its index, without the rows that the limits cut off.  The second half runs
    whole plans, with and without the removal of unused join outputs. *)

From stdpp Require Import sorting.
From S2P Require Import Prelude PlanTypes SchemaResolver TranslatorHelpers LogicalSemantics.
From S2P Require Import PhysContext Materialization PhysicalOptimizer PostProcess.
From S2P Require Import PhysicalInvariant MaterializationInv ChainSemantics HandlersInv PlanInv PhysicalTheorems WorkItems.
From S2P Require Import PostProcessInv Engine RelInvariant RelHandlers RelPlan RelNames RelTrim RelFrame.

(** ** Results *)

(** OFFSET and LIMIT. *)
Definition limited {A} (e : Expression) (l : list A) : list A :=
  let l := drop (Z.to_nat (default 0%Z (limit_offset e))) l in
  match limit_count e with Some k => take (Z.to_nat k) l | None => l end.

(** The rows a RESULT node lists, for one column. *)
Definition result_column (env : string -> list (option Z)) (n : PhysicalPlanNode) (c : Column) : list (option Z) :=
  limited (p_expression n) match p_index n with
                           | Some i => gather (contents env c) (contents env i)
                           | None => contents env c
                           end.

Definition result_table (env : string -> list (option Z)) (p : phys_plan) : option (list (list (option Z))) :=
  root ← plan_root p;
  n ← plan_store p !! root;
  if bool_decide (p_node_type n = PNT.RESULT) then Some (map (result_column env n) (p_base_columns n)) else None.

(** The cells of a column in the rows [R]. *)
Definition column_cells (D : engine Z) (R : list tuple) (col : Column) : list (option Z) := map (fun u => colval D u col) R.

(** ** Columns of the rows *)
Section columns.
Context (D : engine Z) (env : string -> list (option Z)) (rnd : nat -> Z) (oc : bool) (base : gset string) (H : list PhysicalPlanNode).
Variable ints : gmap string MaterializedInfo.
Hypothesis Hstored : stored D env base.
Hypothesis Hruns : runs_plan D env H.
Hypothesis Hsmall : small H.

Abbreviation Rel := (Rel D env oc base H ints).

Variables (T : gset string) (R : list tuple) (rho : string -> option (list nat)).
Hypothesis HT : T ⊆ base.
Hypothesis Hdom : forall u, u ∈ R -> dom u = T.

Lemma ensure_cells col s i c' s' : Rel ∅ s (over T R rho) -> base_name ints col -> table_name col ∈ T ->
  ensureMaterialized rnd col s = Ok ((i, c'), s') -> os_heap s' `prefix_of` H ->
  Rel ∅ s' (over T R rho) /\ keeps (os_ctx s) (os_ctx s') /\ contents env (mat_col i) = column_cells D R col.
Proof.
  intros HR Hn Hcol He Hp.
  destruct (rel_ensure D env rnd oc base H ints Hstored Hruns Hsmall _ _ _ col (map (fun u => u !!! table_name col) R) i c' s' HR) as (HR1 & Hk & Hi);
    [done|by apply HT|by apply over_in|done|done|]. split_and!; [done|done|]. rewrite Hi.
  rewrite /cells_at /column_cells List.map_map. apply map_ext_in. intros u Hu%list_elem_of_In.
  symmetry. apply colval_at; [by destruct (Hstored _ (HT _ Hcol))|]. apply dom_lookup. by rewrite Hdom.
Qed.

(** Only the chains, the cache and the store matter. *)
Lemma Rel_context s s' : os_heap s' = os_heap s -> optimize_chains (os_ctx s') = optimize_chains (os_ctx s) ->
  intermediate_results (os_ctx s') = intermediate_results (os_ctx s) ->
  table_poslist_chain (os_ctx s') = table_poslist_chain (os_ctx s) ->
  materialized_columns (os_ctx s') = materialized_columns (os_ctx s) -> Rel ∅ s (over T R rho) -> Rel ∅ s' (over T R rho).
Proof.
  intros Hh Hk1 Hk2 Hc Hm [H1 H2 H3 H4 H5 H6 H7]. assert (forall t, chain_at s' t = chain_at s t) as Hch by (intros; by rewrite /chain_at Hc).
  split; [congruence|congruence|..]; intros *; rewrite ?Hch ?Hm ?Hh; eauto.
Qed.

Lemma projected_contents col i : contents env (mat_col (projected_info col i)) = contents env (mat_col i).
Proof. rewrite /projected_info. by destruct (nonempty (base_table col)). Qed.

Lemma project_rows : forall cols s s', (forall col, col ∈ cols -> base_name ints col /\ table_name col ∈ T) ->
  Rel ∅ s (over T R rho) -> project_loop rnd cols s = Ok (tt, s') -> os_heap s' `prefix_of` H ->
  Rel ∅ s' (over T R rho) /\ map (fun i => contents env (mat_col i)) (ctx_projected (os_ctx s')) =
    map (fun i => contents env (mat_col i)) (ctx_projected (os_ctx s)) ++ map (column_cells D R) cols.
Proof.
  induction cols as [|col cols IH]; intros s s' Hcols HR; cbn [project_loop]; [intros [= <-] _; by rewrite app_nil_r|].
  intros ([i c'] & s1 & H1 & ([] & s2 & [= <-] & He)%ST_bind_ok)%ST_bind_ok Hp.
  assert (os_heap s1 `prefix_of` H) as Hp1 by (etrans; [|exact Hp]; exact (grows_project rnd cols _ _ _ He)).
  destruct (Hcols col ltac:(set_solver)) as [Hn Hcol]. destruct (ensure_cells col s i c' s1 HR Hn Hcol H1 Hp1) as (HR1 & Hk & Hi).
  apply IH in He as [HR2 He]; [|intros; apply Hcols; set_solver|by apply (Rel_context s1)|done]. split; [done|].
  by rewrite He /= map_app /= projected_contents Hi (keep_proj _ _ Hk) -app_assoc.
Qed.

(** The sort keys of columns of the tables. *)
Lemma sort_keys_rows root : forall cols s ks s', (forall col, col ∈ cols -> base_name ints col /\ table_name col ∈ T) ->
  Rel ∅ s (over T R rho) -> mapM (sort_key rnd root) cols s = Ok (ks, s') -> os_heap s' `prefix_of` H ->
  map (fun k => contents env k.1) ks = map (column_cells D R) cols /\ ctx_projected (os_ctx s') = ctx_projected (os_ctx s).
Proof.
  induction cols as [|col cols IH]; intros s ks s' Hcols HR; cbn [mapM]; [by intros [= <- <-] _|].
  intros (k & s1 & H1 & (ks' & s2 & H2 & [= <- <-])%ST_bind_ok)%ST_bind_ok Hp.
  assert (os_heap s1 `prefix_of` H) as Hp1.
  { etrans; [|exact Hp]. eapply grows_mapM; [|exact H2]. intros c. rewrite /sort_key. grows_tac. }
  destruct (Hcols col ltac:(set_solver)) as [Hn Hcol]. rewrite /sort_key in H1. apply ST_bind_ok in H1 as (b & s3 & Hb & H1).
  apply has_type_sem in Hb as [-> _]. apply ST_bind_ok in H1 as (cl & s4 & Hcl & H1).
  assert (is_empty (table_name col) = false) as Hne by (apply is_empty_false; by destruct (Hstored _ (HT _ Hcol))).
  rewrite Hne in Hcl. injection Hcl as <- <-. apply ST_bind_ok in H1 as ([i c'] & s5 & H1 & [= <- <-]).
  destruct (ensure_cells col s i c' s5 HR Hn Hcol H1 Hp1) as (HR1 & Hk & Hi).
  destruct (IH _ _ _ ltac:(intros; apply Hcols; set_solver) HR1 H2 Hp) as [Hks Hpr]. cbn [map fst]. rewrite Hks Hi Hpr (keep_proj _ _ Hk). done.
Qed.

Lemma calm_sort_keys root cols : calm (mapM (sort_key rnd root) cols).
Proof. apply calm_mapM. intros c _. rewrite /sort_key. repeat first [apply calm_ensure|apply calm_has_type|calm_step]. Qed.

End columns.

Lemma Rel_init D env oc base H itn : Rel D env oc base H ∅ ∅ (mkOS (context_init itn oc) [] 0) (fun _ => None).
Proof.
  assert (forall t, chain_at (mkOS (context_init itn oc) [] 0) t = []) as Hc by (intros t; by rewrite /chain_at /= lookup_empty).
  split; try done. intros t p. rewrite Hc. by intros ?%not_elem_of_nil.
Qed.

(** ** Sorted rows *)

Definition rows_leq (D : engine Z) (dirs : list bool) (keys : list Column) (u v : tuple) : Prop :=
  keys_leq D dirs (map (colval D u) keys) (map (colval D v) keys) = true.

Lemma Sorted_always {A} (P : A -> A -> Prop) l : (forall x y, P x y) -> Sorted P l.
Proof. intros HP. induction l as [|x l IH]; constructor; [done|]. destruct l; constructor; auto. Qed.

Lemma Sorted_pick {A} `{!Inhabited A} (P : nat -> nat -> Prop) (Q : A -> A -> Prop) (R : list A) l : indexes l R ->
  (forall i j, i < length R -> j < length R -> P i j -> Q (R !!! i) (R !!! j)) -> Sorted P l -> Sorted Q (map (fun i => R !!! i) l).
Proof.
  intros Hix Hpq. induction 1 as [|i l Hs IH Hh]; cbn; [constructor|]. constructor; [apply IH; intros j Hj; apply Hix; set_solver|].
  destruct Hh as [|j l Hp]; cbn; constructor. apply Hpq; [apply Hix; set_solver..|done].
Qed.

Section sorted.
Context (D : engine Z) (R : list tuple) (keys : list Column) (dirs : list bool) (l : list nat).
Hypothesis Hkeys : keys <> [].
Hypothesis Hl : sort_sem D dirs (map (column_cells D R) keys) l.

Lemma sort_permutes : l ≡ₚ seq 0 (length R).
Proof. destruct Hl as [Hp _]. destruct keys as [|k ks]; [done|]. cbn in Hp. by rewrite /column_cells length_map in Hp. Qed.

Lemma sort_indexes : indexes l R.
Proof. intros i. rewrite sort_permutes elem_of_seq. lia. Qed.

Lemma sorted_rows : Sorted (rows_leq D dirs keys) (map (fun i => R !!! i) l).
Proof.
  eapply Sorted_pick; [exact sort_indexes| |apply Hl]. intros i j Hi Hj. rewrite /row_leq /rows_leq !List.map_map.
  assert (forall k, k < length R -> map (fun c => at_pos (column_cells D R c) k) keys = map (colval D (R !!! k)) keys) as Hk.
  { intros k Hk. apply map_ext. intros c. by rewrite /at_pos /column_cells list_lookup_fmap (list_lookup_lookup_total_lt R k Hk). }
  by rewrite !Hk.
Qed.

Lemma sorted_members : NoDup R -> NoDup (map (fun i => R !!! i) l) /\ forall u, u ∈ map (fun i => R !!! i) l <-> u ∈ R.
Proof.
  intros Hnd. split.
  - apply pick_nodup; [done| |exact sort_indexes]. rewrite sort_permutes. apply NoDup_seq.
  - intros u. rewrite list_elem_of_fmap. split.
    + intros (i & -> & Hi%sort_indexes). by apply list_elem_of_lookup_total_2.
    + intros [i Hi]%list_elem_of_lookup. exists i. split; [symmetry; by apply list_lookup_total_correct|].
      rewrite sort_permutes elem_of_seq. apply lookup_lt_Some in Hi. lia.
Qed.

Lemma sorted_column c : gather (column_cells D R c) (positions l) = column_cells D (map (fun i => R !!! i) l) c.
Proof.
  rewrite gather_positions /column_cells List.map_map. apply map_ext_in. intros i Hi%list_elem_of_In%sort_indexes.
  by rewrite list_lookup_fmap (list_lookup_lookup_total_lt R i Hi).
Qed.

End sorted.

(** ** Plans without aggregates *)

Definition no_limits (e : Expression) : bool := bool_decide (limit_count e = None) && bool_decide (limit_offset e = None).

(** A projection of at least one column over a plan of scans, filters, unions
    and joins. *)
Definition projection_shape (n : LogicalPlanNode) : bool :=
  match node_type n, children n with
  | LNT.PROJECTION, [Some c] =>
      rel_shape c && quiet c && negb (bool_decide (projected_columns n = [])) &&
      forallb (fun col => bool_decide (table_name col ∈ tabs c)) (projected_columns n)
  | _, _ => false
  end.

(** The projection, which may be below a SORT, and the plan below it. *)
Definition projection_node (n : LogicalPlanNode) : LogicalPlanNode :=
  match node_type n with LNT.SORT => default n (mjoin (head (children n))) | _ => n end.

Definition source_plan (n : LogicalPlanNode) : LogicalPlanNode := default n (mjoin (head (children (projection_node n)))).

Definition select_shape (n : LogicalPlanNode) : bool :=
  match node_type n, children n with
  | LNT.SORT, [Some p] =>
      projection_shape p && no_limits (expression p) && negb (bool_decide (base_columns n = [])) &&
      forallb (fun col => bool_decide (table_name col ∈ tabs (source_plan n))) (base_columns n)
  | _, _ => projection_shape n
  end.

(** The keys and directions of ORDER BY. *)
Definition order_keys (n : LogicalPlanNode) : list Column := match node_type n with LNT.SORT => base_columns n | _ => [] end.
Definition order_dirs (n : LogicalPlanNode) : list bool :=
  match node_type n with LNT.SORT => default [] (sort_order (expression n)) | _ => [] end.

Lemma projection_shape_inv n : projection_shape n = true -> exists c, node_type n = LNT.PROJECTION /\ children n = [Some c] /\
  RelShape c /\ quiet c = true /\ projected_columns n <> [] /\ forall col, col ∈ projected_columns n -> table_name col ∈ tabs c.
Proof.
  rewrite /projection_shape. destruct n as [ty st bc ex pc ch]; cbn [node_type children projected_columns]. destruct ty; try done.
  destruct ch as [|[c|] []]; try done. rewrite !andb_true_iff negb_true_iff bool_decide_eq_false.
  intros [[[Hs%rel_shape_spec Hq] Hne] Hcols]. exists c. split_and!; try done. intros col Hcol. rewrite forallb_forall in Hcols.
  eapply bool_decide_eq_true_1, Hcols. by apply list_elem_of_In.
Qed.

(** A SELECT without aggregates is a projection, or a SORT over one. *)
Lemma select_shape_inv n : select_shape n = true -> let p := projection_node n in let c := source_plan n in
  children p = [Some c] /\ projection_shape p = true /\
  (n = p \/ node_type n = LNT.SORT /\ children n = [Some p] /\ no_limits (expression p) = true /\ base_columns n <> [] /\
    forall col, col ∈ base_columns n -> table_name col ∈ tabs c).
Proof.
  intros Hs. destruct (decide (node_type n = LNT.SORT)) as [Hty|Hty].
  - rewrite /select_shape /projection_node /source_plan Hty in Hs |- *.
    destruct n as [ty st bc ex pc ch]; cbn [node_type children base_columns] in *. subst ty. destruct ch as [|[p|] []]; try done.
    rewrite !andb_true_iff negb_true_iff bool_decide_eq_false in Hs. destruct Hs as [[[Hp Hl] Hne] Hk]. cbn.
    destruct (projection_shape_inv p Hp) as (c & _ & Hch & _). rewrite Hch. split_and!; [done|done|]. right.
    split_and!; try done; [by apply andb_true_iff|].
    intros col Hcol. rewrite forallb_forall in Hk. apply list_elem_of_In, Hk, bool_decide_eq_true_1 in Hcol. cbn in Hcol. by rewrite Hch in Hcol.
  - assert (projection_shape n = true) as Hp by (rewrite /select_shape in Hs; by destruct (node_type n)).
    destruct (projection_shape_inv n Hp) as (c & Hty' & Hch & _). rewrite /projection_node /source_plan /projection_node Hty'.
    rewrite Hch /=. split_and!; [done|done|by left].
Qed.

Section transform.
Variable rnd : nat -> Z.

Lemma transform_projection n c s r s' : node_type n = LNT.PROJECTION -> children n = [Some c] -> transformNode rnd n s = Ok (r, s') ->
  exists s1, transformNode rnd c (limits_read n s) = Ok (r, s1) /\
    project_loop rnd (projected_columns n) (set_ctx (set_projected [] (os_ctx s1)) s1) = Ok (tt, s').
Proof.
  destruct n; simpl. intros -> ->. intros ([] & s0 & [= <-] & He)%ST_bind_ok.
  apply ST_bind_ok in He as (r1 & s1 & H1 & He). apply ST_bind_ok in He as ([] & s2 & [= <-] & He).
  apply ST_bind_ok in He as ([] & s3 & H3 & [= <- <-]). exists s1. by split.
Qed.

Lemma transform_sort n p s r s' : node_type n = LNT.SORT -> children n = [Some p] -> transformNode rnd n s = Ok (r, s') ->
  exists r1 s1, transformNode rnd p (limits_read n s) = Ok (r1, s1) /\ (result_type r1 <> RT_GROUPBY ->
    exists ks s2 f, mapM (sort_key rnd (physical_root r1)) (base_columns n) s1 = Ok (ks, s2) /\
      os_heap s' = os_heap s2 ++ [f] /\ os_ctx s' = os_ctx s2 /\ physical_root r = Some (length (os_heap s2)) /\
      p_node_type f = PNT.SORT /\ p_base_columns f = map fst ks /\ p_result_columns f = [output_column r] /\
      sort_order (p_expression f) = sort_order (expression n)).
Proof.
  destruct n as [ty st bc ex pc ch]; cbn [node_type children transformNode]. intros -> ->. intros ([] & s0 & [= <-] & He)%ST_bind_ok.
  apply ST_bind_ok in He as (r1 & s1 & H1 & He). exists r1, s1. split; [done|]. intros Hg. rewrite bool_decide_false // in He.
  apply ST_bind_ok in He as (e & s2 & [= <- <-] & He). apply ST_bind_ok in He as (ks & s2 & Hks & He).
  unfold fresh_col, mbind, ST_bind in He. cbn in He. injection He as <- <-. eexists ks, s2, _. by split_and!.
Qed.

Lemma project_nonempty cols s s' : cols <> [] -> project_loop rnd cols s = Ok (tt, s') -> ctx_projected (os_ctx s') <> [].
Proof.
  assert (forall cols s s', project_loop rnd cols s = Ok (tt, s') -> ctx_projected (os_ctx s) <> [] -> ctx_projected (os_ctx s') <> []) as Hk.
  { clear. induction cols as [|col cols IH]; intros s s'; cbn [project_loop]; [by intros [= <-]|].
    intros ([i c'] & s1 & _ & ([] & s2 & [= <-] & He)%ST_bind_ok)%ST_bind_ok _. eapply IH; [exact He|]. cbn. by destruct (ctx_projected (os_ctx s1)). }
  destruct cols as [|col cols]; [done|]. intros _. cbn [project_loop].
  intros ([i c'] & s1 & _ & ([] & s2 & [= <-] & He)%ST_bind_ok)%ST_bind_ok. eapply Hk; [exact He|]. cbn. by destruct (ctx_projected (os_ctx s1)).
Qed.

(** The RESULT node: its columns, index and limits. *)
Lemma result_node res s a s' : buildResultNode rnd res s = Ok (a, s') -> exists n, os_heap s' = os_heap s ++ [n] /\
  a = length (os_heap s) /\ p_node_type n = PNT.RESULT /\ p_base_columns n = map mat_col (ctx_projected (os_ctx s)) /\
  (limit_count (p_expression n), limit_offset (p_expression n)) = limits s /\
  p_index n = match physical_root res ≫= fun b => os_heap s !! b with
              | Some m => if bool_decide (p_node_type m = PNT.SORT) then Some (output_column res) else None
              | None => None
              end.
Proof.
  rewrite /buildResultNode. intros (ctx & s1 & [= <- <-] & (id & s2 & [= <- <-] & (b & s3 & H3 & He)%ST_bind_ok)%ST_bind_ok)%ST_bind_ok.
  apply has_type_sem in H3 as [-> Hb]. cbn [os_heap] in Hb. destruct b; injection He as <- <-; eexists; (split_and!; [done..|]);
    cbn; (case_match; [by rewrite -Hb|done]).
Qed.

(** A converted plan with a projection: the traversal, then the RESULT node. *)
Lemma convert_untrimmed n oc itn p : convert_body rnd n oc false itn = Ok p -> exists res s1,
  transformNode rnd n (mkOS (context_init itn oc) [] 0) = Ok (res, s1) /\
  (ctx_projected (os_ctx s1) <> [] -> exists s, buildResultNode rnd res s1 = Ok (length (os_heap s1), s) /\
    p = mkPlan (Some (length (os_heap s1))) (os_heap s)).
Proof.
  rewrite /convert_body. intros ([root s] & Hrun & Hp)%bind_ok.
  apply ST_bind_ok in Hrun as (res & s1 & Ht & (ctx & s2 & [= <- <-] & Hb)%ST_bind_ok). exists res, s1. split; [done|]. intros Hne.
  rewrite bool_decide_false // in Hb. apply ST_bind_ok in Hb as (a & s3 & Hb & [= <- <-]).
  destruct (result_node _ _ _ _ Hb) as (m & _ & -> & _). exists s3. split; [done|]. by injection Hp as <-.
Qed.

End transform.

Section select.
Context (D : engine Z) (env : string -> list (option Z)) (rnd : nat -> Z) (oc : bool) (H : list PhysicalPlanNode).
Hypothesis Hruns : runs_plan D env H.
Hypothesis Hsmall : small H.
Hypothesis Hsym : eq_symmetric D.

Lemma projection_rows p c s r s1 : projection_shape p = true -> children p = [Some c] -> stored D env (tabs c) ->
  Rel D env oc (tabs c) H ∅ ∅ s (fun _ => None) -> transformNode rnd p s = Ok (r, s1) -> os_heap s1 `prefix_of` H ->
  (limits s1 = limits (limits_read p s) /\ (Forall unsorted (os_heap s) -> Forall unsorted (os_heap s1)) /\ result_type r <> RT_GROUPBY) /\
  exists R, NoDup R /\ (forall u, u ∈ R <-> u ∈ eval D c) /\ (forall u, u ∈ R -> dom u = tabs c) /\
    Rel D env oc (tabs c) H ∅ ∅ s1 (over (tabs c) R (fun _ => None)) /\
    map (fun i => contents env (mat_col i)) (ctx_projected (os_ctx s1)) = map (column_cells D R) (projected_columns p).
Proof.
  intros Hp Hch Hst HR Ht Hin. destruct (projection_shape_inv p Hp) as (c' & Hty & Hch' & Hsh & Hq & _ & Hcols).
  rewrite Hch in Hch'. injection Hch' as <-. destruct (transform_projection rnd p c s r s1 Hty Hch Ht) as (s0 & H0 & Hpr).
  pose proof (RelShape_wf _ Hsh) as Hwf. split.
  - destruct (calm_transform rnd c Hq _ _ _ H0) as (Hl0 & Hu0 & _). destruct (calm_project rnd _ _ _ _ Hpr) as (Hl1 & Hu1 & _).
    split_and!; [by rewrite Hl1 -Hl0|auto|]. rewrite (kind_transform rnd c _ r s0 Hwf H0). by destruct (node_type c).
  - assert (os_heap s0 `prefix_of` os_heap s1) as Hp0 by exact (grows_project rnd _ _ _ _ Hpr).
    destruct (transform_rows D env rnd oc (tabs c) H Hst Hruns Hsmall Hsym c Hsh ltac:(done) (fun _ => None) (limits_read p s) r s0)
      as (R & Hnd & HRm & HRel & _); [done|by apply Rel_limits|exact H0|by etrans|].
    assert (forall u, u ∈ R -> dom u = tabs c) as Hdom by (intros u Hu%HRm; by apply (eval_dom D c)).
    destruct (project_rows D env rnd oc (tabs c) H ∅ Hst Hruns Hsmall (tabs c) R (fun _ => None) ltac:(done) Hdom (projected_columns p)
      (set_ctx (set_projected [] (os_ctx s0)) s0) s1) as [HRel1 Hcells]; [by auto| |exact Hpr|done|].
    { by apply (Rel_context D env oc (tabs c) H ∅ (tabs c) R (fun _ => None) s0). }
    exists R. by split_and!.
Qed.

(** The SORT node, and the rows in its order. *)
Lemma sort_rows_of n p s r s' : select_shape n = true -> node_type n = LNT.SORT -> children n = [Some p] ->
  let c := source_plan n in stored D env (tabs c) -> Rel D env oc (tabs c) H ∅ ∅ s (fun _ => None) ->
  transformNode rnd n s = Ok (r, s') -> os_heap s' `prefix_of` H -> exists R l f, NoDup R /\ (forall u, u ∈ R <-> u ∈ eval D c) /\
    map (fun i => contents env (mat_col i)) (ctx_projected (os_ctx s')) = map (column_cells D R) (projected_columns p) /\
    sort_sem D (order_dirs n) (map (column_cells D R) (order_keys n)) l /\ contents env (output_column r) = positions l /\
    limits s' = limits (limits_read n s) /\ (physical_root r ≫= fun b => os_heap s' !! b) = Some f /\ p_node_type f = PNT.SORT.
Proof.
  intros Hs Hty Hch c Hst HR Ht Hin. destruct (select_shape_inv n Hs) as (Hc & Hp & Hor). fold c in Hc, Hor.
  assert (projection_node n = p) as Hpn by by rewrite /projection_node Hty Hch. rewrite Hpn in Hc, Hp, Hor.
  destruct Hor as [->|(_ & _ & Hnl & Hne & Hkeys)].
  { destruct (projection_shape_inv p Hp) as (? & ? & _). congruence. }
  destruct (transform_sort rnd n p s r s' Hty Hch Ht) as (r1 & s1 & H1 & Hsort).
  assert (os_heap s1 `prefix_of` os_heap s') as Hps.
  { revert Ht. destruct n as [ty st bc ex pc ch]; cbn [node_type children transformNode] in *. subst ty ch.
    intros ([] & s0 & [= <-] & He)%ST_bind_ok. apply ST_bind_ok in He as (r2 & s2 & H2 & He). rewrite H1 in H2. injection H2 as <- <-.
    revert He. apply (fun g : grows _ => g s1 r s'). apply grows_bind; [grows_tac|]. intros e. destruct e; [grows_tac|].
    apply grows_bind; [apply grows_mapM; intros; rewrite /sort_key; grows_tac|]. intros. grows_tac. }
  destruct (projection_rows p c (limits_read n s) r1 s1 Hp Hc Hst) as ((Hl & _ & Hg) & R & Hnd & HRm & Hdom & HRel & Hcells);
    [by apply Rel_limits|done|by etrans|].
  destruct (Hsort Hg) as (ks & s2 & f & Hks & Hh & Hx & Hroot & Hfty & Hfb & Hfr & Hfo).
  assert (os_heap s2 `prefix_of` H) as Hp2 by (etrans; [|exact Hin]; rewrite Hh; by eexists).
  destruct (sort_keys_rows D env rnd oc (tabs c) H ∅ Hst Hruns Hsmall (tabs c) R (fun _ => None) ltac:(done) Hdom (physical_root r1)
    (base_columns n) s1 ks s2) as [Hkc Hpr]; [by auto|done|done|done|].
  assert (os_heap s' !! length (os_heap s2) = Some f) as Hf by by rewrite Hh lookup_app_r // Nat.sub_diag.
  pose proof (run_at D env H Hruns _ _ _ Hin Hf) as Hx'. rewrite /node_exec Hfty Hfr in Hx'.
  assert (map (contents env) (p_base_columns f) = map (column_cells D R) (base_columns n)) as Hb by by rewrite Hfb List.map_map Hkc.
  rewrite Hb Hfo in Hx'. destruct Hx' as (l & Hlc & Hss). exists R, l, f. rewrite /order_dirs /order_keys Hty Hroot /= Hx.
  split_and!; try done; [by rewrite Hpr|]. destruct (calm_sort_keys rnd _ _ _ _ _ Hks) as [Hl2 _].
  transitivity (limits s2); [by rewrite /limits Hx|]. rewrite Hl2 Hl. apply andb_true_iff in Hnl as [Hlc'%bool_decide_eq_true Hlo%bool_decide_eq_true].
  by rewrite /limits /limits_read /= Hlc' Hlo.
Qed.

End select.

(** The answer of a SELECT without aggregates: the selected columns of its rows,
    each row once, in the order of its keys, within its limits. *)
Definition select_answer (n : LogicalPlanNode) (D : engine Z) (out : list (list (option Z))) : Prop :=
  exists R, NoDup R /\ (forall u, u ∈ R <-> u ∈ eval D (source_plan n)) /\ Sorted (rows_leq D (order_dirs n) (order_keys n)) R /\
    out = map (fun col => limited (expression n) (column_cells D R col)) (projected_columns (projection_node n)).

Lemma limited_ext {A} e e' (l : list A) : limit_count e = limit_count e' -> limit_offset e = limit_offset e' -> limited e l = limited e' l.
Proof. intros H1 H2. by rewrite /limited H1 H2. Qed.

(** A RESULT node whose columns, index and limits are known. *)
Lemma result_table_node env h m (cols : list (list (option Z))) e out : p_node_type m = PNT.RESULT ->
  map (contents env) (p_base_columns m) = cols -> limit_count (p_expression m) = limit_count e -> limit_offset (p_expression m) = limit_offset e ->
  out = map (fun v => limited e match p_index m with Some i => gather v (contents env i) | None => v end) cols ->
  result_table env (mkPlan (Some (length h)) (h ++ [m])) = Some out.
Proof.
  intros Hm <- Hc Ho ->. rewrite /result_table /= lookup_app_r // Nat.sub_diag /= bool_decide_true // List.map_map. f_equal.
  apply map_ext. intros c. rewrite /result_column. by apply limited_ext.
Qed.

(** The traversal of a plan with a projection leaves projected columns. *)
Definition ctx_projects (rnd : nat -> Z) (n : LogicalPlanNode) : Prop :=
  forall s r s', transformNode rnd n s = Ok (r, s') -> ctx_projected (os_ctx s') <> [].

Lemma projection_projects rnd n c : node_type n = LNT.PROJECTION -> children n = [Some c] -> projected_columns n <> [] -> ctx_projects rnd n.
Proof.
  intros Hty Hch Hne s r s' Ht. destruct (transform_projection rnd n c s r s' Hty Hch Ht) as (s1 & _ & Hpr). by eapply project_nonempty.
Qed.

Lemma select_projects rnd n : select_shape n = true -> ctx_projects rnd n.
Proof.
  intros Hs. destruct (select_shape_inv n Hs) as (Hc & Hp & Hor). destruct (projection_shape_inv _ Hp) as (c & Hty & Hch & Hsh & _ & Hne & _).
  destruct Hor as [->|(Htn & Hcn & _)]; [by eapply projection_projects|]. intros s r s' Ht.
  destruct (transform_sort rnd n _ s r s' Htn Hcn Ht) as (r1 & s1 & H1 & Hsort).
  destruct (transform_projection rnd _ c _ _ _ Hty Hch H1) as (s0 & H0 & Hpr).
  destruct Hsort as (ks & s2 & f & Hks & _ & -> & _).
  { rewrite (kind_transform rnd c _ r1 s0 (RelShape_wf _ Hsh) H0). by destruct (node_type c). }
  apply (calm_sort_keys rnd _ _ _ _ _ Hks). by eapply project_nonempty.
Qed.

Lemma select_result D env rnd itn n oc p : select_shape n = true -> convert_body rnd n oc false itn = Ok p ->
  eq_symmetric D -> stored D env (tabs (source_plan n)) -> runs_plan D env (plan_store p) -> small (plan_store p) ->
  ctx_projects rnd n -> exists out, select_answer n D out /\ result_table env p = Some out.
Proof.
  intros Hs Hrun Hsym Hst Hr Hsm Hpj. destruct (convert_untrimmed rnd n oc itn p Hrun) as (res & s1 & Ht & Hres).
  destruct (Hres (Hpj _ _ _ Ht)) as (s & Hb & ->). destruct (result_node _ _ _ _ _ Hb) as (m & Hh & _ & Hm & Hbc & Hlim & Hidx).
  cbn [plan_store] in *. rewrite Hh in Hr Hsm |- *. injection Hlim as Hlc Hlo.
  assert (os_heap s1 `prefix_of` os_heap s1 ++ [m]) as Hp1 by by eexists.
  pose proof (Rel_init D env oc (tabs (source_plan n)) (os_heap s1 ++ [m]) itn) as HR.
  destruct (select_shape_inv n Hs) as (Hc & Hp & [Hn|(Hty & Hch & _ & Hne & _)]).
  - rewrite -Hn in Hc, Hp. destruct (projection_shape_inv n Hp) as (c0 & Hty & _).
    destruct (projection_rows D env rnd oc _ Hr Hsm Hsym n (source_plan n) _ res s1 Hp Hc Hst HR Ht Hp1) as
      ((Hl & Hu & _) & R & Hnd & HRm & _ & _ & Hcells). injection Hl as Hl1 Hl2.
    eexists. split.
    + exists R. split_and!; [done|done| |reflexivity]. apply Sorted_always. intros u v. by rewrite /rows_leq /order_dirs Hty.
    + apply (result_table_node _ _ _ (map (column_cells D R) (projected_columns n)) (expression n)); [done|by rewrite Hbc List.map_map Hcells| | |].
      * rewrite Hlc Hl1 /=. by destruct (limit_count (expression n)).
      * rewrite Hlo Hl2 /=. by destruct (limit_offset (expression n)).
      * rewrite Hidx -Hn List.map_map. destruct (physical_root res ≫= _) as [f|] eqn:Hf; [|done].
        apply bind_Some in Hf as (b & _ & Hf%list_elem_of_lookup_2). rewrite bool_decide_false //.
        by apply (proj1 (Forall_forall _ _) (Hu ltac:(constructor))).
  - destruct (sort_rows_of D env rnd oc _ Hr Hsm Hsym n (projection_node n) _ res s1 Hs Hty Hch Hst HR Ht Hp1) as
      (R & l & f & Hnd & HRm & Hcells & Hsort & Hout & Hl & Hf & Hfty). injection Hl as Hl1 Hl2.
    assert (order_keys n <> []) as Hk by by rewrite /order_keys Hty.
    destruct (sorted_members D R (order_keys n) (order_dirs n) l Hk Hsort Hnd) as [Hnd' Hmem].
    eexists. split.
    + exists (map (fun i => R !!! i) l). split_and!; [done|intros u; by rewrite Hmem|by apply sorted_rows|reflexivity].
    + apply (result_table_node _ _ _ (map (column_cells D R) (projected_columns (projection_node n))) (expression n));
        [done|by rewrite Hbc List.map_map Hcells| | |].
      * rewrite Hlc Hl1 /=. by destruct (limit_count (expression n)).
      * rewrite Hlo Hl2 /=. by destruct (limit_offset (expression n)).
      * rewrite Hidx Hf bool_decide_true // Hout List.map_map. apply map_ext. intros c. by rewrite (sorted_column D R (order_keys n) (order_dirs n)).
Qed.
