(* ===== verification/RelRun.v ===== *)
(** * Running converted plans

    A converted plan is the store of the traversal with a RESULT node on top.
    When the ids differ it can be run node by node; if every execution of the
    untrimmed plan leads to an answer of the query, so does the run of the plan
    with or without the removal of unused join outputs. *)

From S2P Require Import Prelude PlanTypes SchemaResolver TranslatorHelpers LogicalSemantics.
From S2P Require Import PhysContext Materialization PhysicalOptimizer PostProcess.
From S2P Require Import PhysicalInvariant MaterializationInv ChainSemantics HandlersInv PlanInv PhysicalTheorems WorkItems.
From S2P Require Import PostProcessInv Engine RelInvariant RelHandlers RelPlan RelNames RelTrim RelFrame RelResult.

Lemma convert_heap_ok rnd itn n oc p : itn <> "" -> phys_shape itn n = true -> convert_body rnd n oc false itn = Ok p ->
  heap_ok itn (plan_store p).
Proof.
  intros Hitn Hph Hrun. destruct (tri_convert rnd itn n oc Hitn Hph) as (o & s & Heq & [Hh _] & _).
  rewrite /convert_body Heq /= in Hrun. destruct o; by injection Hrun as <-.
Qed.

Lemma heap_ok_prefix itn h m : heap_ok itn (h ++ [m]) -> heap_ok itn h.
Proof.
  intros Hh a n Ha. pose proof (Hh a n (lookup_app_l_Some _ _ _ _ Ha)) as Hn. rewrite take_app_le in Hn; [done|].
  apply lookup_lt_Some in Ha. lia.
Qed.

(** The nodes of a converted plan: those of the traversal and the RESULT node. *)
Lemma convert_store rnd itn n oc p : itn <> "" -> phys_shape itn n = true -> plain n = true -> ctx_projects rnd n ->
  convert_body rnd n oc false itn = Ok p ->
  exists h m, p = mkPlan (Some (length h)) (h ++ [m]) /\ p_node_type m = PNT.RESULT /\
    heap_ok itn (h ++ [m]) /\ Forall (named itn) h.
Proof.
  intros Hitn Hph Hpl Hpj Hrun. pose proof (convert_heap_ok rnd itn n oc p Hitn Hph Hrun) as Hhp.
  destruct (convert_untrimmed rnd n oc itn p Hrun) as (res & s1 & Ht & Hres). destruct (Hres (Hpj _ _ _ Ht)) as (s & Hb & ->).
  destruct (result_node _ _ _ _ _ Hb) as (m & Hh & _ & Hm & _). cbn [plan_store] in Hhp. rewrite Hh in Hhp |- *.
  exists (os_heap s1), m. split_and!; [done..|]. destruct (names_transform rnd n Hpl _ _ _ Ht) as (_ & l & Hl & Hall). cbn in Hl. by rewrite Hl.
Qed.

Lemma single_assignment_result h m : p_node_type m = PNT.RESULT -> single_assignment h = true -> single_assignment (h ++ [m]) = true.
Proof.
  intros Hm. assert (writes m = []) as Hw by by rewrite /writes Hm. assert (forall h, writes_of (h ++ [m]) = writes_of h) as Hwo.
  { intros h'. by rewrite /writes_of bind_app /= Hw !app_nil_r. }
  induction h as [|n h IH]; cbn [single_assignment app].
  - intros _. apply (single_assignment_intro [m]). intros a n [_ <-]%list_lookup_singleton_Some. rewrite Hw.
    split_and!; [by apply NoDup_nil| |]; intros b n k _ [_ <-]%list_lookup_singleton_Some _ Hk; rewrite Hw in Hk; by apply not_elem_of_nil in Hk.
  - rewrite Hwo !andb_true_iff. intros [[[H1 H2] H3] H4]. split_and!; [done..|]. by apply IH.
Qed.

(** Such a store can be run, and running it leaves the base tables alone. *)
Lemma run_converted (D : engine Z) env itn h m : leq_total D -> no_dot itn = true -> p_node_type m = PNT.RESULT -> heap_ok itn h -> Forall (named itn) h ->
  NoDup (map p_node_id h) -> runs_plan D (run_plan D env (h ++ [m])) (h ++ [m]) /\
  forall t c, t <> itn -> run_plan D env (h ++ [m]) (t +:+ "." +:+ c) = env (t +:+ "." +:+ c).
Proof.
  intros Htot Hdot Hm Hh Hall Hnd. split.
  - apply run_plan_runs; [done|]. apply single_assignment_result; [done|]. by eapply single_assignment_store.
  - intros t c Hne. apply run_plan_other. rewrite /writes_of bind_app /= (_ : writes m = []) ?app_nil_r; [|by rewrite /writes Hm].
    intros (n & Hk & Hn)%list_elem_of_bind. rewrite Forall_forall in Hall. destruct (named_key _ _ _ (Hall n Hn) Hk) as (y & Hy & He).
    apply Hne. by eapply one_dot.
Qed.

(** The plan with and without trimming. *)
Lemma convert_trimmed rnd itn n oc p : convert_body rnd n oc true itn = Ok p -> exists p0, convert_body rnd n oc false itn = Ok p0 /\
  plan_root p = plan_root p0 /\ forall root, plan_root p0 = Some root -> exists R, collectReferencedColumns (plan_store p0) root = Ok R /\
    optimizeJoinOutputs (plan_store p0) root R = Ok (plan_store p).
Proof.
  rewrite /convert_body. intros ([root s] & -> & Hp)%bind_ok. cbn. destruct root as [a|].
  - apply bind_ok in Hp as (R & HR & (h' & Hh' & [= <-])%bind_ok). exists (mkPlan (Some a) (os_heap s)). split_and!; [done|done|].
    intros r [= <-]. eauto.
  - injection Hp as <-. exists (mkPlan None (os_heap s)). by split_and!.
Qed.

Lemma trimmed_ids h root R h' : acyclic h -> root < length h -> optimizeJoinOutputs h root R = Ok h' -> map p_node_id h' = map p_node_id h.
Proof.
  intros Hac Hr Hh'. pose proof (optimizeJoinOutputs_ok h R Hac root Hr) as Ho. rewrite Hh' in Ho. destruct Ho as ([Hl Hs] & _ & _).
  apply list_eq. intros a. rewrite !list_lookup_fmap. destruct (h !! a) as [n|] eqn:Hn.
  - destruct (Hs a n Hn) as (n' & -> & [-> | (cols & _ & ->)]); done.
  - apply lookup_ge_None in Hn. rewrite (proj2 (lookup_ge_None h' a)); [done|lia].
Qed.

(** ** Answers *)

(** Every execution of the untrimmed plan of [n] on the stored tables [T] gives
    an answer of the query. *)
Definition answers (rnd : nat -> Z) (itn : string) (oc : bool) (n : LogicalPlanNode) (T : gset string)
    (answer : engine Z -> list (list (option Z)) -> Prop) : Prop :=
  forall p (D : engine Z) env, convert_body rnd n oc false itn = Ok p -> eq_symmetric D -> stored D env T ->
    runs_plan D env (plan_store p) -> small (plan_store p) -> exists out, answer D out /\ result_table env p = Some out.

Section run.
Context (rnd : nat -> Z) (itn : string) (oc : bool) (n : LogicalPlanNode) (T : gset string).
Variable answer : engine Z -> list (list (option Z)) -> Prop.
Hypothesis Hans : answers rnd itn oc n T answer.
Hypothesis Hitn : itn <> "".
Hypothesis Hdot : no_dot itn = true.
Hypothesis Hsh : phys_shape itn n = true.
Hypothesis Hpl : plain n = true.
Hypothesis Hpj : ctx_projects rnd n.
Hypothesis Hnot : itn ∉ T.

(** The untrimmed plan, run. *)
Lemma run_untrimmed (D : engine Z) env p : convert_body rnd n oc false itn = Ok p -> eq_symmetric D -> leq_total D -> stored D env T ->
  NoDup (map p_node_id (plan_store p)) -> small (plan_store p) ->
  exists out, answer D out /\ result_table (run_plan D env (plan_store p)) p = Some out.
Proof.
  intros Hc Hsym Htot Hst Hnd Hsm.
  destruct (convert_store rnd itn n oc p Hitn Hsh Hpl Hpj Hc) as (h & m & -> & Hm & Hh & Hall). cbn [plan_store] in *.
  destruct (run_converted D env itn h m) as [Hrun Hbase]; [done|done|done|by eapply heap_ok_prefix|done| |].
  { rewrite map_app in Hnd. by apply NoDup_app in Hnd as [? _]. }
  eapply Hans; [done|done| |done|done].
  intros t Ht. destruct (Hst t Ht) as (H1 & H2 & H3). split_and!; [done|done|]. intros c. rewrite Hbase //. intros ->. done.
Qed.

(** Trimming does not change the table of the RESULT node. *)
Lemma trimmed_table (D : engine Z) env h m R h' : p_node_type m = PNT.RESULT -> heap_ok itn (h ++ [m]) -> Forall (named itn) h ->
  NoDup (map p_node_id h) -> collectReferencedColumns (h ++ [m]) (length h) = Ok R -> optimizeJoinOutputs (h ++ [m]) (length h) R = Ok h' ->
  result_table (run_plan D env h') (mkPlan (Some (length h)) h') =
  result_table (run_plan D env (h ++ [m])) (mkPlan (Some (length h)) (h ++ [m])).
Proof.
  intros Hm Hh Hall Hnd HR Hh'. assert (length h < length (h ++ [m])) as Hlt by (rewrite length_app /=; lia).
  assert ((h ++ [m]) !! length h = Some m) as Hrm by by rewrite lookup_app_r // Nat.sub_diag.
  pose proof (trim_read D itn h m (length h) Hitn Hdot Hm Hh Hall Hnd Hlt R h' HR Hh' env m) as Hread.
  destruct (trim_root itn h m (length h) Hh Hlt R h' Hh' m Hrm) as (cols & Hm').
  rewrite /result_table /= Hrm Hm' /=. case_bool_decide; [|done]. f_equal. apply map_ext_in. intros c Hc%list_elem_of_In.
  assert (forall c, c ∈ p_base_columns m ++ option_list (p_index m) -> contents (run_plan D env h') c = contents (run_plan D env (h ++ [m])) c) as He
    by (intros x Hx; apply Hread; [done|]; by apply list_elem_of_fmap_2).
  rewrite /result_column /=. f_equal. rewrite (He c); [|set_solver]. destruct (p_index m) as [i|]; [|done]. rewrite (He i) //. set_solver.
Qed.

(** The plan with or without trimming, run. *)
Lemma query_run jo : match PhysicalOptimizer_optimize rnd (Some n) oc jo itn with
  | Ok p => forall (D : engine Z) env, eq_symmetric D -> leq_total D -> stored D env T -> NoDup (map p_node_id (plan_store p)) ->
      small (plan_store p) -> exists out, answer D out /\ result_table (run_plan D env (plan_store p)) p = Some out
  | Err e => jo = true /\ e = Throw "Conversion to physical plan failed!"
  end.
Proof.
  pose proof (convert_body_ok rnd itn n oc jo Hitn Hsh) as Hok.
  rewrite /PhysicalOptimizer_optimize /ConvertToPhys. destruct (convert_body rnd n oc jo itn) as [p|[]] eqn:Hc; [|done..]. cbn.
  intros D env Hsym Htot Hst Hnd Hsm. destruct jo; [|by eapply run_untrimmed].
  destruct (convert_trimmed rnd itn n oc p Hc) as (p0 & Hc0 & Hroot & Htrim).
  destruct (convert_store rnd itn n oc p0 Hitn Hsh Hpl Hpj Hc0) as (h & m & -> & Hm & Hh & Hall). cbn [plan_root plan_store] in *.
  destruct (Htrim _ eq_refl) as (R & HR & Hh'). pose proof (heap_ok_acyclic _ _ Hh) as Hac.
  assert (length h < length (h ++ [m])) as Hlt by (rewrite length_app /=; lia).
  pose proof (trimmed_ids _ _ _ _ Hac Hlt Hh') as Hids. rewrite Hids in Hnd.
  assert (length (plan_store p) = length (h ++ [m])) as Hlen by (rewrite -(length_map p_node_id (plan_store p)) Hids; apply length_map).
  destruct (run_untrimmed D env _ Hc0 Hsym Htot Hst Hnd) as (out & Hout & Hcols); [by rewrite /small /= -Hlen|].
  exists out. split; [done|]. rewrite -Hcols. cbn [plan_store]. rewrite map_app in Hnd. apply NoDup_app in Hnd as [Hnd _].
  destruct p as [root st]. cbn [plan_root plan_store] in *. subst root. by eapply trimmed_table.
Qed.

End run.
