(* ===== verification/RelAggregate.v ===== *)
(** * Aggregates without GROUP BY

    The AGGREGATE nodes over a plan of scans, filters and joins, with at most
    one MAP in between, compute their functions over the rows of the plan, and
    the projection finds each of them by its alias. *)

From stdpp Require Import pretty.
From S2P Require Import Prelude PlanTypes SchemaResolver TranslatorHelpers LogicalSemantics.
From S2P Require Import PhysContext Materialization PhysicalOptimizer PostProcess.
From S2P Require Import PhysicalInvariant MaterializationInv ChainSemantics HandlersInv PlanInv PhysicalTheorems WorkItems.
From S2P Require Import PostProcessInv Engine RelInvariant RelHandlers RelPlan RelNames RelTrim RelFrame RelResult RelRun.

(** ** Names of intermediate columns *)

Definition digitb (x : ascii) : bool := (48 <=? nat_of_ascii x) && (nat_of_ascii x <=? 57).

(** An [i], then a digit or a sign. *)
Definition is_iname (s : string) : bool :=
  match s with
  | String a (String x _) => Ascii.eqb a "i" && (digitb x || Ascii.eqb x "-")
  | _ => false
  end.

Lemma pretty_go_head n : forall x s, digitb x = true -> exists y t, pretty_N_go n (String x s) = String y t /\ digitb y = true.
Proof.
  induction (N.lt_wf_0 n) as [n _ IH]. intros x s Hx. destruct (decide (0 < n)%N) as [Hn|Hn].
  - rewrite pretty_N_go_step //. apply IH; [by apply N.div_lt|].
    by destruct (n `mod` 10)%N as [|[[[[]|[]|]|[[]|[]|]|]|[[[]|[]|]|[[]|[]|]|]|]].
  - assert (n = 0%N) as -> by lia. rewrite pretty_N_go_0. eauto.
Qed.

Lemma pretty_head (n : N) : exists y t, pretty n = String y t /\ digitb y = true.
Proof.
  rewrite /pretty /pretty_N. case_decide as Hn; [by eexists _, _|]. rewrite pretty_N_go_step; [|lia]. apply pretty_go_head.
  by destruct (n `mod` 10)%N as [|[[[[]|[]|]|[[]|[]|]|]|[[[]|[]|]|[[]|[]|]|]|]].
Qed.

Lemma iname_is z : is_iname (iname z) = true.
Proof.
  change (iname z) with (String "i" (to_string z)). assert (forall n : N, is_iname (String "i" (pretty n)) = true) as Hn.
  { intros n. destruct (pretty_head n) as (y & t & -> & Hy). cbn. by rewrite Hy. }
  destruct z as [|p|p]; [exact (Hn 0%N)|exact (Hn (Npos p))|done].
Qed.

(** ** Registered columns *)

Definition registered (name : string) (col : Column) (producer : option paddr) (m : gmap string MaterializedInfo)
    : gmap string MaterializedInfo :=
  let info := mkMat col producer INT_MAX in
  let m := <[name := info]> m in
  match alias col with
  | Some a => if negb (is_empty a) then <[a := info]> m else m
  | None => m
  end.

Lemma registered_other name col o m k : k <> name -> alias col <> Some k -> registered name col o m !! k = m !! k.
Proof.
  intros Hn Ha. rewrite /registered. destruct (alias col) as [a|]; [|by rewrite lookup_insert_ne].
  assert (a <> k) by congruence. destruct (is_empty a); cbn; by rewrite !lookup_insert_ne.
Qed.

Lemma registered_alias name col o m a : alias col = Some a -> a <> "" -> registered name col o m !! a = Some (mkMat col o INT_MAX).
Proof. intros Ha He%is_empty_false. by rewrite /registered Ha He lookup_insert_eq. Qed.

(** The column is not confused with a derived one named in [names]. *)
Definition clear (names : list string) (s : string) : bool := negb (is_iname s) && negb (bool_decide (s ∈ names)).
Definition clear_column (names : list string) (c : Column) : bool :=
  clear names (column_name c) && match alias c with Some a => clear names a | None => true end.

(** All derived columns have a generated name or one of [names]. *)
Definition ints_ok (names : list string) (m : gmap string MaterializedInfo) : Prop :=
  forall k i, m !! k = Some i -> is_iname k = true \/ k ∈ names.

Lemma clear_none names m s : ints_ok names m -> clear names s = true -> m !! s = None.
Proof.
  intros Hm [Hi%negb_true_iff Hs%negb_true_iff%bool_decide_eq_false]%andb_true_iff. destruct (m !! s) as [i|] eqn:Hk; [|done].
  destruct (Hm _ _ Hk); [congruence|done].
Qed.

Lemma clear_base_name names m c : ints_ok names m -> clear_column names c = true -> base_name m c.
Proof.
  intros Hm [Hc Ha]%andb_true_iff. split; [|by eapply clear_none]. intros a E. rewrite E in Ha. by eapply clear_none.
Qed.

Lemma registered_ok names name col o m : ints_ok names m -> is_iname name = true -> (forall a, alias col = Some a -> a ∈ names) ->
  ints_ok names (registered name col o m).
Proof.
  intros Hm Hn Ha k i Hk. destruct (decide (k = name)) as [->|Hne]; [by left|].
  destruct (decide (alias col = Some k)) as [E|E]; [right; by apply Ha|]. rewrite registered_other // in Hk. by eapply Hm.
Qed.

(** ** What is aggregated *)

(** The value a MAP node gives a row. *)
Definition map_value (D : engine Z) (m : LogicalPlanNode) (u : tuple) : option Z :=
  match arith_op (expression m) with
  | Some op => arith D op (map (colval D u) (base_columns m))
  | None => None
  end.

(** The column a specification aggregates over the rows [R]: a base column, the
    values of the MAP node, or for star any column with one entry per row. *)
Definition agg_input (D : engine Z) (mp : option LogicalPlanNode) (R : list tuple) (sp : AggSpec) (v : list (option Z)) : Prop :=
  match input sp with
  | Some c => v = column_cells D R c
  | None => if is_star sp then length v = length R else exists m, mp = Some m /\ v = map (map_value D m) R
  end.

Section aggregate.
Context (D : engine Z) (env : string -> list (option Z)) (rnd : nat -> Z) (oc : bool) (base : gset string) (H : list PhysicalPlanNode).
Hypothesis Hstored : stored D env base.
Hypothesis Hruns : runs_plan D env H.
Hypothesis Hsmall : small H.

Variables (T : gset string) (R : list tuple) (rho : string -> option (list nat)).
Hypothesis HT : T ⊆ base.
Hypothesis Hdom : forall u, u ∈ R -> dom u = T.
(** The aliases of the aggregates. *)
Variable names : list string.

Abbreviation Rel ints s := (Rel D env oc base H ints ∅ s (over T R rho)).
Abbreviation in_plan s := (os_heap s `prefix_of` H).

(** A new node and a registered column leave the rows alone. *)
Lemma Rel_register ints ints' s s' : Rel ints s -> os_heap s `prefix_of` os_heap s' ->
  optimize_chains (os_ctx s') = optimize_chains (os_ctx s) -> table_poslist_chain (os_ctx s') = table_poslist_chain (os_ctx s) ->
  materialized_columns (os_ctx s') = materialized_columns (os_ctx s) -> intermediate_results (os_ctx s') = ints' -> Rel ints' s'.
Proof.
  intros [H1 H2 H3 H4 H5 H6 H7] Hp Hk Hc Hm Hi. assert (forall t, chain_at s' t = chain_at s t) as Hch by (intros; by rewrite /chain_at Hc).
  apply prefix_length in Hp as Hpl. split; [congruence|done|..].
  - intros t. rewrite Hch. specialize (H3 t). lia.
  - intros t p. rewrite Hch. intros Hpt. by eapply in_store_mono, H4.
  - intros t l. rewrite Hch. apply H5.
  - intros t. rewrite Hch. apply H6.
  - intros c i Ht. rewrite Hch Hm. intros [Hs Hcc]%H7; [|done]. split; [done|]. by eapply (cache_ok_mono D env oc H (os_heap s)).
Qed.

(** *** MAP *)

Lemma materialize_rows ints cols : ints_ok names ints -> forall s mats s', (forall c, c ∈ cols -> clear_column names c = true /\ table_name c ∈ T) ->
  Rel ints s -> materialize_columns rnd cols s = Ok (mats, s') -> in_plan s' ->
  Rel ints s' /\ map (fun i => contents env (mat_col i)) mats = map (column_cells D R) cols.
Proof.
  intros Hok. induction cols as [|col cols IH]; intros s mats s' Hcols HR; [intros [= <- <-] _; by split|].
  rewrite /materialize_columns. cbn [mapM].
  intros (i & s1 & H1 & (ms & s2 & H2 & [= <- <-])%ST_bind_ok)%ST_bind_ok Hp. apply ST_bind_ok in H1 as ([i' c'] & s3 & H1 & [= <- <-]).
  assert (in_plan s3) as Hp1. { etrans; [|exact Hp]. eapply grows_mapM; [|exact H2]. intros c. grows_tac. }
  destruct (Hcols col ltac:(set_solver)) as [Hn Hcol].
  destruct (ensure_cells D env rnd oc base H ints Hstored Hruns Hsmall T R rho HT Hdom col s i' c' s3 HR) as (HR1 & _ & Hi);
    [by eapply clear_base_name|done|done|done|].
  destruct (IH s3 ms s2) as [HR2 Hms]; [intros; apply Hcols; set_solver|done|done|done|]. cbn [map]. by rewrite Hi Hms.
Qed.

Lemma map_rows_cells m op : arith_op (expression m) = Some op -> base_columns m <> [] ->
  map_rows D op (map (column_cells D R) (base_columns m)) = map (map_value D m) R.
Proof.
  intros Hop Hne. rewrite /map_rows. assert (length (default [] (head (map (column_cells D R) (base_columns m)))) = length R) as ->.
  { destruct (base_columns m) as [|c cols]; [done|]. by rewrite /= /column_cells length_map. }
  apply list_eq. intros i. rewrite !list_lookup_fmap. destruct (R !! i) as [u|] eqn:Hu.
  - rewrite lookup_seq_lt; [|by eapply lookup_lt_Some]. cbn. rewrite /map_value Hop List.map_map. do 2 f_equal. apply map_ext.
    intros c. by rewrite /at_pos /column_cells list_lookup_fmap Hu.
  - by rewrite lookup_seq_ge; [|by apply lookup_ge_None].
Qed.

(** The MAP node holds the values of the rows. *)
Lemma map_rows_of m child s r0 s0 r s' op : child (limits_read m s) = Ok (r0, s0) -> Rel ∅ s0 ->
  arith_op (expression m) = Some op -> base_columns m <> [] -> (forall c, c ∈ base_columns m -> clear_column names c = true /\ table_name c ∈ T) ->
  handleMap rnd m child (limits_read m s) = Ok (r, s') -> in_plan s' ->
  (exists ints, Rel ints s' /\ ints_ok names ints) /\ contents env (output_column r) = map (map_value D m) R /\
  result_type r = RT_MATERIALIZED.
Proof.
  intros Hc HR Hop Hne Hcols He Hp. rewrite /handleMap in He. apply ST_bind_ok in He as (r1 & s1 & H1 & He).
  rewrite Hc in H1. injection H1 as <- <-. apply ST_bind_ok in He as (mats & s2 & Hm & He).
  unfold fresh_col, mbind, ST_bind, registerIntermediateResult in He. cbn in He. injection He as <- <-. cbn [output_column tr result_type].
  assert (in_plan s2) as Hp2 by (etrans; [|exact Hp]; cbn; by eexists).
  assert (ints_ok names ∅) as Hok0 by (intros k i; by rewrite lookup_empty).
  destruct (materialize_rows ∅ (base_columns m) Hok0 s0 mats s2 Hcols HR Hm Hp2) as [HR2 Hcells].
  split_and!; [|..|done].
  - eexists. split; [eapply (Rel_register ∅ _ s2); [done|cbn; by eexists|done|done|done|reflexivity]|]. cbn.
    rewrite (rel_int _ _ _ _ _ _ _ _ _ HR2). intros k i Hk. apply lookup_insert_Some in Hk as [[<- _]|[_ Hk]]; [|by rewrite lookup_empty in Hk].
    left. rewrite string_app_nil. apply iname_is.
  - pose proof (run_snoc D env H Hruns _ _ Hp) as Hx. cbn in Hx. rewrite (Hx op Hop) List.map_map Hcells. by apply map_rows_cells.
Qed.

(** *** AGGREGATE *)

Variable mp : option LogicalPlanNode.
Abbreviation input_is := (agg_input D mp R).

(** The aggregate of [sp] can be found by its alias. *)
Definition found (ints : gmap string MaterializedInfo) (sp : AggSpec) : Prop := exists a i v, result_alias sp = Some a /\ ints !! a = Some i /\
  input_is sp v /\ contents env (mat_col i) = [aggregate D (func sp) v].

(** The state after an AGGREGATE node over [col] is entered and registered. *)
Definition agg_state (e : Expression) (sp : option AggSpec) (col : Column) (ch : option paddr) (s : opt_state) : opt_state :=
  let id := rnd (os_draws s) in
  let out := Column3 (intermediate_table_name (os_ctx s)) (iname id +:+ "") PTY.INTEGER in
  mkOS (set_intermediate (registered (iname id +:+ "") (agg_alias_col sp out) (Some (length (os_heap s))) (intermediate_results (os_ctx s))) (os_ctx s))
    (os_heap s ++ [set_p_expression e (new_phys PNT.AGGREGATE id [col] [agg_alias_col sp out] (producers [ch]) None)]) (S (os_draws s)).

Lemma agg_added ints e sp col ch s v a : Rel ints s -> ints_ok names ints -> head (agg_specs e) = Some sp -> result_alias sp = Some a ->
  a <> "" -> a ∈ names -> contents env col = v -> input_is sp v -> in_plan (agg_state e (Some sp) col ch s) ->
  exists ints', Rel ints' (agg_state e (Some sp) col ch s) /\ ints_ok names ints' /\ found ints' sp /\
    forall k, is_iname k = false -> k <> a -> ints' !! k = ints !! k.
Proof.
  intros HR Hok Hsp Ha Hne Hin Hv Hagg Hp. set (s' := agg_state e (Some sp) col ch s) in *.
  assert (forall out, alias (agg_alias_col (Some sp) out) = Some a) as Hal by (intros out; by rewrite /agg_alias_col Ha).
  exists (intermediate_results (os_ctx s')). rewrite /s' /agg_state. cbn [os_ctx set_intermediate intermediate_results].
  rewrite (rel_int _ _ _ _ _ _ _ _ _ HR). split_and!.
  - eapply (Rel_register ints _ s); [done|cbn; by eexists|done|done|done|]. done.
  - apply registered_ok; [done|rewrite string_app_nil; apply iname_is|]. intros b. rewrite Hal. by intros [= <-].
  - pose proof (run_snoc D env H Hruns _ _ Hp) as Hx. cbn in Hx. eexists a, _, v.
    split_and!; [done|by apply registered_alias|done|]. cbn [mat_col]. rewrite -Hv. by apply Hx.
  - intros k Hk Hka. apply registered_other; [|rewrite Hal; congruence]. intros ->. by rewrite string_app_nil iname_is in Hk.
Qed.

(** What the specifications of an AGGREGATE node have to satisfy: an alias of
    their own, and columns that no alias hides. *)
Definition spec_ok (sp : AggSpec) : Prop := exists a, result_alias sp = Some a /\ a <> "" /\ a ∈ names /\ is_iname a = false /\
  forall c, input sp = Some c -> clear_column names c = true /\ table_name c ∈ T.

(** Aggregates that read the output of their child read what they should. *)
Definition child_ok (r : TransformResult) (sp : AggSpec) : Prop := input sp = None -> input_is sp (contents env (output_column r)).

Lemma resolve_rows ints sp r s col ch s' : Rel ints s -> ints_ok names ints -> spec_ok sp -> child_ok r sp ->
  resolveAggregateInput rnd sp r s = Ok ((col, ch), s') -> in_plan s' -> Rel ints s' /\ input_is sp (contents env col).
Proof.
  intros HR Hok (a & _ & _ & _ & _ & Hin) Hch. rewrite /resolveAggregateInput /child_ok /agg_input in Hch |- *.
  destruct (input sp) as [c|] eqn:Hi.
  - intros ([i c'] & s1 & H1 & [= <- <- <-])%ST_bind_ok Hp. destruct (Hin c eq_refl) as [Hcl Hc].
    destruct (ensure_cells D env rnd oc base H ints Hstored Hruns Hsmall T R rho HT Hdom c s i c' s1 HR) as (HR1 & _ & Hx);
      [by eapply clear_base_name|done|done|done|]. done.
  - intros [= <- _ <-] _. by split; [|apply Hch].
Qed.

(** One AGGREGATE node per specification. *)
Lemma parallel_rows r specs : Forall spec_ok specs -> Forall (child_ok r) specs -> NoDup (map result_alias specs) ->
  forall ints s nodes s', Rel ints s -> ints_ok names ints -> parallel_loop rnd specs r s = Ok (nodes, s') -> in_plan s' ->
  exists ints', Rel ints' s' /\ ints_ok names ints' /\ Forall (found ints') specs /\
    forall k, is_iname k = false -> Some k ∉ map result_alias specs -> ints' !! k = ints !! k.
Proof.
  induction specs as [|sp specs IH]; intros Hall Hch Hnd ints s nodes s' HR Hok; cbn [parallel_loop].
  { intros [= _ <-] _. exists ints. split_and!; [done|done|constructor|done]. }
  apply Forall_cons in Hall as [Hsp Hall], Hch as [Hch1 Hch]. apply NoDup_cons in Hnd as [Hnin Hnd].
  intros ([col ch] & s1 & H1 & He)%ST_bind_ok Hp. apply ST_bind_ok in He as ([id out] & s2 & [= <- <- <-] & He).
  apply ST_bind_ok in He as (ad & s3 & [= <- <-] & He). apply ST_bind_ok in He as ([] & s4 & [= <-] & He).
  apply ST_bind_ok in He as (rest & s5 & H5 & [= _ <-]).
  assert (in_plan (agg_state (set_agg_specs [sp] Expression_default) (Some sp) col ch s1)) as Hp4.
  { etrans; [|exact Hp]. by eapply (grows_parallel rnd r specs _ _ _ H5). }
  assert (in_plan s1) as Hp1 by (etrans; [|exact Hp4]; by eexists).
  destruct (resolve_rows ints sp r s col ch s1 HR Hok Hsp Hch1 H1 Hp1) as [HR1 Hv]. destruct Hsp as (a & Ha & Hae & Hain & Hai & _).
  destruct (agg_added ints (set_agg_specs [sp] Expression_default) sp col ch s1 _ a HR1 Hok eq_refl Ha Hae Hain eq_refl Hv Hp4)
    as (ints1 & HR2 & Hok1 & (a' & i & v & Ha' & Hf & Hfv & Hfc) & Hrest).
  destruct (IH Hall Hch Hnd ints1 _ rest s5 HR2 Hok1 H5 Hp) as (ints2 & HR3 & Hok2 & Hfound & Hrest2).
  assert (a' = a) as -> by congruence. exists ints2. split_and!; [done|done| |].
  - constructor; [|done]. exists a, i, v. split_and!; [done| |done|done]. by rewrite Hrest2 // -Ha.
  - intros k Hk Hn. rewrite /= not_elem_of_cons Ha in Hn. destruct Hn as [Hka Hn]. rewrite Hrest2 // Hrest //. congruence.
Qed.

(** A single specification reads a base column over a join only. *)
Lemma single_rows n r s res s' ints sp : agg_specs (expression n) = [sp] -> spec_ok sp -> child_ok r sp ->
  (is_Some (input sp) -> result_type r = RT_JOINED) -> Rel ints s -> ints_ok names ints ->
  createSingleAggregateNode rnd n r s = Ok (res, s') -> in_plan s' -> exists ints', Rel ints' s' /\ ints_ok names ints' /\ found ints' sp.
Proof.
  intros Hs Hsp Hch Hj HR Hok. rewrite /createSingleAggregateNode Hs. cbn [head]. intros ([col ch] & s1 & H1 & He)%ST_bind_ok Hp.
  apply ST_bind_ok in He as ([id out] & s2 & [= <- <- <-] & He). apply ST_bind_ok in He as (ad & s3 & [= <- <-] & He).
  apply ST_bind_ok in He as ([] & s4 & [= <-] & [= _ <-]).
  change (in_plan (agg_state (expression n) (Some sp) col ch s1)) in Hp.
  assert (resolveAggregateInput rnd sp r s = Ok ((col, ch), s1)) as Hr.
  { rewrite /resolveAggregateInput. cbn [mbind option_bind] in H1. destruct (input sp) as [c|] eqn:Hi.
    - rewrite (bool_decide_true _ (Hj ltac:(eauto))) in H1. exact H1.
    - destruct (bool_decide _); exact H1. }
  assert (in_plan s1) as Hp1 by (etrans; [|exact Hp]; by eexists).
  destruct (resolve_rows ints sp r s col ch s1 HR Hok Hsp Hch Hr Hp1) as [HR1 Hv]. destruct Hsp as (a & Ha & Hae & Hain & Hai & _).
  destruct (agg_added ints (expression n) sp col ch s1 _ a HR1 Hok ltac:(by rewrite Hs) Ha Hae Hain eq_refl Hv Hp)
    as (ints1 & HR2 & Hok1 & Hf & _). by exists ints1.
Qed.

(** The projection of the aggregates. *)
Definition names_spec (col : Column) (sp : AggSpec) : Prop := result_alias sp = Some (column_name col) /\
  (alias col = None \/ alias col = Some (column_name col)).

Lemma lookup_found ints s col sp : intermediate_results (os_ctx s) = ints -> names_spec col sp -> found ints sp -> exists i v,
  lookupIntermediateResult col (os_ctx s) = Some i /\ input_is sp v /\ contents env (mat_col i) = [aggregate D (func sp) v].
Proof.
  intros Hi [Hn Ha] (a & i & v & Hr & Hf & Hv & Hc). exists i, v. split_and!; [|done|done]. assert (a = column_name col) as -> by congruence.
  rewrite /lookupIntermediateResult Hi. destruct Ha as [-> | ->]; [done|]. destruct (negb _); by rewrite Hf.
Qed.

Lemma ensure_derived col s i : lookupIntermediateResult col (os_ctx s) = Some i -> ensureMaterialized rnd col s = Ok ((i, col), s).
Proof.
  intros Hl. rewrite /ensureMaterialized /ensureMaterializedOptimized /mbind /ST_bind /=.
  by destruct (optimize_chains (os_ctx s)); rewrite Hl.
Qed.

Lemma project_found ints cols specs : Forall2 names_spec cols specs -> Forall (found ints) specs -> forall s s',
  intermediate_results (os_ctx s) = ints -> project_loop rnd cols s = Ok (tt, s') ->
  exists out, Forall2 (fun sp w => exists v, input_is sp v /\ w = [aggregate D (func sp) v]) specs out /\
    map (fun i => contents env (mat_col i)) (ctx_projected (os_ctx s')) =
      map (fun i => contents env (mat_col i)) (ctx_projected (os_ctx s)) ++ out.
Proof.
  induction 1 as [|col sp cols specs Hn _ IH]; intros Hf s s' Hi; cbn [project_loop].
  { intros [= <-]. exists []. by rewrite app_nil_r. }
  apply Forall_cons in Hf as [Hf1 Hf]. destruct (lookup_found ints s col sp Hi Hn Hf1) as (i & v & Hl & Hv & Hc).
  intros ([i' c'] & s1 & H1 & ([] & s2 & [= <-] & He)%ST_bind_ok)%ST_bind_ok. rewrite (ensure_derived col s i Hl) in H1.
  injection H1 as <- <- <-. apply IH in He as (out & Hall & Hm); [|done|done].
  exists ([aggregate D (func sp) v] :: out). split; [constructor; eauto|]. by rewrite Hm /= map_app /= (projected_contents env) Hc -app_assoc.
Qed.

End aggregate.

(** ** Plans with aggregates *)

#[export] Instance names_spec_dec col sp : Decision (names_spec col sp).
Proof. rewrite /names_spec. apply _. Defined.

Definition below (n : LogicalPlanNode) : LogicalPlanNode := default n (mjoin (head (children n))).
Definition one_child (n : LogicalPlanNode) : bool := match children n with [Some _] => true | _ => false end.
Definition is_map (n : LogicalPlanNode) : bool := bool_decide (node_type n = LNT.MAP).

(** The parts of a plan PROJECTION - AGGREGATE - [MAP] - source. *)
Definition agg_list (n : LogicalPlanNode) : list AggSpec := agg_specs (expression (below n)).
Definition agg_map (n : LogicalPlanNode) : option LogicalPlanNode :=
  if is_map (below (below n)) then Some (below (below n)) else None.
Definition agg_source (n : LogicalPlanNode) : LogicalPlanNode :=
  match agg_map n with Some m => below m | None => below (below n) end.
Definition agg_names (n : LogicalPlanNode) : list string := omap result_alias (agg_list n).

(** One specification: a non-empty alias that is no generated name; its column
    is of the source and hidden by no alias, and a single aggregate over a
    column stands directly over a join; without a column it aggregates the MAP
    or, for star, the rows of anything but a bare scan. *)
Definition spec_shape (n : LogicalPlanNode) (sp : AggSpec) : bool :=
  match result_alias sp with Some a => negb (is_empty a) && negb (is_iname a) | None => false end &&
  match input sp with
  | Some c => clear_column (agg_names n) c && bool_decide (table_name c ∈ tabs (agg_source n)) &&
      (bool_decide (length (agg_list n) <> 1) || bool_decide (agg_map n = None) && bool_decide (node_type (agg_source n) = LNT.JOIN))
  | None => bool_decide (agg_map n <> None) || is_star sp && bool_decide (node_type (agg_source n) <> LNT.SCAN)
  end.

Definition map_shape (n m : LogicalPlanNode) : bool :=
  one_child m && bool_decide (is_Some (arith_op (expression m))) &&
  bool_decide (base_columns m <> []) &&
  forallb (fun c => clear_column (agg_names n) c && bool_decide (table_name c ∈ tabs (agg_source n))) (base_columns m).

Definition agg_shape (n : LogicalPlanNode) : bool :=
  bool_decide (node_type n = LNT.PROJECTION) && one_child n &&
  bool_decide (node_type (below n) = LNT.AGGREGATE) && bool_decide (base_columns (below n) = []) && quiet (below n) &&
  one_child (below n) && rel_shape (agg_source n) &&
  match agg_map n with Some m => map_shape n m | None => true end &&
  bool_decide (projected_columns n <> []) && bool_decide (Forall2 names_spec (projected_columns n) (agg_list n)) &&
  bool_decide (NoDup (map result_alias (agg_list n))) && forallb (spec_shape n) (agg_list n).

(** The answer: each aggregate over the rows of the source, as a column of one
    row. *)
Definition agg_answer (n : LogicalPlanNode) (D : engine Z) (out : list (list (option Z))) : Prop :=
  exists R, NoDup R /\ (forall u, u ∈ R <-> u ∈ eval D (agg_source n)) /\
    Forall2 (fun sp w => exists v, agg_input D (agg_map n) R sp v /\ w = limited (expression n) [aggregate D (func sp) v]) (agg_list n) out.

Record AggShape (n : LogicalPlanNode) : Prop := {
  as_type : node_type n = LNT.PROJECTION;
  as_child : children n = [Some (below n)];
  as_agg : node_type (below n) = LNT.AGGREGATE;
  as_keys : base_columns (below n) = [];
  as_quiet : quiet (below n) = true;
  as_input : children (below n) = [Some (below (below n))];
  as_source : RelShape (agg_source n);
  as_map : forall m, agg_map n = Some m -> children m = [Some (agg_source n)] /\ is_Some (arith_op (expression m)) /\ base_columns m <> [] /\
    forall c, c ∈ base_columns m -> clear_column (agg_names n) c = true /\ table_name c ∈ tabs (agg_source n);
  as_cols : projected_columns n <> [];
  as_names : Forall2 names_spec (projected_columns n) (agg_list n);
  as_alias : NoDup (map result_alias (agg_list n));
  as_specs : forall sp, sp ∈ agg_list n -> spec_shape n sp = true;
}.

Lemma one_child_spec n : one_child n = true -> children n = [Some (below n)].
Proof. rewrite /one_child /below. by destruct (children n) as [|[c|] []]. Qed.

Lemma agg_shape_spec n : agg_shape n = true -> AggShape n.
Proof.
  rewrite /agg_shape !andb_true_iff !bool_decide_eq_true. intros [[[[[[[[[[[H1 H2] H3] H4] H5] H6] H7] H8] H9] H10] H11] H12].
  split; try done.
  - by apply one_child_spec.
  - by apply one_child_spec.
  - by apply rel_shape_spec.
  - intros m Hm. rewrite Hm /map_shape !andb_true_iff !bool_decide_eq_true in H8. destruct H8 as [[[Ha Hb] Hc] Hd].
    split_and!; [rewrite /agg_source Hm; by apply one_child_spec|done..|]. intros c Hin. rewrite forallb_forall in Hd.
    apply list_elem_of_In, Hd, andb_true_iff in Hin as [? ?%bool_decide_eq_true]. done.
  - intros sp Hin. rewrite forallb_forall in H12. by apply H12, list_elem_of_In.
Qed.

Lemma spec_shape_ok n sp : AggShape n -> sp ∈ agg_list n -> spec_ok (tabs (agg_source n)) (agg_names n) sp.
Proof.
  intros Hn Hin. pose proof (as_specs n Hn sp Hin) as Hs. rewrite /spec_shape in Hs. apply andb_true_iff in Hs as [Ha Hi].
  destruct (result_alias sp) as [a|] eqn:Hal; [|done]. apply andb_true_iff in Ha as [He%negb_true_iff%is_empty_false Hna%negb_true_iff].
  exists a. split_and!; [done|done| |done|].
  - rewrite /agg_names list_elem_of_omap. by exists sp.
  - intros c Hc. rewrite Hc in Hi. by apply andb_true_iff in Hi as [[Hcl Ht%bool_decide_eq_true]%andb_true_iff _].
Qed.

Section transform.
Variable rnd : nat -> Z.

Lemma transform_aggregate a b s r s' : node_type a = LNT.AGGREGATE -> children a = [Some b] -> base_columns a = [] ->
  transformNode rnd a s = Ok (r, s') -> exists r1 s1, transformNode rnd b (limits_read a s) = Ok (r1, s1) /\
    match agg_specs (expression a) with
    | _ :: _ :: _ => createParallelAggregateNodes rnd (agg_specs (expression a)) r1
    | _ => createSingleAggregateNode rnd a r1
    end s1 = Ok (r, s').
Proof.
  destruct a as [ty st bc ex pc ch]; cbn [node_type children transformNode base_columns expression]. intros -> -> ->.
  intros ([] & s0 & [= <-] & He)%ST_bind_ok. rewrite /handleAggregate in He. cbn [base_columns expression] in He.
  apply ST_bind_ok in He as (r1 & s1 & H1 & He). by exists r1, s1.
Qed.

Lemma transform_map m c s r s' : node_type m = LNT.MAP -> children m = [Some c] -> transformNode rnd m s = Ok (r, s') ->
  exists r0 s0, transformNode rnd c (limits_read m s) = Ok (r0, s0) /\ os_heap s0 `prefix_of` os_heap s' /\
    handleMap rnd m (transformNode rnd c) (limits_read m s) = Ok (r, s').
Proof.
  destruct m as [ty st bc ex pc ch]; cbn [node_type children transformNode]. intros -> ->. intros ([] & s0 & [= <-] & He)%ST_bind_ok.
  pose proof He as He'. rewrite /handleMap in He'. apply ST_bind_ok in He' as (r0 & s1 & H1 & He'). exists r0, s1. split_and!; [done| |done].
  revert He'. apply (fun g : grows _ => g s1 r s'). apply grows_bind; [|intros; repeat first [apply grows_register|grows_step]].
  rewrite /materialize_columns. apply grows_mapM. intros. grows_tac.
Qed.

End transform.

Section answer.
Context (D : engine Z) (env : string -> list (option Z)) (rnd : nat -> Z) (oc : bool) (H : list PhysicalPlanNode) (n : LogicalPlanNode).
Hypothesis Hn : AggShape n.
Hypothesis Hst : stored D env (tabs (agg_source n)).
Hypothesis Hruns : runs_plan D env H.
Hypothesis Hsmall : small H.
Hypothesis Hsym : eq_symmetric D.

Abbreviation T := (tabs (agg_source n)).
Abbreviation Rel ints s R := (Rel D env oc T H ints ∅ s (over T R (fun _ => None))).
Abbreviation in_plan s := (os_heap s `prefix_of` H).

Record input_post (r : TransformResult) (s' : opt_state) (R : list tuple) : Prop := {
  ip_nodup : NoDup R;
  ip_rows : forall u, u ∈ R <-> u ∈ eval D (agg_source n);
  ip_rel : exists ints, Rel ints s' R /\ ints_ok (agg_names n) ints;
  ip_child : Forall (child_ok D env R (agg_map n) r) (agg_list n);
  ip_kind : forall sp, agg_list n = [sp] -> is_Some (input sp) -> result_type r = RT_JOINED;
}.

Lemma rows_dom (R : list tuple) : (forall u, u ∈ R <-> u ∈ eval D (agg_source n)) -> forall u, u ∈ R -> dom u = T.
Proof. intros HR u Hu%HR. apply (eval_dom D (agg_source n)); [apply RelShape_wf, as_source; exact Hn|done]. Qed.

(** What the AGGREGATE nodes read. *)
Lemma input_rows s r s' : RelInvariant.Rel D env oc T H ∅ ∅ s (fun _ => None) -> transformNode rnd (below (below n)) s = Ok (r, s') -> in_plan s' ->
  exists R, input_post r s' R.
Proof.
  intros HR Ht Hp. pose proof (as_source n Hn) as Hsrc. destruct (agg_map n) as [m|] eqn:Hm.
  - assert (m = below (below n) /\ node_type m = LNT.MAP) as [Hmb Hty].
    { rewrite /agg_map /is_map in Hm. destruct (bool_decide _) eqn:Hd; [|done]. injection Hm as <-. by apply bool_decide_eq_true in Hd. }
    rewrite -Hmb in Ht. destruct (as_map n Hn m Hm) as (Hch & [op Hop] & Hne & Hcols).
    destruct (transform_map rnd m _ s r s' Hty Hch Ht) as (r0 & s0 & H0 & Hp0 & He).
    destruct (transform_rows D env rnd oc T H Hst Hruns Hsmall Hsym (agg_source n) Hsrc ltac:(done) (fun _ => None) (limits_read m s) r0 s0)
      as (R & Hnd & HRm & HRel & _); [done|by apply Rel_limits|exact H0|by etrans|].
    destruct (map_rows_of D env rnd oc T H Hst Hruns Hsmall T R (fun _ => None) ltac:(done) (rows_dom R HRm) (agg_names n) m (transformNode rnd (agg_source n)) s r0 s0 r s' op)
      as (Hints & Hout & Hk); [done..|]. exists R. split; [done|done|done| |].
    + apply Forall_forall. intros sp Hsp Hi. rewrite /agg_input Hi Hout length_map Hm. destruct (is_star sp); eauto.
    + intros sp Hl [c Hc]. pose proof (as_specs n Hn sp ltac:(rewrite Hl; set_solver)) as Hs. rewrite /spec_shape Hc Hl Hm in Hs.
      apply andb_true_iff in Hs as [_ [_ Hs]%andb_true_iff]. rewrite bool_decide_false in Hs; [|simpl; lia]. by rewrite bool_decide_false in Hs.
  - assert (agg_source n = below (below n)) as Hab by by rewrite /agg_source Hm.
    rewrite -Hab in Ht. destruct (transform_rows D env rnd oc T H Hst Hruns Hsmall Hsym (agg_source n) Hsrc ltac:(done) (fun _ => None) s r s')
      as (R & Hnd & HRm & HRel & _ & Hlen); [done|done|done|done|]. exists R. split; [done|done| | |].
    + exists ∅. split; [done|]. intros k i. by rewrite lookup_empty.
    + apply Forall_forall. intros sp Hsp Hi. pose proof (as_specs n Hn sp Hsp) as Hs. rewrite /spec_shape Hi Hm in Hs.
      apply andb_true_iff in Hs as [_ Hs]. rewrite bool_decide_false in Hs; [|tauto]. apply andb_true_iff in Hs as [Hstar Hs%bool_decide_eq_true].
      rewrite /agg_input Hi Hstar. by apply Hlen.
    + intros sp Hl [c Hc]. pose proof (as_specs n Hn sp ltac:(rewrite Hl; set_solver)) as Hs. rewrite /spec_shape Hc Hl Hm in Hs.
      apply andb_true_iff in Hs as [_ [_ Hs]%andb_true_iff]. rewrite bool_decide_false in Hs; [|simpl; lia].
      apply andb_true_iff in Hs as [_ Hj%bool_decide_eq_true]. rewrite (kind_transform rnd _ s r s' (RelShape_wf _ Hsrc) Ht). by rewrite Hj.
Qed.

(** All aggregates can be found after the AGGREGATE node. *)
Lemma agg_rows s r s' : RelInvariant.Rel D env oc T H ∅ ∅ s (fun _ => None) -> transformNode rnd (below n) s = Ok (r, s') -> in_plan s' ->
  exists R ints, NoDup R /\ (forall u, u ∈ R <-> u ∈ eval D (agg_source n)) /\ Rel ints s' R /\
    Forall (found D env R (agg_map n) ints) (agg_list n).
Proof.
  intros HR Ht Hp. destruct (transform_aggregate rnd _ _ s r s' (as_agg n Hn) (as_input n Hn) (as_keys n Hn) Ht) as (r1 & s1 & H1 & He).
  assert (os_heap s1 `prefix_of` os_heap s') as Hp1.
  { revert He. apply (fun g : grows _ => g s1 r s'). rewrite /createParallelAggregateNodes /createSingleAggregateNode.
    repeat first [apply grows_parallel|apply grows_register|grows_step]. }
  destruct (input_rows (limits_read (below n) s) r1 s1) as (R & [Hnd HRm (ints & HRel & Hok) Hch Hk]);
    [by apply Rel_limits|done|by etrans|].
  assert (Forall (spec_ok T (agg_names n)) (agg_list n)) as Hall by (apply Forall_forall; intros sp; by apply spec_shape_ok).
  pose proof (as_alias n Hn) as Hal. pose proof (as_names n Hn) as Hns. pose proof (as_cols n Hn) as Hne.
  fold (agg_list n) in He. destruct (agg_list n) as [|sp [|sp2 specs]] eqn:Hl; [by inversion Hns; congruence| |].
  - apply Forall_cons in Hall as [Hall _], Hch as [Hch _]. destruct (single_rows D env rnd oc T H Hst Hruns Hsmall T R (fun _ => None) ltac:(done) (rows_dom R HRm)
      (agg_names n) (agg_map n) (below n) r1 s1 r s' ints sp) as (ints' & HR' & _ & Hf); [exact Hl|done|done|by eapply Hk|done..|].
    exists R, ints'. split_and!; [done..|by apply Forall_singleton].
  - rewrite /createParallelAggregateNodes in He. apply ST_bind_ok in He as (nodes & s2 & H2 & He).
    assert (s2 = s') as -> by (by destruct nodes as [|[]]; injection He as _ <-).
    destruct (parallel_rows D env rnd oc T H Hst Hruns Hsmall T R (fun _ => None) ltac:(done) (rows_dom R HRm) (agg_names n) (agg_map n) r1
      _ Hall Hch Hal ints s1 nodes s') as (ints' & HR' & _ & Hf & _); [done..|]. exists R, ints'. by split_and!.
Qed.

End answer.

(** ** Answers of plans with aggregates *)

Lemma agg_projects rnd n : AggShape n -> ctx_projects rnd n.
Proof. intros Hn. by eapply projection_projects; [apply Hn|apply (as_child n Hn)|apply Hn]. Qed.

Lemma agg_plain n : AggShape n -> plain n = true.
Proof.
  intros Hn. pose proof (WfPlan_plain _ (RelShape_wf _ (as_source n Hn))) as Hsrc.
  apply (plain_up n (below n)); [by rewrite (as_type n Hn)|apply (as_child n Hn)|].
  apply (plain_up (below n) (below (below n))); [intros _; apply Hn|apply (as_input n Hn)|].
  destruct (agg_map n) as [m|] eqn:Hm; [|by rewrite /agg_source Hm in Hsrc].
  destruct (as_map n Hn m Hm) as (Hch & _). rewrite /agg_map /is_map in Hm. destruct (bool_decide _) eqn:Hd; [|done]. injection Hm as Hm.
  apply bool_decide_eq_true in Hd. rewrite -Hm in Hch |- *. eapply plain_up; [by rewrite Hd|exact Hch|done].
Qed.

Lemma agg_result rnd itn oc n : AggShape n -> answers rnd itn oc n (tabs (agg_source n)) (agg_answer n).
Proof.
  intros Hn p D env Hrun Hsym Hst Hr Hsm. destruct (convert_untrimmed rnd n oc itn p Hrun) as (res & s1 & Ht & Hres).
  destruct (Hres (agg_projects rnd n Hn _ _ _ Ht)) as (s & Hb & ->). destruct (result_node _ _ _ _ _ Hb) as (m & Hh & _ & Hm & Hbc & Hlim & Hidx).
  cbn [plan_store] in *. rewrite Hh in Hr Hsm |- *. injection Hlim as Hlc Hlo.
  destruct (transform_projection rnd n (below n) _ res s1 (as_type n Hn) (as_child n Hn) Ht) as (s0 & H0 & Hpr).
  assert (os_heap s0 `prefix_of` os_heap s1 ++ [m]) as Hp0 by (etrans; [exact (grows_project rnd _ _ _ _ Hpr)|by eexists]).
  destruct (agg_rows D env rnd oc _ n Hn Hst Hr Hsm Hsym (limits_read n (mkOS (context_init itn oc) [] 0)) res s0) as
    (R & ints & Hnd & HRm & HRel & Hf); [by apply Rel_limits, Rel_init|done|done|].
  destruct (project_found D env rnd R (agg_map n) ints (projected_columns n) (agg_list n) (as_names n Hn) Hf
    (set_ctx (set_projected [] (os_ctx s0)) s0) s1 (rel_int _ _ _ _ _ _ _ _ _ HRel) Hpr) as (out & Hout & Hcells).
  destruct (calm_transform rnd (below n) (as_quiet n Hn) _ _ _ H0) as (Hl0 & Hu0 & _). destruct (calm_project rnd _ _ _ _ Hpr) as (Hl1 & Hu1 & _).
  assert (limits s1 = limits (limits_read n (mkOS (context_init itn oc) [] 0))) as Hl by by rewrite Hl1 -Hl0. injection Hl as Hl2 Hl3.
  exists (map (limited (expression n)) out). split.
  - exists R. split_and!; [done|done|]. apply Forall2_fmap_r. eapply Forall2_impl; [exact Hout|]. intros sp w (v & Hv & ->). by exists v.
  - apply (result_table_node _ _ _ out (expression n)); [done|by rewrite Hbc List.map_map Hcells| | |].
    + rewrite Hlc Hl2 /=. by destruct (limit_count (expression n)).
    + rewrite Hlo Hl3 /=. by destruct (limit_offset (expression n)).
    + apply map_ext. intros v. rewrite Hidx. destruct (physical_root res ≫= _) as [f|] eqn:Hf'; [|done].
      apply bind_Some in Hf' as (b & _ & Hf'%list_elem_of_lookup_2). rewrite bool_decide_false //.
      by apply (proj1 (Forall_forall _ _) (Hu1 (Hu0 ltac:(constructor)))).
Qed.
