(* ===== verification/RelTheorems.v ===== *)
(** * The physical plan computes the answer of the query

    The results for whole plans: the RESULT node of the physical plan receives
    exactly the selected columns of the rows of the logical plan, in the order
    of ORDER BY and within LIMIT and OFFSET, or the aggregates over these rows,
    whatever the engine does that the operators leave open. *)

From stdpp Require Import sorting.
From S2P Require Import Prelude PlanTypes SchemaResolver TranslatorHelpers LogicalSemantics.
From S2P Require Import PhysContext Materialization PhysicalOptimizer PostProcess.
From S2P Require Import PhysicalInvariant MaterializationInv ChainSemantics HandlersInv PlanInv PhysicalTheorems WorkItems.
From S2P Require Import PostProcessInv Engine RelInvariant RelHandlers RelPlan RelNames RelTrim RelFrame RelResult RelRun RelAggregate.

Lemma select_answers rnd itn oc n : select_shape n = true -> answers rnd itn oc n (tabs (source_plan n)) (select_answer n).
Proof. intros Hs p D env Hc Hsym Hst Hr Hsm. eapply select_result; try done. by apply select_projects. Qed.

Lemma select_plain n : select_shape n = true -> plain n = true.
Proof.
  intros Hs. destruct (select_shape_inv n Hs) as (_ & Hp & Hor). destruct (projection_shape_inv _ Hp) as (c & Hty & Hch & Hsh & _).
  assert (plain (projection_node n) = true) as Hpl by (eapply plain_up; [by rewrite Hty|exact Hch|by apply WfPlan_plain, RelShape_wf]).
  destruct Hor as [->|(Htn & Hcn & _)]; [done|]. eapply plain_up; [by rewrite Htn|exact Hcn|done].
Qed.

(** ** A small instance *)

(** Three rows of [lineorder] and two of [dates]; a comparison holds when the
    value is one of the literals, or when the two columns agree; MIN, MAX and AVG
    are not used. *)
Definition star_engine : engine Z := {|
  nrows := fun t => if t =s "lineorder" then 3 else 2;
  cell := fun t c i =>
    if c =s "lo_orderdate" then nth i [10; 20; 30]%Z 0%Z
    else if c =s "lo_revenue" then nth i [100; 200; 300]%Z 0%Z
    else if c =s "d_datekey" then nth i [20; 99]%Z 0%Z
    else nth i [1993; 1992]%Z 0%Z;
  holds := fun e args =>
    match args, comp_type e, values e with
    | [Some a], _, vs => existsb (fun v => to_string a =s v) vs
    | [Some a; Some b], Some PCT.EQ, [] => (a =? b)%Z
    | _, _, _ => false
    end;
  arith := fun op args =>
    match op, args with
    | PAO.MUL, [Some a; Some b] => Some (a * b)%Z
    | PAO.SUB, [Some a; Some b] => Some (a - b)%Z
    | _, _ => None
    end;
  aggregate := fun f vals =>
    match f with
    | PAF.COUNT => Some (Z.of_nat (length vals))
    | PAF.SUM => Some (foldr Z.add 0%Z (omap id vals))
    | _ => mjoin (head vals)
    end;
  leq := fun x y =>
    match x, y with
    | Some a, Some b => (a <=? b)%Z
    | None, _ => true
    | Some _, None => false
    end;
|}.

Lemma star_symmetric : eq_symmetric star_engine.
Proof.
  intros e x y He. cbn. rewrite He. destruct x as [a|], y as [b|]; try done; destruct (values e); try done. apply Z.eqb_sym.
Qed.

Definition star_tables : gset string := {["lineorder"; "dates"]}.

Lemma star_stored : stored star_engine (tables_env star_engine) star_tables.
Proof. apply tables_stored. intros t. rewrite /star_tables elem_of_union !elem_of_singleton. by intros [-> | ->]. Qed.

Lemma star_not_im : "im" ∉ star_tables.
Proof. rewrite /star_tables elem_of_union !elem_of_singleton. by intros [?|?]. Qed.

Lemma star_total : leq_total star_engine.
Proof. intros [a|] [b|]; cbn; try done. rewrite Z.leb_gt Z.leb_le. lia. Qed.

(** The store of an instance writes columns of [im] only. *)
Lemma star_stored_run T h : T ⊆ star_tables -> (forall k, k ∈ writes_of h -> "im." = String.substring 0 3 k) ->
  stored star_engine (run_plan star_engine (tables_env star_engine) h) T.
Proof.
  intros HT Hw t Ht%HT. destruct (star_stored t Ht) as (H1 & H2 & H3). split_and!; [done|done|]. intros c. rewrite run_plan_other; [by apply H3|].
  intros Hk%Hw. rewrite /star_tables elem_of_union !elem_of_singleton in Ht. by destruct Ht as [-> | ->].
Qed.

(** [SELECT lo_revenue, lo_orderdate FROM lineorder WHERE lo_orderdate IN (10, 30)
     ORDER BY lo_revenue DESC LIMIT 1] *)
Definition top_logical : LogicalPlanNode :=
  set_children [Some (set_children [Some (filter_on (lo "lo_orderdate") (eq_expr ["10"; "30"]) (scan "lineorder"))]
                        (set_projected_columns [lo "lo_revenue"; lo "lo_orderdate"] (new_node LNT.PROJECTION)))]
    (set_expression (set_limit_count (Some 1%Z) (set_sort_order (Some [false]) Expression_default))
       (set_base_columns [lo "lo_revenue"] (new_node LNT.SORT))).

Definition star_plan (n : LogicalPlanNode) (oc jo : bool) : phys_plan :=
  match PhysicalOptimizer_optimize demo_rnd (Some n) oc jo "im" with Ok p => p | Err _ => mkPlan None [] end.

Definition star_result (n : LogicalPlanNode) (oc jo : bool) : option (list (list (option Z))) :=
  result_table (run_plan star_engine (tables_env star_engine) (plan_store (star_plan n oc jo))) (star_plan n oc jo).



Lemma optimizer_run rnd itn n oc jo : itn <> "" -> no_dot itn = true -> phys_shape itn n = true -> select_shape n = true ->
  itn ∉ tabs (source_plan n) -> match PhysicalOptimizer_optimize rnd (Some n) oc jo itn with
  | Ok p => forall (D : engine Z) env, eq_symmetric D -> leq_total D -> stored D env (tabs (source_plan n)) ->
      NoDup (map p_node_id (plan_store p)) -> small (plan_store p) ->
      exists out, select_answer n D out /\ result_table (run_plan D env (plan_store p)) p = Some out
  | Err e => jo = true /\ e = Throw "Conversion to physical plan failed!"
  end.
Proof. intros Hitn Hdot Hsh Hsel Hnot. apply query_run; try done; [by apply select_answers|by apply select_plain|by apply select_projects]. Qed.

(** C14: When the ids of the nodes differ, the plan of such a SELECT can be run,
    with or without the removal of unused join outputs: executing its nodes in
    the order of the store on the stored tables gives a RESULT table that is an
    answer of the SELECT, the selected columns of the rows of the logical plan,
    each once, sorted and cut.  Only the removal of join outputs can make the
    optimizer reject the plan. *)
Theorem PhysicalOptimizer_run rnd itn n oc jo : itn <> "" -> no_dot itn = true -> phys_shape itn n = true -> select_shape n = true ->
  itn ∉ tabs (source_plan n) -> match PhysicalOptimizer_optimize rnd (Some n) oc jo itn with
  | Ok p => forall (D : engine Z) env, eq_symmetric D -> leq_total D -> stored D env (tabs (source_plan n)) ->
      NoDup (map p_node_id (plan_store p)) -> small (plan_store p) ->
      exists out, select_answer n D out /\ result_table (run_plan D env (plan_store p)) p = Some out
  | Err e => jo = true /\ e = Throw "Conversion to physical plan failed!"
  end.
Proof. apply optimizer_run. Qed.

Lemma star_source : tabs (source_plan demo_logical) = star_tables.
Proof. apply (bool_decide_eq_true_1 (_ = _)). vm_compute. reflexivity. Qed.

Lemma PhysicalOptimizer_run_witness : exists out, select_answer demo_logical star_engine out /\ star_result demo_logical true true = Some out.
Proof.
  pose proof (PhysicalOptimizer_run demo_rnd "im" demo_logical true true ltac:(done) ltac:(done) ltac:(by vm_compute)
    ltac:(by vm_compute) ltac:(rewrite star_source; apply star_not_im)) as H.
  assert (PhysicalOptimizer_optimize demo_rnd (Some demo_logical) true true "im" = Ok (star_plan demo_logical true true)) as Hp by by vm_compute.
  rewrite Hp in H. apply (H star_engine (tables_env star_engine) star_symmetric star_total).
  - rewrite star_source. apply star_stored.
  - apply (bool_decide_eq_true_1 (NoDup _)). by vm_compute.
  - by vm_compute.
Defined.

(** ** Aggregates *)

(** [SELECT SUM(lo_revenue * lo_orderdate) AS total, COUNT( * ) AS cnt FROM lineorder, dates
     WHERE lo_orderdate = d_datekey AND d_year = 1993] *)
Definition total_logical : LogicalPlanNode :=
  let m := set_children [Some demo_join] (set_expression (set_arith_op (Some PAO.MUL) Expression_default)
             (set_base_columns [lo "lo_revenue"; lo "lo_orderdate"] (new_node LNT.MAP))) in
  let a := set_children [Some m] (set_expression (set_agg_specs
             [mkAggSpec PAF.SUM None (Some "total") false; mkAggSpec PAF.COUNT None (Some "cnt") true] Expression_default)
             (new_node LNT.AGGREGATE)) in
  set_children [Some a] (set_projected_columns [Column_ctor "" "total" PTY.INTEGER (Some "total") None;
    Column_ctor "" "cnt" PTY.INTEGER (Some "cnt") None] (new_node LNT.PROJECTION)).

Lemma aggregate_run rnd itn n oc jo : itn <> "" -> no_dot itn = true -> phys_shape itn n = true -> agg_shape n = true ->
  itn ∉ tabs (agg_source n) -> match PhysicalOptimizer_optimize rnd (Some n) oc jo itn with
  | Ok p => forall (D : engine Z) env, eq_symmetric D -> leq_total D -> stored D env (tabs (agg_source n)) ->
      NoDup (map p_node_id (plan_store p)) -> small (plan_store p) ->
      exists out, agg_answer n D out /\ result_table (run_plan D env (plan_store p)) p = Some out
  | Err e => jo = true /\ e = Throw "Conversion to physical plan failed!"
  end.
Proof. intros Hitn Hdot Hsh Hn%agg_shape_spec Hnot. apply query_run; try done; [by apply agg_result|by apply agg_plain|by apply agg_projects]. Qed.


Lemma total_source : tabs (agg_source total_logical) = star_tables.
Proof. apply (bool_decide_eq_true_1 (_ = _)). vm_compute. reflexivity. Qed.

