(* ===== verification/Encoding.v ===== *)
(** * Every node of an optimized plan can be encoded

    [crateWorkItems] dereferences optional fields and indexes columns of the
    nodes without checking.  For logical plans of the shape [enc_shape] every
    node that the optimizer creates has these fields, and trimming keeps them.
    The one kind of plan the translator builds that is excluded is a GROUP BY
    with several aggregates, whose GROUPBY node has no aggregation column. *)

From S2P Require Import Prelude PlanTypes PlanArity PhysContext Materialization PhysicalOptimizer PostProcess WorkItems.

Definition encodes (n : PhysicalPlanNode) : Prop := exists d, op_data n = Ok d.

Definition child_is_map (n : LogicalPlanNode) : bool :=
  match children n with Some c :: _ => bool_decide (node_type c = LNT.MAP) | _ => false end.

(** An aggregate node: without groups any aggregates, otherwise one, with an
    input column, a MAP below, or COUNT of rows. *)
Definition agg_enc (n : LogicalPlanNode) : bool :=
  match agg_specs (expression n) with
  | [] => false
  | [s] => bool_decide (base_columns n = []) || bool_decide (is_Some (input s)) ||
           (is_star s && bool_decide (func s = PAF.COUNT)) || child_is_map n
  | _ => bool_decide (base_columns n = [])
  end.

Fixpoint enc_shape (n : LogicalPlanNode) : bool :=
  match node_type n with
  | LNT.FILTER | LNT.JOIN => has_comp n
  | LNT.MAP => bool_decide (is_Some (arith_op (expression n))) && negb (bool_decide (base_columns n = []))
  | LNT.AGGREGATE => agg_enc n
  | LNT.SORT => bool_decide (is_Some (sort_order (expression n)))
  | _ => true
  end && forallb (fun o => match o with Some c => enc_shape c | None => true end) (children n).

(** ** Operations that only add nodes that can be encoded *)

Record EInv (s : opt_state) : Prop := {
  ei_nodes : Forall encodes (os_heap s);
  ei_projected : Forall (fun i => is_Some (alias (mat_col i))) (ctx_projected (os_ctx s));
}.

Definition adds_enc {A} (m : ST opt_state A) : Prop := forall s a s', EInv s -> m s = Ok (a, s') ->
  EInv s' /\ os_heap s `prefix_of` os_heap s'.

Create HintDb encoding.

Lemma adds_ret {A} (a : A) : adds_enc (mret a).
Proof. by intros s b s' Hs [= _ <-]. Qed.

Lemma adds_raise {A} e : adds_enc (raise e : ST opt_state A).
Proof. by intros s b s' Hs. Qed.

Lemma adds_lift {A} (r : result A) : adds_enc (lift r).
Proof. intros s b s' Hs. rewrite /lift. destruct r; [|done]. by intros [= _ <-]. Qed.

Lemma adds_bind {A B} (m : ST opt_state A) (f : A -> ST opt_state B) :
  adds_enc m -> (forall a, adds_enc (f a)) -> adds_enc (m ≫= f).
Proof.
  intros Hm Hf s b s' Hs (a & s1 & H1 & H2)%ST_bind_ok. destruct (Hm s a s1 Hs H1) as [Hs1 Hp1].
  destruct (Hf a s1 b s' Hs1 H2) as [Hs2 Hp2]. split; [done|by etrans].
Qed.

Lemma adds_get : adds_enc get_ctx.
Proof. by intros s b s' Hs [= _ <-]. Qed.

Lemma adds_upd f : (forall c, ctx_projected (f c) = ctx_projected c) -> adds_enc (upd_ctx f).
Proof. intros Hf s b s' [H1 H2] [= _ <-]. split; [split; [done|]|done]. simpl. by rewrite Hf. Qed.

Lemma adds_next rnd : adds_enc (nextIntermediateName rnd).
Proof. intros s b s' [H1 H2] [= _ <-]. by split. Qed.

Lemma adds_load a : adds_enc (load a).
Proof. intros s b s' Hs. rewrite /load. case_match; [|done]. by intros [= _ <-]. Qed.

Lemma adds_alloc n : encodes n -> adds_enc (alloc n).
Proof.
  intros Hn s b s' [H1 H2] [= _ <-]. split; [split; [|done]|by exists [n]].
  apply Forall_app_2; [done|]. by apply Forall_singleton.
Qed.

Lemma adds_mapM {A B} (f : A -> ST opt_state B) l : (forall a, a ∈ l -> adds_enc (f a)) -> adds_enc (mapM f l).
Proof.
  induction l as [|x l IH]; intros Hf; simpl; [apply adds_ret|]. apply adds_bind; [apply Hf; set_solver|]. intros y.
  apply adds_bind; [apply IH; intros; apply Hf; set_solver|]. intros ys. apply adds_ret.
Qed.

#[local] Hint Resolve adds_ret adds_raise adds_lift adds_get adds_next adds_load : encoding.
#[local] Hint Extern 1 (adds_enc (upd_ctx _)) => apply adds_upd; intros ?; repeat case_match; reflexivity : encoding.

Ltac adds_step :=
  first [ solve [auto with encoding] | apply adds_bind; [solve [auto with encoding]|intros ?] | case_match ].
Ltac adds_tac := repeat adds_step.

Lemma adds_has_type o ty : adds_enc (has_type o ty).
Proof. rewrite /has_type. adds_tac. Qed.

Lemma adds_register name c o : adds_enc (registerIntermediateResult name c o).
Proof. rewrite /registerIntermediateResult. adds_tac. Qed.

#[local] Hint Resolve adds_has_type adds_register : encoding.

(** ** Materialization *)

Lemma encodes_materialize id c out ch idx : encodes (new_phys PNT.MATERIALIZE id [c] [out] ch (Some idx)).
Proof. by eexists. Qed.

Section ops.
Variable rnd : nat -> Z.

Lemma adds_createMaterialize c idx ch : adds_enc (createMaterializeNode rnd c idx ch).
Proof.
  rewrite /createMaterializeNode. do 2 adds_step. apply adds_bind; [apply adds_alloc, encodes_materialize|]. intros ?. adds_tac.
Qed.
#[local] Hint Resolve adds_createMaterialize : encoding.

Lemma adds_map_poslist t prev cur : adds_enc (map_poslist rnd t prev cur).
Proof.
  rewrite /map_poslist. do 2 adds_step. case_match; [|adds_tac]. do 2 adds_step.
  apply adds_bind; [apply adds_alloc, encodes_materialize|]. intros ?. adds_tac.
Qed.
#[local] Hint Resolve adds_map_poslist : encoding.

Lemma adds_map_chain t rest : forall prev, adds_enc (map_chain rnd t prev rest).
Proof. induction rest as [|cur rest IH]; intros prev; simpl; adds_tac. Qed.
#[local] Hint Resolve adds_map_chain : encoding.

Lemma adds_isBase i : adds_enc (isBaseTableChainMaterialization i).
Proof. rewrite /isBaseTableChainMaterialization. adds_tac. Qed.
#[local] Hint Resolve adds_isBase : encoding.

Lemma adds_chain_loop chain : forall i cur, adds_enc (chain_loop rnd chain i cur).
Proof. induction chain as [|p chain IH]; intros i cur; simpl; adds_tac. Qed.
#[local] Hint Resolve adds_chain_loop : encoding.

Lemma adds_ensureOptimized c : adds_enc (ensureMaterializedOptimized rnd c).
Proof.
  rewrite /ensureMaterializedOptimized. adds_step. case_match; [adds_tac|]. case_match; [|adds_tac]. case_match; [adds_tac|].
  do 3 adds_step. apply adds_bind; [adds_tac|]. intros ?. adds_tac.
Qed.
#[local] Hint Resolve adds_ensureOptimized : encoding.

Lemma adds_ensure c : adds_enc (ensureMaterialized rnd c).
Proof.
  rewrite /ensureMaterialized. adds_step. case_match; [adds_tac|]. case_match; [adds_tac|]. adds_step.
  apply adds_bind; [adds_tac|]. intros ?. adds_tac.
Qed.
#[local] Hint Resolve adds_ensure : encoding.

Lemma adds_groupedKeys mats : forall cols idx g, adds_enc (materializeGroupedKeys rnd mats cols idx g).
Proof. induction mats as [|gm mats IH]; intros [|c cols] idx g; simpl; adds_tac. Qed.

Lemma adds_resolveInput sp res : adds_enc (resolveAggregateInput rnd sp res).
Proof. rewrite /resolveAggregateInput. adds_tac. Qed.

Lemma adds_fresh suffix ty : adds_enc (fresh_col rnd suffix ty).
Proof. rewrite /fresh_col. adds_tac. Qed.

Lemma adds_first_result o : adds_enc (first_result o).
Proof. rewrite /first_result. adds_tac. Qed.

#[local] Hint Resolve adds_groupedKeys adds_resolveInput adds_fresh adds_first_result : encoding.

(** ** Handlers *)

Lemma has_comp_some n : has_comp n = true -> exists c, comp_type (expression n) = Some c.
Proof. by intros H%bool_decide_eq_true. Qed.

Lemma encodes_filter n id c cols out ch : has_comp n = true ->
  encodes (set_p_expression (expression n) (new_phys PNT.FILTER id (c :: cols) [out] ch None)).
Proof. intros [cmp Hc]%has_comp_some. rewrite /encodes /op_data /filter_data /=. rewrite Hc. by eexists. Qed.

Lemma encodes_join n id c1 c2 o1 o2 ch : has_comp n = true ->
  encodes (set_p_expression (expression n) (new_phys PNT.HASHJOIN id [c1; c2] [o1; o2] ch None)).
Proof. intros [cmp Hc]%has_comp_some. rewrite /encodes /op_data /join_data /=. rewrite Hc. by eexists. Qed.

Lemma encodes_agg e id c out ch : agg_specs e <> [] -> encodes (set_p_expression e (new_phys PNT.AGGREGATE id [c] [out] ch None)).
Proof. intros Hs. rewrite /encodes /op_data /agg_data /=. destruct (agg_specs e); [done|]. by eexists. Qed.

Lemma encodes_map e id cols out ch : is_Some (arith_op e) -> cols <> [] ->
  encodes (set_p_expression e (new_phys PNT.MAP id cols [out] ch None)).
Proof.
  intros [op Hop] Hc. rewrite /encodes /op_data /map_data /=. destruct cols as [|c cols]; [done|]. simpl. rewrite Hop. by eexists.
Qed.

Lemma adds_setop rs op : adds_enc (createSetOperationNode rnd rs op).
Proof.
  rewrite /createSetOperationNode. destruct rs as [|r1 [|r2 rs]]; [adds_tac..|]. adds_step. case_match.
  apply adds_bind; [apply adds_alloc; by eexists|]. intros ?. adds_tac.
Qed.
#[local] Hint Resolve adds_setop : encoding.

Lemma adds_crossFilter n c0 c1 res src : has_comp n = true -> adds_enc (handleCrossTableFilter rnd n c0 c1 res src).
Proof.
  intros Hc. rewrite /handleCrossTableFilter. do 6 adds_step. apply adds_bind; [by apply adds_alloc, encodes_filter|]. intros ?. adds_tac.
Qed.

Lemma adds_filter n child : has_comp n = true -> adds_enc child -> adds_enc (handleFilter rnd n child).
Proof.
  intros Hc Hch. rewrite /handleFilter. apply adds_bind; [done|]. intros res. destruct (base_columns n) as [|c0 cols]; [adds_tac|].
  cbv zeta. match goal with |- adds_enc (match ?x with Some _ => _ | None => _ end) => destruct x end;
    [by apply adds_crossFilter|]. adds_step. case_match.
  apply adds_bind; [by apply adds_alloc, encodes_filter|]. intros ?. adds_tac.
Qed.

Lemma adds_join n lhs rhs : has_comp n = true -> adds_enc lhs -> adds_enc rhs -> adds_enc (handleJoin rnd n lhs rhs).
Proof.
  intros Hc Hl Hr. rewrite /handleJoin. apply adds_bind; [done|]. intros lr. apply adds_bind; [done|]. intros rr.
  destruct (base_columns n) as [|c1 [|c2 cols]]; [adds_tac..|]. do 4 adds_step. cbv zeta.
  do 3 match goal with |- adds_enc (match ?x with pair _ _ => _ end) => destruct x end. do 2 adds_step.
  apply adds_bind; [by apply adds_alloc, encodes_join|]. intros ?. adds_tac.
Qed.

Lemma mapM_length {S A B} (f : A -> ST S B) l : forall s r s', mapM f l s = Ok (r, s') -> length r = length l.
Proof.
  induction l as [|x l IH]; intros s r s'; simpl; [by intros [= <- _]|].
  intros (y & s1 & _ & (ys & s2 & Hys & [= <- _])%ST_bind_ok)%ST_bind_ok. simpl. by rewrite (IH _ _ _ Hys).
Qed.

(** The result of a MAP is a MAP node. *)
Lemma adds_map n child : is_Some (arith_op (expression n)) -> base_columns n <> [] -> adds_enc child ->
  forall s r s', EInv s -> handleMap rnd n child s = Ok (r, s') ->
  (EInv s' /\ os_heap s `prefix_of` os_heap s') /\
  exists a m, physical_root r = Some a /\ os_heap s' !! a = Some m /\ p_node_type m = PNT.MAP.
Proof.
  intros Hop Hb Hch s r s' Hs. rewrite /handleMap. intros (res & s1 & H1 & H)%ST_bind_ok. destruct (Hch _ _ _ Hs H1) as [Hs1 Hp1].
  apply ST_bind_ok in H as (mats & s2 & H2 & H).
  assert (adds_enc (materialize_columns rnd (base_columns n))) as Hm.
  { apply adds_mapM. intros c _. adds_tac. }
  destruct (Hm _ _ _ Hs1 H2) as [Hs2 Hp2]. pose proof (mapM_length _ _ _ _ _ H2) as Hlen.
  apply ST_bind_ok in H as ([id out] & s3 & H3 & H). destruct (adds_fresh _ _ _ _ _ Hs2 H3) as [Hs3 Hp3].
  apply ST_bind_ok in H as (a & s4 & H4 & H). pose proof H4 as H4'. injection H4' as <- <-.
  set (nd := set_p_expression _ _) in *.
  assert (encodes nd) as He by (apply encodes_map; [done|]; destruct mats; [by destruct (base_columns n)|done]).
  destruct (adds_alloc nd He _ _ _ Hs3 H4) as [Hs4 Hp4].
  apply ST_bind_ok in H as (u & s5 & H5 & [= <- <-]). destruct (adds_register _ _ _ _ _ _ Hs4 H5) as [Hs5 Hp5].
  split; [split; [done|]; repeat (etrans; [eassumption|]); done|].
  exists (length (os_heap s3)), nd. split_and!; [done| |done]. destruct Hp5 as [k ->]. simpl.
  apply lookup_app_l_Some. rewrite lookup_app_r // Nat.sub_diag //.
Qed.

Lemma adds_parallel_loop specs res : adds_enc (parallel_loop rnd specs res).
Proof.
  induction specs as [|sp specs IH]; simpl; [adds_tac|]. do 4 adds_step.
  apply adds_bind; [by apply adds_alloc, encodes_agg|]. intros ?. adds_tac.
Qed.
#[local] Hint Resolve adds_parallel_loop : encoding.

Lemma adds_single n res : agg_specs (expression n) <> [] -> adds_enc (createSingleAggregateNode rnd n res).
Proof.
  intros Hs. rewrite /createSingleAggregateNode. cbv zeta. apply adds_bind; [adds_tac|]. intros [c o]. adds_step. case_match.
  apply adds_bind; [by apply adds_alloc, encodes_agg|]. intros ?. adds_tac.
Qed.

(** A GROUPBY node that is being built, with its aggregation column. *)
Definition grouping (b : bool) (g : PhysicalPlanNode) : Prop :=
  p_node_type g = PNT.GROUPBY /\ (b = true -> is_Some (p_aggregationColumn g)).

Definition is_map_node (h : list PhysicalPlanNode) (o : option paddr) : Prop :=
  exists a m, o = Some a /\ h !! a = Some m /\ p_node_type m = PNT.MAP.

(** What makes sure that a GROUPBY with one aggregate has a column to aggregate. *)
Definition has_agg_column (h : list PhysicalPlanNode) (first : option AggSpec) (res : TransformResult) : Prop :=
  is_Some (first ≫= input) \/ (exists sp, first = Some sp /\ is_star sp && bool_decide (func sp = PAF.COUNT) = true) \/
  is_map_node h (physical_root res).

Lemma has_type_map s o b s' : has_type o PNT.MAP s = Ok (b, s') -> is_map_node (os_heap s) o -> b = true.
Proof.
  intros H (a & m & -> & Hm & Ht). rewrite /has_type /load in H. apply ST_bind_ok in H as (m' & s1 & H1 & [= <- _]).
  rewrite Hm in H1. injection H1 as <- <-. by apply bool_decide_eq_true.
Qed.

Lemma encodes_group e c g : grouping true g -> encodes (set_p_expression e (set_result_columns [c] g)).
Proof.
  intros [Ht Hc]. destruct (Hc eq_refl) as [x Hx]. rewrite /encodes /op_data /= Ht /group_data /= Hx. by eexists.
Qed.

(** The step that chooses the aggregation column. *)
Lemma agg_column_chosen n (b : bool) g first (res : TransformResult) s g' e s' h : EInv s -> grouping b g ->
  has_agg_column h first res -> (is_map_node h (physical_root res) -> b = true) ->
  (match first ≫= input with
   | Some c =>
       '(m, c') ← ensureMaterialized rnd c;
       mret (set_p_aggregationColumn (Some (mat_col m))
               (set_p_children (p_children g ++ producers [mat_producer m]) g), set_first_input c' (expression n))
   | None =>
       first ← lift (deref "first_agg->is_star" first);
       if is_star first && bool_decide (func first = PAF.COUNT) then
         c ← lift (at_index "base_columns[0]" (p_base_columns g) 0);
         mret (set_p_aggregationColumn (Some c) g, expression n)
       else mret (g, expression n)
   end) s = Ok ((g', e), s') ->
  (EInv s' /\ os_heap s `prefix_of` os_heap s') /\ grouping true g'.
Proof.
  intros Hs [Ht Hg] Hc Hb. destruct (first ≫= input) as [c|] eqn:Hf.
  - intros ([m c'] & s1 & H1 & [= <- <- <-])%ST_bind_ok. split; [by apply (adds_ensure c _ _ _ Hs H1)|]. by split.
  - intros (sp & s1 & H1 & H)%ST_bind_ok. destruct (adds_lift _ _ _ _ Hs H1) as [Hs1 Hp1].
    destruct first as [sp'|]; [|done]. injection H1 as <- <-.
    destruct (is_star sp' && _) eqn:Hstar.
    + apply ST_bind_ok in H as (c & s2 & H2 & [= <- <- <-]). split; [by apply (adds_lift _ _ _ _ Hs H2)|]. by split.
    + injection H as <- <- <-. split; [done|]. split; [done|]. intros _. apply Hg, Hb.
      destruct Hc as [[x Hx]|[(sp & [= <-] & Hx)|Hc]]; [congruence|congruence|exact Hc].
Qed.

Lemma adds_singleGroup n g first mats cols name idx res s r s' : EInv s -> p_node_type g = PNT.GROUPBY ->
  has_agg_column (os_heap s) first res ->
  handleGroupBySingleAgg rnd n g first mats cols name idx res s = Ok (r, s') ->
  EInv s' /\ os_heap s `prefix_of` os_heap s'.
Proof.
  intros Hs Ht Hc. rewrite /handleGroupBySingleAgg. intros (ctx & s0 & [= <- <-] & H)%ST_bind_ok.
  apply ST_bind_ok in H as (b & s1 & H1 & H). destruct (adds_has_type _ _ _ _ _ Hs H1) as [Hs1 Hp1].
  pose proof (has_type_map _ _ _ _ H1) as Hb. apply ST_bind_ok in H as (g1 & s2 & H2 & H).
  assert ((EInv s2 /\ os_heap s1 `prefix_of` os_heap s2) /\ grouping b g1) as [[Hs2 Hp2] Hg1].
  { destruct b; [|by injection H2 as <- <-]. apply ST_bind_ok in H2 as (c & s3 & H3 & [= <- <-]).
    split; [by apply (adds_first_result _ _ _ _ Hs1 H3)|]. by split. }
  apply ST_bind_ok in H as ([g2 e] & s3 & H3 & H).
  destruct (agg_column_chosen n b g1 first res s2 g2 e s3 (os_heap s) Hs2 Hg1 Hc Hb H3) as [[Hs3 Hp3] Hg2].
  match type of H with ?m s3 = _ => assert (adds_enc m) as Hm end.
  { apply adds_bind; [by apply adds_alloc, encodes_group|]. intros ?. adds_tac. }
  destruct (Hm _ _ _ Hs3 H) as [Hs4 Hp4]. split; [done|]. repeat (etrans; [eassumption|]). done.
Qed.

Lemma adds_project_loop cols : adds_enc (project_loop rnd cols).
Proof.
  induction cols as [|c cols IH]; simpl; [adds_tac|]. do 2 adds_step. apply adds_bind; [|by intros _].
  intros s0 u s1 [H1 H2] [= _ <-]. split; [|done]. split; [done|]. simpl. apply Forall_app_2; [done|].
  apply Forall_singleton. rewrite /projected_info. simpl. destruct (nonempty (base_table c)); by eexists.
Qed.

Lemma adds_projection n child : adds_enc child -> adds_enc (handleProjection rnd n child).
Proof.
  intros Hc. rewrite /handleProjection. apply adds_bind; [done|]. intros res. apply adds_bind.
  { intros s a s' [H1 H2] [= _ <-]. split; [|done]. split; [done|]. constructor. }
  intros _. apply adds_bind; [apply adds_project_loop|]. intros _. adds_tac.
Qed.

Lemma adds_sort_key o c : adds_enc (sort_key rnd o c).
Proof. rewrite /sort_key. adds_step. apply adds_bind; [adds_tac|]. intros ?. adds_tac. Qed.

Lemma adds_sort n child : is_Some (sort_order (expression n)) -> adds_enc child -> adds_enc (handleSort rnd n child).
Proof.
  intros [o Ho] Hc. rewrite /handleSort. apply adds_bind; [done|]. intros res. apply adds_bind; [adds_tac|]. intros b.
  case_match; [adds_tac|]. apply adds_bind; [apply adds_mapM; intros; apply adds_sort_key|]. intros keys. adds_step. case_match.
  apply adds_bind; [|intros ?; adds_tac]. apply adds_alloc. rewrite /encodes /op_data /sort_data /= Ho. by eexists.
Qed.

Lemma encodes_result infos id ch idx e name : Forall (fun i => is_Some (alias (mat_col i))) infos ->
  encodes (set_p_resultName (Some name) (set_p_expression e (new_phys PNT.RESULT id (map mat_col infos) (map mat_col infos) ch idx))).
Proof.
  intros Ha. rewrite /encodes /op_data /result_data /=.
  assert (exists hs, mapR (fun c => deref "*col.alias" (alias c)) (map mat_col infos) = Ok hs) as [hs ->]; [|by eexists].
  induction Ha as [|i infos [a Hi] _ [hs IH]]; simpl; [by eexists|]. rewrite Hi IH. by eexists.
Qed.

Lemma adds_result res : adds_enc (buildResultNode rnd res).
Proof.
  intros s r s' Hs. rewrite /buildResultNode. intros (ctx & s0 & [= <- <-] & H)%ST_bind_ok.
  match type of H with ?m s = _ => assert (adds_enc m) as Hm end; [|by apply (Hm _ _ _ Hs H)].
  adds_step. adds_step. cbv zeta. match goal with |- adds_enc (match ?x with pair _ _ => _ end) => destruct x end.
  apply adds_alloc, encodes_result. apply Hs.
Qed.

Lemma is_map_mono h h' o : h `prefix_of` h' -> is_map_node h o -> is_map_node h' o.
Proof. intros [k ->] (a & m & -> & Hm & Ht). exists a, m. split_and!; [done|by apply lookup_app_l_Some|done]. Qed.

(** [child] returns a MAP node. *)
Definition gives_map (child : ST opt_state TransformResult) : Prop :=
  forall s r s', EInv s -> child s = Ok (r, s') -> is_map_node (os_heap s') (physical_root r).

Lemma adds_group n child : base_columns n <> [] -> agg_enc n = true -> adds_enc child ->
  (child_is_map n = true -> gives_map child) -> adds_enc (res ← child; handleGroupBy rnd n res).
Proof.
  intros Hb Ha Hch Hmap s r s' Hs (res & s1 & H1 & H)%ST_bind_ok. destruct (Hch _ _ _ Hs H1) as [Hs1 Hp1].
  pose proof (fun Hm => Hmap Hm _ _ _ Hs H1) as Hres. rewrite /handleGroupBy in H. apply ST_bind_ok in H as (mats & s2 & H2 & H).
  destruct (adds_mapM (ensureMaterialized rnd) (base_columns n) ltac:(intros; apply adds_ensure) _ _ _ Hs1 H2) as [Hs2 Hp2].
  apply ST_bind_ok in H as (ctx & s3 & [= <- <-] & H). apply ST_bind_ok in H as (id & s4 & H4 & H).
  destruct (adds_next _ _ _ _ Hs2 H4) as [Hs4 Hp4]. rewrite /agg_enc bool_decide_false // in Ha. simpl in Ha.
  destruct (agg_specs (expression n)) as [|sp [|]]; [done| |done].
  apply adds_singleGroup in H as [Hs5 Hp5]; [|done|done|].
  - split; [done|]. repeat (etrans; [eassumption|]). done.
  - apply orb_true_iff in Ha as [[Hi%bool_decide_eq_true|Hstar]%orb_true_iff|Hm]; [by left|right; left; by exists sp|].
    right. right. eapply is_map_mono; [|by apply Hres]. by etrans.
Qed.

Lemma adds_aggregate n child : agg_enc n = true -> adds_enc child -> (child_is_map n = true -> gives_map child) ->
  adds_enc (handleAggregate rnd n child).
Proof.
  intros Ha Hch Hmap. destruct (base_columns n) as [|c cols] eqn:Hb.
  - rewrite /handleAggregate Hb. apply adds_bind; [done|]. intros res. rewrite /agg_enc in Ha.
    destruct (agg_specs (expression n)) as [|s1 [|s2 sp]] eqn:Hs; [done| |].
    + apply adds_single. by rewrite Hs.
    + rewrite /createParallelAggregateNodes. adds_tac.
  - pose proof (adds_group n child ltac:(congruence) Ha Hch Hmap) as H. by rewrite /handleAggregate Hb.
Qed.

Lemma adds_transformNode n : enc_shape n = true ->
  adds_enc (transformNode rnd n) /\ (node_type n = LNT.MAP -> gives_map (transformNode rnd n)).
Proof.
  induction n as [n IH] using LogicalPlanNode_child_ind. intros Hsh.
  destruct n as [ty st bc ex pc ch]. set (n := LNode ty st bc ex pc ch) in *.
  assert (forall o, o ∈ ch -> adds_enc (match o with Some c => transformNode rnd c | None => raise (Throw "Null logical node encountered") end)) as Hgo.
  { intros [c|] Ho; [|adds_tac]. apply IH; [done|]. cbn [enc_shape] in Hsh. apply andb_true_iff in Hsh as [_ Hsh].
    rewrite forallb_forall in Hsh. by apply list_elem_of_In, Hsh in Ho. }
  assert (adds_enc (read_limits n)) as Hlim by (rewrite /read_limits; adds_tac).
  assert (forall f : ST opt_state TransformResult, adds_enc f -> adds_enc (_ ← read_limits n; f)) as Hseq by (intros f Hf; by apply adds_bind).
  cbn [enc_shape] in Hsh. apply andb_true_iff in Hsh as [Hn Hsh]. unfold n in Hsh, Hn |- *. cbn [transformNode node_type children].
  destruct ty; cbn [node_type] in *; (split; [|try done]).
  - apply Hseq. adds_tac.
  - apply Hseq. destruct ch as [|c ch]; [adds_tac|]. apply adds_filter; [done|]. apply Hgo. by left.
  - apply Hseq. destruct ch as [|c ch]; [adds_tac|]. apply adds_projection. apply Hgo. by left.
  - apply Hseq. destruct ch as [|l [|r ch]]; [adds_tac| |].
    + apply adds_bind; [apply Hgo; by left|]. intros ?. adds_tac.
    + apply adds_join; [done|apply Hgo; by left|apply Hgo; right; by left].
  - apply Hseq. destruct ch as [|c ch]; [adds_tac|]. apply adds_aggregate; [done|apply Hgo; by left|].
    rewrite /child_is_map /=. destruct c as [c|]; [|done]. intros Hm%bool_decide_eq_true.
    apply (IH c); [by left|by apply andb_true_iff in Hsh as [? _]|done].
  - apply Hseq. destruct ch as [|c ch]; [adds_tac|]. apply andb_true_iff in Hn as [Hop%bool_decide_eq_true Hb%negb_true_iff%bool_decide_eq_false].
    intros s r s' Hs H. by eapply (adds_map n _ Hop Hb (Hgo c ltac:(by left))).
  - intros _. destruct ch as [|c ch]; [by intros s r s' _ (? & ? & _ & ?)%ST_bind_ok|].
    apply andb_true_iff in Hn as [Hop%bool_decide_eq_true Hb%negb_true_iff%bool_decide_eq_false].
    intros s r s' Hs (u & s1 & H1 & H)%ST_bind_ok. destruct (Hlim _ _ _ Hs H1) as [Hs1 _].
    by eapply (adds_map n _ Hop Hb (Hgo c ltac:(by left))).
  - apply Hseq. destruct ch as [|c1 [|c2 ch]]; [adds_tac..|]. rewrite /handleSetOperation. apply adds_bind; [by apply adds_mapM|]. intros ?. adds_tac.
  - apply Hseq. apply bool_decide_eq_true in Hn. destruct ch as [|c ch]; [adds_tac|]. apply adds_sort; [done|]. apply Hgo. by left.
Qed.

End ops.

(** ** Trimming *)

Lemma trim_encodes refs n cols : encodes n -> trim_outputs refs n = Ok cols -> encodes (set_result_columns cols n).
Proof.
  intros Hn. rewrite /trim_outputs. case_bool_decide as Ht; simpl.
  - destruct (p_result_columns n) as [|i [|o [|]]] eqn:Hr; try (intros [= <-]; revert Hn; rewrite /encodes /op_data /= Ht /join_data /= Hr; done).
    intros H. assert (cols <> []) as Hc by (by repeat case_match; simplify_eq).
    destruct Hn as [d Hd]. rewrite /op_data Ht in Hd. rewrite /encodes /op_data /= Ht. rewrite /join_data /= in Hd |- *.
    apply bind_ok in Hd as (c1 & -> & Hd). apply bind_ok in Hd as (c2 & -> & Hd). apply bind_ok in Hd as (r & _ & Hd).
    apply bind_ok in Hd as (cmp & -> & _). destruct cols as [|x cols]; [done|]. by eexists.
  - intros [= <-]. by destruct n.
Qed.

Lemma optimize_fuel_encodes fuel refs : forall o st st', Forall encodes st.2 -> optimize_fuel fuel refs o st = Ok st' -> Forall encodes st'.2.
Proof.
  induction fuel as [|fuel IH]; intros o st st' Hst; destruct o as [a|]; simpl; try (by intros [= <-]); case_bool_decide; try (by intros [= <-]).
  intros (n & _ & H1)%bind_ok. apply bind_ok in H1 as (st1 & Hf & H1). apply bind_ok in H1 as (m & Hm & H1). apply bind_ok in H1 as (cols & Hc & [= <-]).
  assert (Forall encodes st1.2) as Hst1.
  { assert (Forall encodes ({[a]} ∪ st.1, st.2).2) as H0 by done. revert H0 Hf. generalize ({[a]} ∪ st.1, st.2).
    induction (p_children n) as [|c cs IHc]; intros st0 H0; simpl; [by intros [= <-]|].
    intros (st2 & H2 & H3)%bind_ok. eapply IHc; [|exact H3]. by eapply IH. }
  simpl. apply Forall_insert; [done|]. eapply trim_encodes; [|exact Hc]. rewrite /store_node in Hm. destruct (st1.2 !! a) eqn:Ha; [|done].
  injection Hm as <-. by eapply Forall_lookup_1.
Qed.

(** ** The whole conversion *)

Lemma convert_encodes rnd n oc jo itn p : enc_shape n = true -> PhysicalOptimizer_optimize rnd (Some n) oc jo itn = Ok p ->
  Forall encodes (plan_store p).
Proof.
  intros Hsh. rewrite /PhysicalOptimizer_optimize /ConvertToPhys.
  destruct (convert_body rnd n oc jo itn) as [q|[m|m]] eqn:Hc; simpl; [|done..]. intros [= <-].
  rewrite /convert_body in Hc. apply bind_ok in Hc as ([root s] & Hrun & Hc).
  assert (EInv (mkOS (context_init itn oc) [] 0)) as H0 by (split; constructor).
  match type of Hrun with ?m _ = _ => assert (adds_enc m) as Hm end.
  { apply adds_bind; [by apply adds_transformNode|]. intros res. apply adds_bind; [apply adds_get|]. intros ctx.
    destruct (negb _); [|apply adds_ret]. apply adds_bind; [apply adds_result|]. intros ?. apply adds_ret. }
  destruct (Hm _ _ _ H0 Hrun) as [[Hs _] _]. destruct root as [a|]; [|by injection Hc as <-].
  destruct jo; [|by injection Hc as <-]. apply bind_ok in Hc as (refs & _ & Hc). apply bind_ok in Hc as (h & Hh & [= <-]).
  rewrite /optimizeJoinOutputs in Hh. destruct (optimize_fuel _ _ _ _) as [st|] eqn:Ho; [|done]. injection Hh as <-.
  by eapply optimize_fuel_encodes in Ho.
Qed.
