(* ===== verification/EncodeShape.v ===== *)
(** * The plans of the translator can be encoded

    The plan of a supported SELECT has the shape [enc_shape], so that every
    physical node made from it becomes a work item, unless the statement groups
    and has several aggregates, or one without argument that is not COUNT
    ([one_aggregate]). *)

From S2P Require Import Prelude PlanTypes SqlAst TranslatorHelpers LogicalSemantics Pushdown PredicateBuilder WhereSemantics.
From S2P Require Import DSU JoinTree JoinTreeCorrect SelectPlanBuilder SelectCorrect PlanArity SelectOutput Encoding.

Lemma input_enc okc n : WfPlan n -> Arity okc n -> enc_shape n = true.
Proof.
  induction n as [n IH] using LogicalPlanNode_child_ind. intros Hw Ha.
  pose proof (Arity_local _ _ Ha) as [_ Hl]%andb_true_iff. pose proof (Arity_child okc n) as Hch.
  assert (forall c, Some c ∈ children n -> WfPlan c -> enc_shape c = true) as Hsub by (intros c Hc Hwc; by apply IH, Hch).
  destruct Hw as [n Ht Hcs _|n c Ht Hcs Hwc|n l r Ht Hcs Hwl Hwr _|n cs T Ht _ Hcs Hne Hwf _];
    destruct n as [ty st bc ex pc ch]; simpl in Ht, Hcs; subst ty ch; cbn [enc_shape node_type children forallb] in *.
  - done.
  - apply andb_true_iff in Hl as [_ Hl]. rewrite Hl (Hsub c); [done|by left|done].
  - apply andb_true_iff in Hl as [_ Hl]. rewrite Hl (Hsub l) ?(Hsub r); [done|set_solver|done|set_solver|done].
  - apply forallb_forall. intros o Ho%list_elem_of_In. pose proof Ho as (c & -> & Hc)%list_elem_of_fmap. apply Hsub; [done|by apply Hwf].
Qed.

(** ** Aggregates *)

Definition agg_items (al : gmap string string) (sel : SelectStatement) : list AggPattern :=
  omap (fun e => matchAgg e al) (default [] (selectList sel)).

(** With GROUP BY: at most one aggregate, and it is COUNT when it has no
    argument. *)
Definition one_aggregate (sel : SelectStatement) : bool :=
  let al := collectAliases (fromTable sel) ∅ in
  bool_decide (collectGroupByColumns sel al = []) ||
  match agg_items al sel with
  | [] => true
  | [ap] => negb (ap_is_star ap) || bool_decide (ap_func ap = PAF.COUNT)
  | _ => false
  end.

(** The three kinds of aggregates. *)
Lemma matchAgg_kind al e ap : matchAgg e al = Some ap ->
  ap_is_star ap = true \/ ap_is_col ap = true \/ ap_is_sum_mul ap || ap_is_sum_sub ap = true.
Proof.
  rewrite /matchAgg. destruct e as [x|]; [|done]. intros H. repeat case_match; simplify_eq/=; auto.
Qed.

Lemma analyze_items_patterns al l : forall sa ctx sa' ctx', analyze_items al l sa ctx = Ok (sa', ctx') ->
  map an_pattern (aggregates sa') = map an_pattern (aggregates sa) ++ omap (fun e => matchAgg e al) l.
Proof.
  induction l as [|e l IH]; intros sa ctx sa' ctx'; cbn [analyze_items]; [intros [= <- _]; by rewrite app_nil_r|].
  intros (sa1 & c1 & H1 & ->%IH)%ST_bind_ok. cbn [omap list_omap]. revert H1. rewrite /analyze_item. destruct (matchAgg e al) as [ap|].
  - intros (name & c2 & _ & [= <- _])%ST_bind_ok. by rewrite /= map_app -app_assoc.
  - repeat case_match; by intros [= <- _].
Qed.

Definition countable (a : AggWithName) : Prop :=
  ap_is_col (an_pattern a) = true \/ is_arith a = true \/
  (ap_is_star (an_pattern a) = true /\ ap_func (an_pattern a) = PAF.COUNT).

(** A grouped statement that satisfies [one_aggregate] has one aggregate, after
    the default one is added. *)
Lemma single_aggregate al sel ctx sa ctx' : (match agg_items al sel with
    | [] => true
    | [ap] => negb (ap_is_star ap) || bool_decide (ap_func ap = PAF.COUNT)
    | _ => false
    end = true) ->
  analyze_items al (default [] (selectList sel)) (mkSA false [] [] []) ctx = Ok (sa, ctx') ->
  exists a s, aggregates (ensureDefaultAggregate sa) = [a] /\ aggSpecs (ensureDefaultAggregate sa) = [s] /\ spec_of a s /\ countable a.
Proof.
  intros Hone Hsa. pose proof (analyze_items_patterns _ _ _ _ _ _ Hsa) as Hpat. simpl in Hpat. rewrite -/(agg_items al sel) in Hpat.
  destruct (analyze_items_ok al (default [] (selectList sel)) (mkSA false [] [] []) ctx aligned_empty) as (sa2 & c2 & Hsa2 & [Hal _] & _).
  rewrite Hsa in Hsa2. injection Hsa2 as <- <-. rewrite /ensureDefaultAggregate.
  destruct (aggregates sa) as [|a [|]] eqn:Ha; simpl in Hpat; rewrite -Hpat in Hone; [| |done].
  - apply Forall2_nil_inv_l in Hal. rewrite Hal. simpl. exists (mkAggName (agg_star (agg_base PAF.COUNT "")) "agg"), (mkAggSpec PAF.COUNT None (Some "agg") true).
    split_and!; [done|done|by split_and!|by right; right].
  - apply Forall2_cons_inv_l in Hal as (s & ss & Hsp & ->%Forall2_nil_inv_l & Hss). rewrite Hss. simpl.
    exists a, s. split_and!; [done|done|done|].
    assert (exists e, matchAgg e al = Some (an_pattern a)) as [e He].
    { assert (an_pattern a ∈ agg_items al sel) as (e & _ & He)%list_elem_of_omap by (rewrite -Hpat; by left). by exists e. }
    apply matchAgg_kind in He as [He|[He|He]]; [|by left|by right; left]. right. right. split; [done|].
    rewrite He /= in Hone. by apply bool_decide_eq_true in Hone.
Qed.

(** ** Output layers *)

Lemma map_node_enc p n : enc_shape n = true -> enc_shape (map_node p n) = true.
Proof. intros Hn. simpl. rewrite Hn. by destruct (ap_is_sum_mul p). Qed.

Lemma applyMapNodes_enc aggs : forall i inp specs n specs', enc_shape inp = true ->
  applyMapNodes_from aggs i inp specs = Ok (n, specs') -> enc_shape n = true /\ length specs' = length specs.
Proof.
  induction aggs as [|a aggs IH]; intros i inp specs n specs' Hi; cbn [applyMapNodes_from]; [by intros [= <- <-]|].
  case_match; [|by apply IH]. intros (s & _ & [Hn Hlen]%IH)%bind_ok; [|by apply map_node_enc]. by rewrite Hlen length_insert.
Qed.

Lemma output_enc inp gb sa b root sa' : enc_shape inp = true -> (b = true -> aggSpecs sa <> []) ->
  (b = true -> gb <> [] -> exists a s, aggregates sa = [a] /\ aggSpecs sa = [s] /\ spec_of a s /\ countable a) ->
  buildSelectOutputTree inp gb sa b = Ok (root, sa') -> enc_shape root = true.
Proof.
  intros Hi Hs Hone. rewrite /buildSelectOutputTree. destruct b; simpl negb; cbv iota.
  - intros ([n sa1] & Hm & [= <- _])%bind_ok. rewrite /applyMapNodes in Hm. apply bind_ok in Hm as ([n' sp] & Hm & [= <- <-]).
    pose proof (applyMapNodes_enc _ _ _ _ _ _ Hi Hm) as [Hn Hlen].
    cbn [enc_shape set_children set_projected_columns set_base_columns set_expression new_node expression node_type children forallb].
    rewrite Hn andb_true_l !andb_true_r. rewrite /agg_enc /child_is_map.
    cbn [set_children set_base_columns set_expression new_node base_columns expression agg_specs set_agg_specs Expression_default children node_type aggSpecs].
    assert (sp <> []) as Hsp by (intros ->; by destruct (aggSpecs sa); [destruct (Hs eq_refl)|]).
    destruct (decide (gb = [])) as [->|Hgb]; [destruct sp as [|? []]; done|].
    destruct (Hone eq_refl Hgb) as (a & s & Ha & Hsa & (Hf & Hst & _ & Hin) & Hcount). rewrite Ha Hsa in Hm.
    cbn [applyMapNodes_from] in Hm. destruct (ap_is_sum_mul (an_pattern a) || ap_is_sum_sub (an_pattern a)) eqn:Har.
    + injection Hm as <- <-. simpl. by rewrite !orb_true_r.
    + injection Hm as <- <-. rewrite Hin Hst Hf. destruct Hcount as [->|[Hc|[-> ->]]]; [|by rewrite /is_arith Har in Hc|].
      * rewrite (bool_decide_true (is_Some _)); [by rewrite orb_true_r|by eexists].
      * by rewrite /= !orb_true_r.
  - intros [= <- _]. simpl. by rewrite Hi.
Qed.

Lemma sort_enc root sel aggs al ctx n ctx' : enc_shape root = true -> applySortNode root sel aggs al ctx = Ok (n, ctx') -> enc_shape n = true.
Proof.
  intros Hr. rewrite /applySortNode. destruct (order sel) as [[|o l]|]; [by intros [= <- _]| |by intros [= <- _]].
  intros (cs & c1 & _ & H)%ST_bind_ok. case_match; injection H as <- _; [|done]. simpl. by rewrite Hr.
Qed.

Lemma limit_count_enc z n : enc_shape (set_expression (set_limit_count z (expression n)) n) = enc_shape n.
Proof. by destruct n as [ty st bc ex pc ch]. Qed.

Lemma limit_offset_enc z n : enc_shape (set_expression (set_limit_offset z (expression n)) n) = enc_shape n.
Proof. by destruct n as [ty st bc ex pc ch]. Qed.

Lemma limit_enc root sel n : enc_shape root = true -> applyLimitOffset root sel = Ok n -> enc_shape n = true.
Proof.
  intros Hr. rewrite /applyLimitOffset. destruct (limit sel) as [l|]; [|by intros [= <-]]. intros (r & Hl & Ho)%bind_ok.
  assert (enc_shape r = true) as Hr'.
  { destruct (l_limit l); [|by injection Hl as <-]. apply bind_ok in Hl as (z & _ & [= <-]). by rewrite limit_count_enc. }
  destruct (l_offset l); [|by injection Ho as <-]. apply bind_ok in Ho as (z & _ & [= <-]). by rewrite limit_offset_enc.
Qed.

(** ** The whole statement *)

Lemma supported_enc iter sel jo m g ctx root ctx' : (forall m, iter m ≡ₚ map_to_list m) ->
  supported iter sel jo m g -> one_aggregate sel = true -> buildPlanForSelect iter sel jo ctx = Ok (root, ctx') ->
  enc_shape root = true.
Proof.
  intros Hiter [Hm Hne Hw Hg Hk Hc Hjo _ _] Hone. rewrite /one_aggregate in Hone.
  set (al := collectAliases (fromTable sel) ∅) in *. pose proof (buildScanMap_scans _ _ Hm) as Hscans.
  assert (forall p, p ∈ joinPreds g -> join_pred (dom m) p = true) as Hjp.
  { intros p Hp. rewrite forallb_forall in Hk. apply Hk. by apply list_elem_of_In. }
  destruct (buildSelectInputTree_ok iter Hiter m (joinPreds g) jo Hne Hscans Hjp Hc Hjo) as (n & Hn & [Hwf _ _]).
  destruct (applySelectionPredicates_ok (selectionPreds g) n Hwf) as [Hwf' _ _]; [by eapply selection_preds_wf|].
  assert (Arity (fun _ => true) (applySelectionPredicates n (selectionPreds g))) as Har.
  { eapply (select_input_arity _ iter Hiter al (whereClause sel) m g jo n); try done. destruct (whereClause sel) as [e|]; [|done].
    simpl. by apply all_refs_true. }
  pose proof (input_enc _ _ Hwf' Har) as Hin. set (inp := applySelectionPredicates n (selectionPreds g)) in *.
  rewrite /buildPlanForSelect /mbind /ST_bind /modify /get /lift /=. rewrite Hm -/al Hg Hn -/inp.
  rewrite /analyzeSelectClause. set (sa0 := mkSA false [] [] []).
  destruct (analyze_items al (default [] (selectList sel)) sa0 _) as [[sa c1]|] eqn:Hsa; [|done].
  set (gb := collectGroupByColumns sel al) in *. set (b := hasAgg sa || _). clearbody b.
  destruct (buildSelectOutputTree inp gb _ b) as [[r sa']|] eqn:Hout; [|done].
  apply output_enc in Hout; [|done| |].
  - destruct (applySortNode r sel _ al c1) as [[r2 c2]|] eqn:Hsort; [|done]. apply sort_enc in Hsort; [|done].
    destruct (applyLimitOffset r2 sel) as [r3|] eqn:Hlim; [|done]. intros [= <- _]. by eapply limit_enc.
  - intros ->. rewrite /ensureDefaultAggregate. destruct (aggSpecs sa) as [|x l] eqn:Hx; [done|]. simpl. congruence.
  - intros -> Hgb. rewrite bool_decide_false // in Hone. by eapply single_aggregate.
Qed.
