(* ===== verification/EndToEnd.v ===== *)
(** * From SQL to the schedule of work items

    The stages composed: a supported SELECT is translated into a plan that
    computes its FROM and WHERE clauses, the plan is accepted by the optimizer,
    and the work items of the physical plan can be executed in order. *)

From S2P Require Import Prelude PlanTypes SqlAst JoinTree JoinTreeCorrect LogicalSemantics TranslatorHelpers.
From S2P Require Import SelectPlanBuilder SelectCorrect SelectOutput TranslatorTheorems.
From S2P Require Import PhysContext PostProcess PhysicalInvariant PlanInv PlanShape PostProcessInv PhysicalTheorems.
From S2P Require Import WorkItems WorkItemsInv WorkItemTheorems Encoding EncodeShape.

(** The join order the translator takes from its options. *)
Definition option_order (parse_json : string -> option json) (opts : option json) : list string :=
  match parsePlanJson parse_json opts with Some j => extractJoinOrderFromJson j | None => [] end.

Lemma translate_select parse_sql parse_json iter sql opts sel root ctx : parse_sql sql = Valid [StmtSelect sel] ->
  buildPlanForSelect iter sel (option_order parse_json opts) (mkCtx ∅ ∅) = Ok (root, ctx) ->
  translateSQLToLogicalPlan parse_sql parse_json iter sql opts = Ok [root].
Proof.
  intros Hp Hb. rewrite /translateSQLToLogicalPlan Hp -/(option_order parse_json opts).
  cbn [mapR plan_statement]. by rewrite Hb.
Qed.

Lemma optimize_executable rnd itn n oc jo : itn <> "" -> phys_shape itn n = true ->
  match PhysicalOptimizer_optimize rnd (Some n) oc jo itn with
  | Ok p => executable itn p
  | Err e => jo = true /\ e = Throw "Conversion to physical plan failed!"
  end.
Proof.
  intros Hitn Hsh. pose proof (convert_body_ok rnd itn n oc jo Hitn Hsh) as H.
  rewrite /PhysicalOptimizer_optimize /ConvertToPhys.
  by destruct (convert_body rnd n oc jo itn) as [p|[m|m]].
Qed.

(** Every node that can be encoded becomes an item. *)
Lemma crateWorkItems_encoded p root planId : plan_root p = Some root -> acyclic (plan_store p) -> root < length (plan_store p) ->
  Forall encodes (plan_store p) -> exists items, crateWorkItems p planId = Ok items.
Proof.
  intros Hr Hac Hlt He. destruct (crateWorkItems_items p root planId Hr Hac Hlt) as (order & _ & _ & _ & _ & HF).
  destruct (crateWorkItems p planId) as [items|e]; [by exists items|]. destruct HF as (a & n & _ & Hn & Hd).
  rewrite Forall_lookup in He. destruct (He a n Hn) as [d Hd']. congruence.
Qed.


Lemma demo_supported_plain : supported demo_iter demo_select [] demo_scans demo_groups.
Proof.
  apply Build_supported; [reflexivity|discriminate|by vm_compute|by vm_compute|by vm_compute
    |apply demo_connected|by left|by vm_compute|by vm_compute].
Qed.


(** ** Grouping with several aggregates *)

(** [FUNC(args)] in a SELECT list. *)
Definition eAgg (f : string) (args : list (option Expr)) : Expr :=
  mkExpr kExprFunctionRef kOpNone None None (Some args) (Some f) None None 0 "" false.

(** SELECT d_year, SUM(lo_revenue), MAX(lo_revenue) FROM ... WHERE ... GROUP BY d_year *)
Definition demo_grouped : SelectStatement :=
  mkSelect (Some demo_from) (Some demo_where)
    (Some [Some (eCol None "d_year"); Some (eAgg "SUM" [Some (eCol None "lo_revenue")]); Some (eAgg "MAX" [Some (eCol None "lo_revenue")])])
    (Some (Some [Some (eCol None "d_year")])) None None.

Definition demo_grouped_root : LogicalPlanNode :=
  match translateSQLToLogicalPlan (fun _ => Valid [StmtSelect demo_grouped]) (fun _ => None) demo_iter "" None with
  | Ok (n :: _) => n
  | _ => new_node LNT.SCAN
  end.

Definition demo_grouped_plan : phys_plan :=
  match PhysicalOptimizer_optimize demo_rnd (Some demo_grouped_root) true true "im" with Ok p => p | Err _ => mkPlan None [] end.

