(* ===== verification/EndToEndRows.v ===== *)
(** * From SQL to the rows of the result

    The translator, the optimizer and the engine together: running the physical
    plan of a SELECT gives the selected columns of the rows on which the WHERE
    clause holds, or the aggregates over them.  With a join order given as JSON this fails, because the
    order of the columns of a join no longer follows its inputs. *)

From S2P Require Import Prelude PlanTypes SqlAst SchemaResolver TranslatorHelpers JoinTree JoinTreeCorrect LogicalSemantics.
From S2P Require Import PredicateBuilder WhereSemantics SelectPlanBuilder SelectCorrect SelectOutput TranslatorTheorems.
From S2P Require Import PhysContext PostProcess PhysicalInvariant PlanInv PlanShape PhysicalTheorems WorkItems EndToEnd.
From stdpp Require Import sorting.
From S2P Require Import Engine RelInvariant RelHandlers RelPlan RelResult RelRun RelAggregate RelTheorems.

(** ** The input tree of a plan *)

Lemma stacked_wf inp n : stacked inp n -> WfPlan n -> n = inp.
Proof.
  intros [|n' c Hc Hout _] Hw; [done|]. exfalso. rewrite !elem_of_cons in Hout.
  by destruct Hw; destruct Hout as [?|[?|[?|[?|?%not_elem_of_nil]]]]; congruence.
Qed.

Lemma stacked_below inp n c : WfPlan inp -> stacked inp n -> node_type n ∈ [LNT.MAP; LNT.AGGREGATE; LNT.PROJECTION; LNT.SORT] ->
  children n = [Some c] -> stacked inp c.
Proof.
  intros Hw [|n' d Hd _ Hs] Hout Hc; [|congruence]. exfalso. rewrite !elem_of_cons in Hout.
  by destruct Hw; destruct Hout as [?|[?|[?|[?|?%not_elem_of_nil]]]]; congruence.
Qed.

Lemma select_source sel inp root : WfPlan inp -> select_plan sel inp root -> select_shape root = true -> source_plan root = inp.
Proof.
  intros Hw Hsp Hsel. destruct (select_shape_inv root Hsel) as (Hc & Hp & Hor). pose proof (select_plan_stacked _ _ _ Hw Hsp) as Hst.
  destruct (projection_shape_inv _ Hp) as (c & Hty & Hc' & Hsh & _). rewrite Hc in Hc'. injection Hc' as Hcc. rewrite -Hcc in Hsh.
  apply stacked_wf; [|by apply RelShape_wf]. apply (stacked_below inp (projection_node root)); [done| |by rewrite Hty; set_solver|exact Hc].
  destruct Hor as [<-|(Htn & Hcn & _)]; [done|]. apply (stacked_below inp root); [done|done|by rewrite Htn; set_solver|exact Hcn].
Qed.

Lemma aggregate_source sel inp root : WfPlan inp -> select_plan sel inp root -> agg_shape root = true -> agg_source root = inp.
Proof.
  intros Hw Hsp Hn%agg_shape_spec. pose proof (select_plan_stacked _ _ _ Hw Hsp) as Hst.
  eapply stacked_below in Hst; [|done|rewrite (as_type _ Hn); set_solver|apply (as_child _ Hn)].
  eapply stacked_below in Hst; [|done|rewrite (as_agg _ Hn); set_solver|apply (as_input _ Hn)].
  apply stacked_wf; [|apply RelShape_wf, as_source; exact Hn]. destruct (agg_map root) as [m|] eqn:Hm; [|by rewrite /agg_source Hm].
  destruct (as_map _ Hn m Hm) as (Hch & _). rewrite /agg_map /is_map in Hm. destruct (bool_decide _) eqn:Hd; [|done]. injection Hm as Hm.
  apply bool_decide_eq_true in Hd. rewrite -Hm in Hch. eapply stacked_below in Hst; [exact Hst|done|rewrite Hd; set_solver|exact Hch].
Qed.

(** ** From text to rows *)

Section query.
Variables (parse_sql : string -> SQLParserResult) (parse_json : string -> option json).
Variable iter : gmap string LogicalPlanNode -> list (string * LogicalPlanNode).
Variables (D : engine Z) (sql : string) (opts : option json) (sel : SelectStatement).
Variables (m : gmap string LogicalPlanNode) (g : PredicateGroups) (itn : string).
Hypothesis Hiter : forall m, iter m ≡ₚ map_to_list m.
Hypothesis HIN : in_is_disjunction D.
Hypothesis Hp : parse_sql sql = Valid [StmtSelect sel].
Hypothesis Hs : supported iter sel (option_order parse_json opts) m g.
Hypothesis Hf : fresh_name itn sel = true.

(** The rows of the statement. *)
Definition statement_row (u : tuple) : Prop :=
  rows D (dom m) u /\ sql_where D (collectAliases (fromTable sel) ∅) (whereClause sel) u = true.

Lemma statement_plan : exists root, translateSQLToLogicalPlan parse_sql parse_json iter sql opts = Ok [root] /\
  phys_shape itn root = true /\ itn <> "" /\
  (select_shape root = true -> tabs (source_plan root) = dom m /\ forall u, u ∈ eval D (source_plan root) <-> statement_row u) /\
  (agg_shape root = true -> tabs (agg_source root) = dom m /\ forall u, u ∈ eval D (agg_source root) <-> statement_row u).
Proof.
  destruct (buildPlanForSelect_ok iter Hiter D sel _ m g (mkCtx ∅ ∅) HIN Hs) as (root & ctx' & inp & Hb & (Hw & Htabs & He) & Hsp).
  exists root. split; [by eapply translate_select|]. split; [by eapply (supported_shape iter itn sel _ m g _ root ctx')|].
  split; [apply andb_true_iff in Hf as [Hn%negb_true_iff%is_empty_false _]; done|].
  split; intros Hsh; [rewrite (select_source sel inp root)|rewrite (aggregate_source sel inp root)]; done.
Qed.

End query.



(** ** An instance *)

(** [SELECT lo_revenue FROM lineorder, dates
     WHERE lo_orderdate = d_datekey AND (d_year = 1992 OR d_year = 1993)] *)
Definition rows_select : SelectStatement :=
  mkSelect (Some demo_from) (Some demo_where) (Some [Some (eCol None "lo_revenue")]) None None None.

Lemma rows_supported jo : order_usable demo_iter demo_scans jo -> supported demo_iter rows_select jo demo_scans demo_groups.
Proof.
  intros Hjo. apply Build_supported; [reflexivity|discriminate|by vm_compute|by vm_compute|by vm_compute
    |apply demo_connected|done|by vm_compute|by vm_compute].
Qed.

Lemma star_engine_in : in_is_disjunction star_engine.
Proof.
  intros vs args. cbn. destruct args as [|[a|] [|[b|] [|]]]; rewrite ?existsb_false //=.
  induction vs as [|v vs IH]; simpl; [done|]. by rewrite IH orb_false_r.
Qed.

Lemma demo_scans_dom : dom demo_scans = star_tables.
Proof. apply (bool_decide_eq_true_1 (_ = _)). by vm_compute. Qed.

Definition rows_root (jo : list string) : LogicalPlanNode :=
  match buildPlanForSelect demo_iter rows_select jo (mkCtx ∅ ∅) with Ok (n, _) => n | Err _ => new_node LNT.SCAN end.

Definition rows_plan (jo : list string) : phys_plan :=
  match PhysicalOptimizer_optimize demo_rnd (Some (rows_root jo)) true true "im" with Ok p => p | Err _ => mkPlan None [] end.

(** The table of the RESULT node. *)
Definition rows_result (jo : list string) : option (list (list (option Z))) :=
  result_table (run_plan star_engine (tables_env star_engine) (plan_store (rows_plan jo))) (rows_plan jo).


(** [SELECT SUM(lo_revenue * lo_orderdate) AS total, COUNT( * ) AS cnt FROM lineorder, dates
     WHERE lo_orderdate = d_datekey AND (d_year = 1992 OR d_year = 1993)] *)
Definition eAggAs (f : string) (arg : option Expr) (a : string) : Expr :=
  mkExpr kExprFunctionRef kOpNone None None (Some (option_list (Some <$> arg))) (Some f) None (Some a) 0 "" false.

Definition total_select : SelectStatement :=
  mkSelect (Some demo_from) (Some demo_where)
    (Some [Some (eAggAs "SUM" (Some (eOp kOpAsterisk (eCol None "lo_revenue") (eCol None "lo_orderdate"))) "total");
           Some (eAggAs "COUNT" None "cnt")]) None None None.

Lemma total_supported : supported demo_iter total_select [] demo_scans demo_groups.
Proof.
  apply Build_supported; [reflexivity|discriminate|by vm_compute|by vm_compute|by vm_compute
    |apply demo_connected|by left|by vm_compute|by vm_compute].
Qed.

Definition plan_of (sel : SelectStatement) : LogicalPlanNode :=
  match buildPlanForSelect demo_iter sel [] (mkCtx ∅ ∅) with Ok (n, _) => n | Err _ => new_node LNT.SCAN end.


(** ** Join orders from JSON *)

Lemma NoDup_one {A} (x : A) R : NoDup R -> (forall u, u ∈ R <-> u ∈ [x]) -> R = [x].
Proof.
  intros Hnd HR. assert (x ∈ R) as Hin by (apply HR; set_solver).
  assert (forall u, u ∈ R -> u = x) as Hx by (intros u Hu%HR; by apply list_elem_of_singleton in Hu).
  destruct R as [|u [|v R]]; [by apply not_elem_of_nil in Hin| |].
  - by rewrite (Hx u ltac:(set_solver)).
  - exfalso. apply NoDup_cons in Hnd as [Hnd _]. apply Hnd. rewrite (Hx u ltac:(set_solver)) (Hx v ltac:(set_solver)). set_solver.
Qed.


(** ** Two OR conditions on one table *)

(** [SELECT lo_revenue FROM lineorder WHERE (lo_revenue = 100 OR lo_orderdate = 20)
     AND (lo_revenue = 300 OR lo_orderdate = 20)] *)
Definition two_ors : SelectStatement :=
  let or k := eOp kOpOr (eOp kOpEquals (eCol None "lo_revenue") (eInt k)) (eOp kOpEquals (eCol None "lo_orderdate") (eInt 20)) in
  mkSelect (Some (tname "lineorder")) (Some (eOp kOpAnd (or 100%Z) (or 300%Z))) (Some [Some (eCol None "lo_revenue")]) None None None.

Definition two_ors_root : LogicalPlanNode :=
  match buildPlanForSelect demo_iter two_ors [] (mkCtx ∅ ∅) with Ok (n, _) => n | Err _ => new_node LNT.SCAN end.

(** The logical plan has one row; the physical plan returns every row of the
    second OR, because the UNION of the second replaces the position lists of
    the first. *)
Theorem two_ors_lose_one oc : exists p,
  PhysicalOptimizer_optimize demo_rnd (Some two_ors_root) oc false "im" = Ok p /\
  eval star_engine (source_plan two_ors_root) = [{["lineorder" := 1]}] /\
  result_table (run_plan star_engine (tables_env star_engine) (plan_store p)) p = Some [[Some 300%Z; Some 200%Z]].
Proof.
  exists (match PhysicalOptimizer_optimize demo_rnd (Some two_ors_root) oc false "im" with Ok p => p | Err _ => mkPlan None [] end).
  split_and!; destruct oc; vm_compute; reflexivity.
Qed.

(** ** Aggregates outside the shape *)

(** [SELECT items FROM lineorder WHERE lo_orderdate = 20] *)
Definition agg_query (items : list (option Expr)) : SelectStatement :=
  mkSelect (Some (tname "lineorder")) (Some (eOp kOpEquals (eCol None "lo_orderdate") (eInt 20))) (Some items) None None None.

Definition revenue : Expr := eCol None "lo_revenue".
Definition orderdate : Expr := eCol None "lo_orderdate".

(** SUM(lo_revenue) AS total *)
Definition one_sum : SelectStatement := agg_query [Some (eAggAs "SUM" (Some revenue) "total")].
(** SUM(lo_revenue * lo_orderdate) AS a, SUM(lo_revenue - lo_orderdate) AS b *)
Definition two_maps : SelectStatement :=
  agg_query [Some (eAggAs "SUM" (Some (eOp kOpAsterisk revenue orderdate)) "a"); Some (eAggAs "SUM" (Some (eOp kOpMinus revenue orderdate)) "b")].
(** SUM(lo_revenue) AS lo_orderdate, SUM(lo_orderdate) AS b *)
Definition hiding_alias : SelectStatement :=
  agg_query [Some (eAggAs "SUM" (Some revenue) "lo_orderdate"); Some (eAggAs "SUM" (Some orderdate) "b")].

