(* ===== verification/Graphviz.v ===== *)
(** * Graph output: what both visualizers share, and the physical one

    src/optimizer/GraphvizPhysicalVisualizer.cpp: the text of the [.dot] file
    that [visualize] writes for a physical plan.  The state of the visualizer
    is its counter, the ids of the visited nodes (keyed by address) and of the
    base columns (keyed by table and column), and the stream it writes to.
    The counter is an [int]; counting past [INT_MAX] is undefined.  Messages on
    the console are left out.  The recursion is bounded as in [PostProcess.v]:
    children have smaller addresses. *)

From S2P Require Import Prelude PlanTypes PlanPrint PhysContext PostProcess.

(** ** Strings *)

Definition dquote : ascii := ascii_of_nat 34.
Definition backslash : ascii := ascii_of_nat 92.
Definition quoted (s : string) : string := String dquote (s +:+ String dquote EmptyString).

Definition escape_char (c : ascii) : string :=
  if Ascii.eqb c "&" then "&amp;"
  else if Ascii.eqb c "<" then "&lt;"
  else if Ascii.eqb c ">" then "&gt;"
  else if Ascii.eqb c dquote then "&quot;"
  else if Ascii.eqb c "'" then "&#39;"
  else String c EmptyString.

Fixpoint escapeHtml (s : string) : string :=
  match s with
  | EmptyString => EmptyString
  | String c s => escape_char c +:+ escapeHtml s
  end.

Definition compTypeToString (t : PCT.PlanCompType) : string :=
  match t with
  | PCT.LT => "&lt;" | PCT.LE => "&le;" | PCT.EQ => "=" | PCT.GE => "&ge;" | PCT.GT => "&gt;"
  | PCT.NE => "!=" | PCT.BETWEEN => "BETWEEN" | PCT.IN => "IN" | PCT.LIKE => "LIKE"
  end.

Definition aggFuncToString (t : PAF.PlanAggFunc) : string :=
  match t with
  | PAF.COUNT => "COUNT" | PAF.SUM => "SUM" | PAF.MIN => "MIN" | PAF.MAX => "MAX" | PAF.AVG => "AVG"
  end.

Definition arithOpToString (t : PAO.PlanArithOp) : string :=
  match t with
  | PAO.ADD => "ADD" | PAO.SUB => "SUB" | PAO.MUL => "MUL" | PAO.DIV => "DIV" | PAO.MOD => "MOD"
  end.

Definition logicalRelOpToString (t : PRO.PlanLogicalRelOp) : string :=
  match t with
  | PRO.UNION => "UNION" | PRO.INTERSECTION => "INTERSECT" | PRO.NEGATION => "MINUS"
  end.

(** The limit of an expression, nothing without one. *)
Definition limit_text (prefix : string) (e : Expression) : string :=
  match limit_count e, limit_offset e with
  | None, None => ""
  | c, o =>
      prefix +:+ match c with Some n => to_string n | None => "ALL" end +:+
      match o with Some n => " Offset: " +:+ to_string n | None => "" end
  end.

(** The first lines of a file. *)
Definition dot_header (name attrs : string) : string :=
  "digraph " +:+ name +:+ " {" +:+ newline +:+ "  rankdir=TB;" +:+ newline +:+
  "  node [fontname=" +:+ quoted "Helvetica" +:+ "];" +:+ newline +:+
  "  edge [fontname=" +:+ quoted "Helvetica" +:+ attrs +:+ "];" +:+ newline.

(** ** Physical plans *)

Module PhysicalVisualizer.

Definition phyTypeToString (t : PNT.PhysicalNodeType) : string :=
  match t with
  | PNT.FILTER => "FILTER" | PNT.IDXSCAN => "IDXSCAN" | PNT.NLJ => "NLJ" | PNT.HASHJOIN => "HASHJOIN"
  | PNT.MERGEJOIN => "MERGEJOIN" | PNT.AGGREGATE => "AGGREGATE" | PNT.SETOPERATION => "SETOPERATION"
  | PNT.SORT => "SORT" | PNT.MAP => "MAP" | PNT.MATERIALIZE => "MATERIALIZE" | PNT.GROUPBY => "GROUPBY"
  | PNT.INTERMEDIATE => "INTERMEDIATE" | PNT.RESULT => "RESULT"
  end.

(** One column of [formatColumns], before escaping. *)
Definition column_text (c : Column) : string :=
  let colName := column_name c +:+
    match alias c with
    | Some a => if is_empty a then "" else " AS " +:+ a
    | None => ""
    end in
  (if is_empty (table_name c) then "" else table_name c +:+ ".") +:+ colName.

Definition formatColumns (cols : list Column) : string :=
  String.concat ", " (map (fun c => escapeHtml (column_text c)) cols).

Definition filter_text (e : Expression) : string :=
  match comp_type e, values e with
  | None, _ | _, [] => ""
  | Some comp, vals =>
      match comp, vals with
      | PCT.IN, _ => "Cond: IN (" +:+ String.concat ", " (map escapeHtml vals) +:+ ")"
      | PCT.BETWEEN, v0 :: v1 :: _ => "Cond: BETWEEN " +:+ escapeHtml v0 +:+ " AND " +:+ escapeHtml v1
      | _, [v] => "Cond: " +:+ compTypeToString comp +:+ " " +:+ escapeHtml v
      | _, _ => "Cond: " +:+ compTypeToString comp +:+ " (" +:+ String.concat " OR " (map escapeHtml vals) +:+ ")"
      end
  end.

Definition exprStr (n : PhysicalPlanNode) : string :=
  let e := p_expression n in
  match p_node_type n with
  | PNT.FILTER => filter_text e
  | PNT.HASHJOIN => if length (p_result_columns n) =? 1 then "Hash Join (single output)" else "Join"
  | PNT.MERGEJOIN | PNT.NLJ => "Join"
  | PNT.AGGREGATE => match agg_specs e with spec :: _ => aggFuncToString (func spec) | [] => "" end
  | PNT.MAP => match arith_op e with Some o => "Op: " +:+ arithOpToString o | None => "" end
  | PNT.SETOPERATION => match logical_rel_op e with Some o => logicalRelOpToString o | None => "" end
  | PNT.SORT =>
      "SORT" +:+
      match sort_order e with
      | Some l => String.concat "" (map (fun asc : bool => if asc then " ASC" else " DESC") l)
      | None => ""
      end +:+ limit_text " | Limit: " e
  | PNT.GROUPBY => "GROUP BY"
  | PNT.RESULT | PNT.MATERIALIZE | PNT.INTERMEDIATE => limit_text "Limit: " e
  | PNT.IDXSCAN => ""
  end.

(** A line of the label with columns in it. *)
Definition label_columns (color title : string) (cols : list Column) : string :=
  "<br/><font color='" +:+ color +:+ "' point-size='10'>" +:+ title +:+ ": " +:+ formatColumns cols +:+ "</font>".

Definition label_column (color title : string) (o : option Column) : string :=
  match o with Some c => label_columns color title [c] | None => "" end.

Definition label (n : PhysicalPlanNode) : string :=
  "<b>" +:+ phyTypeToString (p_node_type n) +:+ " :: " +:+ to_string (p_node_id n) +:+ "</b>" +:+
  match p_base_columns n with [] => "" | cols => label_columns "darkblue" "In" cols end +:+
  label_column "purple" "AggCol" (p_aggregationColumn n) +:+
  label_column "darkorange" "Cluster" (p_clusterColumn n) +:+
  label_column "darkblue" "Index" (p_index n) +:+
  (if is_empty (exprStr n) then "" else "<br/><i>" +:+ exprStr n +:+ "</i>").

(** The statements of the file. *)
Definition node_line (id : Z) (n : PhysicalPlanNode) : string :=
  "  " +:+ to_string id +:+ " [label=<" +:+ label n +:+
  ">, shape=box, style=filled, fillcolor=lightyellow];" +:+ newline.

Definition column_line (id : Z) (key : string) : string :=
  "  " +:+ to_string id +:+ " [label=" +:+ quoted (escapeHtml key) +:+
  ", shape=ellipse, style=filled, fillcolor=lightblue, fontsize=10];" +:+ newline.

Definition column_edge_line (from to : Z) : string :=
  "  " +:+ to_string from +:+ " -> " +:+ to_string to +:+
  " [style=dashed, color=" +:+ quoted "gray50" +:+ ", fontsize=9];" +:+ newline.

Definition edge_line (from to : Z) (cols : list Column) : string :=
  "  " +:+ to_string from +:+ " -> " +:+ to_string to +:+ " [label=" +:+ quoted (formatColumns cols) +:+
  ", fontsize=10, fontcolor=" +:+ quoted "darkgreen" +:+ "];" +:+ newline.

Record visualizer : Type := mkVis {
  node_id_counter : Z;
  visited_nodes : gmap nat Z;
  base_col_node_ids : gmap string Z;
  stream : string;
}.

Definition write (text : string) : ST visualizer unit := modify (fun v =>
  mkVis (node_id_counter v) (visited_nodes v) (base_col_node_ids v) (stream v +:+ text)).

(** [node_id_counter_++] *)
Definition next_id : ST visualizer Z := fun v =>
  if (INT_MAX <=? node_id_counter v)%Z then Err (Undef "signed overflow")
  else Ok (node_id_counter v,
           mkVis (node_id_counter v + 1) (visited_nodes v) (base_col_node_ids v) (stream v)).

Definition mark_visited (a : paddr) (id : Z) : ST visualizer unit := modify (fun v =>
  mkVis (node_id_counter v) (<[a := id]> (visited_nodes v)) (base_col_node_ids v) (stream v)).

Definition mark_column (key : string) (id : Z) : ST visualizer unit := modify (fun v =>
  mkVis (node_id_counter v) (visited_nodes v) (<[key := id]> (base_col_node_ids v)) (stream v)).

(** The id of the node of a base column, which is drawn when it is new. *)
Definition column_id (key : string) : ST visualizer Z :=
  v ← get;
  match base_col_node_ids v !! key with
  | Some id => mret id
  | None => id ← next_id; _ ← mark_column key id; _ ← write (column_line id key); mret id
  end.

Definition draw_columns (current_id : Z) (cols : list Column) : ST visualizer unit :=
  _ ← mapM (fun col =>
    match is_base col with
    | None => mret tt
    | Some _ => id ← column_id (col_key col); write (column_edge_line current_id id)
    end) cols;
  mret tt.

Fixpoint traverse (fuel : nat) (heap : list PhysicalPlanNode) (o : option paddr) : ST visualizer Z :=
  match o with
  | None => mret (-1)%Z
  | Some a =>
      v ← get;
      match visited_nodes v !! a, fuel with
      | Some id, _ => mret id
      | None, O => raise (Undef "unbounded recursion")
      | None, S fuel =>
          current_id ← next_id;
          _ ← mark_visited a current_id;
          n ← lift (store_node heap a);
          _ ← write (node_line current_id n);
          _ ← draw_columns current_id (p_base_columns n);
          _ ← mapM (fun child =>
            match child with
            | None => mret tt
            | Some c =>
                child_id ← traverse fuel heap child;
                if (child_id <? 0)%Z then mret tt
                else
                  m ← lift (store_node heap c);
                  write (edge_line current_id child_id (p_result_columns m))
            end) (p_children n);
          mret current_id
      end
  end.

(** The name of the file and what is written to it. *)
Definition visualize (heap : list PhysicalPlanNode) (root : option paddr) (output_filename : string)
    : result (string * string) :=
  '(_, v) ← traverse (S (length heap)) heap root
              (mkVis 0 ∅ ∅ (dot_header "PhysicalPlan" ", dir=back"));
  Ok (output_filename +:+ ".dot", stream v +:+ "}" +:+ newline).

End PhysicalVisualizer.
