(* ===== verification/GraphvizLogical.v ===== *)
(** * Graph output of logical plans

    src/optimizer/GraphvizLogicalVisualizer.cpp.  Logical plans are trees; the
    address of a node is its path from the root (child positions, the last
    one first), the key of [visited_nodes_].  A null child is dereferenced. *)

From S2P Require Import Prelude PlanTypes PlanPrint Graphviz.

Module LogicalVisualizer.

Definition nodeTypeToString (t : LNT.LogicalNodeType) : string :=
  match t with
  | LNT.SCAN => "SCAN" | LNT.FILTER => "FILTER" | LNT.PROJECTION => "PROJECTION" | LNT.JOIN => "JOIN"
  | LNT.AGGREGATE => "AGGREGATE" | LNT.MAP => "MAP" | LNT.SETOPERATION => "SETOPERATION" | LNT.SORT => "SORT"
  end.

(** The two files have the same conversions and the same [escapeHtml]. *)
Definition compTypeToString := Graphviz.compTypeToString.
Definition aggFuncToString := Graphviz.aggFuncToString.
Definition arithOpToString := Graphviz.arithOpToString.
Definition logicalRelOpToString := Graphviz.logicalRelOpToString.
Definition escapeHtml := Graphviz.escapeHtml.

(** A column before escaping; an alias equal to the name is not shown. *)
Definition column_text (c : Column) : string :=
  (if is_empty (table_name c) then "" else table_name c +:+ ".") +:+ column_name c +:+
  match alias c with
  | Some a => if negb (is_empty a) && negb (a =s column_name c) then " AS " +:+ a else ""
  | None => ""
  end.

Definition formatColumn (c : Column) : string := escapeHtml (column_text c).

Definition formatColumns (cols : list Column) : string := String.concat ", " (map formatColumn cols).

(** A comparison of one column with literals. *)
Definition values_text (col : string) (comp : PCT.PlanCompType) (vals : list string) : string :=
  "<br/>Cond: " +:+ col +:+
  match comp, vals with
  | PCT.IN, _ => " IN (" +:+ String.concat ", " (map escapeHtml vals) +:+ ")"
  | PCT.BETWEEN, v0 :: v1 :: _ => " BETWEEN " +:+ escapeHtml v0 +:+ " AND " +:+ escapeHtml v1
  | _, [v] => " " +:+ compTypeToString comp +:+ " " +:+ escapeHtml v
  | _, _ => " " +:+ compTypeToString comp +:+ " (" +:+ String.concat " OR " (map escapeHtml vals) +:+ ")"
  end.

(** Two columns with an operator between them. *)
Definition binary_text (title op : string) (c0 c1 : Column) : string :=
  "<br/>" +:+ title +:+ ": " +:+ formatColumn c0 +:+ " " +:+ op +:+ " " +:+ formatColumn c1.

Definition filter_text (n : LogicalPlanNode) : string :=
  match comp_type (expression n) with
  | None => ""
  | Some comp =>
      match base_columns n, values (expression n) with
      | c0 :: c1 :: _, _ => binary_text "Cond" (compTypeToString comp) c0 c1
      | [c], v :: vals => values_text (formatColumn c) comp (v :: vals)
      | _, _ => "<br/>Comp: " +:+ compTypeToString comp
      end
  end.

Definition agg_text (projected : list Column) (spec : AggSpec) : string :=
  "<br/>Agg: " +:+ aggFuncToString (func spec) +:+
  (if is_star spec then "(*)"
   else match input spec, projected with
        | Some c, _ => "(" +:+ formatColumn c +:+ ")"
        | None, _ :: _ => "(" +:+ formatColumns projected +:+ ")"
        | None, [] => ""
        end) +:+
  match result_alias spec with Some a => " AS " +:+ escapeHtml a | None => "" end.

Definition titled_columns (title : string) (cols : list Column) : string :=
  match cols with [] => "" | _ => "<br/>" +:+ title +:+ ": " +:+ formatColumns cols end.

(** The part of the label that depends on the type of the node. *)
Definition detail (n : LogicalPlanNode) : string :=
  let e := expression n in
  match node_type n with
  | LNT.SCAN => "<br/>Table: " +:+ escapeHtml (scan_table n)
  | LNT.FILTER => filter_text n
  | LNT.PROJECTION => "<br/>Cols: " +:+ formatColumns (projected_columns n) +:+ limit_text "<br/>Limit: " e
  | LNT.JOIN =>
      match base_columns n, comp_type e with
      | c0 :: c1 :: _, Some comp => binary_text "Cond" (compTypeToString comp) c0 c1
      | _, _ => ""
      end
  | LNT.AGGREGATE =>
      String.concat "" (map (agg_text (projected_columns n)) (agg_specs e)) +:+
      titled_columns "Group By" (base_columns n)
  | LNT.MAP =>
      match base_columns n, arith_op e with
      | c0 :: c1 :: _, Some op => binary_text "Expr" (arithOpToString op) c0 c1
      | _, _ => ""
      end
  | LNT.SETOPERATION =>
      match logical_rel_op e with Some op => "<br/>Op: " +:+ logicalRelOpToString op | None => "" end
  | LNT.SORT =>
      titled_columns "Sort" (base_columns n) +:+
      match sort_order e with
      | Some dirs => "<br/>Order: " +:+ String.concat ", " (map (fun d : bool => if d then "ASC" else "DESC") dirs)
      | None => ""
      end +:+ limit_text "<br/>Limit: " e
  end.

Definition label (n : LogicalPlanNode) : string :=
  "<b>" +:+ nodeTypeToString (node_type n) +:+ "</b>" +:+ detail n.

Definition node_line (id : Z) (n : LogicalPlanNode) : string :=
  "  " +:+ to_string id +:+ " [label=<" +:+ label n +:+
  ">, shape=box, style=filled, fillcolor=lightblue];" +:+ newline.

Definition edge_line (from to : Z) (cols : list Column) : string :=
  "  " +:+ to_string from +:+ " -> " +:+ to_string to +:+ " [label=" +:+ quoted (formatColumns cols) +:+
  ", fontsize=10, fontcolor=" +:+ quoted "darkgreen" +:+ "];" +:+ newline.

Record visualizer : Type := mkVis {
  node_id_counter : Z;
  visited_nodes : gmap (list nat) Z;
  stream : string;
}.

Definition write (text : string) : ST visualizer unit := modify (fun v =>
  mkVis (node_id_counter v) (visited_nodes v) (stream v +:+ text)).

Definition next_id : ST visualizer Z := fun v =>
  if (INT_MAX <=? node_id_counter v)%Z then Err (Undef "signed overflow")
  else Ok (node_id_counter v, mkVis (node_id_counter v + 1) (visited_nodes v) (stream v)).

Definition mark_visited (a : list nat) (id : Z) : ST visualizer unit := modify (fun v =>
  mkVis (node_id_counter v) (<[a := id]> (visited_nodes v)) (stream v)).

Fixpoint traverse (n : LogicalPlanNode) (a : list nat) : ST visualizer Z :=
  v ← get;
  match visited_nodes v !! a with
  | Some id => mret id
  | None =>
      current_id ← next_id;
      _ ← mark_visited a current_id;
      _ ← write (node_line current_id n);
      _ ← (fix walk (k : nat) (ch : list (option LogicalPlanNode)) : ST visualizer unit :=
             match ch with
             | [] => mret tt
             | None :: _ => raise (Undef "null child")
             | Some c :: ch =>
                 child_id ← traverse c (k :: a);
                 _ ← write (edge_line current_id child_id (projected_columns c));
                 walk (S k) ch
             end) 0 (children n);
      mret current_id
  end.

Definition visualize (root : LogicalPlanNode) (output_filename : string) : result (string * string) :=
  '(_, v) ← traverse root [] (mkVis 0 ∅ (dot_header "LogicalPlan" " , dir=back"));
  Ok (output_filename +:+ ".dot", stream v +:+ "}" +:+ newline).

End LogicalVisualizer.
