(* ===== verification/GraphvizInv.v ===== *)
(** * The graph of a physical plan

    The text that [traverse] writes is the rendering of a list of statements:
    a box per node, an ellipse per base column, a dashed edge from a node to
    each base column it reads and an arrow from a node to each of its
    children.  [drawn] says what a part of the traversal has written; parts
    compose ([drawn_app]). *)

From S2P Require Import Prelude PlanTypes PlanPrint PhysContext PostProcess PostProcessInv Graphviz.

Import PhysicalVisualizer.

(** ** Statements *)

Inductive stmt : Set :=
  | Box (id : Z) (a : paddr) (n : PhysicalPlanNode)
  | Ellipse (id : Z) (key : string)
  | Dashed (from to : Z)
  | Arrow (from to : Z) (cols : list Column).

Definition render (x : stmt) : string :=
  match x with
  | Box id _ n => node_line id n
  | Ellipse id key => column_line id key
  | Dashed i j => column_edge_line i j
  | Arrow i j cols => edge_line i j cols
  end.

Fixpoint text (l : list stmt) : string :=
  match l with [] => "" | x :: l => render x +:+ text l end.

(** The ids that are declared, in the order of the text. *)
Definition declared (l : list stmt) : list Z :=
  omap (fun x => match x with Box i _ _ | Ellipse i _ => Some i | _ => None end) l.

Definition is_edge (x : stmt) : bool := match x with Dashed _ _ | Arrow _ _ _ => true | _ => false end.

Definition edges (l : list stmt) : list stmt := List.filter is_edge l.

Definition reads_base (c : Column) : bool := match is_base c with Some _ => true | None => false end.

Lemma text_app a b : text (a ++ b) = text a +:+ text b.
Proof. induction a as [|x a IH]; [done|]. simpl. by rewrite IH string_app_assoc. Qed.

Lemma declared_app a b : declared (a ++ b) = declared a ++ declared b.
Proof. apply omap_app. Qed.

Lemma edges_app a b : edges (a ++ b) = edges a ++ edges b.
Proof. apply List.filter_app. Qed.

Section graph.
Variable h : list PhysicalPlanNode.

(** The dashed edges and the arrows of a node; a missing end is [None]. *)
Definition dashes (keys : gmap string Z) (i : Z) (cols : list Column) : list (option stmt) :=
  map (fun c => Dashed i <$> keys !! col_key c) (List.filter reads_base cols).

Definition arrows (num : gmap nat Z) (i : Z) (ch : list (option paddr)) : list (option stmt) :=
  map (fun c => m ← h !! c; j ← num !! c; Some (Arrow i j (p_result_columns m))) (omap id ch).

(** The edges that belong to a statement. *)
Definition owed (num : gmap nat Z) (keys : gmap string Z) (x : stmt) : list (option stmt) :=
  match x with
  | Box i _ n => dashes keys i (p_base_columns n) ++ arrows num i (p_children n)
  | _ => []
  end.

Definition all_owed num keys (l : list stmt) : list (option stmt) := concat (map (owed num keys) l).

Lemma all_owed_app num keys a b : all_owed num keys (a ++ b) = all_owed num keys a ++ all_owed num keys b.
Proof. by rewrite /all_owed List.map_app List.concat_app. Qed.

(** Edges still to be drawn, given the ids of nodes and columns. *)
Definition debt : Type := gmap nat Z -> gmap string Z -> list (option stmt).

(** From [v] to [v'] the statements [new] were written; their boxes are
    reachable from [rs]; their edges are those of their boxes and [D]. *)
Record drawn (rs : list paddr) (D : debt) (v v' : visualizer) (new : list stmt) : Prop := {
  d_text : stream v' = stream v +:+ text new;
  d_le : (node_id_counter v <= node_id_counter v')%Z;
  d_ids : declared new = seqZ (node_id_counter v) (node_id_counter v' - node_id_counter v);
  d_box : forall a i, visited_nodes v' !! a = Some i <-> visited_nodes v !! a = Some i \/ exists n, Box i a n ∈ new;
  d_fresh : forall a i n, Box i a n ∈ new -> visited_nodes v !! a = None /\ h !! a = Some n;
  d_col : forall k i, base_col_node_ids v' !! k = Some i <-> base_col_node_ids v !! k = Some i \/ Ellipse i k ∈ new;
  d_col_fresh : forall k i, Ellipse i k ∈ new -> base_col_node_ids v !! k = None;
  d_used : forall k i, Ellipse i k ∈ new -> exists j, Dashed j i ∈ new;
  d_reach : forall a i n, Box i a n ∈ new -> exists r, r ∈ rs /\ reach h r a;
  d_edges : forall num keys, visited_nodes v' ⊆ num -> base_col_node_ids v' ⊆ keys ->
    map Some (edges new) ≡ₚ D num keys ++ all_owed num keys new;
}.

Lemma drawn_visited rs D v v' new : drawn rs D v v' new -> visited_nodes v ⊆ visited_nodes v'.
Proof. intros H. apply map_subseteq_spec. intros a i Ha. apply (d_box _ _ _ _ _ H). by left. Qed.

Lemma drawn_columns rs D v v' new : drawn rs D v v' new -> base_col_node_ids v ⊆ base_col_node_ids v'.
Proof. intros H. apply map_subseteq_spec. intros k i Hk. apply (d_col _ _ _ _ _ H). by left. Qed.

Lemma drawn_nil v : drawn [] (fun _ _ => []) v v [].
Proof.
  split; simpl; try done; try (intros; set_solver).
  - by rewrite string_app_nil.
  - by rewrite Z.sub_diag.
Qed.

Lemma edges_compose num keys (D1 D2 : list (option stmt)) n1 n2 :
  map Some (edges n1) ≡ₚ D1 ++ all_owed num keys n1 -> map Some (edges n2) ≡ₚ D2 ++ all_owed num keys n2 ->
  map Some (edges (n1 ++ n2)) ≡ₚ (D1 ++ D2) ++ all_owed num keys (n1 ++ n2).
Proof.
  intros H1 H2. rewrite edges_app List.map_app all_owed_app H1 H2.
  rewrite -!app_assoc. apply Permutation_app_head. rewrite !app_assoc. apply Permutation_app_tail.
  apply Permutation_app_comm.
Qed.

Lemma drawn_app r1 r2 D1 D2 v v1 v2 n1 n2 : drawn r1 D1 v v1 n1 -> drawn r2 D2 v1 v2 n2 ->
  drawn (r1 ++ r2) (fun num keys => D1 num keys ++ D2 num keys) v v2 (n1 ++ n2).
Proof.
  intros H1 H2. pose proof (drawn_visited _ _ _ _ _ H2) as S1. pose proof (drawn_columns _ _ _ _ _ H2) as S2.
  pose proof (drawn_visited _ _ _ _ _ H1) as T1. pose proof (drawn_columns _ _ _ _ _ H1) as T2.
  destruct H1 as [X1 L1 I1 B1 F1 C1 G1 U1 R1 E1], H2 as [X2 L2 I2 B2 F2 C2 G2 U2 R2 E2]. split.
  - by rewrite X2 X1 text_app string_app_assoc.
  - lia.
  - rewrite declared_app I1 I2.
    replace (node_id_counter v2 - node_id_counter v)%Z
      with ((node_id_counter v1 - node_id_counter v) + (node_id_counter v2 - node_id_counter v1))%Z by lia.
    rewrite seqZ_app; [|lia|lia]. do 2 f_equal. lia.
  - intros a i. rewrite B2 B1. setoid_rewrite elem_of_app. naive_solver.
  - intros a i n [Hn|Hn]%elem_of_app; [by eapply F1|]. destruct (F2 a i n Hn) as [Ha Hh]. split; [|done].
    destruct (visited_nodes v !! a) eqn:Hv; [|done]. rewrite (lookup_weaken _ _ _ _ Hv T1) in Ha. done.
  - intros k i. rewrite C2 C1 elem_of_app. tauto.
  - intros k i [Hn|Hn]%elem_of_app; [by eapply G1|]. pose proof (G2 k i Hn) as Ha.
    destruct (base_col_node_ids v !! k) eqn:Hv; [|done]. rewrite (lookup_weaken _ _ _ _ Hv T2) in Ha. done.
  - intros k i [Hn|Hn]%elem_of_app; [destruct (U1 k i Hn) as [j Hj]|destruct (U2 k i Hn) as [j Hj]];
      exists j; apply elem_of_app; auto.
  - intros a i n [Hn|Hn]%elem_of_app; [destruct (R1 a i n Hn) as (r & ? & ?)|destruct (R2 a i n Hn) as (r & ? & ?)];
      exists r; (split; [apply elem_of_app; auto|done]).
  - intros num keys Hnum Hkeys. apply edges_compose; [apply E1|by apply E2]; by etrans.
Qed.

(** ** The state *)

(** The base columns of the plan. *)
Definition base_keys : gset string :=
  list_to_set (map col_key (List.filter reads_base (concat (map p_base_columns h)))).

(** The counter counts the ids handed out, so it stays small. *)
Record VInv (v : visualizer) : Prop := {
  v_count : node_id_counter v = Z.of_nat (size (visited_nodes v) + size (base_col_node_ids v));
  v_nodes : forall a i, visited_nodes v !! a = Some i -> a < length h /\ (0 <= i)%Z;
  v_cols : dom (base_col_node_ids v) ⊆ base_keys;
}.

Lemma nodes_room v a : VInv v -> visited_nodes v !! a = None -> a < length h -> size (visited_nodes v) < length h.
Proof.
  intros [_ Hn _] Ha Hl. rewrite -size_dom.
  assert ({[a]} ∪ dom (visited_nodes v) ⊆ (list_to_set (seq 0 (length h)) : gset nat)) as Hs.
  { intros b [->%elem_of_singleton|[i Hi]%elem_of_dom]%elem_of_union; apply elem_of_list_to_set, elem_of_seq; [lia|].
    apply Hn in Hi. lia. }
  apply subseteq_size in Hs. rewrite size_union in Hs; [|apply disjoint_singleton_l; by apply not_elem_of_dom].
  rewrite size_singleton size_list_to_set in Hs; [|apply NoDup_ListNoDup, seq_NoDup]. rewrite length_seq in Hs. lia.
Qed.

Lemma cols_room v k : VInv v -> base_col_node_ids v !! k = None -> k ∈ base_keys ->
  size (base_col_node_ids v) < size base_keys.
Proof.
  intros [_ _ Hc] Hk Hin. rewrite -size_dom.
  assert ({[k]} ∪ dom (base_col_node_ids v) ⊆ base_keys) as Hs by (apply union_least; [by apply singleton_subseteq_l|done]).
  apply subseteq_size in Hs. rewrite size_union in Hs; [|apply disjoint_singleton_l; by apply not_elem_of_dom].
  rewrite size_singleton in Hs. lia.
Qed.

Lemma nodes_bound v : VInv v -> size (visited_nodes v) <= length h.
Proof.
  intros [_ Hn _]. rewrite -size_dom.
  assert (dom (visited_nodes v) ⊆ (list_to_set (seq 0 (length h)) : gset nat)) as Hs.
  { intros b [i Hi]%elem_of_dom. apply elem_of_list_to_set, elem_of_seq. apply Hn in Hi. lia. }
  apply subseteq_size in Hs. rewrite size_list_to_set in Hs; [|apply NoDup_ListNoDup, seq_NoDup].
  by rewrite length_seq in Hs.
Qed.

Lemma cols_bound v : VInv v -> size (base_col_node_ids v) <= size base_keys.
Proof. intros [_ _ Hc]. rewrite -size_dom. by apply subseteq_size. Qed.

Lemma next_id_ok v : (node_id_counter v < INT_MAX)%Z ->
  next_id v = Ok (node_id_counter v,
    mkVis (node_id_counter v + 1) (visited_nodes v) (base_col_node_ids v) (stream v)).
Proof. intros H. rewrite /next_id. by destruct (Z.leb_spec INT_MAX (node_id_counter v)); [lia|]. Qed.

(** ** Parts of the traversal *)

(** A part of the traversal draws the edges [D] and nodes below [rs]. *)
Definition part {A} (m : ST visualizer A) (rs : list paddr) (D : debt) (post : A -> visualizer -> Prop) : Prop :=
  forall v, VInv v -> exists x v' new, m v = Ok (x, v') /\ drawn rs D v v' new /\ VInv v' /\ post x v'.

Lemma part_mapM {A} (f : A -> ST visualizer unit) (rs : A -> list paddr) (D : A -> debt) l :
  (forall x, x ∈ l -> part (f x) (rs x) (D x) (fun _ _ => True)) ->
  part (mapM f l) (concat (map rs l)) (fun num keys => concat (map (fun x => D x num keys) l)) (fun _ _ => True).
Proof.
  induction l as [|x l IH]; intros Hf v Hv; cbn [mapM map concat].
  - exists [], v, []. split_and!; [done|apply drawn_nil|done|done].
  - destruct (Hf x ltac:(by left) v Hv) as (y & v1 & n1 & E1 & H1 & Hv1 & _).
    destruct (IH ltac:(intros; apply Hf; by right) v1 Hv1) as (ys & v2 & n2 & E2 & H2 & Hv2 & _).
    exists (y :: ys), v2, (n1 ++ n2). split_and!; [|by eapply drawn_app|done|done].
    rewrite /mbind /ST_bind E1 E2. done.
Qed.

(** One column of a node. *)
Definition column_part (i : Z) (col : Column) : ST visualizer unit :=
  match is_base col with
  | None => mret tt
  | Some _ => id ← column_id (col_key col); write (column_edge_line i id)
  end.

Lemma drawn_edge v i k j : base_col_node_ids v !! k = Some j ->
  drawn [] (fun _ keys => [Dashed i <$> keys !! k]) v
    (mkVis (node_id_counter v) (visited_nodes v) (base_col_node_ids v) (stream v +:+ column_edge_line i j)) [Dashed i j].
Proof.
  intros Hk. split; simpl; try done; try (intros; set_solver).
  - by rewrite string_app_nil.
  - by rewrite Z.sub_diag.
  - intros num keys _ Hs. rewrite (lookup_weaken _ _ _ _ Hk Hs). done.
Qed.

Lemma drawn_ellipse v i k : base_col_node_ids v !! k = None ->
  drawn [] (fun _ keys => [Dashed i <$> keys !! k]) v
    (mkVis (node_id_counter v + 1) (visited_nodes v) (<[k := node_id_counter v]> (base_col_node_ids v))
      ((stream v +:+ column_line (node_id_counter v) k) +:+ column_edge_line i (node_id_counter v)))
    [Ellipse (node_id_counter v) k; Dashed i (node_id_counter v)].
Proof.
  intros Hk. split; simpl; try done; try (intros; set_solver).
  - by rewrite string_app_nil string_app_assoc.
  - lia.
  - replace (node_id_counter v + 1 - node_id_counter v)%Z with 1%Z by lia. done.
  - intros k' j. rewrite lookup_insert_Some. split.
    + intros [[<- <-]|[Hne Hj]]; [right; by left|by left].
    + intros [Hj|Hj]; [right; split; [congruence|done]|left]. set_solver.
  - intros num keys _ Hs. pose proof (lookup_insert_eq (base_col_node_ids v) k (node_id_counter v)) as Hi.
    by rewrite (lookup_weaken _ _ _ _ Hi Hs).
Qed.

Hypothesis Hsize : (Z.of_nat (length h + size base_keys) <= INT_MAX)%Z.

Lemma part_column i col : (reads_base col = true -> col_key col ∈ base_keys) ->
  part (column_part i col) [] (fun _ keys => dashes keys i [col]) (fun _ _ => True).
Proof.
  intros Hin v Hv. rewrite /column_part /dashes /=. rewrite /reads_base in Hin |- *.
  destruct (is_base col) as [b|]; [|by exists tt, v, []; split_and!; [|apply drawn_nil| |]].
  specialize (Hin eq_refl). rewrite /column_id /mbind /ST_bind /get.
  destruct (base_col_node_ids v !! col_key col) as [j|] eqn:Hk.
  - eexists tt, _, _. split_and!; [done|by apply drawn_edge| |done].
    destruct Hv. by split.
  - pose proof (cols_room _ _ Hv Hk Hin) as Hr. pose proof (nodes_bound _ Hv) as Hn.
    rewrite next_id_ok; [|rewrite (v_count _ Hv); lia].
    eexists tt, _, _. split_and!; [done|by apply drawn_ellipse| |done].
    destruct Hv as [Hc Hvn Hvc]. split; simpl.
    + rewrite map_size_insert_None // Hc. lia.
    + done.
    + rewrite dom_insert. apply union_least; [by apply singleton_subseteq_l|done].
Qed.

Lemma dashes_concat keys i cols : concat (map (fun c => dashes keys i [c]) cols) = dashes keys i cols.
Proof.
  induction cols as [|c cols IH]; [done|]. cbn [map concat]. rewrite IH /dashes /=. by destruct (reads_base c).
Qed.

Lemma concat_nil {A B} (l : list A) : concat (map (fun _ => @nil B) l) = [].
Proof. by induction l. Qed.

Lemma part_columns i cols : (forall c, c ∈ cols -> reads_base c = true -> col_key c ∈ base_keys) ->
  part (draw_columns i cols) [] (fun _ keys => dashes keys i cols) (fun _ _ => True).
Proof.
  intros Hin v Hv. pose proof (part_mapM (column_part i) (fun _ => []) (fun c _ keys => dashes keys i [c]) cols
    (fun c Hc => part_column i c (Hin c Hc)) v Hv) as (ys & v' & new & E & H & Hv' & _).
  exists tt, v', new. rewrite /draw_columns -/(column_part i) /mbind /ST_bind. setoid_rewrite E. split_and!; [done| |done|done].
  rewrite concat_nil in H. destruct H. split; try done.
  intros num keys Hn Hk. rewrite (d_edges0 num keys Hn Hk) dashes_concat. done.
Qed.

(** A node with what its columns and children have drawn. *)
Lemma drawn_node a n v v' rs l : visited_nodes v !! a = None -> h !! a = Some n ->
  (forall r, r ∈ rs -> Some r ∈ p_children n) ->
  drawn rs (fun num keys => owed num keys (Box (node_id_counter v) a n))
    (mkVis (node_id_counter v + 1) (<[a := node_id_counter v]> (visited_nodes v)) (base_col_node_ids v)
      (stream v +:+ node_line (node_id_counter v) n)) v' l ->
  drawn [a] (fun _ _ => []) v v' (Box (node_id_counter v) a n :: l).
Proof.
  intros Ha Hn Hrs [X L I B F C G U R E]; simpl in *. split; simpl.
  - by rewrite X string_app_assoc.
  - lia.
  - rewrite -/(declared l) I [in RHS]seqZ_cons; [|lia]. f_equal. f_equal; lia.
  - intros b i. rewrite B lookup_insert_Some. setoid_rewrite elem_of_cons. split.
    + intros [[[<- <-]|[? ?]]|[m Hm]]; [right; exists n; by left|by left|right; exists m; by right].
    + intros [Hv|[m [[= -> -> ->]|Hm]]]; [left; right; split; [congruence|done]|left; by left|right; by exists m].
  - intros b i m [[= -> -> ->]|Hm]%elem_of_cons; [done|]. destruct (F b i m Hm) as [Hb Hh]. split; [|done].
    by apply lookup_insert_None in Hb as [? _].
  - intros k i. rewrite C elem_of_cons. naive_solver.
  - intros k i [Hk|Hk]%elem_of_cons; [done|by eapply G].
  - intros k i [Hk|Hk]%elem_of_cons; [done|]. destruct (U k i Hk) as [j Hj]. exists j. by right.
  - intros b i m [[= -> -> ->]|Hm]%elem_of_cons; exists a; (split; [by left|]); [apply rtc_refl|].
    destruct (R b i m Hm) as (r & Hr & Hrb). eapply rtc_l; [|exact Hrb]. exists n. auto.
  - intros num keys Hnum Hkeys. exact (E num keys Hnum Hkeys).
Qed.

(** One child of a node. *)
Definition child_part (fuel : nat) (i : Z) (child : option paddr) : ST visualizer unit :=
  match child with
  | None => mret tt
  | Some c =>
      child_id ← traverse fuel h child;
      if (child_id <? 0)%Z then mret tt
      else m ← lift (store_node h c); write (edge_line i child_id (p_result_columns m))
  end.

Lemma arrows_concat num i ch : concat (map (fun o => arrows num i [o]) ch) = arrows num i ch.
Proof. induction ch as [|[c|] ch IH]; [done| |]; cbn [map concat]; by rewrite IH. Qed.

Lemma drawn_arrow v i c j m : visited_nodes v !! c = Some j -> h !! c = Some m ->
  drawn [] (fun num _ => arrows num i [Some c]) v
    (mkVis (node_id_counter v) (visited_nodes v) (base_col_node_ids v) (stream v +:+ edge_line i j (p_result_columns m)))
    [Arrow i j (p_result_columns m)].
Proof.
  intros Hc Hm. split; simpl; try done; try (intros; set_solver).
  - by rewrite string_app_nil.
  - by rewrite Z.sub_diag.
  - intros num keys Hs _. rewrite /arrows /= Hm /= (lookup_weaken _ _ _ _ Hc Hs). done.
Qed.

Lemma part_child fuel i o : (forall c, o = Some c -> c < length h /\
    part (traverse fuel h (Some c)) [c] (fun _ _ => []) (fun x v => visited_nodes v !! c = Some x)) ->
  part (child_part fuel i o) (option_list o) (fun num _ => arrows num i [o]) (fun _ _ => True).
Proof.
  intros Ho v Hv. destruct o as [c|]; [|by exists tt, v, []; split_and!; [|apply drawn_nil| |]].
  destruct (Ho c eq_refl) as [Hc Hp]. destruct (Hp v Hv) as (x & v1 & l & E & H & Hv1 & Hx).
  destruct (lookup_lt_is_Some_2 h c Hc) as [m Hm]. destruct (v_nodes _ Hv1 c x Hx) as [_ Hpos].
  eexists tt, _, _. split_and!; [|exact (drawn_app _ _ _ _ _ _ _ _ _ H (drawn_arrow v1 i c x m Hx Hm))| |done].
  - rewrite /child_part /mbind /ST_bind E. destruct (Z.ltb_spec x 0); [lia|]. rewrite /lift /store_node Hm. done.
  - destruct Hv1. by split.
Qed.

Lemma base_key_intro a n c : h !! a = Some n -> c ∈ p_base_columns n -> reads_base c = true -> col_key c ∈ base_keys.
Proof.
  intros Hn Hc Hb. apply elem_of_list_to_set, list_elem_of_fmap. exists c. split; [done|].
  apply list_elem_of_In, List.filter_In. split; [|done]. apply in_concat. exists (p_base_columns n).
  split; [|by apply list_elem_of_In]. apply in_map, list_elem_of_In. by eapply list_elem_of_lookup_2.
Qed.

Lemma VInv_box v a n : VInv v -> visited_nodes v !! a = None -> a < length h ->
  VInv (mkVis (node_id_counter v + 1) (<[a := node_id_counter v]> (visited_nodes v)) (base_col_node_ids v)
      (stream v +:+ node_line (node_id_counter v) n)).
Proof.
  intros [Hc Hvn Hvc] Ha Hl. split; simpl; [| |done].
  - rewrite map_size_insert_None // Hc. lia.
  - intros b i [[<- <-]|[_ Hb]]%lookup_insert_Some; [lia|by apply Hvn].
Qed.

Lemma part_traverse (Hac : acyclic h) fuel : forall a, a < fuel -> a < length h ->
  part (traverse fuel h (Some a)) [a] (fun _ _ => []) (fun x v => visited_nodes v !! a = Some x).
Proof.
  induction fuel as [|fuel IH]; intros a Hf Ha v Hv; [lia|]. cbn [traverse]. rewrite {1}/mbind {1}/ST_bind /get.
  destruct (visited_nodes v !! a) as [x|] eqn:Hva.
  { exists x, v, []. split_and!; [done| |done|done]. pose proof (drawn_nil v) as []. split; try done. set_solver. }
  destruct (lookup_lt_is_Some_2 h a Ha) as [n Hn].
  pose proof (nodes_room _ _ Hv Hva Ha) as Hr. pose proof (cols_bound _ Hv) as Hb.
  pose proof (VInv_box v a n Hv Hva Ha) as Hv1. set (v1 := mkVis _ _ _ _) in Hv1.
  destruct (part_columns (node_id_counter v) (p_base_columns n) (fun c Hc => base_key_intro a n c Hn Hc) v1 Hv1)
    as (y & v2 & l1 & E1 & H1 & Hv2 & _).
  destruct (part_mapM (child_part fuel (node_id_counter v)) option_list (fun o num _ => arrows num (node_id_counter v) [o])
    (p_children n)) with (v := v2) as (ys & v3 & l2 & E2 & H2 & Hv3 & _); [|done|].
  { intros o Ho. apply part_child. intros c ->. pose proof (Hac a n c Hn Ho). split; [lia|]. apply IH; lia. }
  assert (drawn [a] (fun _ _ => []) v v3 (Box (node_id_counter v) a n :: l1 ++ l2)) as H.
  { eapply drawn_node; [done|done| |].
    2:{ pose proof (drawn_app _ _ _ _ _ _ _ _ _ H1 H2) as []. split; try done.
        intros num keys Hnum Hkeys. rewrite (d_edges0 num keys Hnum Hkeys) arrows_concat. done. }
    intros r Hin. apply list_elem_of_In, in_concat in Hin as (? & Hx & Hin). apply in_map_iff in Hx as (o & <- & Ho).
    destruct o as [c|]; [|done]. destruct Hin as [->|[]]. by apply list_elem_of_In. }
  eexists _, v3, _. split_and!; [|exact H|done|].
  - rewrite /mbind /ST_bind next_id_ok; [|rewrite (v_count _ Hv); lia].
    rewrite /mark_visited /modify /lift /store_node Hn /write /modify /=. fold v1. rewrite E1.
    setoid_rewrite E2. done.
  - apply (d_box _ _ _ _ _ H). right. exists n. by left.
Qed.

End graph.
