(* ===== verification/GraphvizLogicalInv.v ===== *)
(** * The graph of a logical plan

    The visualizer's counter and table of visited nodes against a numbering
    that needs neither: the nodes of the tree in preorder. *)

From S2P Require Import Prelude PlanTypes PlanPrint Graphviz GraphvizLogical.

Import LogicalVisualizer.

Inductive lstmt : Set :=
  | LBox (id : Z) (n : LogicalPlanNode)
  | LArrow (from to : Z) (cols : list Column).

Definition lrender (x : lstmt) : string :=
  match x with LBox i n => node_line i n | LArrow i j cols => edge_line i j cols end.

Fixpoint ltext (l : list lstmt) : string :=
  match l with [] => "" | x :: l => lrender x +:+ ltext l end.

Lemma ltext_app a b : ltext (a ++ b) = ltext a +:+ ltext b.
Proof. induction a as [|x a IH]; [done|]. simpl. by rewrite IH string_app_assoc. Qed.

Fixpoint plan_size (n : LogicalPlanNode) : nat :=
  S (list_sum (map (fun o => match o with Some c => plan_size c | None => 0 end) (children n))).

Definition sizes (ch : list (option LogicalPlanNode)) : nat :=
  list_sum (map (fun o => match o with Some c => plan_size c | None => 0 end) ch).

Lemma plan_size_unfold n : plan_size n = S (sizes (children n)).
Proof. by destruct n. Qed.

Fixpoint no_nulls (n : LogicalPlanNode) : bool :=
  forallb (fun o => match o with Some c => no_nulls c | None => false end) (children n).

(** The statements for a plan whose root gets the id [i]. *)
Fixpoint graph (n : LogicalPlanNode) (i : Z) : list lstmt :=
  LBox i n ::
  (fix kids (j : Z) (ch : list (option LogicalPlanNode)) : list lstmt :=
     match ch with
     | [] => []
     | None :: ch => kids j ch
     | Some c :: ch => graph c j ++ LArrow i j (projected_columns c) :: kids (j + Z.of_nat (plan_size c))%Z ch
     end) (i + 1)%Z (children n).

Fixpoint kids (i j : Z) (ch : list (option LogicalPlanNode)) : list lstmt :=
  match ch with
  | [] => []
  | None :: ch => kids i j ch
  | Some c :: ch => graph c j ++ LArrow i j (projected_columns c) :: kids i (j + Z.of_nat (plan_size c))%Z ch
  end.

Lemma graph_unfold n i : graph n i = LBox i n :: kids i (i + 1) (children n).
Proof.
  destruct n as [ty st bc ex pc ch]. cbn [graph children]. f_equal. generalize (i + 1)%Z.
  induction ch as [|[c|] ch IH]; intros j; simpl; [done|by rewrite IH|done].
Qed.

(** The loop over the children of [traverse]. *)
Fixpoint walk_children (i : Z) (a : list nat) (k : nat) (ch : list (option LogicalPlanNode)) : ST visualizer unit :=
  match ch with
  | [] => mret tt
  | None :: _ => raise (Undef "null child")
  | Some c :: ch =>
      child_id ← traverse c (k :: a);
      _ ← write (edge_line i child_id (projected_columns c));
      walk_children i a (S k) ch
  end.

Lemma walk_children_unfold (i : Z) (a : list nat) ch k :
  (fix walk_children (k : nat) (ch : list (option LogicalPlanNode)) : ST visualizer unit :=
     match ch with
     | [] => mret tt
     | None :: _ => raise (Undef "null child")
     | Some c :: ch =>
         child_id ← traverse c (k :: a);
         _ ← write (edge_line i child_id (projected_columns c));
         walk_children (S k) ch
     end) k ch = walk_children i a k ch.
Proof. revert k. induction ch as [|[c|] ch IH]; intros k; [done| |done]. simpl. by rewrite IH. Qed.

Lemma traverse_new n a v : visited_nodes v !! a = None -> (node_id_counter v < INT_MAX)%Z ->
  traverse n a v =
    (_ ← walk_children (node_id_counter v) a 0 (children n); mret (node_id_counter v))
      (mkVis (node_id_counter v + 1) (<[a := node_id_counter v]> (visited_nodes v)) (stream v +:+ node_line (node_id_counter v) n)).
Proof.
  intros Ha Hc. destruct n as [ty st bc ex pc ch]. cbn [traverse children]. rewrite {1}/mbind {1}/ST_bind /get Ha.
  rewrite {1}/mbind {1}/ST_bind /next_id. destruct (Z.leb_spec INT_MAX (node_id_counter v)); [lia|].
  rewrite /mbind /ST_bind. simpl. by rewrite walk_children_unfold.
Qed.

(** A walk below the address [a] writes [l], hands out [k] ids and visits
    only addresses below [a]. *)
Record drew (a : list nat) (v v' : visualizer) (k : nat) (l : list lstmt) : Prop := {
  w_count : node_id_counter v' = (node_id_counter v + Z.of_nat k)%Z;
  w_text : stream v' = stream v +:+ ltext l;
  w_frame : forall b, ~ a `suffix_of` b -> visited_nodes v' !! b = visited_nodes v !! b;
}.

Lemma suffix_child (a b : list nat) k : (k :: a) `suffix_of` b -> a `suffix_of` b.
Proof. intros [p ->]. exists (p ++ [k]). by rewrite -app_assoc. Qed.

Lemma suffix_siblings (a b : list nat) k k' : (k :: a) `suffix_of` b -> (k' :: a) `suffix_of` b -> k = k'.
Proof.
  intros [p ->] [q Hq]. change (k :: a) with ([k] ++ a) in Hq. change (k' :: a) with ([k'] ++ a) in Hq.
  rewrite !app_assoc in Hq. apply app_inv_tail in Hq. by apply app_inj_tail in Hq as [_ ->].
Qed.

Lemma suffix_not_self (a : list nat) k : ~ (k :: a) `suffix_of` a.
Proof. intros [p H]. apply (f_equal length) in H. rewrite length_app /= in H. lia. Qed.

(** Nothing below [a] has been visited. *)
Definition unvisited (a : list nat) (v : visualizer) : Prop := forall b, a `suffix_of` b -> visited_nodes v !! b = None.

Lemma walk_children_draws i a ch :
  (forall c, Some c ∈ ch -> forall p v, unvisited p v -> (node_id_counter v + Z.of_nat (plan_size c) <= INT_MAX)%Z ->
    exists v', traverse c p v = Ok (node_id_counter v, v') /\ drew p v v' (plan_size c) (graph c (node_id_counter v))) ->
  None ∉ ch -> forall k v, (forall k', k <= k' -> unvisited (k' :: a) v) ->
  (node_id_counter v + Z.of_nat (sizes ch) <= INT_MAX)%Z ->
  exists v', walk_children i a k ch v = Ok (tt, v') /\ drew a v v' (sizes ch) (kids i (node_id_counter v) ch).
Proof.
  induction ch as [|[c|] ch IH]; intros Hc Hnull k v Hv Hs; [| |by destruct Hnull; left].
  - change (sizes []) with 0. exists v. split; [done|]. split; simpl; [lia|by rewrite string_app_nil|done].
  - change (sizes (Some c :: ch)) with (plan_size c + sizes ch) in *. cbn [walk_children kids].
    destruct (Hc c ltac:(by left) (k :: a) v (Hv k ltac:(lia)) ltac:(lia)) as (v1 & E1 & [C1 T1 F1]).
    set (v2 := mkVis (node_id_counter v1) (visited_nodes v1) (stream v1 +:+ edge_line i (node_id_counter v) (projected_columns c))).
    destruct (IH ltac:(intros c' Hc'; apply Hc; by right) ltac:(set_solver) (S k) v2) as (v3 & E3 & [C3 T3 F3]).
    { intros k' Hk b Hb. simpl. rewrite F1; [by apply (Hv k'); [lia|]|]. intros Hb'.
      pose proof (suffix_siblings _ _ _ _ Hb Hb'). lia. }
    { simpl. rewrite C1. lia. }
    exists v3. split; [rewrite /mbind /ST_bind E1; exact E3|]. simpl in C3, T3, F3. split.
    + lia.
    + rewrite T3 T1 C1 ltext_app. cbn [ltext lrender]. by rewrite !string_app_assoc.
    + intros b Hb. rewrite F3; [|done]. apply F1. intros Hb'. by apply Hb, (suffix_child _ _ k).
Qed.

Lemma no_nulls_children n : no_nulls n = true -> None ∉ children n /\ forall c, Some c ∈ children n -> no_nulls c = true.
Proof.
  destruct n as [ty st bc ex pc ch]. cbn [no_nulls children]. rewrite forallb_Some. intros (cs & -> & Hcs). split.
  - intros (x & ? & ?)%list_elem_of_fmap. done.
  - intros c Hc. apply Hcs. exact (proj1 (elem_of_map_Some c cs) Hc).
Qed.

(** The traversal draws the plan in preorder. *)
Lemma traverse_draws n : no_nulls n = true -> forall a v, unvisited a v ->
  (node_id_counter v + Z.of_nat (plan_size n) <= INT_MAX)%Z ->
  exists v', traverse n a v = Ok (node_id_counter v, v') /\ drew a v v' (plan_size n) (graph n (node_id_counter v)).
Proof.
  induction n as [n IH] using LogicalPlanNode_child_ind. intros [Hnull Hch]%no_nulls_children a v Hv Hs.
  rewrite plan_size_unfold graph_unfold in Hs |- *.
  assert (visited_nodes v !! a = None) as Ha by (apply Hv; by exists []).
  rewrite traverse_new; [|done|lia]. set (v1 := mkVis _ _ _).
  destruct (walk_children_draws (node_id_counter v) a (children n) (fun c Hc => IH c Hc (Hch c Hc)) Hnull 0 v1)
    as (v2 & E & [C T F]).
  { intros k _ b Hb. simpl. rewrite lookup_insert_ne; [by apply Hv, (suffix_child _ _ k)|].
    intros <-. by apply suffix_not_self in Hb. }
  { simpl. lia. }
  exists v2. split; [by rewrite /mbind /ST_bind E|]. simpl in C, T, F. split.
  - lia.
  - rewrite T. cbn [ltext lrender]. by rewrite string_app_assoc.
  - intros b Hb. rewrite F; [|done]. apply lookup_insert_ne. intros <-. apply Hb. by exists [].
Qed.

(** ** The graph as a tree *)

Definition lboxes (l : list lstmt) : list (Z * LogicalPlanNode) :=
  omap (fun x => match x with LBox i n => Some (i, n) | _ => None end) l.

(** The arrows as parent id, child id and label. *)
Definition larrows (l : list lstmt) : list (Z * Z * list Column) :=
  omap (fun x => match x with LArrow i j cols => Some (i, j, cols) | _ => None end) l.

(** The nodes of a plan in preorder. *)
Fixpoint nodes (n : LogicalPlanNode) : list LogicalPlanNode :=
  n :: concat (map (fun o => match o with Some c => nodes c | None => [] end) (children n)).

Definition nodes_of (ch : list (option LogicalPlanNode)) : list LogicalPlanNode :=
  concat (map (fun o => match o with Some c => nodes c | None => [] end) ch).

Lemma nodes_unfold n : nodes n = n :: nodes_of (children n).
Proof. by destruct n. Qed.

Lemma length_nodes n : length (nodes n) = plan_size n.
Proof.
  induction n as [n IH] using LogicalPlanNode_child_ind. rewrite nodes_unfold plan_size_unfold /=. f_equal.
  revert IH. induction (children n) as [|[c|] ch IHch]; intros IH; [done| |].
  - change (nodes_of (Some c :: ch)) with (nodes c ++ nodes_of ch).
    change (sizes (Some c :: ch)) with (plan_size c + sizes ch). rewrite length_app IH; [|by left].
    rewrite IHch; [done|]. intros c' Hc'. apply IH. by right.
  - apply IHch. intros c' Hc'. apply IH. by right.
Qed.

Lemma zip_app_seqZ {A} (l1 l2 : list A) j k1 k2 : length l1 = k1 ->
  zip (seqZ j (Z.of_nat (k1 + k2))) (l1 ++ l2) =
  zip (seqZ j (Z.of_nat k1)) l1 ++ zip (seqZ (j + Z.of_nat k1) (Z.of_nat k2)) l2.
Proof.
  intros <-. rewrite Nat2Z.inj_add seqZ_app; [|lia|lia]. rewrite zip_with_app; [done|]. rewrite length_seqZ. lia.
Qed.

Lemma seqZ_S j k : seqZ j (Z.of_nat (S k)) = j :: seqZ (j + 1) (Z.of_nat k).
Proof. rewrite seqZ_cons; [|lia]. f_equal. f_equal; lia. Qed.

Lemma lboxes_app a b : lboxes (a ++ b) = lboxes a ++ lboxes b.
Proof. apply omap_app. Qed.

Lemma larrows_app a b : larrows (a ++ b) = larrows a ++ larrows b.
Proof. apply omap_app. Qed.

(** Ids are positions in preorder. *)
Lemma graph_preorder n : forall i, lboxes (graph n i) = zip (seqZ i (Z.of_nat (plan_size n))) (nodes n).
Proof.
  induction n as [n IH] using LogicalPlanNode_child_ind. intros i.
  rewrite graph_unfold plan_size_unfold nodes_unfold seqZ_S. cbn [zip zip_with].
  change (lboxes (LBox i n :: kids i (i + 1) (children n))) with ((i, n) :: lboxes (kids i (i + 1) (children n))). f_equal.
  revert IH. generalize (i + 1)%Z. induction (children n) as [|[c|] ch IHch]; intros j IH; [done| |].
  - cbn [kids]. rewrite lboxes_app IH; [|by left].
    change (nodes_of (Some c :: ch)) with (nodes c ++ nodes_of ch).
    change (sizes (Some c :: ch)) with (plan_size c + sizes ch). rewrite zip_app_seqZ; [|apply length_nodes].
    f_equal. apply (IHch (j + Z.of_nat (plan_size c))%Z). intros c' Hc'. apply IH. by right.
  - apply IHch. intros c' Hc'. apply IH. by right.
Qed.

(** Every node but the root is the target of exactly one arrow. *)
Lemma graph_targets n : forall i, i :: map (fun x => x.1.2) (larrows (graph n i)) ≡ₚ seqZ i (Z.of_nat (plan_size n)).
Proof.
  induction n as [n IH] using LogicalPlanNode_child_ind. intros i. rewrite graph_unfold plan_size_unfold seqZ_S.
  apply Permutation_cons; [done|].
  change (larrows (LBox i n :: kids i (i + 1) (children n))) with (larrows (kids i (i + 1) (children n))).
  revert IH. generalize (i + 1)%Z. induction (children n) as [|[c|] ch IHch]; intros j IH; [done| |].
  - cbn [kids]. change (sizes (Some c :: ch)) with (plan_size c + sizes ch).
    rewrite Nat2Z.inj_add seqZ_app; [|lia|lia]. rewrite -(IH c); [|by left].
    rewrite -(IHch (j + Z.of_nat (plan_size c))%Z); [|intros c' Hc'; apply IH; by right].
    rewrite larrows_app List.map_app. simpl. by rewrite -Permutation_middle.
  - apply IHch. intros c' Hc'. apply IH. by right.
Qed.

(** An arrow leads from a node to one of its children. *)
Definition arrow_ok (bs : list (Z * LogicalPlanNode)) (x : Z * Z * list Column) : Prop :=
  exists p c, (x.1.1, p) ∈ bs /\ (x.1.2, c) ∈ bs /\ Some c ∈ children p /\ x.2 = projected_columns c.

Lemma arrow_ok_mono bs bs' x : bs ⊆ bs' -> arrow_ok bs x -> arrow_ok bs' x.
Proof. intros Hs (p & c & ? & ? & ? & ?). exists p, c. split_and!; auto. Qed.

Lemma graph_arrows n : forall i x, x ∈ larrows (graph n i) -> arrow_ok (lboxes (graph n i)) x.
Proof.
  induction n as [n IH] using LogicalPlanNode_child_ind. intros i. rewrite graph_unfold.
  change (larrows (LBox i n :: kids i (i + 1) (children n))) with (larrows (kids i (i + 1) (children n))).
  change (lboxes (LBox i n :: kids i (i + 1) (children n))) with ((i, n) :: lboxes (kids i (i + 1) (children n))).
  assert (forall ch, (forall c, Some c ∈ ch -> Some c ∈ children n) -> forall j x, x ∈ larrows (kids i j ch) ->
    arrow_ok ((i, n) :: lboxes (kids i j ch)) x) as H; [|by apply H].
  induction ch as [|[c|] ch IHch]; intros Hch j x Hx; [by apply not_elem_of_nil in Hx| |].
  - cbn [kids] in Hx |- *. rewrite larrows_app in Hx. rewrite lboxes_app. apply elem_of_app in Hx as [Hx|Hx].
    + eapply arrow_ok_mono; [|eapply (IH c); [apply Hch; by left|exact Hx]]. set_solver.
    + apply elem_of_cons in Hx as [->|Hx].
      * exists n, c. simpl. split_and!; [by left| |apply Hch; by left|done]. right. apply elem_of_app. left.
        rewrite graph_unfold. by left.
      * eapply arrow_ok_mono; [|eapply IHch; [intros c' Hc'; apply Hch; by right|exact Hx]]. set_solver.
  - apply IHch; [|done]. intros c' Hc'. apply Hch. by right.
Qed.
