(* ===== verification/Html.v ===== *)
(** * Reading the labels back

    What a reader of the written text does: [html_run] checks the markup of an
    HTML-like label (tags nest and are closed, entities are known, quotes of
    attribute values match), [html_decode] replaces the entities of a text, and
    [read_quoted] finds the end of a quoted string of the DOT language, in
    which a backslash protects the character after it. *)

From S2P Require Import Prelude PlanTypes PlanPrint Graphviz GraphvizLogical.

(** ** Markup *)

Inductive mode : Set :=
  | Txt                       (* text *)
  | Ent (name : string)       (* after an ampersand *)
  | Tag                       (* after an opening angle *)
  | Open (name : string)      (* in the name of an opening tag *)
  | Attr (name : string)      (* in its attributes *)
  | Val (name : string)       (* in a quoted attribute value *)
  | Void (name : string)      (* after the slash of an empty tag *)
  | Close (name : string).    (* in the name of a closing tag *)

Definition is_letter (c : ascii) : bool :=
  let n := nat_of_ascii c in (97 <=? n) && (n <=? 122).

Definition add (s : string) (c : ascii) : string := s +:+ String c EmptyString.

Definition entity (name : string) : option string :=
  if name =s "amp" then Some "&"
  else if name =s "lt" then Some "<"
  else if name =s "gt" then Some ">"
  else if name =s "quot" then Some (String dquote EmptyString)
  else if name =s "#39" then Some "'"
  else if name =s "le" then Some "<="
  else if name =s "ge" then Some ">="
  else None.

Definition container (name : string) : bool := existsb (String.eqb name) ["b"; "i"; "font"].
Definition void (name : string) : bool := name =s "br".

(** One character; the list holds the tags that are open. *)
Definition html_step (st : list string * mode) (c : ascii) : option (list string * mode) :=
  let '(open, m) := st in
  match m with
  | Txt =>
      if Ascii.eqb c "&" then Some (open, Ent "") else if Ascii.eqb c "<" then Some (open, Tag)
      else if Ascii.eqb c ">" then None else Some (open, Txt)
  | Ent name =>
      if Ascii.eqb c ";" then match entity name with Some _ => Some (open, Txt) | None => None end
      else Some (open, Ent (add name c))
  | Tag =>
      if Ascii.eqb c "/" then Some (open, Close "")
      else if is_letter c then Some (open, Open (add "" c)) else None
  | Open name | Attr name =>
      if Ascii.eqb c ">" then if container name then Some (name :: open, Txt) else None
      else if Ascii.eqb c "/" then Some (open, Void name)
      else match m with
           | Open _ => if Ascii.eqb c " " then Some (open, Attr name)
                       else if is_letter c then Some (open, Open (add name c)) else None
           | _ => if Ascii.eqb c "'" then Some (open, Val name)
                  else if Ascii.eqb c "<" || Ascii.eqb c "&" then None else Some (open, Attr name)
           end
  | Val name =>
      if Ascii.eqb c "'" then Some (open, Attr name)
      else if Ascii.eqb c "<" || Ascii.eqb c "&" then None else Some (open, Val name)
  | Void name => if Ascii.eqb c ">" && void name then Some (open, Txt) else None
  | Close name =>
      if Ascii.eqb c ">" then
        match open with t :: open => if t =s name then Some (open, Txt) else None | [] => None end
      else if is_letter c then Some (open, Close (add name c)) else None
  end.

Fixpoint html_run (st : list string * mode) (s : string) : option (list string * mode) :=
  match s with
  | EmptyString => Some st
  | String c s => st ← html_step st c; html_run st s
  end.

(** Well-formed: every tag is closed and the text ends outside of markup. *)
Definition html_ok (s : string) : bool :=
  match html_run ([], Txt) s with Some ([], Txt) => true | _ => false end.

Lemma html_run_app st a b : html_run st (a +:+ b) = (st ← html_run st a; html_run st b).
Proof.
  revert st. induction a as [|c a IH]; intros st; [done|].
  change (html_run st (String c (a +:+ b)) = (st ← html_run st (String c a); html_run st b)). cbn [html_run].
  destruct (html_step st c) as [st'|]; [|done]. simpl. apply IH.
Qed.

(** Text that can stand anywhere between tags. *)
Definition balanced (s : string) : Prop := forall open, html_run (open, Txt) s = Some (open, Txt).

Lemma balanced_app a b : balanced a -> balanced b -> balanced (a +:+ b).
Proof. intros Ha Hb open. rewrite html_run_app Ha. apply Hb. Qed.

Lemma balanced_if (b : bool) s t : balanced s -> balanced t -> balanced (if b then s else t).
Proof. by destruct b. Qed.

Lemma balanced_concat sep l : balanced sep -> (forall s, s ∈ l -> balanced s) -> balanced (String.concat sep l).
Proof.
  intros Hsep. induction l as [|s l IH]; intros Hl; [done|].
  assert (balanced s) as Hs by (apply Hl; by left).
  assert (balanced (String.concat sep l)) as Hr by (apply IH; intros; apply Hl; by right).
  destruct l as [|s' l]; [done|]. change (balanced (s +:+ sep +:+ String.concat sep (s' :: l))).
  by repeat apply balanced_app.
Qed.

Lemma balanced_concat_map {A} sep (f : A -> string) l : balanced sep -> (forall x, balanced (f x)) ->
  balanced (String.concat sep (map f l)).
Proof. intros Hs Hf. apply balanced_concat; [done|]. intros s (x & -> & _)%list_elem_of_fmap. apply Hf. Qed.

(** Text that closes the tag [name], which is open before it. *)
Definition closes (name s : string) : Prop := forall open, html_run (name :: open, Txt) s = Some (open, Txt).

Lemma balanced_open name o s : (forall open, html_run (open, Txt) o = Some (name :: open, Txt)) -> closes name s ->
  balanced (o +:+ s).
Proof. intros Ho Hs open. by rewrite html_run_app Ho /= Hs. Qed.

Lemma closes_skip name a b : balanced a -> closes name b -> closes name (a +:+ b).
Proof. intros Ha Hb open. by rewrite html_run_app Ha /= Hb. Qed.

Lemma closes_then name c s : closes name c -> balanced s -> closes name (c +:+ s).
Proof. intros Hc Hs open. by rewrite html_run_app Hc /= Hs. Qed.

Lemma balanced_char c s : html_step ([], Txt) c = Some ([], Txt) -> balanced s -> balanced (String c s).
Proof.
  intros Hc Hs open. cbn [html_run]. assert (html_step (open, Txt) c = Some (open, Txt)) as ->; [|apply Hs].
  revert Hc. cbn [html_step]. by destruct (Ascii.eqb c "&"), (Ascii.eqb c "<"), (Ascii.eqb c ">").
Qed.

Lemma balanced_escape s : balanced (escapeHtml s).
Proof.
  induction s as [|c s IH]; [done|]. cbn [escapeHtml]. apply balanced_app; [|done]. rewrite /escape_char.
  destruct (Ascii.eqb c "&") eqn:H1; [done|]. destruct (Ascii.eqb c "<") eqn:H2; [done|].
  destruct (Ascii.eqb c ">") eqn:H3; [done|]. destruct (Ascii.eqb c dquote); [done|].
  destruct (Ascii.eqb c "'"); [done|]. apply balanced_char; [|done]. by rewrite /= H1 H2 H3.
Qed.

Lemma balanced_pretty_N (n : N) : balanced (pretty n).
Proof.
  rewrite /pretty /pretty_N. case_decide; [done|].
  assert (forall s, balanced s -> balanced (pretty_N_go n s)) as Hg; [clear H|by apply Hg].
  induction (N.lt_wf_0 n) as [n _ IH]; intros s Hs. destruct (decide (0 < n)%N) as [Hn|Hn].
  - rewrite pretty_N_go_step //. apply IH; [by apply N.div_lt|]. apply balanced_char; [|done].
    rewrite /pretty_N_char. by repeat case_match.
  - assert (n = 0%N) as -> by lia. by rewrite pretty_N_go_0.
Qed.

Lemma balanced_to_string z : balanced (to_string z).
Proof.
  destruct z as [|p|p]; [exact (balanced_pretty_N 0)|exact (balanced_pretty_N (Npos p))|].
  apply (balanced_char "-"); [done|]. exact (balanced_pretty_N (Npos p)).
Qed.

#[export] Hint Resolve balanced_app balanced_if balanced_concat_map balanced_escape balanced_to_string : plan.

(** Fixed text is checked by evaluation. *)
#[export] Hint Extern 1 (balanced _) => (intro; reflexivity) : plan.

Lemma balanced_ok s : balanced s -> html_ok s = true.
Proof. intros H. by rewrite /html_ok H. Qed.

(** ** The labels *)

Lemma balanced_comp t : balanced (compTypeToString t).
Proof. by destruct t. Qed.

Lemma balanced_agg t : balanced (aggFuncToString t).
Proof. by destruct t. Qed.

Lemma balanced_arith t : balanced (arithOpToString t).
Proof. by destruct t. Qed.

Lemma balanced_setop t : balanced (logicalRelOpToString t).
Proof. by destruct t. Qed.

Lemma balanced_limit p e : balanced p -> balanced (limit_text p e).
Proof. intros Hp. rewrite /limit_text. destruct (limit_count e), (limit_offset e); auto 8 with plan. Qed.

#[export] Hint Resolve balanced_comp balanced_agg balanced_arith balanced_setop balanced_limit : plan.

Section physical.
Import PhysicalVisualizer.

Lemma balanced_columns cols : balanced (formatColumns cols).
Proof. rewrite /formatColumns. auto with plan. Qed.

Lemma balanced_expr n : balanced (exprStr n).
Proof.
  rewrite /exprStr /filter_text. pose proof balanced_columns as Hc.
  destruct (p_node_type n); repeat case_match; eauto 12 with plan.
Qed.

Lemma balanced_label_columns color title cols :
  (forall open, html_run (open, Val "font") color = Some (open, Val "font")) -> balanced title ->
  balanced (label_columns color title cols).
Proof.
  intros Hc Ht. rewrite /label_columns string_app_assoc string_app_assoc.
  apply (balanced_open "font"); [|apply closes_skip; [done|]].
  - intros open. rewrite !html_run_app. change (html_run (open, Txt) "<br/><font color='") with (Some (open, Val "font")).
    cbn [mbind option_bind]. by rewrite Hc.
  - apply closes_skip; [done|]. apply closes_skip; [apply balanced_columns|done].
Qed.

Lemma balanced_label_column color title o :
  (forall open, html_run (open, Val "font") color = Some (open, Val "font")) -> balanced title ->
  balanced (label_column color title o).
Proof. intros Hc Ht. destruct o; [by apply balanced_label_columns|done]. Qed.

Lemma balanced_label n : balanced (label n).
Proof.
  rewrite /label. apply (balanced_open "b"); [done|]. apply closes_skip; [by destruct (p_node_type n)|].
  apply closes_skip; [done|]. apply closes_skip; [apply balanced_to_string|]. apply closes_then; [done|].
  repeat (apply balanced_app; [first [by apply balanced_label_column|
    destruct (p_base_columns n); [done|by apply balanced_label_columns]]|]).
  apply balanced_if; [done|]. apply (balanced_open "i"); [done|]. apply closes_skip; [apply balanced_expr|done].
Qed.

End physical.

Section logical.
Import LogicalVisualizer.

Lemma balanced_column c : balanced (formatColumn c).
Proof. apply balanced_escape. Qed.

Lemma balanced_lcolumns cols : balanced (formatColumns cols).
Proof. apply balanced_concat_map; [done|apply balanced_column]. Qed.

Lemma balanced_binary title op c0 c1 : balanced title -> balanced op -> balanced (binary_text title op c0 c1).
Proof. intros Ht Ho. pose proof balanced_column. rewrite /binary_text. auto 12 with plan. Qed.

Lemma balanced_values col comp vals : balanced col -> balanced (values_text col comp vals).
Proof.
  intros Hc. rewrite /values_text. apply balanced_app; [done|]. apply balanced_app; [done|].
  rewrite /compTypeToString /escapeHtml. repeat case_match; eauto 12 with plan.
Qed.

Lemma balanced_titled title cols : balanced title -> balanced (titled_columns title cols).
Proof. intros Ht. pose proof balanced_lcolumns. rewrite /titled_columns. destruct cols; auto 12 with plan. Qed.

Lemma balanced_agg_text pc spec : balanced (agg_text pc spec).
Proof.
  pose proof balanced_column. pose proof balanced_lcolumns. rewrite /agg_text /aggFuncToString /escapeHtml.
  repeat case_match; eauto 12 with plan.
Qed.

Lemma balanced_llabel n : balanced (label n).
Proof.
  rewrite /label. apply (balanced_open "b"); [done|]. apply closes_skip; [by destruct (node_type n)|].
  apply closes_then; [done|]. pose proof balanced_column. pose proof balanced_lcolumns.
  pose proof balanced_titled. pose proof balanced_binary. pose proof balanced_values. pose proof balanced_agg_text.
  rewrite /detail /filter_text /compTypeToString /arithOpToString /logicalRelOpToString /escapeHtml.
  destruct (node_type n); repeat case_match; eauto 12 with plan.
Qed.

End logical.

(** ** Text *)

(** Entities replaced by what they stand for; [ent] is the entity being
    read. *)
Fixpoint html_decode (ent : option string) (s : string) : string :=
  match s with
  | EmptyString => EmptyString
  | String c s =>
      match ent with
      | None => if Ascii.eqb c "&" then html_decode (Some "") s else String c (html_decode None s)
      | Some name =>
          if Ascii.eqb c ";" then default "" (entity name) +:+ html_decode None s
          else html_decode (Some (add name c)) s
      end
  end.

Lemma decode_escape s t : html_decode None (escapeHtml s +:+ t) = s +:+ html_decode None t.
Proof.
  induction s as [|c s IH]; [done|]. cbn [escapeHtml]. rewrite -string_app_assoc /escape_char.
  change (String c s +:+ html_decode None t) with (String c (s +:+ html_decode None t)).
  destruct (Ascii.eqb_spec c "&") as [->|H1]; [exact (f_equal _ IH)|].
  destruct (Ascii.eqb_spec c "<") as [->|_]; [exact (f_equal _ IH)|].
  destruct (Ascii.eqb_spec c ">") as [->|_]; [exact (f_equal _ IH)|].
  destruct (Ascii.eqb_spec c dquote) as [->|_]; [exact (f_equal _ IH)|].
  destruct (Ascii.eqb_spec c "'") as [->|_]; [exact (f_equal _ IH)|].
  change (html_decode None (String c (escapeHtml s +:+ t)) = String c (s +:+ html_decode None t)). cbn [html_decode].
  apply Ascii.eqb_neq in H1. by rewrite H1 IH.
Qed.

Lemma decode_concat {A} (f : A -> string) l :
  html_decode None (String.concat ", " (map (fun x => escapeHtml (f x)) l)) = String.concat ", " (map f l).
Proof.
  assert (forall s, html_decode None (escapeHtml s) = s) as H1.
  { intros s. pose proof (decode_escape s "") as H. by rewrite !string_app_nil in H. }
  induction l as [|x l IH]; [done|]. destruct l as [|y l]; [apply H1|].
  change (html_decode None (escapeHtml (f x) +:+ ", " +:+ String.concat ", " (map (fun x => escapeHtml (f x)) (y :: l))) =
    f x +:+ ", " +:+ String.concat ", " (map f (y :: l))).
  rewrite decode_escape. f_equal. exact (f_equal (fun s => String "," (String " " s)) IH).
Qed.

(** The contents of a quoted string and what comes after it. *)
Fixpoint read_body (s : string) : option (string * string) :=
  match s with
  | EmptyString => None
  | String c s =>
      if Ascii.eqb c dquote then Some (EmptyString, s)
      else if Ascii.eqb c backslash then
        match s with
        | EmptyString => None
        | String d s => '(b, t) ← read_body s; Some (String c (String d b), t)
        end
      else '(b, t) ← read_body s; Some (String c b, t)
  end.

Definition read_quoted (s : string) : option (string * string) :=
  match s with
  | String c s => if Ascii.eqb c dquote then read_body s else None
  | EmptyString => None
  end.

Fixpoint all_chars (p : ascii -> bool) (s : string) : bool :=
  match s with EmptyString => true | String c s => p c && all_chars p s end.

Definition no_backslash : string -> bool := all_chars (fun c => negb (Ascii.eqb c backslash)).
Definition unquoted : string -> bool := all_chars (fun c => negb (Ascii.eqb c backslash) && negb (Ascii.eqb c dquote)).

Lemma all_chars_app p a b : all_chars p (a +:+ b) = all_chars p a && all_chars p b.
Proof.
  induction a as [|c a IH]; [done|]. change (p c && all_chars p (a +:+ b) = (p c && all_chars p a) && all_chars p b).
  by rewrite IH andb_assoc.
Qed.

Lemma all_chars_concat p sep l : all_chars p sep = true -> (forall s, s ∈ l -> all_chars p s = true) ->
  all_chars p (String.concat sep l) = true.
Proof.
  intros Hsep. induction l as [|s l IH]; intros Hl; [done|].
  assert (all_chars p s = true) as Hs by (apply Hl; by left).
  assert (all_chars p (String.concat sep l) = true) as Hr by (apply IH; intros; apply Hl; by right).
  destruct l as [|s' l]; [done|]. change (all_chars p (s +:+ sep +:+ String.concat sep (s' :: l)) = true).
  by rewrite !all_chars_app Hs Hsep Hr.
Qed.

Lemma escape_unquoted s : no_backslash s = true -> unquoted (escapeHtml s) = true.
Proof.
  induction s as [|c s IH]; [done|]. intros [Hc Hs]%andb_true_iff. rewrite /unquoted. cbn [escapeHtml].
  rewrite all_chars_app. fold unquoted. rewrite (IH Hs) andb_true_r /escape_char.
  destruct (Ascii.eqb c "&"); [done|]. destruct (Ascii.eqb c "<"); [done|]. destruct (Ascii.eqb c ">"); [done|].
  destruct (Ascii.eqb c dquote) eqn:Hq; [done|]. destruct (Ascii.eqb c "'"); [done|].
  by rewrite /unquoted /= Hc Hq.
Qed.

Lemma read_unquoted s t : unquoted s = true -> read_quoted (quoted s +:+ t) = Some (s, t).
Proof.
  intros Hs. change (read_body ((s +:+ String dquote "") +:+ t) = Some (s, t)).
  induction s as [|c s IH]; [done|]. cbn in Hs. apply andb_true_iff in Hs as [[Hb Hq]%andb_true_iff Hs].
  apply negb_true_iff in Hb, Hq. change (read_body (String c ((s +:+ String dquote "") +:+ t)) = Some (String c s, t)).
  cbn [read_body]. by rewrite Hq Hb (IH Hs).
Qed.
