(* ===== verification/GraphvizTheorems.v ===== *)
(** * What the visualizers draw *)

From S2P Require Import Prelude PlanTypes PlanPrint PhysContext PostProcess PostProcessInv.
From S2P Require Import Graphviz GraphvizLogical GraphvizInv GraphvizLogicalInv Html.

Import PhysicalVisualizer.

(** ** Physical plans *)

Definition vis_init (head : string) : visualizer := mkVis 0 ∅ ∅ head.

Lemma VInv_init h head : VInv h (vis_init head).
Proof. split; simpl; [done|by intros a i ?%lookup_empty_Some|by rewrite dom_empty_L]. Qed.

(** The list of statements [l], with the ids [num] of the nodes and [keys] of
    the columns, is the graph of the plan below [a]: ids are declared once and
    in order, there is a box for exactly the reachable nodes, an ellipse for
    exactly the base columns they read, and the edges are, with their
    multiplicities, those of the boxes. *)
Record is_graph (h : list PhysicalPlanNode) (a : paddr) (l : list stmt) (num : gmap nat Z) (keys : gmap string Z) : Prop := {
  g_ids : declared l = seqZ 0 (Z.of_nat (size num + size keys));
  g_boxes : forall b i, num !! b = Some i <-> exists n, h !! b = Some n /\ Box i b n ∈ l;
  g_reach : forall b, is_Some (num !! b) <-> reach h a b;
  g_ellipses : forall k i, keys !! k = Some i <-> Ellipse i k ∈ l;
  g_columns : forall k, is_Some (keys !! k) <-> exists b n c, reach h a b /\ h !! b = Some n /\
    c ∈ p_base_columns n /\ reads_base c = true /\ col_key c = k;
  g_edges : map Some (edges l) ≡ₚ all_owed h num keys l;
}.

Lemma elem_all_owed h num keys l x : x ∈ all_owed h num keys l <-> exists y, y ∈ l /\ x ∈ owed h num keys y.
Proof.
  rewrite list_elem_of_In /all_owed in_concat. setoid_rewrite in_map_iff. setoid_rewrite list_elem_of_In. naive_solver.
Qed.

Lemma owed_drawn h num keys l x : map Some (edges l) ≡ₚ all_owed h num keys l -> forall y, y ∈ l ->
  x ∈ owed h num keys y -> is_Some x.
Proof.
  intros HE y Hy Hx. assert (x ∈ map Some (edges l)) as H by (rewrite HE elem_all_owed; eauto).
  apply list_elem_of_fmap in H as (z & -> & _). eauto.
Qed.

Lemma elem_arrows h num i ch c : Some c ∈ ch -> (m ← h !! c; j ← num !! c; Some (Arrow i j (p_result_columns m))) ∈ arrows h num i ch.
Proof.
  intros Hc. apply list_elem_of_fmap. exists c. split; [done|]. apply list_elem_of_omap. by exists (Some c).
Qed.

Lemma elem_dashes keys i cols x : x ∈ dashes keys i cols <->
  exists c, c ∈ cols /\ reads_base c = true /\ x = Dashed i <$> keys !! col_key c.
Proof.
  rewrite /dashes list_elem_of_fmap. setoid_rewrite list_elem_of_In at 1. setoid_rewrite List.filter_In.
  setoid_rewrite <- list_elem_of_In. naive_solver.
Qed.

(** Ids that are declared once name one column. *)
Lemma ellipse_unique l i k k' : NoDup (declared l) -> Ellipse i k ∈ l -> Ellipse i k' ∈ l -> k' = k.
Proof.
  induction l as [|x l IH]; intros Hnd H1 H2; [by apply not_elem_of_nil in H1|].
  assert (forall k0, Ellipse i k0 ∈ l -> i ∈ declared l) as Hin.
  { intros k0 Hp. apply list_elem_of_omap. by exists (Ellipse i k0). }
  apply elem_of_cons in H1 as [<-|H1], H2 as [H2|H2]; [congruence| | |].
  - exfalso. apply NoDup_cons in Hnd as [Hnd _]. exact (Hnd (Hin _ H2)).
  - subst x. exfalso. apply NoDup_cons in Hnd as [Hnd _]. exact (Hnd (Hin _ H1)).
  - apply IH; [|done|done]. destruct x; simpl in Hnd; try done; by apply NoDup_cons in Hnd as [_ ?].
Qed.

Section complete.
Variables (h : list PhysicalPlanNode) (a : paddr) (head : string) (v : visualizer) (l : list stmt).
Hypothesis Hd : drawn h [a] (fun _ _ => []) (vis_init head) v l.
Hypothesis Ha : is_Some (visited_nodes v !! a).

Lemma graph_edges : map Some (edges l) ≡ₚ all_owed h (visited_nodes v) (base_col_node_ids v) l.
Proof. exact (d_edges _ _ _ _ _ _ Hd _ _ (reflexivity _) (reflexivity _)). Qed.

Lemma graph_boxes b i : visited_nodes v !! b = Some i <-> exists n, h !! b = Some n /\ Box i b n ∈ l.
Proof.
  rewrite (d_box _ _ _ _ _ _ Hd). simpl. rewrite lookup_empty. split.
  - intros [?|[n Hn]]; [done|]. exists n. split; [|done]. apply (d_fresh _ _ _ _ _ _ Hd _ _ _ Hn).
  - intros (n & _ & Hn). right. by exists n.
Qed.

Lemma graph_closed x y : edge h x y -> is_Some (visited_nodes v !! x) -> is_Some (visited_nodes v !! y).
Proof.
  intros (n & Hn & Hy) [i (n' & Hn' & Hi)%graph_boxes]. assert (n' = n) as -> by congruence.
  assert (is_Some (m ← h !! y; j ← visited_nodes v !! y; Some (Arrow i j (p_result_columns m)))) as [e He].
  { eapply owed_drawn; [exact graph_edges|exact Hi|]. apply elem_of_app. right. by apply elem_arrows. }
  destruct (h !! y); [simpl in He|done]. destruct (visited_nodes v !! y); [eauto|done].
Qed.

Lemma graph_reach b : is_Some (visited_nodes v !! b) <-> reach h a b.
Proof.
  split.
  - intros [i (n & _ & Hi)%graph_boxes]. destruct (d_reach _ _ _ _ _ _ Hd _ _ _ Hi) as (r & Hr & Hb).
    by apply list_elem_of_singleton in Hr as ->.
  - assert (forall x y, reach h x y -> is_Some (visited_nodes v !! x) -> is_Some (visited_nodes v !! y)) as Hc.
    { intros x y. induction 1 as [|x y z Hxy _ IH]; [done|]. intros Hx. by eapply IH, graph_closed. }
    intros Hr. exact (Hc a b Hr Ha).
Qed.

Lemma graph_ellipses k i : base_col_node_ids v !! k = Some i <-> Ellipse i k ∈ l.
Proof. rewrite (d_col _ _ _ _ _ _ Hd). simpl. rewrite lookup_empty. naive_solver. Qed.

Lemma graph_columns k : is_Some (base_col_node_ids v !! k) <-> exists b n c, reach h a b /\ h !! b = Some n /\
    c ∈ p_base_columns n /\ reads_base c = true /\ col_key c = k.
Proof.
  split.
  - intros [i Hi%graph_ellipses]. destruct (d_used _ _ _ _ _ _ Hd _ _ Hi) as [j Hj].
    assert (Some (Dashed j i) ∈ all_owed h (visited_nodes v) (base_col_node_ids v) l) as Ho.
    { rewrite -graph_edges. apply list_elem_of_fmap. exists (Dashed j i). split; [done|].
      apply list_elem_of_In, List.filter_In. split; [by apply list_elem_of_In|done]. }
    apply elem_all_owed in Ho as ([i' b n| | |] & Hb & Ho); try by apply not_elem_of_nil in Ho.
    destruct (d_fresh _ _ _ _ _ _ Hd _ _ _ Hb) as [_ Hn].
    assert (reach h a b) as Hr by (apply graph_reach; exists i'; apply graph_boxes; eauto).
    apply elem_of_app in Ho as [(c & Hc & Hrb & He)%elem_dashes|Ho].
    + destruct (base_col_node_ids v !! col_key c) as [i2|] eqn:Hk; [|done]. injection He as -> ->.
      apply graph_ellipses in Hk.
      assert (NoDup (declared l)) as Hnd by (rewrite (d_ids _ _ _ _ _ _ Hd); apply NoDup_seqZ). exists b, n, c. split_and!; [done..|]. by eapply (ellipse_unique l).
    + apply list_elem_of_fmap in Ho as (c & He & _). destruct (h !! c); [simpl in He|done].
      by destruct (visited_nodes v !! c).
  - intros (b & n & c & Hr & Hn & Hc & Hrb & <-). apply graph_reach in Hr as [i (n' & Hn' & Hi)%graph_boxes].
    assert (n' = n) as -> by congruence.
    assert (is_Some (Dashed i <$> base_col_node_ids v !! col_key c)) as Hs%fmap_is_Some; [|done].
    eapply owed_drawn; [exact graph_edges|exact Hi|]. apply elem_of_app. left. apply elem_dashes. eauto.
Qed.

End complete.

Lemma visualize_graph_text h a file :
  acyclic h -> a < length h -> (Z.of_nat (length h + size (base_keys h)) <= INT_MAX)%Z ->
  exists l num keys, is_graph h a l num keys /\
    visualize h (Some a) file =
      Ok (file +:+ ".dot", dot_header "PhysicalPlan" ", dir=back" +:+ text l +:+ "}" +:+ newline).
Proof.
  intros Hac Ha Hs. destruct (part_traverse h Hs Hac (S (length h)) a ltac:(lia) Ha (vis_init _)
    (VInv_init h (dot_header "PhysicalPlan" ", dir=back"))) as (x & v & l & E & Hd & Hv & Hx).
  exists l, (visited_nodes v), (base_col_node_ids v). assert (is_Some (visited_nodes v !! a)) as Hax by eauto. split.
  - split.
    + rewrite (d_ids _ _ _ _ _ _ Hd) (v_count _ _ Hv). simpl. f_equal. lia.
    + intros; by eapply graph_boxes.
    + by eapply graph_reach.
    + by eapply graph_ellipses.
    + by eapply graph_columns.
    + by eapply graph_edges.
  - rewrite /visualize. fold (vis_init (dot_header "PhysicalPlan" ", dir=back")). rewrite E /=.
    by rewrite (d_text _ _ _ _ _ _ Hd) -string_app_assoc.
Qed.

(** C32: for every physical plan in an acyclic store whose nodes and base columns can be numbered with an [int],
    [visualize] returns, and the file is a header, the graph of the plan and a closing brace: every node reachable
    from the root has exactly one box and every base column that such a node reads exactly one ellipse, with distinct
    ids from 0 on; a node has one arrow per child, labelled with the columns the child produces, and one dashed edge
    per base column that it reads; there is nothing else. *)
Theorem visualize_graph h a file :
  acyclic h -> a < length h -> (Z.of_nat (length h + size (base_keys h)) <= INT_MAX)%Z ->
  exists l num keys, is_graph h a l num keys /\
    visualize h (Some a) file =
      Ok (file +:+ ".dot", dot_header "PhysicalPlan" ", dir=back" +:+ text l +:+ "}" +:+ newline).
Proof. apply visualize_graph_text. Qed.

(** A plan with a shared node: two columns are materialized with the same
    position list and added. *)
Definition shared_plan : list PhysicalPlanNode :=
  let base c := set_is_base (Some true) (Column3 "lineorder" c PTY.INTEGER) in
  let im c ty := Column3 "im" c ty in
  let node ty id cols res ch := mkPhys ty id cols None None Expression_default res ch None None in
  [ node PNT.FILTER 7%Z [base "lo_discount"] [im "i7" PTY.POSLIST] [];
    node PNT.MATERIALIZE 8%Z [base "lo_revenue"; im "i7" PTY.POSLIST] [im "i8" PTY.INTEGER] [Some 0];
    node PNT.MATERIALIZE 9%Z [base "lo_discount"; im "i7" PTY.POSLIST] [im "i9" PTY.INTEGER] [Some 0];
    node PNT.MAP 10%Z [im "i8" PTY.INTEGER; im "i9" PTY.INTEGER] [im "i10" PTY.INTEGER] [Some 1; Some 2] ].

Lemma visualize_graph_witness : exists l num keys, is_graph shared_plan 3 l num keys /\
  visualize shared_plan (Some 3) "plan" =
    Ok ("plan.dot", dot_header "PhysicalPlan" ", dir=back" +:+ text l +:+ "}" +:+ newline).
Proof.
  apply (visualize_graph shared_plan 3 "plan"); [by apply acyclicb_acyclic|simpl; lia|by vm_compute].
Defined.

(** ** Logical plans *)

(** C33: [visualize] of a logical plan without null children (and with fewer than 2^31 nodes) returns; the ids are the
    positions of the nodes in preorder, every node except the root is the target of exactly one arrow, which comes
    from its parent and is labelled with the columns that the node projects: the visualizer's counter and its table of
    visited nodes agree with numbering the tree. *)
Theorem visualize_tree n file : no_nulls n = true -> (Z.of_nat (plan_size n) <= INT_MAX)%Z ->
  exists l, LogicalVisualizer.visualize n file =
      Ok (file +:+ ".dot", dot_header "LogicalPlan" " , dir=back" +:+ ltext l +:+ "}" +:+ newline) /\
    lboxes l = zip (seqZ 0 (Z.of_nat (plan_size n))) (nodes n) /\
    0%Z :: map (fun x => x.1.2) (larrows l) ≡ₚ seqZ 0 (Z.of_nat (plan_size n)) /\
    (forall x, x ∈ larrows l -> arrow_ok (lboxes l) x).
Proof.
  intros Hn Hs. exists (graph n 0). split_and!; [|apply graph_preorder|apply graph_targets|apply graph_arrows].
  destruct (traverse_draws n Hn [] (LogicalVisualizer.mkVis 0 ∅ (dot_header "LogicalPlan" " , dir=back"))) as (v & E & [_ T _]).
  - intros b _. apply lookup_empty.
  - simpl. lia.
  - rewrite /LogicalVisualizer.visualize E /= T. simpl. by rewrite -string_app_assoc.
Qed.

Definition small_logical : LogicalPlanNode :=
  let c t n := Column3 t n PTY.INTEGER in
  let scan t := LNode LNT.SCAN t [] Expression_default [] [] in
  LNode LNT.PROJECTION "" [] Expression_default [c "lineorder" "lo_revenue"]
    [Some (LNode LNT.JOIN "" [c "lineorder" "lo_orderdate"; c "dates" "d_datekey"]
      (set_comp_type (Some PCT.EQ) Expression_default) [] [Some (scan "lineorder"); Some (scan "dates")])].

Lemma visualize_tree_witness : exists l, LogicalVisualizer.visualize small_logical "plan" =
      Ok ("plan.dot", dot_header "LogicalPlan" " , dir=back" +:+ ltext l +:+ "}" +:+ newline) /\
    lboxes l = zip (seqZ 0 4) (nodes small_logical) /\
    0%Z :: map (fun x => x.1.2) (larrows l) ≡ₚ seqZ 0 4 /\
    (forall x, x ∈ larrows l -> arrow_ok (lboxes l) x).
Proof. apply (visualize_tree small_logical "plan"); by vm_compute. Defined.

(** ** Labels *)

(** C34: whatever the names, aliases and literals of a plan contain, the label of every node, physical or logical, is
    well-formed markup: all tags are known, nested and closed, and every ampersand starts a known entity. *)
Theorem labels_well_formed :
  (forall n, html_ok (PhysicalVisualizer.label n) = true) /\ (forall n, html_ok (LogicalVisualizer.label n) = true).
Proof. split; intros n; apply balanced_ok; [apply balanced_label|apply balanced_llabel]. Qed.

(** The label of an edge can be read back: if no column contains a backslash, the quoted string ends where it was
    meant to end, whatever follows, and replacing the entities in it gives the list of columns as it was before
    escaping.  This holds for both visualizers. *)
Theorem edge_label_roundtrip cols rest :
  (forall c, c ∈ cols -> no_backslash (PhysicalVisualizer.column_text c) = true) ->
  (forall c, c ∈ cols -> no_backslash (LogicalVisualizer.column_text c) = true) ->
  (exists s, read_quoted (quoted (PhysicalVisualizer.formatColumns cols) +:+ rest) = Some (s, rest) /\
    html_decode None s = String.concat ", " (map PhysicalVisualizer.column_text cols)) /\
  (exists s, read_quoted (quoted (LogicalVisualizer.formatColumns cols) +:+ rest) = Some (s, rest) /\
    html_decode None s = String.concat ", " (map LogicalVisualizer.column_text cols)).
Proof.
  intros Hp Hl. split; eexists; (split; [|apply decode_concat]); apply read_unquoted;
    (apply all_chars_concat; [done|]); intros s (c & -> & Hc)%list_elem_of_fmap; apply escape_unquoted; auto.
Qed.

Definition odd_column : Column :=
  set_alias (Some ("<x> & " +:+ String dquote "y'")) (Column3 "part" "p_name" PTY.STRING).

Lemma edge_label_roundtrip_witness :
  (exists s, read_quoted (quoted (PhysicalVisualizer.formatColumns [odd_column; odd_column]) +:+ "];") = Some (s, "];") /\
    html_decode None s = "part.p_name AS <x> & " +:+ String dquote "y', part.p_name AS <x> & " +:+ String dquote "y'") /\
  (exists s, read_quoted (quoted (LogicalVisualizer.formatColumns [odd_column; odd_column]) +:+ "];") = Some (s, "];") /\
    html_decode None s = "part.p_name AS <x> & " +:+ String dquote "y', part.p_name AS <x> & " +:+ String dquote "y'").
Proof.
  apply (edge_label_roundtrip [odd_column; odd_column] "];");
    intros c Hc; (assert (c = odd_column) as -> by set_solver); by vm_compute.
Defined.

(** An alias that ends in a backslash protects the closing quote: the string
    runs on into the next attribute. *)
Theorem edge_label_backslash :
  let c := set_alias (Some (String "a" (String backslash ""))) (Column3 "part" "p_name" PTY.STRING) in
  let rest := ", fontsize=10, fontcolor=" +:+ quoted "darkgreen" +:+ "];" in
  forall s, read_quoted (quoted (PhysicalVisualizer.formatColumns [c]) +:+ rest) <> Some (s, rest).
Proof. intros c rest s. vm_compute. discriminate. Qed.
