(* ===== verification/Logging.v ===== *)
(** * Logging

    include/optimizer/Logger.hpp.  The state is what was written to the two
    console streams and to the log file; the text of the time stamp is an
    argument.  The lock makes a call one step. *)

From S2P Require Import Prelude PlanPrint.

Module LogLevel.
Inductive LogLevel : Set := INFO | WARN | ERROR | DEBUG.
#[export] Instance LogLevel_eq_dec : EqDecision LogLevel.
Proof. solve_decision. Defined.
End LogLevel.
Export (hints) LogLevel.

Record Logger : Set := mkLogger {
  log_cout : string;
  log_cerr : string;
  logFile : option string;      (* what was appended, when open *)
  log_good : bool;              (* the state of the file stream *)
}.

Definition new_logger : Logger := mkLogger "" "" None true.

(** [init]: opens the file for appending; [opens] says whether that succeeds.
    Opening a stream that is already open fails and leaves it open. *)
Definition log_init (opens : bool) (l : Logger) : Logger :=
  match logFile l, opens with
  | None, true => mkLogger (log_cout l) (log_cerr l) (Some "") true
  | o, _ => mkLogger (log_cout l) (log_cerr l) o false
  end.

Definition level_label (level : LogLevel.LogLevel) : string :=
  match level with
  | LogLevel.INFO => "[INFO]  " | LogLevel.WARN => "[WARN]  "
  | LogLevel.ERROR => "[ERROR] " | LogLevel.DEBUG => "[DEBUG] "
  end.

Definition escape_code (code : string) : string := String (ascii_of_nat 27) ("[" +:+ code +:+ "m").

Definition level_color (level : LogLevel.LogLevel) : string :=
  escape_code match level with
  | LogLevel.INFO => "32" | LogLevel.WARN => "33" | LogLevel.ERROR => "31" | LogLevel.DEBUG => "36"
  end.

Definition log (time : string) (level : LogLevel.LogLevel) (msg file : string) (line : Z) (l : Logger) : Logger :=
  let timestamp := "[" +:+ time +:+ "] " in
  let logContent := level_label level +:+ msg +:+ " (" +:+ file +:+ ":" +:+ to_string line +:+ ")" in
  let text := timestamp +:+ level_color level +:+ logContent +:+ escape_code "0" +:+ newline in
  let is_error := bool_decide (level = LogLevel.ERROR) in
  mkLogger (if is_error then log_cout l else log_cout l +:+ text)
    (if is_error then log_cerr l +:+ text else log_cerr l)
    (option_map (fun t => if log_good l then t +:+ timestamp +:+ logContent +:+ newline else t) (logFile l))
    (log_good l).

(** A call of the logger. *)
Record log_call : Set := mkCall { lc_time : string; lc_level : LogLevel.LogLevel; lc_msg : string; lc_file : string; lc_line : Z }.

Definition run_log (l : Logger) (c : log_call) : Logger := log (lc_time c) (lc_level c) (lc_msg c) (lc_file c) (lc_line c) l.

Definition file_line (c : log_call) : string :=
  "[" +:+ lc_time c +:+ "] " +:+ level_label (lc_level c) +:+ lc_msg c +:+ " (" +:+ lc_file c +:+ ":" +:+ to_string (lc_line c) +:+ ")" +:+ newline.

Lemma concat_lines (c : log_call) cs : String.concat "" (map file_line (c :: cs)) = file_line c +:+ String.concat "" (map file_line cs).
Proof. destruct cs as [|c' cs]; [symmetry; apply string_app_nil|done]. Qed.

(** The log file has one line per call since it was opened, in the order of
    the calls; error messages go to the error stream only. *)
Theorem log_file_lines cs : forall l t, logFile l = Some t -> log_good l = true ->
  logFile (fold_left run_log cs l) = Some (t +:+ String.concat "" (map file_line cs)) /\
  (Forall (fun c => lc_level c = LogLevel.ERROR) cs -> log_cout (fold_left run_log cs l) = log_cout l) /\
  (Forall (fun c => lc_level c <> LogLevel.ERROR) cs -> log_cerr (fold_left run_log cs l) = log_cerr l).
Proof.
  induction cs as [|c cs IH]; intros l t Hl Hg; cbn [fold_left]; [by rewrite string_app_nil|].
  destruct (IH (run_log l c) (t +:+ file_line c)) as (H1 & H2 & H3).
  { rewrite /run_log /log /= Hl /= Hg. f_equal. rewrite /file_line. by rewrite !string_app_assoc. }
  { exact Hg. }
  split_and!.
  - by rewrite H1 concat_lines string_app_assoc.
  - intros [Hc Hcs]%Forall_cons. rewrite (H2 Hcs) /run_log /log /= Hc. done.
  - intros [Hc Hcs]%Forall_cons. rewrite (H3 Hcs) /run_log /log /=. by case_bool_decide.
Qed.
