(* ===== verification/DemoOutput.v ===== *)
(** * Demo mode

    The [demo] branches of [translateSQLToLogicalPlan]
    (src/SQLToLogicalPlanTranslator.cpp) and [ConvertToPhys]
    (src/optimizer/PhysicalOptimizer.cpp): every plan is also drawn.  What is
    written is part of the result: the name and text of the [.dot] file and the
    command passed to [std::system]. *)

From S2P Require Import Prelude PlanTypes SqlAst JoinTree SelectPlanBuilder PhysContext PhysicalOptimizer PostProcess.
From S2P Require Import PostProcessInv PlanInv PhysicalTheorems PlanPrint Graphviz GraphvizLogical GraphvizInv GraphvizLogicalInv.
From S2P Require Import GraphvizTheorems.

Record drawing : Set := mkDrawing { dot_file : string; dot_text : string; dot_command : string }.

Definition drawing_of (basename : string) (file : string * string) : drawing :=
  mkDrawing file.1 file.2 ("dot -Tpng " +:+ basename +:+ ".dot -o " +:+ basename +:+ ".png").

(** [if (demo && physical_plan)] *)
Definition physical_demo (demo : bool) (vis_nr : Z) (p : phys_plan) : result (option drawing) :=
  match demo, plan_root p with
  | true, Some a =>
      let basename := "demo_physical_plan_" +:+ to_string vis_nr in
      file ← PhysicalVisualizer.visualize (plan_store p) (Some a) basename;
      Ok (Some (drawing_of basename file))
  | _, _ => Ok None
  end.

Definition ConvertToPhys_demo (rnd : nat -> Z) (o : option LogicalPlanNode) (oc jo : bool) (itn : string)
    (demo : bool) (vis_nr : Z) : result (option (phys_plan * option drawing)) :=
  match o with
  | None => Ok None
  | Some n =>
      match (p ← convert_body rnd n oc jo itn; d ← physical_demo demo vis_nr p; Ok (p, d)) with
      | Ok r => Ok (Some r)
      | Err (Throw _) => Ok None
      | Err e => Err e
      end
  end.

(** [if (demo && currentPlan)] for the statement at position [i]. *)
Definition logical_demo (demo : bool) (vis_nr : Z) (i : nat) (currentPlan : LogicalPlanNode) : result (option drawing) :=
  if demo then
    let basename := "demo_logical_plan_" +:+ to_string (Z.of_nat i) +:+ "_" +:+ to_string vis_nr in
    file ← LogicalVisualizer.visualize currentPlan basename;
    Ok (Some (drawing_of basename file))
  else Ok None.

Section translate.
Variables (parse_sql : string -> SQLParserResult) (parse_json : string -> option json).
Variable iter : gmap string LogicalPlanNode -> list (string * LogicalPlanNode).

(** The loop over the statements. *)
Fixpoint demo_statements (demo : bool) (vis_nr : Z) (order : list string) (i : nat) (stmts : list SQLStatement)
    : result (list (LogicalPlanNode * option drawing)) :=
  match stmts with
  | [] => Ok []
  | stmt :: stmts =>
      currentPlan ← plan_statement iter order stmt;
      d ← logical_demo demo vis_nr i currentPlan;
      rest ← demo_statements demo vis_nr order (S i) stmts;
      Ok ((currentPlan, d) :: rest)
  end.

Definition translate_demo (sql : string) (opts : option json) (demo : bool) (vis_nr : Z)
    : result (list (LogicalPlanNode * option drawing)) :=
  let jsonJoinOrder := match parsePlanJson parse_json opts with
                       | Some j => extractJoinOrderFromJson j
                       | None => []
                       end in
  match parse_sql sql with
  | Invalid msg line col =>
      Err (Throw ("Invalid SQL: " +:+ msg +:+ " (L" +:+ to_string line +:+ ":" +:+ to_string col +:+ ")"))
  | Valid stmts => demo_statements demo vis_nr jsonJoinOrder 0 stmts
  end.

End translate.

(** ** Demo mode computes the same plans *)

Section demo.
Variables (parse_sql : string -> SQLParserResult) (parse_json : string -> option json).
Variable iter : gmap string LogicalPlanNode -> list (string * LogicalPlanNode).

Definition drawable (n : LogicalPlanNode) : Prop := no_nulls n = true /\ (Z.of_nat (plan_size n) <= INT_MAX)%Z.

Lemma logical_demo_draws vis_nr i n : drawable n -> exists d, logical_demo true vis_nr i n = Ok (Some d) /\
  dot_file d = "demo_logical_plan_" +:+ to_string (Z.of_nat i) +:+ "_" +:+ to_string vis_nr +:+ ".dot".
Proof.
  intros [Hn Hs]. rewrite /logical_demo /LogicalVisualizer.visualize.
  destruct (traverse_draws n Hn [] (LogicalVisualizer.mkVis 0 ∅ (dot_header "LogicalPlan" " , dir=back"))) as (v & -> & _).
  - intros b _. apply lookup_empty.
  - simpl. lia.
  - eexists. split; [done|]. simpl. by rewrite -!string_app_assoc.
Qed.

Lemma demo_statements_plans demo vis_nr order stmts : forall i plans,
  mapR (plan_statement iter order) stmts = Ok plans -> (demo = true -> Forall drawable plans) ->
  exists r, demo_statements iter demo vis_nr order i stmts = Ok r /\ map fst r = plans /\
    Forall (fun x => is_Some x.2 <-> demo = true) r.
Proof.
  induction stmts as [|stmt stmts IH]; intros i plans Hm Hd; cbn [mapR demo_statements] in *.
  - injection Hm as <-. by exists [].
  - apply bind_ok in Hm as (n & Hn & (ns & Hns & [= <-])%bind_ok).
    destruct (IH (S i) ns Hns ltac:(intros Ht; by destruct (proj1 (Forall_cons _ _ _) (Hd Ht)))) as (r & Hr & <- & Hf).
    assert (exists d, logical_demo demo vis_nr i n = Ok d /\ (is_Some d <-> demo = true)) as (d & Hdn & Hs).
    { destruct demo; [|by exists None; split; [|split; [intros []|]]].
      destruct (logical_demo_draws vis_nr i n) as (d & Hd1 & _); [by destruct (proj1 (Forall_cons _ _ _) (Hd eq_refl))|].
      exists (Some d). split; [done|]. split; [done|eauto]. }
    exists ((n, d) :: r). rewrite Hn /= Hdn /= Hr. split_and!; [done|done|by constructor].
Qed.

(** With demo mode on or off the translator returns the same plans; with it
    on, each of them is drawn. *)
Theorem translate_demo_same sql opts demo vis_nr plans :
  translateSQLToLogicalPlan parse_sql parse_json iter sql opts = Ok plans ->
  (demo = true -> Forall drawable plans) ->
  exists r, translate_demo parse_sql parse_json iter sql opts demo vis_nr = Ok r /\ map fst r = plans /\
    Forall (fun x => is_Some x.2 <-> demo = true) r.
Proof.
  rewrite /translateSQLToLogicalPlan /translate_demo. destruct (parse_sql sql); [|done]. apply demo_statements_plans.
Qed.
End demo.

(** With demo mode on, the optimizer returns the plan it returns otherwise,
    and the graph of that plan. *)
Theorem convert_demo_same rnd itn n oc jo vis_nr p a : itn <> "" -> phys_shape itn n = true ->
  ConvertToPhys rnd (Some n) oc jo itn = Ok (Some p) -> plan_root p = Some a ->
  (Z.of_nat (length (plan_store p) + size (base_keys (plan_store p))) <= INT_MAX)%Z ->
  exists d l num keys, ConvertToPhys_demo rnd (Some n) oc jo itn true vis_nr = Ok (Some (p, Some d)) /\
    is_graph (plan_store p) a l num keys /\
    dot_text d = dot_header "PhysicalPlan" ", dir=back" +:+ text l +:+ "}" +:+ newline.
Proof.
  intros Hitn Hsh Hc Ha Hs. pose proof (convert_body_ok rnd itn n oc jo Hitn Hsh) as Hex.
  rewrite /ConvertToPhys /ConvertToPhys_demo in Hc |- *.
  destruct (convert_body rnd n oc jo itn) as [p'|[]]; [|done|done]. injection Hc as ->.
  destruct (Hex a Ha) as [Hlt [Hac _]].
  destruct (visualize_graph_text (plan_store p) a ("demo_physical_plan_" +:+ to_string vis_nr) Hac Hlt Hs) as (l & num & keys & Hg & Hv).
  eexists (drawing_of _ (_, _)), l, num, keys. split_and!; [|exact Hg|reflexivity].
  cbn [mbind result_bind]. rewrite /physical_demo Ha Hv. reflexivity.
Qed.
