(* ===== verification/ExamplePlans.v ===== *)
(** * The example plans

    include/optimizer/structs/PhysicalPlanStructs.hpp: two physical plans
    written by hand.  [std::make_shared<PhysicalPlanNode>()] leaves every id 0;
    the store lists the nodes children first.

    include/optimizer/structs/LogicalPlanStructs.hpp: a function that builds
    logical nodes and drops them; the model is the list of the plans that are
    not part of another one when it returns. *)

From S2P Require Import Prelude PlanTypes PhysContext PostProcess PhysicalOptimizer PhysicalInvariant PostProcessInv Engine WorkItems.

Definition int_col (t c : string) : Column := Column3 t c PTY.INTEGER.
Definition str_col (t c : string) : Column := Column3 t c PTY.STRING.
Definition pos_col (c : string) : Column := Column3 "intermediate" c PTY.POSLIST.
Definition im_col (c : string) : Column := int_col "intermediate" c.

Definition example_node (ty : PNT.PhysicalNodeType) (base result : list Column) (e : Expression) (ch : list paddr)
    : PhysicalPlanNode := mkPhys ty 0 base None None e result (map Some ch) None None.

Definition compares (t : PCT.PlanCompType) (vals : list string) : Expression :=
  set_values vals (set_comp_type (Some t) Expression_default).

Definition sums : Expression := set_agg_specs [mkAggSpec PAF.SUM None None false] Expression_default.

Definition physicalPlanExample : phys_plan := mkPlan (Some 13)
  [ (* 0 filter1 *) example_node PNT.FILTER [int_col "dates" "d_year"] [pos_col "i1"] (compares PCT.GT ["1993"]) [];
    (* 1 filter2 *) example_node PNT.FILTER [int_col "lineorder" "lo_quantity"] [pos_col "i2"] (compares PCT.LT ["25"]) [];
    (* 2 filter3 *) example_node PNT.FILTER [int_col "dates" "d_year"] [pos_col "i3"] (compares PCT.BETWEEN ["1"; "3"]) [];
    (* 3 mat1 *) example_node PNT.MATERIALIZE [int_col "dates" "d_datekey"; pos_col "i1"] [im_col "i2"] Expression_default [0];
    (* 4 set *) example_node PNT.SETOPERATION [pos_col "i2"; pos_col "i3"] [pos_col "i4"]
      (set_logical_rel_op (Some PRO.INTERSECTION) Expression_default) [1; 2];
    (* 5 mat2 *) example_node PNT.MATERIALIZE [int_col "lineorder" "lo_orderdate"; pos_col "i4"] [im_col "i5"] Expression_default [4];
    (* 6 join *) example_node PNT.HASHJOIN [im_col "i5"; im_col "i2"] [pos_col "i6_i"; pos_col "i6_o"] Expression_default [3; 5];
    (* 7 mat3 *) example_node PNT.MATERIALIZE [int_col "lineorder" "lo_extendetprice"; pos_col "i4"] [im_col "i7"] Expression_default [4];
    (* 8 mat4 *) example_node PNT.MATERIALIZE [int_col "lineorder" "lo_discount"; pos_col "i4"] [im_col "i8"] Expression_default [4];
    (* 9 mat5 *) example_node PNT.MATERIALIZE [im_col "i7"; pos_col "i6_o"] [im_col "i9"] Expression_default [6; 7];
    (* 10 mat6 *) example_node PNT.MATERIALIZE [im_col "i8"; pos_col "i6_o"] [im_col "i10"] Expression_default [8];
    (* 11 mul *) example_node PNT.MAP [im_col "i10"; im_col "i9"] [im_col "i11"]
      (set_arith_op (Some PAO.MUL) Expression_default) [10; 9];
    (* 12 sum *) example_node PNT.AGGREGATE [im_col "i11"] [int_col "result" "sum"] sums [11];
    (* 13 result *) mkPhys PNT.RESULT 0 [] None None Expression_default
      [Column_ctor "result" "sum" PTY.INTEGER (Some "revenue") None] [Some 12] (Some "result_q_1_1") None ].

Definition physicalPlanMultiJoinExample : phys_plan := mkPlan (Some 10)
  [ (* 0 join1 *) example_node PNT.HASHJOIN [int_col "dates" "d_datekey"; int_col "lineorder" "lo_orderdate"]
      [pos_col "i1_i"; pos_col "i1_o"] Expression_default [];
    (* 1 mat_lopartkey *) example_node PNT.MATERIALIZE [int_col "lineorder" "lo_partkey"; pos_col "i1_o"] [im_col "i3"] Expression_default [0];
    (* 2 filter_part *) example_node PNT.FILTER [str_col "part" "p_category"] [pos_col "i2"] (compares PCT.EQ ["MFGR#12"]) [];
    (* 3 mat_ppartkey *) example_node PNT.MATERIALIZE [int_col "part" "p_partkey"; pos_col "i2"] [im_col "i4"] Expression_default [2];
    (* 4 join2 *) example_node PNT.HASHJOIN [im_col "i4"; im_col "i3"] [pos_col "i5_i"; pos_col "i5_o"] Expression_default [3; 1];
    (* 5 mat_losuppkey *) example_node PNT.MATERIALIZE [int_col "lineorder" "lo_suppkey"; pos_col "i5_o"] [im_col "i7"] Expression_default [4];
    (* 6 filter_supplier *) example_node PNT.FILTER [str_col "supplier" "s_region"] [pos_col "i6"] (compares PCT.EQ ["AMERICA"]) [];
    (* 7 mat_ssuppkey *) example_node PNT.MATERIALIZE [int_col "supplier" "s_suppkey"; pos_col "i6"] [im_col "i8"] Expression_default [6];
    (* 8 join3 *) example_node PNT.HASHJOIN [im_col "i8"; im_col "i7"] [pos_col "i9_i"; pos_col "i9_o"] Expression_default [7; 5];
    (* 9 mat_revenue *) example_node PNT.MATERIALIZE [int_col "lineorder" "lo_revenue"; pos_col "i9_o"] [im_col "i10"] Expression_default [8];
    (* 10 agg *) example_node PNT.AGGREGATE [im_col "i10"] [int_col "result" "sum"] sums [9] ].

Definition logical_filter (c : Column) (e : Expression) (child : LogicalPlanNode) : LogicalPlanNode :=
  LNode LNT.FILTER "" [c] e [] [Some child].

Definition logical_scan (t : string) : LogicalPlanNode := set_scan_table t (new_node LNT.SCAN).

(** [root], [root2], [child2_2] and [child2_3]. *)
Definition logicalPlanExample : list LogicalPlanNode :=
  let child2 := logical_scan "dates" in
  let child1 := logical_filter (int_col "dates" "d_year") (compares PCT.GT ["1993"]) child2 in
  let root := LNode LNT.PROJECTION "" [] Expression_default [int_col "dates" "d_day"] [Some child1] in
  let child2_1 := set_expression sums (new_node LNT.AGGREGATE) in
  let root2 := LNode LNT.PROJECTION "" [] Expression_default [int_col "" "sum"] [Some child2_1] in
  let child2_2 := LNode LNT.MAP "" [int_col "lineorder" "lo_extendedprice"; int_col "lineorder" "lo_discount"]
    (set_arith_op (Some PAO.MUL) Expression_default) [] [Some child2_1] in
  let child2_8 := logical_scan "dates" in
  let child2_4 := logical_filter (int_col "dates" "d_year") (compares PCT.GT ["1993"]) child2_8 in
  let child2_7 := logical_scan "lineorder" in
  let child2_6 := logical_filter (int_col "lineorder" "lo_quantity") (compares PCT.LT ["25"]) child2_7 in
  let child2_5 := logical_filter (int_col "lineorder" "lo_discount") (compares PCT.BETWEEN ["1"; "3"]) child2_6 in
  let child2_3 := LNode LNT.JOIN "" [int_col "lineorder" "lo_orderdate"; int_col "dates" "d_datekey"]
    (set_comp_type (Some PCT.EQ) Expression_default) [] [Some child2_4; Some child2_5] in
  [root; root2; child2_2; child2_3].

(** ** Are they plans the rest of the program can use? *)

(** Every intermediate column a node reads is an output of one of its
    children, by evaluation. *)
Definition reads_producedb (itn : string) (h : list PhysicalPlanNode) (n : PhysicalPlanNode) : bool :=
  forallb (fun c => negb (table_name c =s itn) ||
    existsb (fun o => match o with
      | Some b => match h !! b with Some m => bool_decide (col_key c ∈ outs m) | None => false end
      | None => false end) (p_children n)) (consumed n).

Definition closedb (itn : string) (h : list PhysicalPlanNode) : bool := acyclicb h && forallb (reads_producedb itn h) h.

Lemma closedb_closed itn h root : closedb itn h = true -> closed_plan itn h root.
Proof.
  intros [Hac Hr]%andb_true_iff. split; [by apply acyclicb_acyclic|]. intros a n c _ Hn Hc Ht.
  rewrite forallb_forall in Hr. apply list_elem_of_lookup_2, list_elem_of_In, Hr in Hn.
  rewrite /reads_producedb forallb_forall in Hn. apply list_elem_of_In, Hn, orb_true_iff in Hc as [Hc|Hc].
  - apply negb_true_iff, String.eqb_neq in Hc. done.
  - apply existsb_exists in Hc as (o & Ho & Hb). destruct o as [b|]; [|done].
    destruct (h !! b) as [m|] eqn:Hm; [|done]. apply bool_decide_eq_true in Hb. exists b, m. by apply list_elem_of_In in Ho.
Qed.

(** The second example is a plan whose data flow is closed and in which every
    column has one producer.  In the first, the materialization of i10 reads an
    output of the join, which is not below it, and i2 is produced twice. *)
Theorem examples_dataflow :
  (closed_plan "intermediate" (plan_store physicalPlanMultiJoinExample) 10 /\
   single_assignment (plan_store physicalPlanMultiJoinExample) = true) /\
  (~ closed_plan "intermediate" (plan_store physicalPlanExample) 13 /\
   single_assignment (plan_store physicalPlanExample) = false).
Proof.
  split; split; [by apply closedb_closed|done| |done]. intros [_ Hc].
  destruct (Hc 10 (example_node PNT.MATERIALIZE [im_col "i8"; pos_col "i6_o"] [im_col "i10"] Expression_default [8]) (pos_col "i6_o"))
    as (b & m & Hb & Hm & Hk); [|done|by vm_compute; right; left|done|].
  - eapply rtc_l; [eexists; split; [done|by left]|]. eapply rtc_l; [eexists; split; [done|by left]|].
    eapply rtc_l; [eexists; split; [done|by left]|]. apply rtc_refl.
  - apply list_elem_of_singleton in Hb as [= ->]. injection Hm as <-. by apply (bool_decide_eq_true_2 _) in Hk.
Qed.

(** Neither can be turned into work items: their MATERIALIZE nodes have no
    index. *)
Theorem examples_not_encodable planId :
  crateWorkItems physicalPlanExample planId = Err (Throw "bad optional access") /\
  crateWorkItems physicalPlanMultiJoinExample planId = Err (Throw "bad optional access").
Proof. split; vm_compute; reflexivity. Qed.

(** In the logical example the nodes are chained the wrong way round: MAP has
    the AGGREGATE as its child, which has none, and nothing refers to the JOIN.
    The first plan converts; the plan rooted at [root2] and the one at the MAP
    are rejected, since the AGGREGATE has no input. *)
Theorem logical_example_converts rnd oc itn :
  (forall n, logicalPlanExample !! 0 = Some n ->
     exists p a, ConvertToPhys rnd (Some n) oc false itn = Ok (Some p) /\ plan_root p = Some a) /\
  (forall i n, i = 1 \/ i = 2 -> logicalPlanExample !! i = Some n -> ConvertToPhys rnd (Some n) oc false itn = Ok None).
Proof.
  split.
  - intros n [= <-]. destruct oc; do 2 eexists; split; vm_compute; reflexivity.
  - intros i n [-> | ->] [= <-]; destruct oc; vm_compute; reflexivity.
Qed.
