(* ===== verification/Framing.v ===== *)
(** * Message framing

    The header [TCPMetaInfo] (include/TCPServer.hpp), the writer
    [serializeItemToMemory] (include/Utility.hpp), the reader
    [extractItemsModifyBuffer] (src/Utility.cpp) and the two loops that feed it:
    the receiver thread of a client of the server (src/TCPServer.cpp) and
    [listenLoop] (src/TCPClient.cpp).

    Memory is a list of bytes; a read or write outside it is [Undef].  Bytes
    that were never received keep the value they had, so the reader can look
    at them, as the code does. *)

From S2P Require Import Prelude.
From stdpp Require Import list_numbers.
#[local] Open Scope Z_scope.

(** ** Bytes *)

Definition is_byte (b : Z) : Prop := 0 <= b < 2 ^ 8.

(** Conversion to [ssize_t] (64 bits, two's complement) and [uint32_t]. *)
Definition to_ssize (z : Z) : Z := (z + 2 ^ 63) `mod` 2 ^ 64 - 2 ^ 63.
Definition to_u32 (z : Z) : Z := z `mod` 2 ^ 32.

Definition mem_read (m : list Z) (pos len : nat) : result (list Z) :=
  if (pos + len <=? length m)%nat then Ok (take len (drop pos m))
  else Err (Undef "read outside the buffer").

Definition mem_write (m : list Z) (pos : nat) (bs : list Z) : result (list Z) :=
  if (pos + length bs <=? length m)%nat
  then Ok (take pos m ++ bs ++ drop (pos + length bs) m)
  else Err (Undef "write outside the buffer").

(** [*reinterpret_cast<uint32_t*>(p)] on a little-endian machine. *)
Definition read_uint32 (m : list Z) (pos : nat) : result Z :=
  bs ← mem_read m pos 4; Ok (little_endian_to_Z 8 bs).

(** ** The header *)

Definition TCP_START_DELIM : Z := 0x5ADB0BB1.

(** The enumerations of proto/UnitDefinition.proto; a value off the wire can
    be any [int]. *)
Module TcpPackageType.
Definition UNDEFINED_PACKAGE_TYPE : Z := 0.
Definition WORK : Z := 1.
Definition TASK_FINISHED : Z := 3.
Definition TEXT : Z := 4.
Definition UPDATE_UNIT_TYPE : Z := 5.
Definition UUID_COLLISION : Z := 13.
End TcpPackageType.

Record TCPMetaInfo := {
  message_delimiter : Z;
  unit_type : Z;
  payload_size : Z;
  package_type : Z;
  src_uuid : Z;
  tgt_uuid : Z
}.

(** [TCPMetaInfo info;] *)
Definition default_TCPMetaInfo : TCPMetaInfo := {|
  message_delimiter := TCP_START_DELIM; unit_type := 0; payload_size := 0;
  package_type := TcpPackageType.UNDEFINED_PACKAGE_TYPE; src_uuid := 0; tgt_uuid := 0 |}.

(** Four 32-bit fields and two 64-bit ones, without padding. *)
Definition sizeof_TCPMetaInfo : Z := 32.

Definition bytesize (i : TCPMetaInfo) : Z := to_size (sizeof_TCPMetaInfo + payload_size i).

(** The bytes of the struct. *)
Definition info_bytes (i : TCPMetaInfo) : list Z :=
  Z_to_little_endian 4 8 (message_delimiter i) ++ Z_to_little_endian 4 8 (unit_type i) ++
  Z_to_little_endian 4 8 (payload_size i) ++ Z_to_little_endian 4 8 (package_type i) ++
  Z_to_little_endian 8 8 (src_uuid i) ++ Z_to_little_endian 8 8 (tgt_uuid i).

(** The struct at an address. *)
Definition read_info (m : list Z) (pos : nat) : result TCPMetaInfo :=
  bs ← mem_read m pos 32;
  let field o n := little_endian_to_Z 8 (take n (drop o bs)) in
  Ok {| message_delimiter := field 0%nat 4%nat; unit_type := to_int32 (field 4%nat 4%nat);
        payload_size := field 8%nat 4%nat; package_type := to_int32 (field 12%nat 4%nat);
        src_uuid := field 16%nat 8%nat; tgt_uuid := field 24%nat 8%nat |}.

(** ** Writing a message

    The protobuf runtime is a parameter: [item.ByteSizeLong()] is the length
    of what [SerializeToArray] writes. *)
Section Serialize.
Context {Item : Type} (SerializeToArray : Item -> list Z).

Definition ByteSizeLong (item : Item) : Z := Z.of_nat (length (SerializeToArray item)).

(** Returns the memory, the number of bytes written and the updated header.
    [payload_size] is a [uint32_t]. *)
Definition serializeItemToMemory (mem : list Z) (item : Item) (info : TCPMetaInfo)
    : result (list Z * Z * TCPMetaInfo) :=
  let info := {| message_delimiter := message_delimiter info; unit_type := unit_type info;
                 payload_size := to_u32 (ByteSizeLong item); package_type := package_type info;
                 src_uuid := src_uuid info; tgt_uuid := tgt_uuid info |} in
  mem ← mem_write mem 0 (info_bytes info);
  mem ← mem_write mem (Z.to_nat sizeof_TCPMetaInfo) (SerializeToArray item);
  Ok (mem, to_size (ByteSizeLong item + sizeof_TCPMetaInfo), info).

End Serialize.

(** ** Reading messages *)
Section Extract.
Context {S : Type}.

(** A callback gets the header, the payload and acts on the program's state. *)
Definition ReceiveCallback : Type := TCPMetaInfo -> list Z -> S -> S.
Definition CallbackMap : Type := gmap Z ReceiveCallback.

(** [while ( *data_ptr != TCP_START_DELIM) data_ptr++]: ends with a read
    outside the buffer when the delimiter does not occur. *)
Fixpoint scan_delimiter (fuel : nat) (m : list Z) (data_ptr : nat) : result nat :=
  d ← read_uint32 m data_ptr;
  if d =? TCP_START_DELIM then Ok data_ptr
  else match fuel with
       | O => Err (Undef "scan beyond the buffer")
       | Datatypes.S fuel => scan_delimiter fuel m (data_ptr + 1)
       end.

Definition call (callbacks : option CallbackMap) (info : TCPMetaInfo) (payload : list Z) (s : S) : S :=
  match callbacks with
  | Some cbs => match cbs !! package_type info with Some cb => cb info payload s | None => s end
  | None => s
  end.

(** The loop over complete messages.  Its condition reads [info->payload_size]
    first, also when no byte remains. *)
Fixpoint extract_loop (fuel : nat) (m : list Z) (callbacks : option CallbackMap)
    (data_ptr : nat) (remaining_bytes : Z) (s : S) : result (nat * Z * S) :=
  size ← read_uint32 m (data_ptr + 8);
  if (to_ssize (to_size (size + sizeof_TCPMetaInfo)) <=? remaining_bytes) && (0 <? remaining_bytes) then
    info ← read_info m data_ptr;
    let data_ptr := (data_ptr + Z.to_nat sizeof_TCPMetaInfo)%nat in
    payload ← mem_read m data_ptr (Z.to_nat (payload_size info));
    let s := call callbacks info payload s in
    let data_ptr := (data_ptr + Z.to_nat (payload_size info))%nat in
    let remaining_bytes := to_ssize (remaining_bytes - to_size (payload_size info + sizeof_TCPMetaInfo)) in
    match fuel with
    | O => Err (Undef "out of fuel")
    | Datatypes.S fuel => extract_loop fuel m callbacks data_ptr remaining_bytes s
    end
  else Ok (data_ptr, remaining_bytes, s).

(** All callers pass the same buffer as input and output.  After the scan
    [data_ptr] is set back to the start of the buffer, so the check that it
    moved never fires.  The copy to the start of the buffer moves the bytes
    left over as they were before it. *)
Definition extractItemsModifyBuffer (m : list Z) (in_received_bytes : Z)
    (callbacks : option CallbackMap) (s : S) : result (list Z * Z * S) :=
  _ ← scan_delimiter (length m) m 0;
  '(data_ptr, remaining_bytes, s) ← extract_loop (Z.to_nat in_received_bytes) m callbacks 0 in_received_bytes s;
  m ← (if 0 <? remaining_bytes then
         bs ← mem_read m data_ptr (Z.to_nat remaining_bytes); mem_write m 0 bs
       else Ok m);
  Ok (m, to_size remaining_bytes, s).

(** ** The receive loops *)

(** What [recv] returns: bytes (none when the peer closed the connection), a
    temporary failure (EAGAIN, EWOULDBLOCK) or an error; [Aborted] is another
    thread setting the abort flag while the loop runs. *)
Inductive net_event :=
  | Received (bytes : list Z)
  | WouldBlock
  | RecvFailed
  | Aborted.

Record Receiver := {
  msg_buffer : list Z;
  unprocessed_bytes : Z;
  abort : bool;
  app_state : S
}.

Definition set_abort (r : Receiver) : Receiver :=
  {| msg_buffer := msg_buffer r; unprocessed_bytes := unprocessed_bytes r; abort := true; app_state := app_state r |}.

(** [recv] into the buffer behind the unprocessed bytes, which never returns
    more than it was asked for, then the reader. *)
Definition feed (callbacks : CallbackMap) (available : Z) (bytes : list Z) (r : Receiver) : result Receiver :=
  if available <? Z.of_nat (length bytes) then Err (Undef "recv beyond the requested size") else
  m ← mem_write (msg_buffer r) (Z.to_nat (unprocessed_bytes r)) bytes;
  '(m, u, s) ← extractItemsModifyBuffer m (Z.of_nat (length bytes) + unprocessed_bytes r) (Some callbacks) (app_state r);
  Ok {| msg_buffer := m; unprocessed_bytes := u; abort := abort r; app_state := s |}.

(** The receiver thread of a client: runs until the loop is left or there is
    no further event.  The flag says whether it is still in the loop. *)
Fixpoint clientInfoReceiveCallback (callbacks : CallbackMap) (evs : list net_event) (r : Receiver)
    : result (Receiver * bool) :=
  if abort r then Ok (r, false) else
  let available_space := to_ssize (to_size (Z.of_nat (length (msg_buffer r)) - unprocessed_bytes r)) in
  if available_space <=? 0 then Ok (set_abort r, false) else
  match evs with
  | [] => Ok (r, true)
  | Aborted :: evs => clientInfoReceiveCallback callbacks evs (set_abort r)
  | Received [] :: _ => Ok (set_abort r, false)
  | Received bytes :: evs => r ← feed callbacks available_space bytes r; clientInfoReceiveCallback callbacks evs r
  | WouldBlock :: evs => clientInfoReceiveCallback callbacks evs r
  | RecvFailed :: _ => Ok (r, false)
  end.

(** [TCPClient::listenLoop]; the flag [globalAbort] is [abort].  A failed
    [recv] ends the loop, temporary or not. *)
Fixpoint listenLoop (callbacks : CallbackMap) (evs : list net_event) (r : Receiver)
    : result (Receiver * bool) :=
  if abort r then Ok (r, false) else
  let available_buffer_size := to_size (Z.of_nat (length (msg_buffer r)) - 1 - unprocessed_bytes r) in
  match evs with
  | [] => Ok (r, true)
  | Aborted :: evs => listenLoop callbacks evs (set_abort r)
  | Received [] :: _ | WouldBlock :: _ | RecvFailed :: _ => Ok (set_abort r, false)
  | Received bytes :: evs => r ← feed callbacks available_buffer_size bytes r; listenLoop callbacks evs r
  end.

End Extract.
Arguments ReceiveCallback : clear implicits.
Arguments CallbackMap : clear implicits.
Arguments Receiver : clear implicits.

(** The buffers of the two loops. *)
Definition server_MAX_DATA_SIZE : Z := 1024 * 1024 * 64.
Definition client_MAX_DATA_SIZE : Z := 1024 * 1024 * 2.
