(* ===== verification/FramingInv.v ===== *)
(** * Correctness of the message reader

    The reader is compared with [split_stream], which cuts a prefix of a
    stream of messages into the complete ones and the rest. *)

From S2P Require Import Prelude Framing.
From stdpp Require Import list_numbers.
#[local] Open Scope Z_scope.

(** ** Machine integers and memory *)

Lemma to_ssize_small z : - 2 ^ 63 <= z < 2 ^ 63 -> to_ssize z = z.
Proof. intros H. rewrite /to_ssize Z.mod_small; lia. Qed.

Lemma to_size_small z : 0 <= z < 2 ^ 64 -> to_size z = z.
Proof. intros H. by rewrite /to_size Z.mod_small. Qed.

Lemma mem_read_ok m pos len : (pos + len <= length m)%nat -> mem_read m pos len = Ok (take len (drop pos m)).
Proof. intros H. by rewrite /mem_read (proj2 (Nat.leb_le _ _) H). Qed.

Lemma mem_write_ok m pos bs : (pos + length bs <= length m)%nat ->
  mem_write m pos bs = Ok (take pos m ++ bs ++ drop (pos + length bs) m).
Proof. intros H. by rewrite /mem_write (proj2 (Nat.leb_le _ _) H). Qed.

Lemma mem_write_length (m : list Z) (pos : nat) (bs : list Z) : (pos + length bs <= length m)%nat ->
  length (take pos m ++ bs ++ drop (pos + length bs) m) = length m.
Proof. intros H. rewrite !length_app length_take length_drop. lia. Qed.

Lemma mem_write_inv m pos bs m' : mem_write m pos bs = Ok m' ->
  (pos + length bs <= length m)%nat /\ length m' = length m.
Proof.
  rewrite /mem_write. destruct (Nat.leb_spec (pos + length bs) (length m)) as [H|]; [|done].
  intros [= <-]. split; [done|]. by apply mem_write_length.
Qed.

Lemma Forall_mem_write (P : Z -> Prop) m pos bs : Forall P m -> Forall P bs ->
  Forall P (take pos m ++ bs ++ drop (pos + length bs) m).
Proof. intros Hm Hbs. apply Forall_app; split; [by apply Forall_take|]. apply Forall_app; split; [done|by apply Forall_drop]. Qed.

Lemma read_uint32_ok m pos : (pos + 4 <= length m)%nat ->
  read_uint32 m pos = Ok (little_endian_to_Z 8 (take 4 (drop pos m))).
Proof. intros H. by rewrite /read_uint32 mem_read_ok. Qed.

Lemma read_uint32_range m pos z : Forall is_byte m -> read_uint32 m pos = Ok z -> 0 <= z < 2 ^ 32.
Proof.
  intros Hm. rewrite /read_uint32 /mem_read. case_match; simpl; [|done]. intros [= <-].
  pose proof (little_endian_to_Z_bound 8 (take 4 (drop pos m)) ltac:(lia)) as Hb.
  destruct Hb as [Hb0 Hb1]; [by apply Forall_take, Forall_drop|]. split; [done|].
  rewrite length_take in Hb1. eapply Z.lt_le_trans; [exact Hb1|]. apply Z.pow_le_mono_r; lia.
Qed.

Lemma length_le4 z : length (Z_to_little_endian 4 8 z) = 4%nat.
Proof. pose proof (length_Z_to_little_endian 4 8 z). lia. Qed.

Lemma length_le8 z : length (Z_to_little_endian 8 8 z) = 8%nat.
Proof. pose proof (length_Z_to_little_endian 8 8 z). lia. Qed.

Lemma info_bytes_length i : length (info_bytes i) = 32%nat.
Proof. rewrite /info_bytes !length_app !length_le4 !length_le8. done. Qed.

Lemma info_bytes_bytes i : Forall is_byte (info_bytes i).
Proof. rewrite /info_bytes. repeat (apply Forall_app; split); apply Z_to_little_endian_bound; lia. Qed.

(** ** Messages *)

Record message := { m_info : TCPMetaInfo; m_payload : list Z }.

Definition enc (f : message) : list Z := info_bytes (m_info f) ++ m_payload f.

(** A message as a sender builds it. *)
Record wf_message (f : message) : Prop := {
  wf_delim : message_delimiter (m_info f) = TCP_START_DELIM;
  wf_unit : - 2 ^ 31 <= unit_type (m_info f) < 2 ^ 31;
  wf_size : payload_size (m_info f) = Z.of_nat (length (m_payload f));
  wf_fits : payload_size (m_info f) < 2 ^ 32;
  wf_package : - 2 ^ 31 <= package_type (m_info f) < 2 ^ 31;
  wf_src : 0 <= src_uuid (m_info f) < 2 ^ 64;
  wf_tgt : 0 <= tgt_uuid (m_info f) < 2 ^ 64;
  wf_bytes : Forall is_byte (m_payload f)
}.

#[global] Arguments enc : simpl never.
#[global] Arguments info_bytes : simpl never.

Lemma enc_length f : length (enc f) = (32 + length (m_payload f))%nat.
Proof. by rewrite /enc length_app info_bytes_length. Qed.

Lemma enc_bytes f : wf_message f -> Forall is_byte (enc f).
Proof. intros Hf. apply Forall_app; split; [apply info_bytes_bytes|by apply wf_bytes]. Qed.

(** A field of the header, found in memory that starts with the header. *)
Lemma field_4 (a b c : list Z) z o : length a = o -> b = Z_to_little_endian 4 8 z ->
  little_endian_to_Z 8 (take 4 (drop o (a ++ b ++ c))) = z `mod` 2 ^ 32.
Proof.
  intros <- ->. rewrite drop_app_length take_app_length'; [|by rewrite length_le4].
  by rewrite little_endian_to_Z_to_little_endian.
Qed.

Lemma field_8 (a b c : list Z) z o : length a = o -> b = Z_to_little_endian 8 8 z ->
  little_endian_to_Z 8 (take 8 (drop o (a ++ b ++ c))) = z `mod` 2 ^ 64.
Proof.
  intros <- ->. rewrite drop_app_length take_app_length'; [|by rewrite length_le8].
  by rewrite little_endian_to_Z_to_little_endian.
Qed.

Lemma to_int32_mod z : - 2 ^ 31 <= z < 2 ^ 31 -> to_int32 (z `mod` 2 ^ 32) = z.
Proof.
  intros H. rewrite /to_int32. rewrite Zplus_mod_idemp_l Z.mod_small; lia.
Qed.

(** Memory that holds a message at [pos]: the header is read back. *)
Lemma read_info_enc m pos f rest : wf_message f -> drop pos m = enc f ++ rest ->
  read_info m pos = Ok (m_info f).
Proof.
  intros Hf Hd. assert (pos + 32 <= length m)%nat as Hl.
  { apply (f_equal length) in Hd. rewrite length_drop length_app enc_length in Hd. lia. }
  assert (take 32 (drop pos m) = info_bytes (m_info f)) as Ht.
  { by rewrite Hd /enc -app_assoc take_app_length' ?info_bytes_length. }
  rewrite /read_info mem_read_ok // /mbind /result_bind Ht.
  destruct (m_info f) as [d u p t s g] eqn:Hi. rewrite /info_bytes.
  cbn [message_delimiter unit_type payload_size package_type src_uuid tgt_uuid].
  pose proof (wf_delim f Hf) as H1. pose proof (wf_unit f Hf) as H2. pose proof (wf_size f Hf) as H3.
  pose proof (wf_fits f Hf) as H3'. pose proof (wf_package f Hf) as H4. pose proof (wf_src f Hf) as H5.
  pose proof (wf_tgt f Hf) as H6. rewrite Hi /= in H1 H2 H3 H3' H4 H5 H6.
  f_equal. f_equal.
  - rewrite (field_4 [] (Z_to_little_endian 4 8 d) _ d 0) // H1. done.
  - rewrite (field_4 (Z_to_little_endian 4 8 d) (Z_to_little_endian 4 8 u) _ u 4) ?length_le4 // to_int32_mod //.
  - rewrite app_assoc (field_4 _ (Z_to_little_endian 4 8 p) _ p 8) ?length_app ?length_le4 // Z.mod_small //. lia.
  - rewrite 2!app_assoc (field_4 _ (Z_to_little_endian 4 8 t) _ t 12) ?length_app ?length_le4 // to_int32_mod //.
  - rewrite 3!app_assoc (field_8 _ (Z_to_little_endian 8 8 s) _ s 16) ?length_app ?length_le4 // Z.mod_small //.
  - rewrite 4!app_assoc -[Z_to_little_endian 8 8 g]app_nil_r (field_8 _ (Z_to_little_endian 8 8 g) [] g 24)
      ?length_app ?length_le4 ?length_le8 // Z.mod_small //.
Qed.

Lemma take_le_eq {A} (a b : list A) n k : (k <= n)%nat -> take n a = take n b -> take k a = take k b.
Proof. intros Hk H. apply (f_equal (take k)) in H. rewrite !take_take in H. by rewrite Nat.min_l in H. Qed.

Lemma take_drop_eq {A} (a b : list A) n k l : (k + n <= l)%nat -> take l a = take l b -> take n (drop k a) = take n (drop k b).
Proof. intros Hk H. rewrite !firstn_skipn_comm. f_equal. exact (take_le_eq _ _ _ _ Hk H). Qed.

(** The size field only needs the first twelve bytes of the header. *)
Lemma read_size_enc m pos f : wf_message f -> (pos + 12 <= length m)%nat ->
  take 12 (drop pos m) = take 12 (enc f) -> read_uint32 m (pos + 8) = Ok (payload_size (m_info f)).
Proof.
  intros Hf Hl Ht. rewrite read_uint32_ok; [|lia]. f_equal.
  rewrite -drop_drop (take_drop_eq _ _ 4 8 12 ltac:(lia) Ht). rewrite /enc /info_bytes -!app_assoc app_assoc.
  rewrite (field_4 _ (Z_to_little_endian 4 8 (payload_size (m_info f))) _ (payload_size (m_info f))) ?length_app ?length_le4 //.
  rewrite Z.mod_small //. pose proof (wf_size f Hf). pose proof (wf_fits f Hf). lia.
Qed.

(** ** The loop over complete messages *)

Definition deliver {S} (cbs : option (CallbackMap S)) (fs : list message) (s : S) : S :=
  fold_left (fun s f => call cbs (m_info f) (m_payload f) s) fs s.

(** The beginning of a message, possibly empty. *)
Definition incomplete (part : list Z) : Prop :=
  exists f, wf_message f /\ part `prefix_of` enc f /\ (length part < length (enc f))%nat.

Definition stream (fs : list message) : list Z := concat (map enc fs).

Lemma size_not_complete m pos part rest z : Forall is_byte m -> incomplete part ->
  drop pos m = part ++ rest -> read_uint32 m (pos + 8) = Ok z -> Z.of_nat (length part) < z + 32.
Proof.
  intros Hm (f & Hf & [tl Hp] & Hl) Hd Hz. pose proof (read_uint32_range _ _ _ Hm Hz) as Hr.
  destruct (decide (length part < 32)%nat) as [|Hge]; [lia|].
  assert (read_uint32 m (pos + 8) = Ok (payload_size (m_info f))) as Hs.
  { apply read_size_enc; [done| |].
    - apply (f_equal length) in Hd. rewrite length_drop length_app in Hd. lia.
    - rewrite Hd Hp !take_app_le //; lia. }
  rewrite Hs in Hz. injection Hz as <-. rewrite (wf_size f Hf). rewrite enc_length in Hl. lia.
Qed.

(** A complete message is delivered and skipped. *)
Lemma extract_loop_step {S} (cbs : option (CallbackMap S)) m pos f rest fuel rem s :
  wf_message f -> drop pos m = enc f ++ rest -> Z.of_nat (length (enc f)) <= rem < 2 ^ 63 ->
  extract_loop (Datatypes.S fuel) m cbs pos rem s =
    extract_loop fuel m cbs (pos + length (enc f)) (rem - Z.of_nat (length (enc f))) (call cbs (m_info f) (m_payload f) s).
Proof.
  intros Hf Hd Hrem. assert (pos + length (enc f) <= length m)%nat as Hl.
  { apply (f_equal length) in Hd. rewrite length_drop length_app in Hd. rewrite enc_length in Hd |- *. lia. }
  rewrite enc_length in Hrem, Hl |- *. cbn [extract_loop].
  rewrite (read_size_enc m pos f Hf); [|lia|by rewrite Hd take_app_le // enc_length; lia].
  rewrite (read_info_enc m pos f _ Hf Hd) /mbind /result_bind. rewrite (wf_size f Hf) /sizeof_TCPMetaInfo.
  pose proof (wf_fits f Hf) as Hfit. rewrite (wf_size f Hf) in Hfit.
  rewrite to_size_small; [|lia]. rewrite to_ssize_small; [|lia].
  rewrite (proj2 (Z.leb_le _ _)) ?(proj2 (Z.ltb_lt _ _)); [|lia|lia]. cbn [andb]. rewrite Nat2Z.id mem_read_ok; [|lia].
  assert (drop (pos + Z.to_nat 32) m = m_payload f ++ rest) as ->.
  { rewrite -drop_drop Hd /enc -app_assoc drop_app_length' ?info_bytes_length //. }
  rewrite take_app_length to_ssize_small; [|lia]. f_equal; lia.
Qed.

Lemma extract_loop_split {S} (cbs : option (CallbackMap S)) m part rest fs : forall fuel pos s,
  Forall is_byte m -> Forall wf_message fs -> incomplete part ->
  drop pos m = stream fs ++ part ++ rest -> (length (stream fs) + length part + pos + 12 <= length m)%nat ->
  Z.of_nat (length m) < 2 ^ 63 -> (length fs <= fuel)%nat ->
  extract_loop fuel m cbs pos (Z.of_nat (length (stream fs) + length part)) s =
    Ok ((pos + length (stream fs))%nat, Z.of_nat (length part), deliver cbs fs s).
Proof.
  induction fs as [|f fs IH]; intros fuel pos s Hm Hfs Hpart Hd Hl Hmax Hfuel.
  - destruct (read_uint32 m (pos + 8)) as [z|e] eqn:Hz; [|by rewrite read_uint32_ok in Hz; [|lia]].
    pose proof (size_not_complete m pos part rest z Hm Hpart Hd Hz) as Hn.
    pose proof (read_uint32_range _ _ _ Hm Hz) as Hr.
    assert (to_ssize (to_size (z + sizeof_TCPMetaInfo)) = z + 32) as Hs.
    { rewrite to_size_small; rewrite /sizeof_TCPMetaInfo; [|lia]. apply to_ssize_small. lia. }
    destruct fuel; simpl; rewrite Hz /=; rewrite Hs (proj2 (Z.leb_gt _ _)) /=; try lia; repeat f_equal; lia.
  - apply Forall_cons in Hfs as [Hf Hfs]. cbn [stream map concat] in Hd, Hl |- *. rewrite -/(stream fs) in Hd, Hl |- *.
    rewrite length_app enc_length in Hl. rewrite -app_assoc in Hd.
    destruct fuel as [|fuel]; [simpl in Hfuel; lia|].
    rewrite (extract_loop_step cbs m pos f (stream fs ++ part ++ rest)) // length_app; [|rewrite enc_length; lia].
    replace (Z.of_nat _ - Z.of_nat _) with (Z.of_nat (length (stream fs) + length part)) by lia.
    rewrite IH; [by rewrite Nat.add_assoc|done|done|done| |rewrite enc_length; lia|done|simpl in Hfuel; lia].
    by rewrite -drop_drop Hd drop_app_length.
Qed.

(** ** Arbitrary contents: no access outside the buffer *)

Lemma read_info_size m pos i : read_info m pos = Ok i -> read_uint32 m (pos + 8) = Ok (payload_size i).
Proof.
  rewrite /read_info. intros (bs & Hbs & Hi)%bind_ok. injection Hi as <-. cbn [payload_size].
  rewrite /mem_read in Hbs. destruct (Nat.leb_spec (pos + 32) (length m)) as [Hl|]; [|done]. injection Hbs as <-.
  rewrite read_uint32_ok; [|lia]. rewrite -drop_drop. do 2 f_equal.
  apply (take_drop_eq _ _ 4 8 32); [lia|]. by rewrite take_take.
Qed.

Lemma read_info_ok m pos : (pos + 32 <= length m)%nat -> exists i, read_info m pos = Ok i.
Proof. intros H. rewrite /read_info mem_read_ok //=. eauto. Qed.

Lemma extract_loop_total {S} (cbs : option (CallbackMap S)) m : Forall is_byte m -> Z.of_nat (length m) < 2 ^ 63 ->
  forall fuel pos rem s, 0 <= rem -> Z.of_nat pos + rem + 12 <= Z.of_nat (length m) -> (Z.to_nat rem <= fuel)%nat ->
  exists pos' rem' s', extract_loop fuel m cbs pos rem s = Ok (pos', rem', s') /\
    0 <= rem' <= rem /\ Z.of_nat pos' + rem' = Z.of_nat pos + rem.
Proof.
  intros Hm Hmax. induction fuel as [|fuel IH]; intros pos rem s Hrem Hl Hfuel;
    (destruct (read_uint32 m (pos + 8)) as [z|e] eqn:Hz; [|by rewrite read_uint32_ok in Hz; [|lia]]);
    pose proof (read_uint32_range _ _ _ Hm Hz) as Hr; cbn [extract_loop]; rewrite Hz /= /sizeof_TCPMetaInfo;
    (rewrite to_size_small; [|lia]); (rewrite to_ssize_small; [|lia]).
  - rewrite (proj2 (Z.leb_gt _ _)) /=; [|lia]. eexists _, _, _. split; [done|lia].
  - destruct (Z.leb_spec (z + 32) rem) as [Hle|]; [|eexists _, _, _; split; [done|lia]].
    destruct (Z.ltb_spec 0 rem); [|lia]. simpl.
    destruct (read_info_ok m pos) as [i Hi]; [lia|]. pose proof (read_info_size m pos i Hi) as Hsz.
    rewrite Hz in Hsz. injection Hsz as ->. rewrite Hi /=. rewrite mem_read_ok; [|lia]. simpl.
    rewrite (to_size_small (payload_size i + 32)); [|lia]. rewrite to_ssize_small; [|lia].
    edestruct IH as (p' & r' & s' & -> & H1 & H2); [..|eexists _, _, _; split; [done|]]; lia.
Qed.

(** ** One call of the reader *)

Definition delim_bytes : list Z := Z_to_little_endian 4 8 TCP_START_DELIM.

Lemma take_length_ge {A} (a b : list A) n : take n a = b -> length b = n -> (n <= length a)%nat.
Proof. intros <- H. rewrite length_take in H. lia. Qed.

Lemma scan_found fuel m : take 4 m = delim_bytes -> scan_delimiter fuel m 0 = Ok 0%nat.
Proof.
  intros H. pose proof (take_length_ge m delim_bytes 4 H eq_refl) as Hl.
  destruct fuel; cbn [scan_delimiter]; (rewrite read_uint32_ok; [|lia]); rewrite drop_0 H; reflexivity.
Qed.

Lemma extract_total {S} (cbs : option (CallbackMap S)) m n s : Forall is_byte m -> take 4 m = delim_bytes ->
  Z.of_nat (length m) < 2 ^ 63 -> 0 <= n -> n + 12 <= Z.of_nat (length m) ->
  exists m' u s', extractItemsModifyBuffer m n cbs s = Ok (m', u, s') /\
    length m' = length m /\ Forall is_byte m' /\ 0 <= u <= n /\
    exists c, Z.of_nat c + u = n /\ take (Z.to_nat u) m' = take (Z.to_nat u) (drop c m).
Proof.
  intros Hm Hd Hmax Hn Hl. rewrite /extractItemsModifyBuffer scan_found //=.
  destruct (extract_loop_total cbs m Hm Hmax (Z.to_nat n) 0 n s Hn ltac:(lia) ltac:(lia))
    as (p & r & s' & -> & Hr & Hp). simpl. destruct (Z.ltb_spec 0 r) as [H|H].
  - rewrite mem_read_ok; [|lia]. simpl. set (bs := take _ _).
    assert (length bs = Z.to_nat r) as Hbs by (rewrite length_take length_drop; lia).
    rewrite mem_write_ok; [|lia]. simpl. rewrite to_size_small; [|lia].
    eexists _, _, _. split; [done|]. split_and!; try lia.
    + apply (mem_write_length m 0). lia.
    + apply (Forall_mem_write _ m 0); [done|]. by apply Forall_take, Forall_drop.
    + exists p. split; [lia|]. rewrite -Hbs take_app_length. by rewrite Hbs.
  - simpl. rewrite to_size_small; [|lia]. eexists _, _, _. split; [done|]. split_and!; [done|done|lia..|].
    exists p. split; [lia|]. replace (Z.to_nat r) with 0%nat by lia. done.
Qed.

Lemma stream_length fs : (32 * length fs <= length (stream fs))%nat.
Proof.
  induction fs as [|f fs IH]; [done|]. cbn [stream map concat]. rewrite length_app enc_length -/(stream fs).
  simpl in *. lia.
Qed.

Lemma extract_split {S} (cbs : option (CallbackMap S)) m fs part rest s :
  Forall is_byte m -> take 4 m = delim_bytes -> Forall wf_message fs -> incomplete part ->
  m = stream fs ++ part ++ rest -> (12 <= length rest)%nat -> Z.of_nat (length m) < 2 ^ 63 ->
  extractItemsModifyBuffer m (Z.of_nat (length (stream fs ++ part))) cbs s =
    Ok (part ++ drop (length part) m, Z.of_nat (length part), deliver cbs fs s).
Proof.
  intros Hm Hd Hfs Hpart Heq Hrest Hmax. rewrite /extractItemsModifyBuffer scan_found //=.
  pose proof (stream_length fs). assert (length m = length (stream fs) + (length part + length rest))%nat as Hlen.
  { by rewrite Heq !length_app. }
  assert (drop (length (stream fs)) m = part ++ rest) as Hdm by by rewrite Heq drop_app_length.
  rewrite length_app (extract_loop_split cbs m part rest) //; [|lia..]. simpl.
  destruct (Z.ltb_spec 0 (Z.of_nat (length part))) as [Hp|Hp].
  - rewrite mem_read_ok; [|lia]. rewrite Nat2Z.id Hdm take_app_length /=.
    rewrite mem_write_ok; [|lia]. simpl. rewrite to_size_small //. lia.
  - destruct part; [|simpl in Hp; lia]. by rewrite /= drop_0.
Qed.

(** ** The reference: cutting a stream *)

Fixpoint split_stream (fs : list message) (p : list Z) : list message * list Z :=
  match fs with
  | [] => ([], p)
  | f :: fs =>
      if (length (enc f) <=? length p)%nat then
        let '(d, r) := split_stream fs (drop (length (enc f)) p) in (f :: d, r)
      else ([], p)
  end.

Lemma stream_cons f fs : stream (f :: fs) = enc f ++ stream fs.
Proof. done. Qed.

Lemma prefix_app_long (a b c : list Z) : a `prefix_of` b ++ c -> (length b <= length a)%nat ->
  a = b ++ drop (length b) a /\ drop (length b) a `prefix_of` c.
Proof.
  intros [k Hk] Hl. assert (take (length b) a = b) as Ht.
  { by rewrite -(take_app_le a k) // -Hk take_app_length. }
  assert (a = b ++ drop (length b) a) as Ha by by rewrite -{1}Ht take_drop. split; [done|].
  exists k. rewrite Ha -app_assoc in Hk. by apply app_inv_head in Hk.
Qed.

Definition empty_message : message := {| m_info := default_TCPMetaInfo; m_payload := [] |}.

Lemma wf_empty_message : wf_message empty_message.
Proof. split; try done. Qed.

Lemma split_stream_spec fs : forall p, Forall wf_message fs -> p `prefix_of` stream fs ->
  let '(d, r) := split_stream fs p in
  p = stream d ++ r /\ fs = d ++ drop (length d) fs /\ r `prefix_of` stream (drop (length d) fs) /\ incomplete r.
Proof.
  induction fs as [|f fs IH]; intros p Hfs Hp; cbn [split_stream].
  - apply prefix_nil_inv in Hp as ->. split_and!; [done..|]. exists empty_message. split; [apply wf_empty_message|].
    split; [apply prefix_nil|]. rewrite enc_length. simpl. lia.
  - apply Forall_cons in Hfs as [Hf Hfs]. destruct (Nat.leb_spec (length (enc f)) (length p)) as [Hl|Hl].
    + destruct (prefix_app_long p (enc f) (stream fs) Hp Hl) as [Hpe Hpr].
      specialize (IH _ Hfs Hpr). destruct (split_stream fs _) as [d r]. destruct IH as (H1 & H2 & H3 & H4).
      split_and!; [|simpl; by f_equal|done|done]. rewrite stream_cons -app_assoc -H1. exact Hpe.
    + split_and!; [done..|]. exists f. split; [done|]. split; [|done].
      rewrite stream_cons in Hp.
      destruct (prefix_weak_total p (enc f) (enc f ++ stream fs)) as [|[k Hk]]; [done|by exists (stream fs)|done|].
      rewrite Hk length_app in Hl. lia.
Qed.

Lemma split_stream_app fs c : forall p, let '(d, r) := split_stream fs p in
  let '(d', r') := split_stream (drop (length d) fs) (r ++ c) in split_stream fs (p ++ c) = (d ++ d', r').
Proof.
  induction fs as [|f fs IH]; intros p; cbn [split_stream]; [done|].
  destruct (Nat.leb_spec (length (enc f)) (length p)) as [Hl|Hl].
  - specialize (IH (drop (length (enc f)) p)). destruct (split_stream fs _) as [d r]. cbn [length drop].
    destruct (split_stream (drop (length d) fs) _) as [d' r']. rewrite length_app.
    rewrite (proj2 (Nat.leb_le _ _)); [|lia]. by rewrite drop_app_le // IH.
  - cbn [length drop split_stream app]. by destruct (length (enc f) <=? length (p ++ c))%nat; [destruct (split_stream fs _)|].
Qed.

(** A whole stream is cut completely. *)
Lemma split_stream_all fs : split_stream fs (stream fs) = (fs, []).
Proof.
  induction fs as [|f fs IH]; [done|]. cbn [split_stream]. rewrite stream_cons length_app.
  rewrite (proj2 (Nat.leb_le _ _)); [|lia]. by rewrite drop_app_length IH.
Qed.

(** ** The start of the buffer *)

Lemma enc_delim f : wf_message f -> take 4 (enc f) = delim_bytes.
Proof.
  intros Hf. rewrite /enc /info_bytes (wf_delim f Hf) -!app_assoc take_app_length' //.
Qed.

Lemma stream_delim fs q : Forall wf_message fs -> q `prefix_of` stream fs -> take 4 q `prefix_of` delim_bytes.
Proof.
  intros Hfs [k Hk]. destruct fs as [|f fs].
  - destruct q; [|done]. apply prefix_nil.
  - apply Forall_cons in Hfs as [Hf _]. exists (take (4 - length q) k).
    rewrite -take_app -Hk stream_cons take_app_le ?enc_length; [|lia]. by rewrite enc_delim.
Qed.

Lemma overlay_delim q m : take 4 q `prefix_of` delim_bytes -> take 4 m = delim_bytes \/ (4 <= length q)%nat ->
  take 4 (q ++ drop (length q) m) = delim_bytes.
Proof.
  intros [k Hk] H. destruct (Nat.le_gt_cases 4 (length q)) as [Hq|Hq].
  - rewrite take_app_le //. destruct k; [by rewrite app_nil_r in Hk|].
    apply (f_equal length) in Hk. rewrite length_app length_take in Hk. change (length delim_bytes) with 4%nat in Hk.
    cbn [length] in Hk. lia.
  - destruct H as [H|]; [|lia]. rewrite take_app firstn_all2; [|lia]. rewrite firstn_all2 in Hk; [|lia].
    rewrite firstn_skipn_comm. replace (length q + (4 - length q))%nat with 4%nat by lia.
    by rewrite H Hk drop_app_length.
Qed.

(** ** The receive loops *)
Section Loops.
Context {S : Type} (cbs : CallbackMap S) (s0 : S) (fs : list message).
Hypothesis fs_wf : Forall wf_message fs.

(** The bytes [p] of the stream have been received. *)
Record RecvInv (p : list Z) (r : Receiver S) : Prop := {
  ri_prefix : p `prefix_of` stream fs;
  ri_bytes : Forall is_byte (msg_buffer r);
  ri_unprocessed : unprocessed_bytes r = Z.of_nat (length (split_stream fs p).2);
  ri_part : take (length (split_stream fs p).2) (msg_buffer r) = (split_stream fs p).2;
  ri_app : app_state r = deliver (Some cbs) (split_stream fs p).1 s0;
  ri_running : abort r = false
}.

Lemma stream_bytes l : Forall wf_message l -> Forall is_byte (stream l).
Proof. induction 1; [constructor|]. rewrite stream_cons. apply Forall_app; split; [by apply enc_bytes|done]. Qed.

Lemma prefix_Forall {A} (P : A -> Prop) (a b : list A) : a `prefix_of` b -> Forall P b -> Forall P a.
Proof. intros [k ->]. by intros [? _]%Forall_app. Qed.

Lemma feed_step p r c available : RecvInv p r -> p ++ c `prefix_of` stream fs ->
  take 4 (msg_buffer r) = delim_bytes \/ (4 <= length ((split_stream fs p).2 ++ c))%nat ->
  Z.of_nat (length (msg_buffer r)) < 2 ^ 63 ->
  Z.of_nat (length c) <= available -> unprocessed_bytes r + Z.of_nat (length c) + 12 <= Z.of_nat (length (msg_buffer r)) ->
  exists r', feed cbs available c r = Ok r' /\ RecvInv (p ++ c) r' /\
    length (msg_buffer r') = length (msg_buffer r) /\ take 4 (msg_buffer r') = delim_bytes.
Proof.
  intros [Hp Hb Hu Hpart Happ Hrun] Hpc Hdel Hmax Hav Hfit.
  pose proof (split_stream_spec fs p fs_wf Hp) as Hs. pose proof (split_stream_app fs c p) as Hsa.
  destruct (split_stream fs p) as [d q]. cbn [fst snd] in *. destruct Hs as (Hpe & Hfs & Hq & _).
  assert (Forall wf_message (drop (length d) fs)) as Hwf' by by apply Forall_drop.
  assert (q ++ c `prefix_of` stream (drop (length d) fs)) as Hqc.
  { destruct Hpc as [k Hk]. exists k. rewrite Hpe Hfs /stream map_app concat_app -!app_assoc in Hk.
    apply app_inv_head in Hk. by rewrite -app_assoc. }
  pose proof (split_stream_spec _ (q ++ c) Hwf' Hqc) as Hs'. destruct (split_stream (drop _ fs) (q ++ c)) as [d' r'].
  destruct Hs' as (Hqe & Hfs' & Hr' & Hinc). rewrite /feed (proj2 (Z.ltb_ge _ _)) //.
  rewrite Hu Nat2Z.id mem_write_ok; [|lia]. rewrite Hpart. set (rest := drop _ (msg_buffer r)).
  assert (length rest = length (msg_buffer r) - (length q + length c))%nat as Hrl by by rewrite length_drop.
  assert (Forall is_byte (q ++ c)) as Hbqc by exact (prefix_Forall _ _ _ Hqc (stream_bytes _ Hwf')).
  assert (Forall is_byte (q ++ c ++ rest)) as Hbm.
  { rewrite app_assoc. apply Forall_app; split; [done|by apply Forall_drop]. }
  assert (take 4 (q ++ c ++ rest) = delim_bytes) as Hdm.
  { rewrite app_assoc /rest -length_app. apply overlay_delim; [exact (stream_delim _ _ Hwf' Hqc)|done]. }
  assert (length (q ++ c ++ rest) = length (msg_buffer r)) as Hlm by (rewrite !length_app; lia).
  assert (Z.of_nat (length c) + Z.of_nat (length q) = Z.of_nat (length (stream d' ++ r'))) as ->.
  { rewrite -Hqe length_app. lia. }
  rewrite {1}/mbind /result_bind (extract_split (Some cbs) (q ++ c ++ rest) d' r' rest) //; [|..]; cycle 1.
  { rewrite Hfs' in Hwf'. by apply Forall_app in Hwf' as [? _]. }
  { rewrite app_assoc Hqe. by rewrite -app_assoc. }
  { lia. } { lia. }
  simpl. eexists. split; [done|].
  assert (length (r' ++ drop (length r') (q ++ c ++ rest)) = length (msg_buffer r)) as Hl'.
  { rewrite length_app length_drop Hlm. assert (length r' <= length (q ++ c))%nat by (rewrite Hqe length_app; lia).
    rewrite length_app in H. lia. }
  split_and!; [split; cbn [fst snd msg_buffer unprocessed_bytes abort app_state]; rewrite ?Hsa; cbn [fst snd]|done|].
  - done.
  - apply Forall_app; split; [|by apply Forall_drop]. exact (prefix_Forall _ _ _ Hr' (stream_bytes _ (Forall_drop _ _ _ Hwf'))).
  - done.
  - by rewrite take_app_length.
  - by rewrite Happ /deliver fold_left_app.
  - done.
  - apply overlay_delim; [|by left]. exact (stream_delim _ _ (Forall_drop _ _ _ Hwf') Hr').
Qed.

(** *** Both loops, for messages of at most [L] bytes in chunks of at most [C] *)

Context (L C : nat).
Hypothesis fs_small : Forall (fun f => (length (enc f) <= L)%nat) fs.

Lemma split_rest_bound p : p `prefix_of` stream fs -> (length (split_stream fs p).2 <= L)%nat.
Proof.
  clear fs_wf. revert p. induction fs as [|f l IH]; intros p Hp; cbn [split_stream].
  - apply prefix_nil_inv in Hp as ->. simpl. lia.
  - apply Forall_cons in fs_small as [Hf Hl]. destruct (Nat.leb_spec (length (enc f)) (length p)) as [Hle|]; [|simpl; lia].
    destruct (prefix_app_long p (enc f) (stream l) Hp Hle) as [_ Hpr].
    specialize (IH Hl _ Hpr). by destruct (split_stream l _).
Qed.

(** The chunks a sequence of events delivers. *)
Definition chunks (evs : list net_event) : list (list Z) :=
  omap (fun ev => match ev with Received c => Some c | _ => None end) evs.

Definition chunk_ok (ev : net_event) : Prop :=
  match ev with Received c => (0 < length c <= C)%nat | WouldBlock => True | _ => False end.

(** The delimiter is at the start of the buffer, or will be with the next chunk. *)
Definition starts (p : list Z) (evs : list net_event) (r : Receiver S) : Prop :=
  take 4 (msg_buffer r) = delim_bytes \/
  (p = [] /\ forall c, head (chunks evs) = Some c -> (4 <= length c)%nat).

Lemma feed_chunk p r c evs available : RecvInv p r -> p ++ concat (chunks (Received c :: evs)) `prefix_of` stream fs ->
  starts p (Received c :: evs) r -> (L + C + 12 <= length (msg_buffer r))%nat -> Z.of_nat (length (msg_buffer r)) < 2 ^ 63 ->
  chunk_ok (Received c) -> Z.of_nat (length (msg_buffer r)) - 1 - unprocessed_bytes r <= available ->
  exists r', feed cbs available c r = Ok r' /\ RecvInv (p ++ c) r' /\
    length (msg_buffer r') = length (msg_buffer r) /\ starts (p ++ c) evs r' /\
    (p ++ c) ++ concat (chunks evs) `prefix_of` stream fs.
Proof.
  intros Hi Hp Hst Hlen Hmax [Hc0 Hc] Hav. change (chunks (Received c :: evs)) with (c :: chunks evs) in Hp. simpl in Hp.
  rewrite app_assoc in Hp. pose proof (split_rest_bound p (ri_prefix _ _ Hi)) as HL. pose proof (ri_unprocessed _ _ Hi) as Hu.
  destruct (feed_step p r c available) as (r' & H1 & H2 & H3 & H4); [done| | |done|lia|lia|].
  - etrans; [|exact Hp]. by apply prefix_app_r.
  - destruct Hst as [|[-> Hh]]; [by left|right]. rewrite length_app. specialize (Hh c eq_refl). lia.
  - exists r'. split_and!; [done..|by left|done].
Qed.

Definition Delivered (p : list Z) (r : Receiver S) : Prop :=
  app_state r = deliver (Some cbs) (split_stream fs p).1 s0 /\
  take (Z.to_nat (unprocessed_bytes r)) (msg_buffer r) = (split_stream fs p).2.

Lemma RecvInv_delivered p r : RecvInv p r -> Delivered p r.
Proof. intros [? ? Hu Hp Ha ?]. split; [done|]. by rewrite Hu Nat2Z.id. Qed.

Lemma server_loop_inv evs : forall p r, RecvInv p r -> p ++ concat (chunks evs) `prefix_of` stream fs ->
  starts p evs r -> (L + C + 12 <= length (msg_buffer r))%nat -> Z.of_nat (length (msg_buffer r)) < 2 ^ 63 ->
  Forall chunk_ok evs ->
  exists r', clientInfoReceiveCallback cbs evs r = Ok (r', true) /\ RecvInv (p ++ concat (chunks evs)) r'.
Proof.
  induction evs as [|ev evs IH]; intros p r Hi Hp Hst Hlen Hmax Hok; cbn [clientInfoReceiveCallback];
    rewrite (ri_running _ _ Hi); pose proof (ri_unprocessed _ _ Hi) as Hu;
    pose proof (split_rest_bound p (ri_prefix _ _ Hi)) as HL;
    (rewrite to_size_small; [|lia]); (rewrite to_ssize_small; [|lia]); (rewrite (proj2 (Z.leb_gt _ _)); [|lia]).
  - exists r. split; [done|]. by rewrite app_nil_r.
  - apply Forall_cons in Hok as [Hev Hok]. destruct ev as [c| | |]; try done; [|by apply IH].
    destruct (feed_chunk p r c evs (Z.of_nat (length (msg_buffer r)) - unprocessed_bytes r)) as (r' & Hf & Hi' & Hl' & Hst' & Hp');
      [done..|lia|]. destruct c as [|b c]; [simpl in Hev; lia|]. rewrite Hf /=.
    destruct (IH _ r' Hi' Hp' Hst') as (r'' & Hr & Hi''); [by rewrite Hl'..|done|]. exists r''. split; [done|].
    by rewrite -app_assoc in Hi''.
Qed.

Lemma client_loop_inv evs : forall p r, RecvInv p r -> p ++ concat (chunks evs) `prefix_of` stream fs ->
  starts p evs r -> (L + C + 12 <= length (msg_buffer r))%nat -> Z.of_nat (length (msg_buffer r)) < 2 ^ 63 ->
  Forall (fun ev => chunk_ok ev /\ ev <> WouldBlock) evs ->
  exists r', listenLoop cbs evs r = Ok (r', true) /\ RecvInv (p ++ concat (chunks evs)) r'.
Proof.
  induction evs as [|ev evs IH]; intros p r Hi Hp Hst Hlen Hmax Hok; cbn [listenLoop];
    rewrite (ri_running _ _ Hi); pose proof (ri_unprocessed _ _ Hi) as Hu;
    pose proof (split_rest_bound p (ri_prefix _ _ Hi)) as HL.
  - exists r. split; [done|]. by rewrite app_nil_r.
  - apply Forall_cons in Hok as [[Hev Hwb] Hok]. destruct ev as [c| | |]; try done.
    rewrite to_size_small; [|lia].
    destruct (feed_chunk p r c evs (Z.of_nat (length (msg_buffer r)) - 1 - unprocessed_bytes r)) as (r' & Hf & Hi' & Hl' & Hst' & Hp');
      [done..|]. destruct c as [|b c]; [simpl in Hev; lia|]. rewrite Hf /=.
    destruct (IH _ r' Hi' Hp' Hst') as (r'' & Hr & Hi''); [by rewrite Hl'..|done|]. exists r''. split; [done|].
    by rewrite -app_assoc in Hi''.
Qed.

(** A receiver that has just been started. *)
Definition new_receiver (buf : list Z) : Receiver S :=
  {| msg_buffer := buf; unprocessed_bytes := 0; abort := false; app_state := s0 |}.

Lemma RecvInv_new buf : Forall is_byte buf -> RecvInv [] (new_receiver buf).
Proof.
  clear fs_wf fs_small. intros Hb. split; try done; [apply prefix_nil|..];
    (destruct fs as [|f l]; [done|]); cbn [split_stream]; by rewrite enc_length.
Qed.

End Loops.

(** ** Writing *)
Section Write.
Context {Item : Type} (SerializeToArray : Item -> list Z).
Hypothesis SerializeToArray_bytes : forall item, Forall is_byte (SerializeToArray item).

(** The message [serializeItemToMemory] builds. *)
Definition item_message (item : Item) (info : TCPMetaInfo) : message :=
  {| m_info := {| message_delimiter := message_delimiter info; unit_type := unit_type info;
                  payload_size := to_u32 (ByteSizeLong SerializeToArray item);
                  package_type := package_type info; src_uuid := src_uuid info; tgt_uuid := tgt_uuid info |};
     m_payload := SerializeToArray item |}.

(** A header as the program fills it in, whatever its size field. *)
Definition header_ok (info : TCPMetaInfo) : Prop :=
  message_delimiter info = TCP_START_DELIM /\ - 2 ^ 31 <= unit_type info < 2 ^ 31 /\
  - 2 ^ 31 <= package_type info < 2 ^ 31 /\ 0 <= src_uuid info < 2 ^ 64 /\ 0 <= tgt_uuid info < 2 ^ 64.

Lemma item_message_wf item info : header_ok info -> ByteSizeLong SerializeToArray item < 2 ^ 32 ->
  wf_message (item_message item info).
Proof.
  intros (H1 & H2 & H3 & H4 & H5) Hs. assert (0 <= ByteSizeLong SerializeToArray item) by (rewrite /ByteSizeLong; lia).
  assert (to_u32 (ByteSizeLong SerializeToArray item) = ByteSizeLong SerializeToArray item) as He.
  { by rewrite /to_u32 Z.mod_small. }
  split; simpl; rewrite ?He; try done.
Qed.

Lemma serialize_spec mem item info :
  (32 + length (SerializeToArray item) <= length mem)%nat -> ByteSizeLong SerializeToArray item < 2 ^ 32 ->
  exists mem', serializeItemToMemory SerializeToArray mem item info =
    Ok (mem', Z.of_nat (length (enc (item_message item info))), m_info (item_message item info)) /\
    take (length (enc (item_message item info))) mem' = enc (item_message item info).
Proof.
  intros Hl Hs. rewrite /serializeItemToMemory mem_write_ok ?info_bytes_length; [|lia].
  rewrite /mbind /result_bind. set (i := m_info (item_message item info)).
  change {| message_delimiter := _ |} with i. cbn [take app].
  assert (length (info_bytes i ++ drop (0 + 32) mem) = length mem) as Hlen.
  { rewrite length_app length_drop info_bytes_length. lia. }
  rewrite mem_write_ok; [|rewrite Hlen /=; lia]. change (Z.to_nat sizeof_TCPMetaInfo) with 32%nat.
  eexists. split.
  - do 3 f_equal. rewrite enc_length. cbn [m_payload item_message]. rewrite /ByteSizeLong in Hs |- *.
    rewrite /sizeof_TCPMetaInfo to_size_small; lia.
  - assert (take 32 (take 0 mem ++ info_bytes i ++ drop (0 + 32) mem) = info_bytes i) as ->.
    { by rewrite take_0 app_nil_l take_app_length' ?info_bytes_length. }
    rewrite app_assoc. apply take_app_length.
Qed.

(** Whatever it succeeds to write is the message. *)
Lemma serialize_take mem item info mem' n info' : ByteSizeLong SerializeToArray item < 2 ^ 32 ->
  serializeItemToMemory SerializeToArray mem item info = Ok (mem', n, info') ->
  take (Z.to_nat n) mem' = enc (item_message item info).
Proof.
  intros Hs Hser. assert (32 + length (SerializeToArray item) <= length mem)%nat as Hl.
  { apply bind_ok in Hser as (m1 & [_ Hm1]%mem_write_inv & Hser). apply bind_ok in Hser as (m2 & [Hm2 _]%mem_write_inv & _).
    rewrite Hm1 in Hm2. exact Hm2. }
  destruct (serialize_spec mem item info Hl Hs) as (m & Hm & Ht). rewrite Hm in Hser. injection Hser as -> <- _.
  by rewrite Nat2Z.id.
Qed.

Definition messages_of (items : list (Item * TCPMetaInfo)) : list message :=
  map (fun '(item, info) => item_message item info) items.

Lemma deliver_items {S} (cbs : option (CallbackMap S)) items : forall s, deliver cbs (messages_of items) s =
  fold_left (fun s '(item, info) => call cbs (m_info (item_message item info)) (SerializeToArray item) s) items s.
Proof. induction items as [|[item info] items IH]; intros s; [done|]. apply IH. Qed.

Lemma messages_of_wf items :
  Forall (fun '(item, info) => header_ok info /\ ByteSizeLong SerializeToArray item < 2 ^ 32) items ->
  Forall wf_message (messages_of items).
Proof.
  intros Hok. apply Forall_fmap. eapply Forall_impl; [exact Hok|]. intros [item info] [H1 H2]. by apply item_message_wf.
Qed.

(** The bytes written for a list of items. *)
Definition written_by (ii : Item * TCPMetaInfo) (w : list Z) : Prop :=
  exists mem mem' n info', serializeItemToMemory SerializeToArray mem ii.1 ii.2 = Ok (mem', n, info') /\ w = take (Z.to_nat n) mem'.

Lemma written_stream items written :
  Forall (fun '(item, info) => header_ok info /\ ByteSizeLong SerializeToArray item < 2 ^ 32) items ->
  Forall2 written_by items written -> concat written = stream (messages_of items).
Proof.
  intros Hok Hw. induction Hw as [|[item info] w items written Hi _ IH]; [done|]. apply Forall_cons in Hok as [[_ Hs] Hok].
  cbn [messages_of map concat]. rewrite stream_cons (IH Hok). f_equal. destruct Hi as (mem & mem' & n & info' & Hser & ->).
  exact (serialize_take _ _ _ _ _ _ Hs Hser).
Qed.

End Write.

(** ** Leaving the buffer *)

Lemma read_uint32_err m pos : (length m < pos + 4)%nat -> read_uint32 m pos = Err (Undef "read outside the buffer").
Proof. intros H. by rewrite /read_uint32 /mem_read (proj2 (Nat.leb_gt _ _) H). Qed.

(** The bytes at the end of the buffer do not matter to the messages before. *)
Lemma extract_loop_full {S} (cbs : option (CallbackMap S)) fs : forall fuel pre s, Forall wf_message fs ->
  Z.of_nat (length (pre ++ stream fs)) < 2 ^ 63 -> (length fs <= fuel)%nat ->
  extract_loop fuel (pre ++ stream fs) cbs (length pre) (Z.of_nat (length (stream fs))) s =
    Err (Undef "read outside the buffer").
Proof.
  induction fs as [|f fs IH]; intros fuel pre s Hfs Hmax Hfuel.
  - destruct fuel; cbn [extract_loop]; rewrite read_uint32_err // app_nil_r; lia.
  - apply Forall_cons in Hfs as [Hf Hfs]. destruct fuel as [|fuel]; [simpl in Hfuel; lia|].
    rewrite stream_cons in Hmax |- *. rewrite 2!length_app in Hmax.
    rewrite (extract_loop_step cbs _ _ f (stream fs)) ?drop_app_length // length_app; [|lia].
    replace (Z.of_nat _ - Z.of_nat _) with (Z.of_nat (length (stream fs))) by lia.
    rewrite app_assoc -length_app. apply IH; [done| |simpl in Hfuel; lia]. rewrite 2!length_app. lia.
Qed.

Lemma extract_full_buffer {S} (cbs : option (CallbackMap S)) fs s : Forall wf_message fs -> fs <> [] ->
  Z.of_nat (length (stream fs)) < 2 ^ 63 ->
  exists what, extractItemsModifyBuffer (stream fs) (Z.of_nat (length (stream fs))) cbs s = Err (Undef what).
Proof.
  intros Hfs Hne Hmax. pose proof (stream_length fs). rewrite /extractItemsModifyBuffer scan_found.
  - simpl. rewrite (extract_loop_full cbs fs _ [] s) //=; [by eexists|]. lia.
  - destruct fs as [|f fs]; [done|]. apply Forall_cons in Hfs as [Hf _].
    rewrite stream_cons take_app_le ?enc_length; [|lia]. by apply enc_delim.
Qed.

(** No delimiter where the fourth byte of every position is zero. *)
Lemma read_uint32_zero m j z : Forall is_byte m -> (forall i b, (3 <= i)%nat -> m !! i = Some b -> b = 0) ->
  read_uint32 m j = Ok z -> z <> TCP_START_DELIM.
Proof.
  intros Hm H0 (bs & Hbs & [= <-])%bind_ok. rewrite /mem_read in Hbs.
  destruct (Nat.leb_spec (j + 4) (length m)) as [Hl|]; [|done]. injection Hbs as <-.
  assert (Forall is_byte (take 4 (drop j m))) as Hb by by apply Forall_take, Forall_drop.
  assert (take 4 (drop j m) !! 3%nat = m !! (j + 3)%nat) as H3 by by rewrite lookup_take_lt ?lookup_drop; [|lia].
  assert (length (take 4 (drop j m)) = 4%nat) as H4 by (rewrite length_take length_drop; lia).
  destruct (take 4 (drop j m)) as [|a [|b [|c [|d [|]]]]]; try done. simpl in H3. symmetry in H3.
  apply H0 in H3 as ->; [|lia].
  assert (little_endian_to_Z 8 [a; b; c; 0] = little_endian_to_Z 8 [a; b; c]) as -> by done.
  pose proof (little_endian_to_Z_bound 8 [a; b; c] ltac:(lia)) as [_ Hlt].
  { rewrite !Forall_cons in Hb |- *. naive_solver. }
  intros He. rewrite He in Hlt. vm_compute in Hlt. done.
Qed.

Lemma scan_zero m : Forall is_byte m -> (forall i b, (3 <= i)%nat -> m !! i = Some b -> b = 0) ->
  forall fuel j, exists what, scan_delimiter fuel m j = Err (Undef what).
Proof.
  intros Hm H0. induction fuel as [|fuel IH]; intros j; cbn [scan_delimiter];
    (destruct (read_uint32 m j) as [z|e] eqn:Hz; simpl;
     [|rewrite /read_uint32 /mem_read in Hz; case_match; simplify_eq/=; by eexists]);
    rewrite (proj2 (Z.eqb_neq _ _) (read_uint32_zero m j z Hm H0 Hz)); [by eexists|apply IH].
Qed.

Lemma feed_short_chunk {S} (cbs : CallbackMap S) (s : S) k size available : (k < 4)%nat -> (4 <= size)%nat ->
  Z.of_nat k <= available ->
  exists what, feed cbs available (take k delim_bytes) (new_receiver s (replicate size 0)) = Err (Undef what).
Proof.
  intros Hk Hs Hav. assert (length (take k delim_bytes) = k) as Hl.
  { rewrite length_take. change (length delim_bytes) with 4%nat. lia. }
  rewrite /feed Hl (proj2 (Z.ltb_ge _ _)) //. cbn [msg_buffer unprocessed_bytes new_receiver].
  rewrite mem_write_ok ?Hl ?length_replicate; [|simpl; lia]. cbn [Z.to_nat take app Nat.add].
  rewrite drop_replicate. destruct (scan_zero (take k delim_bytes ++ replicate (size - k) 0)) with
    (fuel := length (take k delim_bytes ++ replicate (size - k) 0)) (j := 0%nat) as [what Hw].
  - apply Forall_app; split; [apply Forall_take, Z_to_little_endian_bound; lia|].
    apply Forall_replicate. rewrite /is_byte. lia.
  - intros i b Hi Hb. rewrite lookup_app_r in Hb; [|rewrite Hl; lia]. by apply lookup_replicate in Hb as [-> _].
  - exists what. rewrite /extractItemsModifyBuffer /mbind /result_bind. by rewrite Hw.
Qed.
