(* ===== verification/FramingTheorems.v ===== *)
(** * Results on message framing *)

From S2P Require Import Prelude Framing FramingInv.
From stdpp Require Import list_numbers.
#[local] Open Scope Z_scope.

(** A callback that records what it is given, and three messages. *)
Definition log : Type := list (TCPMetaInfo * list Z).
Definition record_all : CallbackMap log :=
  {[ TcpPackageType.WORK := fun i p l => l ++ [(i, p)]; TcpPackageType.TEXT := fun i p l => l ++ [(i, p)] ]}.

Definition demo_header (t : Z) (uuid : Z) : TCPMetaInfo :=
  {| message_delimiter := TCP_START_DELIM; unit_type := 7; payload_size := 0; package_type := t;
     src_uuid := uuid; tgt_uuid := 0 |}.

Definition demo_messages : list message :=
  [item_message id [1; 2; 3] (demo_header TcpPackageType.WORK 42);
   item_message id [] (demo_header TcpPackageType.TEXT 42);
   item_message id [255; 0; 177; 11; 219; 90; 7] (demo_header TcpPackageType.TEXT (2 ^ 64 - 1))].

Lemma demo_header_ok t u : - 2 ^ 31 <= t < 2 ^ 31 -> 0 <= u < 2 ^ 64 -> header_ok (demo_header t u).
Proof. intros. split_and!; simpl; lia || done. Qed.

Lemma demo_messages_wf : Forall wf_message demo_messages.
Proof.
  repeat constructor; simpl; rewrite ?/is_byte; lia || done.
Qed.


(** Five chunks, the third of which ends inside a delimiter. *)
Definition demo_events : list net_event :=
  let s := stream demo_messages in
  [Received (take 5 s); WouldBlock; Received (take 28 (drop 5 s)); Received (take 4 (drop 33 s));
   Received (take 45 (drop 37 s)); Received (drop 82 s)].


(** C23: Writing and reading are inverse.  If [serializeItemToMemory] wrote each
    of the items (each smaller than 4 GiB, with the program's headers), then the
    concatenation of the bytes it reports is read back by
    [extractItemsModifyBuffer] as exactly these items, in order: the callbacks
    get the header, with the size of the item filled in, and the serialized
    bytes, and no byte is left over. *)
Theorem serialize_extract_roundtrip {Item S} (SerializeToArray : Item -> list Z)
    (cbs : CallbackMap S) (s0 : S) (items : list (Item * TCPMetaInfo)) (rest : list Z) :
  (forall item, Forall is_byte (SerializeToArray item)) ->
  Forall (fun '(item, info) => header_ok info /\ ByteSizeLong SerializeToArray item < 2 ^ 32) items ->
  items <> [] -> Forall is_byte rest -> (12 <= length rest)%nat ->
  forall written, Forall2 (written_by SerializeToArray) items written ->
  Z.of_nat (length (concat written ++ rest)) < 2 ^ 63 ->
  exists buf', extractItemsModifyBuffer (concat written ++ rest) (Z.of_nat (length (concat written))) (Some cbs) s0 =
    Ok (buf', 0, fold_left (fun s '(item, info) =>
      call (Some cbs) (m_info (item_message SerializeToArray item info)) (SerializeToArray item) s) items s0).
Proof.
  intros Hser Hok Hne Hrest H12 written Hw Hmax. rewrite (written_stream _ items written Hok Hw) in Hmax |- *.
  pose proof (messages_of_wf _ Hser items Hok) as Hwf. rewrite -deliver_items.
  set (fs := messages_of _ items) in *. assert (stream fs = stream fs ++ []) as Hnil by by rewrite app_nil_r.
  exists (stream fs ++ rest). rewrite {2}Hnil (extract_split (Some cbs) _ fs [] rest) ?drop_0 //.
  - apply Forall_app. split; [by apply stream_bytes|done].
  - destruct items as [|[item info] items]; [done|]. apply Forall_cons in Hwf as [Hf _].
    change (messages_of SerializeToArray ((item, info) :: items)) with
      (item_message SerializeToArray item info :: messages_of SerializeToArray items) in fs.
    rewrite /fs stream_cons -app_assoc take_app_le ?enc_length; [|lia]. by apply enc_delim.
  - exists empty_message. split_and!; [apply wf_empty_message|apply prefix_nil|]. rewrite enc_length. simpl. lia.
Qed.

Definition demo_items : list (list Z * TCPMetaInfo) :=
  [([1; 2; 3], demo_header TcpPackageType.WORK 42); ([], demo_header TcpPackageType.TEXT 5)].

Definition demo_written : list (list Z) :=
  map (fun ii => match serializeItemToMemory id (replicate 40 0) ii.1 ii.2 with
                 | Ok (mem, n, _) => take (Z.to_nat n) mem | Err _ => [] end) demo_items.

Lemma serialize_extract_roundtrip_witness :
  exists buf', extractItemsModifyBuffer (concat demo_written ++ replicate 20 7) (Z.of_nat (length (concat demo_written)))
      (Some record_all) [] =
    Ok (buf', 0, fold_left (fun s '(item, info) =>
      call (Some record_all) (m_info (item_message (fun l => List.filter (fun b => 0 <=? b) (map (fun b => b `mod` 256) l)) item info))
        (List.filter (fun b => 0 <=? b) (map (fun b => b `mod` 256) item)) s) demo_items []).
Proof.
  apply (serialize_extract_roundtrip (fun l => List.filter (fun b => 0 <=? b) (map (fun b => b `mod` 256) l))
    record_all [] demo_items (replicate 20 7)).
  - intros item. apply Forall_forall. intros b [Hb _]%list_elem_of_In%filter_In.
    apply list_elem_of_In, list_elem_of_fmap in Hb as (x & -> & _). apply Z.mod_pos_bound. lia.
  - repeat constructor; done.
  - done.
  - apply Forall_replicate. rewrite /is_byte. lia.
  - simpl. lia.
  - repeat constructor; eexists (replicate 40 0), _, _, _; split; by vm_compute.
  - by vm_compute.
Defined.


(** A message that announces almost 4 GiB. *)
Definition hostile_buffer : list Z := delim_bytes ++ replicate 4 0 ++ replicate 4 255 ++ replicate 60 9.


(** C40: Two ways out of the buffer.  A buffer filled to its end by complete
    messages is read past its end, since the loop looks at the size of a next
    message before it asks whether any byte remains; and a first chunk that
    ends inside the delimiter sends the search for it through the whole buffer
    and past its end. *)
Theorem reader_leaves_buffer {S} (cbs : CallbackMap S) (s : S) :
  (forall fs, Forall wf_message fs -> fs <> [] -> Z.of_nat (length (stream fs)) < 2 ^ 63 ->
     exists what, extractItemsModifyBuffer (stream fs) (Z.of_nat (length (stream fs))) (Some cbs) s = Err (Undef what)) /\
  (forall k size available, (k < 4)%nat -> (4 <= size)%nat -> Z.of_nat k <= available ->
     exists what, feed cbs available (take k delim_bytes) (new_receiver s (replicate size 0)) = Err (Undef what)).
Proof.
  split.
  - intros fs Hwf Hne Hmax. by apply extract_full_buffer.
  - intros k size av Hk Hs Hav. by apply feed_short_chunk.
Qed.
