(* ===== verification/TcpServer.v ===== *)
(** * The TCP server: connected clients and sending

    src/TCPServer.cpp.  A [ClientInfo*] is an address in a heap of live
    objects, so that two containers can hold the same client and a deleted one
    is recognised: reading through a pointer to it is [Undef].

    The operating system is an oracle: [send_result n h data] is what the
    [n]-th call of [send] returns for handle [h] (negative: failure, otherwise
    the number of bytes taken), [random n lo hi] what the [n]-th call of
    [Utility::generateRandomNumber] returns.  The log [sent] has the bytes the
    system took, in order.

    An iterator into a vector is a position: after [erase] at that position it
    refers to the element that followed. *)

From S2P Require Import Prelude Framing.
From stdpp Require Import sorting.
#[local] Open Scope Z_scope.

(** The enumeration of proto/UnitDefinition.proto. *)
Module UnitType.
Definition UNDEFINED_UNIT_TYPE : Z := 0.
Definition QUERY_PLANER : Z := 1.
Definition COMPUTE_UNIT : Z := 2.
Definition MEMORY_UNIT : Z := 3.
Definition META_UNIT : Z := 4.
Definition MONITOR_UNIT : Z := 5.
Definition DATABASE_UNIT : Z := 6.
Definition OPTIMIZER_UNIT : Z := 7.
End UnitType.

Definition unitTypeToString (type : Z) : string :=
  if type =? 0 then "Undefined" else if type =? 1 then "QueryPlaner" else
  if type =? 2 then "ComputeUnit" else if type =? 3 then "MemoryUnit" else
  if type =? 4 then "MetaUnit" else if type =? 5 then "MonitorUnit" else
  if type =? 6 then "DatabaseUnit" else if type =? 7 then "OptimizerUnit" else
  "Unknown unit type".

Definition packageTypeToString (type : Z) : string :=
  if type =? 0 then "Undefined" else if type =? 1 then "Work" else
  if type =? 2 then "RerouteWork" else if type =? 3 then "TaskFinished" else
  if type =? 4 then "Text" else if type =? 5 then "UpdateUnitType" else
  if type =? 6 then "QueryPlan" else if type =? 7 then "MonitorRequest" else
  if type =? 8 then "ConnectAction" else if type =? 9 then "ConnectActionInfo" else
  if type =? 10 then "ConfigurationAction" else if type =? 11 then "UuidForTypeRequest" else
  if type =? 12 then "UuidForTypeResponse" else if type =? 13 then "UuidCollision" else
  "Unknown package type".

(** The [receiver] thread and [unprocessed_bytes] are in [Framing.Receiver]. *)
Record ClientInfo := {
  handle : Z;
  type : Z;
  uuid : Z;
  prettyName : string;
  cl_abort : bool
}.

Notation ptr := nat (only parsing).

Record Server := {
  heap : gmap ptr ClientInfo;
  next_ptr : ptr;
  clientMap : gmap Z (list ptr);
  clientUuidMap : gmap Z ptr;
  cleanupDone : bool;
  closed : list Z;
  sent : list (Z * list Z);
  sends : nat;
  draws : nat
}.

Definition empty_server : Server :=
  {| heap := ∅; next_ptr := 0; clientMap := ∅; clientUuidMap := ∅; cleanupDone := false;
     closed := []; sent := []; sends := 0; draws := 0 |}.

Definition set_heap (h : gmap ptr ClientInfo) (s : Server) : Server :=
  {| heap := h; next_ptr := next_ptr s; clientMap := clientMap s; clientUuidMap := clientUuidMap s;
     cleanupDone := cleanupDone s; closed := closed s; sent := sent s; sends := sends s; draws := draws s |}.
Definition set_clientMap (m : gmap Z (list ptr)) (s : Server) : Server :=
  {| heap := heap s; next_ptr := next_ptr s; clientMap := m; clientUuidMap := clientUuidMap s;
     cleanupDone := cleanupDone s; closed := closed s; sent := sent s; sends := sends s; draws := draws s |}.
Definition set_clientUuidMap (m : gmap Z ptr) (s : Server) : Server :=
  {| heap := heap s; next_ptr := next_ptr s; clientMap := clientMap s; clientUuidMap := m;
     cleanupDone := cleanupDone s; closed := closed s; sent := sent s; sends := sends s; draws := draws s |}.

Definition deref_client (p : ptr) : ST Server ClientInfo := fun s =>
  match heap s !! p with
  | Some c => Ok (c, s)
  | None => Err (Undef "use of a deleted ClientInfo")
  end.

(** [clientMap[type]], which adds an empty vector for a new type. *)
Definition clients_of (type : Z) (s : Server) : list ptr := default [] (clientMap s !! type).
Definition touch_type (type : Z) : ST Server unit := modify (fun s =>
  match clientMap s !! type with Some _ => s | None => set_clientMap (<[type := []]> (clientMap s)) s end).

(** The keys of a [std::map], in its order. *)
Definition types_in_order (s : Server) : list Z := merge_sort Z.le (map fst (map_to_list (clientMap s))).

(** [shutdown] and [close]. *)
Definition freeHandle (h : Z) : ST Server unit := modify (fun s =>
  {| heap := heap s; next_ptr := next_ptr s; clientMap := clientMap s; clientUuidMap := clientUuidMap s;
     cleanupDone := cleanupDone s; closed := closed s ++ [h]; sent := sent s; sends := sends s; draws := draws s |}).

(** [abort = true] *)
Definition abort_client (c : ClientInfo) : ClientInfo :=
  {| handle := handle c; type := type c; uuid := uuid c; prettyName := prettyName c; cl_abort := true |}.

(** [ClientInfo::release] *)
Definition release (p : ptr) : ST Server unit :=
  c ← deref_client p;
  _ ← modify (fun s => set_heap (<[p := abort_client c]> (heap s)) s);
  freeHandle (handle c).

(** [delete info]; the destructor finds the client released. *)
Definition delete_client (p : ptr) : ST Server unit :=
  _ ← deref_client p; modify (fun s => set_heap (delete p (heap s)) s).

(** [cl_vec.erase(cl_it)] at the first occurrence. *)
Fixpoint erase_first (p : ptr) (l : list ptr) : list ptr :=
  match l with
  | [] => []
  | q :: l => if bool_decide (q = p) then l else q :: erase_first p l
  end.

Definition removeClient_typed (ty : Z) (p : ptr) : ST Server unit :=
  _ ← touch_type ty;
  s ← get;
  if bool_decide (p ∈ clients_of ty s) then
    c ← deref_client p;
    _ ← modify (fun s => set_clientUuidMap (delete (uuid c) (clientUuidMap s)) s);
    _ ← release p;
    _ ← delete_client p;
    modify (fun s => set_clientMap (<[ty := erase_first p (clients_of ty s)]> (clientMap s)) s)
  else mret tt.

(** The first client with the given handle, in the order of the two loops. *)
Fixpoint find_handle_vec (h : Z) (ty : Z) (l : list ptr) : ST Server (option (Z * ptr)) :=
  match l with
  | [] => mret None
  | q :: l => c ← deref_client q; if handle c =? h then mret (Some (ty, q)) else find_handle_vec h ty l
  end.

Fixpoint find_handle (h : Z) (types : list Z) : ST Server (option (Z * ptr)) :=
  match types with
  | [] => mret None
  | ty :: types =>
      s ← get;
      r ← find_handle_vec h ty (clients_of ty s);
      match r with Some x => mret (Some x) | None => find_handle h types end
  end.

Definition removeClient (p : ptr) : ST Server unit :=
  c ← deref_client p;
  s ← get;
  r ← find_handle (handle c) (types_in_order s);
  match r with Some (ty, q) => removeClient_typed ty q | None => mret tt end.

Definition hasClients (s : Server) : bool :=
  (0 <? fold_right (fun l n => (length l + n)%nat) 0 (map snd (map_to_list (clientMap s))))%nat.

Definition getClientByUuid (u : Z) (s : Server) : option ptr := clientUuidMap s !! u.

Section Oracle.
Context (send_result : nat -> Z -> list Z -> Z) (random : nat -> nat -> nat -> nat).

Definition send (h : Z) (data : list Z) : ST Server Z := fun s =>
  let r := send_result (sends s) h data in
  Ok (r, {| heap := heap s; next_ptr := next_ptr s; clientMap := clientMap s; clientUuidMap := clientUuidMap s;
            cleanupDone := cleanupDone s; closed := closed s;
            sent := if 0 <=? r then sent s ++ [(h, take (Z.to_nat r) data)] else sent s;
            sends := S (sends s); draws := draws s |}).

Definition generateRandomNumber (lo hi : nat) : ST Server nat := fun s =>
  Ok (random (draws s) lo hi,
      {| heap := heap s; next_ptr := next_ptr s; clientMap := clientMap s; clientUuidMap := clientUuidMap s;
         cleanupDone := cleanupDone s; closed := closed s; sent := sent s; sends := sends s; draws := S (draws s) |}).

Definition sendTo (p : ptr) (data : list Z) : ST Server bool :=
  c ← deref_client p;
  if cl_abort c then _ ← removeClient p; mret false
  else
    res ← send (handle c) data;
    if res <? 0 then _ ← removeClient p; mret false else mret true.

(** The inner loop of [sendToAll]; a failed client is erased at the position,
    which is not advanced. *)
Fixpoint sendToAll_loop (fuel : nat) (ty : Z) (i : nat) (data : list Z) : ST Server unit :=
  s ← get;
  match clients_of ty s !! i with
  | None => mret tt
  | Some p =>
      match fuel with
      | O => raise (Undef "out of fuel")
      | S fuel =>
          c ← deref_client p;
          res ← send (handle c) data;
          if res <? 0 then _ ← removeClient_typed ty p; sendToAll_loop fuel ty i data
          else sendToAll_loop fuel ty (S i) data
      end
  end.

Fixpoint for_types (types : list Z) (body : Z -> ST Server unit) : ST Server unit :=
  match types with
  | [] => mret tt
  | ty :: types => _ ← body ty; for_types types body
  end.

Definition sendToAll (data : list Z) : ST Server unit :=
  s ← get;
  if hasClients s then
    for_types (types_in_order s) (fun ty => s ← get; sendToAll_loop (length (clients_of ty s)) ty 0 data)
  else mret tt.

(** [sendToAllOfType] iterates over a copy of the vector, which keeps the
    pointer to a client it removed. *)
Fixpoint sendToAllOfType_loop (fuel : nat) (ty : Z) (cl_info_vec : list ptr) (data : list Z) : ST Server unit :=
  match cl_info_vec with
  | [] => mret tt
  | p :: rest =>
      c ← deref_client p;
      res ← send (handle c) data;
      if res <? 0 then
        _ ← removeClient_typed ty p;
        match fuel with
        | O => raise (Undef "out of fuel")
        | S fuel => sendToAllOfType_loop fuel ty cl_info_vec data
        end
      else match fuel with
        | O => raise (Undef "out of fuel")
        | S fuel => sendToAllOfType_loop fuel ty rest data
        end
  end.

Definition sendToAllOfType (ty : Z) (data : list Z) : ST Server unit :=
  s ← get;
  if hasClients s then
    match clientMap s !! ty with
    | Some cl_info_vec => sendToAllOfType_loop (S (length cl_info_vec)) ty cl_info_vec data
    | None => mret tt
    end
  else mret tt.

(** Returns whether a client took the message. *)
Fixpoint sendToAny_loop (fuel : nat) (ty : Z) (data : list Z) : ST Server bool :=
  s ← get;
  match clients_of ty s with
  | [] => mret false
  | cl_info_vec =>
      match fuel with
      | O => raise (Undef "out of fuel")
      | S fuel =>
          idx ← generateRandomNumber 0 (length cl_info_vec - 1);
          client ← lift (at_index "client index" cl_info_vec idx);
          success ← sendTo client data;
          if success : bool then mret true else sendToAny_loop fuel ty data
      end
  end.

Definition sendToAnyOfType (ty : Z) (data : list Z) : ST Server bool :=
  s ← get;
  if hasClients s then
    match clientMap s !! ty with
    | Some cl_info_vec => sendToAny_loop (length cl_info_vec) ty data
    | None => mret false
    end
  else mret false.

(** [find_and_send]: the vector is read through a reference at each step, the
    end is the size before the first step. *)
Fixpoint find_and_send (n : nat) (ty : Z) (original_uuid : Z) (i : nat) (data : list Z) : ST Server bool :=
  match n with
  | O => mret false
  | S n =>
      s ← get;
      p ← lift (at_index "rerouting index" (clients_of ty s) i);
      c ← deref_client p;
      if uuid c =? original_uuid then find_and_send n ty original_uuid (S i) data
      else
        ok ← sendTo p data;
        if ok : bool then mret true else find_and_send n ty original_uuid (S i) data
  end.

Definition rerouteToAnyOfType (ty : Z) (original_uuid : Z) (data : list Z) : ST Server bool :=
  s ← get;
  if hasClients s then
    match clientMap s !! ty with
    | Some [] | None => mret false
    | Some cl_info_vec =>
        idx ← generateRandomNumber 0 (length cl_info_vec - 1);
        success ← find_and_send (length cl_info_vec - idx) ty original_uuid idx data;
        if success : bool then mret true
        else find_and_send idx ty original_uuid 0 data
    end
  else mret false.

End Oracle.

Fixpoint clear_aborted_loop (fuel : nat) (ty : Z) (i : nat) : ST Server unit :=
  s ← get;
  match clients_of ty s !! i with
  | None => mret tt
  | Some p =>
      match fuel with
      | O => raise (Undef "out of fuel")
      | S fuel =>
          c ← deref_client p;
          if cl_abort c then _ ← removeClient_typed ty p; clear_aborted_loop fuel ty i
          else clear_aborted_loop fuel ty (S i)
      end
  end.

Definition clear_aborted : ST Server unit :=
  s ← get;
  for_types (types_in_order s) (fun ty => s ← get; clear_aborted_loop (length (clients_of ty s)) ty 0).

Definition name_and_uuid (p : ptr) : ST Server (string * Z) :=
  c ← deref_client p; mret (prettyName c, uuid c).

Definition getUuidForUnitType (ty : Z) : ST Server (list (string * Z)) :=
  s ← get;
  if negb (hasClients s) then mret [] else
  _ ← clear_aborted;
  s ← get;
  if ty =? UnitType.UNDEFINED_UNIT_TYPE then
    mapM name_and_uuid (concat (map (fun t => clients_of t s) (types_in_order s)))
  else mapM name_and_uuid (clients_of ty s).

(** [closeConnection]: the vectors are cleared, [clientUuidMap] is not. *)
Definition closeConnection (serverHandle : Z) : ST Server unit :=
  s ← get;
  if cleanupDone s then mret tt else
  _ ← for_types (types_in_order s) (fun ty =>
        s ← get;
        _ ← mapM (fun p => _ ← release p; delete_client p) (clients_of ty s);
        modify (fun s => set_clientMap (<[ty := []]> (clientMap s)) s));
  _ ← freeHandle serverHandle;
  modify (fun s => {| heap := heap s; next_ptr := next_ptr s; clientMap := clientMap s;
                      clientUuidMap := clientUuidMap s; cleanupDone := true; closed := closed s;
                      sent := sent s; sends := sends s; draws := draws s |}).

(** ** A new connection

    The connect callback of the constructor.  [recvs] are the results of the
    [recv] calls on the new handle ([None]: failure or timeout), [buf] is the
    buffer with whatever it holds after [malloc]; [parse_unit] is the protobuf
    parser of [UnitDefinition] (the unit type and the pretty name). *)
Section Connect.
Context (send_result : nat -> Z -> list Z -> Z) (parse_unit : list Z -> Z * string).

Inductive connect_outcome :=
  | Registered (p : ptr)
  | Discarded
  | ExitProcess.

Definition control_message (t : Z) : list Z :=
  info_bytes {| message_delimiter := TCP_START_DELIM; unit_type := 0; payload_size := 0;
                package_type := t; src_uuid := 0; tgt_uuid := 0 |}.

(** [freeHandle(handle); delete cl_info;] - the destructor releases the client,
    which closes the handle a second time. *)
Definition discard (h : Z) (p : ptr) : ST Server connect_outcome :=
  _ ← freeHandle h; _ ← release p; _ ← delete_client p; mret Discarded.

Definition register_client (u : Z) (p : ptr) : ST Server connect_outcome :=
  c ← deref_client p;
  _ ← modify (fun s => set_heap (<[p := {| handle := handle c; type := type c; uuid := u;
                                           prettyName := prettyName c; cl_abort := cl_abort c |}]> (heap s)) s);
  _ ← modify (fun s => set_clientMap (<[type c := clients_of (type c) s ++ [p]]> (clientMap s)) s);
  _ ← modify (fun s => set_clientUuidMap (<[u := p]> (clientUuidMap s)) s);
  mret (Registered p).

(** The loop that asks for a new UUID until there is no collision. *)
Fixpoint resolve_uuid (recvs : list (option (list Z))) (buf : list Z) (h : Z) (p : ptr) : ST Server connect_outcome :=
  update_info ← lift (read_info buf 0);
  s ← get;
  match clientUuidMap s !! src_uuid update_info with
  | None => register_client (src_uuid update_info) p
  | Some _ =>
      res ← send send_result h (control_message TcpPackageType.UUID_COLLISION);
      if res <=? 0 then discard h p else
      match recvs with
      | Some (b :: bytes) :: recvs =>
          buf ← lift (mem_write buf 0 (b :: bytes));
          d ← lift (read_uint32 buf 0);
          if negb (d =? TCP_START_DELIM) then discard h p else
          update_info ← lift (read_info buf 0);
          if negb (package_type update_info =? TcpPackageType.UUID_COLLISION) then discard h p
          else resolve_uuid recvs buf h p
      | _ => discard h p
      end
  end.

Definition new_client (h : Z) (ty : Z) (name : string) : ST Server ptr := fun s =>
  Ok (next_ptr s,
      {| heap := <[next_ptr s := {| handle := h; type := ty; uuid := 0; prettyName := name; cl_abort := false |}]> (heap s);
         next_ptr := S (next_ptr s); clientMap := clientMap s; clientUuidMap := clientUuidMap s;
         cleanupDone := cleanupDone s; closed := closed s; sent := sent s; sends := sends s; draws := draws s |}).

(** A response of the wrong type closes the handle, and the setup goes on. *)
Definition server_connect_callback (h : Z) (recvs : list (option (list Z))) (buf : list Z) : ST Server connect_outcome :=
  _ ← send send_result h (control_message TcpPackageType.UPDATE_UNIT_TYPE);
  match recvs with
  | Some (b :: bytes) :: recvs =>
      buf ← lift (mem_write buf 0 (b :: bytes));
      d ← lift (read_uint32 buf 0);
      if negb (d =? TCP_START_DELIM) then _ ← freeHandle h; mret Discarded else
      update_info ← lift (read_info buf 0);
      if Z.of_nat (length (b :: bytes)) <? bytesize update_info then mret ExitProcess else
      _ ← (if negb (package_type update_info =? TcpPackageType.UPDATE_UNIT_TYPE) then freeHandle h else mret tt);
      payload ← lift (mem_read buf 32 (Z.to_nat (payload_size update_info)));
      let '(unit_type, prettyname) := parse_unit payload in
      p ← new_client h (to_int32 unit_type) prettyname;
      resolve_uuid recvs buf h p
  | _ => _ ← freeHandle h; mret Discarded
  end.

End Connect.
