(* ===== verification/TcpServerInv.v ===== *)
(** * The registry of the TCP server

    The vectors of [clientMap], the aliases in [clientUuidMap] and the live
    [ClientInfo] objects describe the same set of clients; every operation that
    returns keeps it so. *)

From S2P Require Import Prelude Framing TcpServer.
From stdpp Require Import sorting.
#[local] Open Scope Z_scope.

Record Registry (s : Server) : Prop := {
  reg_vec : forall ty p, p ∈ clients_of ty s -> exists c, heap s !! p = Some c /\ type c = ty;
  reg_nodup : forall ty, NoDup (clients_of ty s);
  reg_live : forall p c, heap s !! p = Some c -> p ∈ clients_of (type c) s /\ (p < next_ptr s)%nat;
  reg_uuid : forall u p, clientUuidMap s !! u = Some p <-> exists c, heap s !! p = Some c /\ uuid c = u;
  reg_handle : forall p q c d, heap s !! p = Some c -> heap s !! q = Some d -> handle c = handle d -> p = q
}.

(** ** Lists of clients *)

Lemma elem_of_erase_first p q l : NoDup l -> q ∈ erase_first p l <-> q ∈ l /\ q <> p.
Proof.
  induction 1 as [|x l Hx Hl IH]; simpl; [set_solver|]. case_bool_decide as Hxp.
  - subst. rewrite elem_of_cons. split; [|naive_solver]. intros Hq. split; [by right|]. by intros ->.
  - rewrite !elem_of_cons IH. naive_solver.
Qed.

Lemma erase_first_sublist p l : erase_first p l `sublist_of` l.
Proof. induction l as [|x l IH]; simpl; [done|]. case_bool_decide; [by apply sublist_cons|by apply sublist_skip]. Qed.

Lemma NoDup_erase_first p l : NoDup l -> NoDup (erase_first p l).
Proof. intros H. exact (sublist_NoDup _ _ H (erase_first_sublist p l)). Qed.

Lemma length_erase_first p l : p ∈ l -> length l = S (length (erase_first p l)).
Proof.
  induction l as [|x l IH]; [by intros ?%not_elem_of_nil|]. simpl. case_bool_decide as Hx; [done|].
  intros [Hp|Hp]%elem_of_cons; [by subst|]. simpl. by rewrite -(IH Hp).
Qed.

Lemma clients_of_insert ty ty' l s : clients_of ty (set_clientMap (<[ty' := l]> (clientMap s)) s) =
  if bool_decide (ty = ty') then l else clients_of ty s.
Proof. rewrite /clients_of /=. case_bool_decide; subst; [by rewrite lookup_insert_eq|by rewrite lookup_insert_ne]. Qed.

Lemma elem_types_in_order ty s : ty ∈ types_in_order s <-> is_Some (clientMap s !! ty).
Proof.
  rewrite /types_in_order merge_sort_Permutation list_elem_of_fmap. split.
  - intros ([k l] & -> & Hk%elem_of_map_to_list). by exists l.
  - intros [l Hl]. exists (ty, l). split; [done|]. by apply elem_of_map_to_list.
Qed.

Lemma clients_of_type ty p s : p ∈ clients_of ty s -> is_Some (clientMap s !! ty).
Proof. rewrite /clients_of. destruct (clientMap s !! ty); [by eexists|]. by intros ?%not_elem_of_nil. Qed.

(** ** Runs *)

(** The run returns and its result satisfies [Q]. *)
Definition runs {S A} (m : ST S A) (s : S) (Q : A -> S -> Prop) : Prop :=
  match m s with Ok (a, s') => Q a s' | Err _ => False end.

Lemma runs_bind {S A B} (m : ST S A) (f : A -> ST S B) s Q :
  runs m s (fun a s' => runs (f a) s' Q) -> runs (m ≫= f) s Q.
Proof. rewrite /runs /mbind /ST_bind. by destruct (m s) as [[]|]. Qed.

Lemma runs_ret {S A} (a : A) (s : S) (Q : A -> S -> Prop) : Q a s -> runs (mret a) s Q.
Proof. done. Qed.

Lemma runs_get {S} (s : S) (Q : S -> S -> Prop) : Q s s -> runs get s Q.
Proof. done. Qed.

Lemma runs_mono {S A} (m : ST S A) s (P Q : A -> S -> Prop) : runs m s P -> (forall a s', P a s' -> Q a s') -> runs m s Q.
Proof. rewrite /runs. destruct (m s) as [[]|]; auto. Qed.

Lemma runs_deref p c s Q : heap s !! p = Some c -> Q c s -> runs (deref_client p) s Q.
Proof. intros H HQ. by rewrite /runs /deref_client H. Qed.

Lemma runs_ok {S A} (m : ST S A) s a s' (Q : A -> S -> Prop) : m s = Ok (a, s') -> Q a s' -> runs m s Q.
Proof. intros H HQ. by rewrite /runs H. Qed.

Lemma lift_ok {S A} (r : result A) (s : S) a s' : lift r s = Ok (a, s') -> r = Ok a /\ s' = s.
Proof. rewrite /lift. destruct r; [|done]. by intros [= <- <-]. Qed.

(** Whatever it returns, it keeps the registry. *)
Definition keeps {A} (m : ST Server A) : Prop :=
  forall s a s', Registry s -> m s = Ok (a, s') -> Registry s'.

Lemma keeps_bind {A B} (m : ST Server A) (f : A -> ST Server B) : keeps m -> (forall a, keeps (f a)) -> keeps (m ≫= f).
Proof. intros Hm Hf s b s' Hs (a & s1 & H1 & H2)%ST_bind_ok. exact (Hf a _ _ _ (Hm _ _ _ Hs H1) H2). Qed.

Lemma keeps_ret {A} (a : A) : keeps (mret a).
Proof. by intros s b s' Hs [= <- <-]. Qed.

Lemma keeps_get : keeps get.
Proof. by intros s b s' Hs [= <- <-]. Qed.

Lemma keeps_raise {A} e : keeps (@raise Server A e).
Proof. done. Qed.

Lemma keeps_lift {A} (r : result A) : keeps (lift r).
Proof. intros s a s' Hs. rewrite /lift. destruct r; [|done]. by intros [= <- <-]. Qed.

Lemma keeps_deref p : keeps (deref_client p).
Proof. intros s a s' Hs. rewrite /deref_client. case_match; [|done]. by intros [= <- <-]. Qed.

(** Parts of the state the registry does not mention. *)
Lemma Registry_ext s s' : heap s' = heap s -> next_ptr s' = next_ptr s -> clientUuidMap s' = clientUuidMap s ->
  (forall ty, clients_of ty s' = clients_of ty s) -> Registry s -> Registry s'.
Proof.
  intros Hh Hn Hu Hc [H1 H2 H3 H4 H5].
  split; intros *; rewrite ?Hh ?Hn ?Hu ?Hc; [apply H1|apply H2| |apply H4|apply H5].
  intros Hp. by apply H3.
Qed.

Create HintDb server discriminated.
#[export] Hint Resolve keeps_ret keeps_get keeps_raise keeps_lift keeps_deref : server.

Lemma keeps_freeHandle h : keeps (freeHandle h).
Proof. intros s a s' Hs [= <- <-]. by apply (Registry_ext s). Qed.

Lemma keeps_touch_type ty : keeps (touch_type ty).
Proof.
  intros s a s' Hs [= <- <-]. destruct (clientMap s !! ty) eqn:Hty; [done|]. apply (Registry_ext s); try done.
  intros ty'. rewrite clients_of_insert. case_bool_decide; [|done]. subst. by rewrite /clients_of Hty.
Qed.

Lemma keeps_send sr h d : keeps (send sr h d).
Proof. intros s a s' Hs [= <- <-]. by apply (Registry_ext s). Qed.

Lemma keeps_random r lo hi : keeps (generateRandomNumber r lo hi).
Proof. intros s a s' Hs [= <- <-]. by apply (Registry_ext s). Qed.

#[export] Hint Resolve keeps_freeHandle keeps_touch_type keeps_send keeps_random : server.

(** ** Removing a client *)

Definition remove_state (p : nat) (c : ClientInfo) (s : Server) : Server :=
  {| heap := delete p (heap s); next_ptr := next_ptr s;
     clientMap := <[type c := erase_first p (clients_of (type c) s)]> (clientMap s);
     clientUuidMap := delete (uuid c) (clientUuidMap s); cleanupDone := cleanupDone s;
     closed := closed s ++ [handle c]; sent := sent s; sends := sends s; draws := draws s |}.

Lemma clients_of_remove p c ty s : clients_of ty (remove_state p c s) =
  if bool_decide (ty = type c) then erase_first p (clients_of (type c) s) else clients_of ty s.
Proof. exact (clients_of_insert ty (type c) _ s). Qed.

Lemma Registry_remove p c s : Registry s -> heap s !! p = Some c -> Registry (remove_state p c s).
Proof.
  intros [H1 H2 H3 H4 H5] Hp. split; simpl.
  - intros ty q. rewrite clients_of_remove. case_bool_decide as Hty.
    + intros [Hq Hne]%elem_of_erase_first; [|done]. apply H1 in Hq as (d & Hd & Ht). exists d.
      rewrite lookup_delete_ne //. split; [done|]. by rewrite Ht.
    + intros Hq. apply H1 in Hq as (d & Hd & Ht). exists d. rewrite lookup_delete_ne //. congruence.
  - intros ty. rewrite clients_of_remove. case_bool_decide; [by apply NoDup_erase_first|done].
  - intros q d [Hne Hd]%lookup_delete_Some. destruct (H3 q d Hd) as [Hq Hlt]. split; [|done].
    rewrite clients_of_remove. case_bool_decide as Hty; [|done]. rewrite -Hty. by apply elem_of_erase_first.
  - intros u q. rewrite lookup_delete_Some H4. split.
    + intros (Hu & d & Hd & <-). exists d. split; [|done]. rewrite lookup_delete_ne //. intros ->. congruence.
    + intros (d & [Hne Hd]%lookup_delete_Some & <-). split; [|by exists d]. intros Heq.
      destruct Hne. assert (clientUuidMap s !! uuid c = Some p) as Hup by (apply H4; by exists c).
      assert (clientUuidMap s !! uuid d = Some q) as Huq by (apply H4; by exists d). congruence.
  - intros q r d e [_ Hd]%lookup_delete_Some [_ He]%lookup_delete_Some. by apply H5.
Qed.

Lemma removeClient_typed_run p c s : Registry s -> heap s !! p = Some c ->
  removeClient_typed (type c) p s = Ok (tt, remove_state p c s).
Proof.
  intros Hs Hp. destruct (reg_live s Hs p c Hp) as [Hin _]. destruct (clients_of_type _ _ _ Hin) as [l Hl].
  rewrite /removeClient_typed /touch_type /modify /mbind /ST_bind /get Hl bool_decide_true //.
  rewrite /deref_client Hp /release /deref_client /mbind /ST_bind /modify /=. rewrite Hp /=.
  rewrite /delete_client /deref_client /mbind /ST_bind /modify /= lookup_insert_eq /=.
  by rewrite /remove_state /set_clientMap /set_heap /= delete_insert_eq.
Qed.

Lemma keeps_removeClient_typed ty p : keeps (removeClient_typed ty p).
Proof.
  intros s a s' Hs Hr. destruct (decide (p ∈ clients_of ty s)) as [Hin|Hn].
  - destruct (reg_vec s Hs ty p Hin) as (c & Hc & <-). rewrite (removeClient_typed_run p c s Hs Hc) in Hr.
    injection Hr as <- <-. by apply Registry_remove.
  - rewrite /removeClient_typed in Hr. apply ST_bind_ok in Hr as (u & s1 & H1 & Hr).
    pose proof (keeps_touch_type ty s u s1 Hs H1) as Hs1.
    assert (forall t, clients_of t s1 = clients_of t s) as Hcl.
    { injection H1 as _ <-. intros t. case_match eqn:Hty; [done|]. rewrite clients_of_insert. case_bool_decide; [|done].
      subst. by rewrite /clients_of Hty. }
    rewrite /mbind /ST_bind /get Hcl bool_decide_false // in Hr. by injection Hr as _ <-.
Qed.
#[export] Hint Resolve keeps_removeClient_typed : server.

Lemma keeps_find_handle_vec h ty l : keeps (find_handle_vec h ty l).
Proof.
  induction l as [|q l IH]; simpl; [auto with server|]. apply keeps_bind; [auto with server|]. intros c.
  case_match; auto with server.
Qed.

Lemma keeps_find_handle h types : keeps (find_handle h types).
Proof.
  induction types as [|ty types IH]; simpl; [auto with server|]. apply keeps_bind; [auto with server|]. intros s.
  apply keeps_bind; [apply keeps_find_handle_vec|]. intros []; auto with server.
Qed.

Lemma keeps_removeClient p : keeps (removeClient p).
Proof.
  apply keeps_bind; [auto with server|]. intros c. apply keeps_bind; [auto with server|]. intros s.
  apply keeps_bind; [apply keeps_find_handle|]. intros [[ty q]|]; auto with server.
Qed.
#[export] Hint Resolve keeps_removeClient : server.

(** One step of the bookkeeping for [keeps]. *)
Ltac keeps_step :=
  first [ solve [auto with server] | apply keeps_bind; [solve [auto with server]|intros ?] | case_match ].
Ltac keeps_tac := repeat keeps_step.

Section Ops.
Context (send_result : nat -> Z -> list Z -> Z) (random : nat -> nat -> nat -> nat).

Lemma keeps_sendTo p d : keeps (sendTo send_result p d).
Proof. rewrite /sendTo. keeps_tac. Qed.

Lemma keeps_sendToAll_loop fuel ty d : forall i, keeps (sendToAll_loop send_result fuel ty i d).
Proof. induction fuel as [|fuel IH]; intros i; simpl; keeps_tac. Qed.

Lemma keeps_for_types types body : (forall ty, keeps (body ty)) -> keeps (for_types types body).
Proof. intros Hb. induction types as [|ty types IH]; simpl; [auto with server|]. by apply keeps_bind. Qed.

Lemma keeps_sendToAllOfType_loop fuel ty d : forall l, keeps (sendToAllOfType_loop send_result fuel ty l d).
Proof. induction fuel as [|fuel IH]; intros [|p l]; simpl; keeps_tac. Qed.

#[local] Hint Resolve keeps_sendTo keeps_sendToAll_loop keeps_sendToAllOfType_loop : server.

Lemma keeps_sendToAny_loop fuel ty d : keeps (sendToAny_loop send_result random fuel ty d).
Proof. induction fuel as [|fuel IH]; simpl; keeps_tac. Qed.

Lemma keeps_find_and_send n ty u d : forall i, keeps (find_and_send send_result n ty u i d).
Proof. induction n as [|n IH]; intros i; simpl; keeps_tac. Qed.

#[local] Hint Resolve keeps_sendToAny_loop keeps_find_and_send : server.

Lemma keeps_sendToAll d : keeps (sendToAll send_result d).
Proof. rewrite /sendToAll. keeps_step. case_match; [|auto with server]. apply keeps_for_types. intros ty. keeps_tac. Qed.

Lemma keeps_sendToAllOfType ty d : keeps (sendToAllOfType send_result ty d).
Proof. rewrite /sendToAllOfType. keeps_tac. Qed.

Lemma keeps_sendToAnyOfType ty d : keeps (sendToAnyOfType send_result random ty d).
Proof. rewrite /sendToAnyOfType. keeps_tac. Qed.

Lemma keeps_reroute ty u d : keeps (rerouteToAnyOfType send_result random ty u d).
Proof. rewrite /rerouteToAnyOfType. keeps_tac. Qed.

End Ops.

Lemma keeps_clear_aborted_loop fuel ty : forall i, keeps (clear_aborted_loop fuel ty i).
Proof. induction fuel as [|fuel IH]; intros i; simpl; keeps_tac. Qed.

Lemma keeps_clear_aborted : keeps clear_aborted.
Proof.
  rewrite /clear_aborted. keeps_step. apply keeps_for_types. intros ty. apply keeps_bind; [auto with server|]. intros s.
  apply keeps_clear_aborted_loop.
Qed.

Lemma keeps_mapM {A B} (f : A -> ST Server B) l : (forall x, keeps (f x)) -> keeps (mapM f l).
Proof. intros Hf. induction l as [|x l IH]; simpl; [auto with server|]. repeat (apply keeps_bind; [done|intros ?]). auto with server. Qed.

Lemma keeps_getUuidForUnitType ty : keeps (getUuidForUnitType ty).
Proof.
  rewrite /getUuidForUnitType. keeps_step. case_match; [auto with server|]. apply keeps_bind; [apply keeps_clear_aborted|].
  intros _. keeps_step. case_match; apply keeps_mapM; intros p; rewrite /name_and_uuid; keeps_tac.
Qed.

#[export] Hint Resolve keeps_sendTo keeps_sendToAll keeps_sendToAllOfType keeps_sendToAnyOfType keeps_reroute
  keeps_clear_aborted keeps_getUuidForUnitType : server.

(** ** A new connection *)

(** The registry of the other clients, next to a client that is being set up. *)
Record Pending (p : nat) (c : ClientInfo) (s : Server) : Prop := {
  pend_rest : Registry (set_heap (delete p (heap s)) s);
  pend_live : heap s !! p = Some c;
  pend_alloc : (p < next_ptr s)%nat;
  pend_handle : forall q d, q <> p -> heap s !! q = Some d -> handle d <> handle c
}.

Lemma Pending_not_listed p c s ty : Pending p c s -> p ∉ clients_of ty s.
Proof. intros [Hr _ _ _] Hp. apply (reg_vec _ Hr) in Hp as (d & Hd & _). simpl in Hd. by rewrite lookup_delete_eq in Hd. Qed.

Lemma Pending_ext p c s s' : heap s' = heap s -> next_ptr s' = next_ptr s -> clientUuidMap s' = clientUuidMap s ->
  clientMap s' = clientMap s -> Pending p c s -> Pending p c s'.
Proof.
  intros Hh Hn Hu Hm [H1 H2 H3 H4]. split; rewrite ?Hh ?Hn //.
  apply (Registry_ext (set_heap (delete p (heap s)) s)); simpl; rewrite ?Hh ?Hn ?Hu //.
  intros ty. by rewrite /clients_of /= Hm.
Qed.

Lemma discard_registry p c s h o s' : Pending p c s -> discard h p s = Ok (o, s') -> Registry s'.
Proof.
  intros [H1 H2 _ _] Hd. rewrite /discard /freeHandle /release /delete_client /deref_client /modify /mbind /ST_bind in Hd.
  simpl in Hd. rewrite H2 /= lookup_insert_eq /= in Hd. injection Hd as <- <-.
  apply (Registry_ext (set_heap (delete p (heap s)) s)); simpl; try done. by rewrite delete_insert_eq.
Qed.

Definition with_uuid (u : Z) (c : ClientInfo) : ClientInfo :=
  {| handle := handle c; type := type c; uuid := u; prettyName := prettyName c; cl_abort := cl_abort c |}.

Definition register_state (u : Z) (p : nat) (c : ClientInfo) (s : Server) : Server :=
  set_clientUuidMap (<[u := p]> (clientUuidMap s))
    (set_clientMap (<[type c := clients_of (type c) s ++ [p]]> (clientMap s))
       (set_heap (<[p := with_uuid u c]> (heap s)) s)).

Lemma register_run u p c s : heap s !! p = Some c -> register_client u p s = Ok (Registered p, register_state u p c s).
Proof. intros Hp. by rewrite /register_client /deref_client /mbind /ST_bind /modify Hp. Qed.

Lemma register_registry u p c s : Pending p c s -> clientUuidMap s !! u = None -> Registry (register_state u p c s).
Proof.
  intros HP Hu. pose proof HP as [[H1 H2 H3 H4 H5] Hp Ha Hh]. simpl in *.
  assert (forall ty, clients_of ty (register_state u p c s) =
    if bool_decide (ty = type c) then clients_of (type c) s ++ [p] else clients_of ty s) as Hcl.
  { intros ty. exact (clients_of_insert ty (type c) _ s). }
  assert (forall q d, heap (register_state u p c s) !! q = Some d ->
    (q = p /\ d = with_uuid u c) \/ (q <> p /\ delete p (heap s) !! q = Some d)) as Hheap.
  { simpl. intros q d [[-> <-]|[Hne Hd]]%lookup_insert_Some; [by left|right]. by rewrite lookup_delete_ne. }
  assert (forall q d, delete p (heap s) !! q = Some d -> heap (register_state u p c s) !! q = Some d) as Hheap'.
  { intros q d [Hne Hd]%lookup_delete_Some. simpl. by rewrite lookup_insert_ne. }
  split.
  - intros ty q. rewrite Hcl. case_bool_decide as Hty.
    + intros [Hq|Hq]%elem_of_app.
      * apply H1 in Hq as (d & Hd & Ht). exists d. split; [by apply Hheap'|]. by rewrite Ht.
      * apply list_elem_of_singleton in Hq as ->. exists (with_uuid u c). simpl. by rewrite lookup_insert_eq.
    + intros Hq. apply H1 in Hq as (d & Hd & Ht). exists d. split; [by apply Hheap'|done].
  - intros ty. rewrite Hcl. case_bool_decide; [|apply H2]. apply NoDup_app. split; [apply H2|]. split; [|apply NoDup_singleton].
    intros q Hq ->%list_elem_of_singleton. exact (Pending_not_listed p c s _ HP Hq).
  - intros q d [[-> ->]|[Hne Hd]]%Hheap; rewrite Hcl.
    + split; [|done]. rewrite bool_decide_true //. apply elem_of_app. right. by apply list_elem_of_singleton.
    + destruct (H3 q d Hd) as [Hq Hlt]. split; [|done]. case_bool_decide as Hty; [|done]. rewrite -Hty. apply elem_of_app. by left.
  - intros v q. simpl. split.
    + intros [[-> ->]|[Hne Hv]]%lookup_insert_Some.
      * exists (with_uuid v c). by rewrite lookup_insert_eq.
      * apply H4 in Hv as (d & Hd & Hud). exists d. split; [by apply Hheap'|done].
    + intros (d & [[-> ->]|[Hne Hd]]%Hheap & <-); [by rewrite /= lookup_insert_eq|].
      assert (clientUuidMap s !! uuid d = Some q) as Hq by (apply H4; by exists d).
      rewrite lookup_insert_ne //. intros ->. congruence.
  - intros q r d e [[-> ->]|[Hq Hd]]%Hheap [[-> ->]|[Hr He]]%Hheap Heq; [done| | |].
    + apply lookup_delete_Some in He as [_ He]. by destruct (Hh r e Hr He).
    + apply lookup_delete_Some in Hd as [_ Hd]. by destruct (Hh q d Hq Hd).
    + exact (H5 q r d e Hd He Heq).
Qed.

Section Connecting.
Context (send_result : nat -> Z -> list Z -> Z) (parse_unit : list Z -> Z * string).

Lemma resolve_registry recvs : forall buf h p c s o s', Pending p c s ->
  resolve_uuid send_result recvs buf h p s = Ok (o, s') -> Registry s'.
Proof.
  induction recvs as [|r recvs IH]; intros buf h p c s o s' HP Hr; cbn [resolve_uuid] in Hr;
    apply ST_bind_ok in Hr as (info & s1 & H1 & Hr); apply lift_ok in H1 as [_ ->];
    apply ST_bind_ok in Hr as (s1 & s2 & [= <- <-] & Hr);
    (destruct (clientUuidMap s !! src_uuid info) as [q|] eqn:Hu;
      [|rewrite (register_run _ _ c) in Hr; [|apply HP]; injection Hr as _ <-; by apply register_registry]);
    apply ST_bind_ok in Hr as (res & s3 & [= <- <-] & Hr); (case_match; [eapply discard_registry; [|exact Hr]; by apply (Pending_ext p c s)|]).
  - eapply discard_registry; [|exact Hr]. by apply (Pending_ext p c s).
  - destruct r as [[|b bytes]|]; try (eapply discard_registry; [|exact Hr]; by apply (Pending_ext p c s)).
    apply ST_bind_ok in Hr as (buf' & s4 & H4 & Hr). apply lift_ok in H4 as [_ ->].
    apply ST_bind_ok in Hr as (d & s5 & H5 & Hr). apply lift_ok in H5 as [_ ->].
    case_match; [eapply discard_registry; [|exact Hr]; by apply (Pending_ext p c s)|].
    apply ST_bind_ok in Hr as (i' & s6 & H6 & Hr). apply lift_ok in H6 as [_ ->].
    case_match; [eapply discard_registry; [|exact Hr]; by apply (Pending_ext p c s)|].
    eapply IH; [|exact Hr]. by apply (Pending_ext p c s).
Qed.

Definition handle_in_use (h : Z) (s : Server) : Prop := exists p c, heap s !! p = Some c /\ handle c = h.

Lemma new_client_pending h ty name s : Registry s -> ~ handle_in_use h s ->
  match new_client h ty name s with
  | Ok (p, s') => exists c, Pending p c s'
  | Err _ => False
  end.
Proof.
  intros Hs Hh. simpl. assert (heap s !! next_ptr s = None) as Hn.
  { destruct (heap s !! next_ptr s) as [d|] eqn:Hd; [|done]. apply (reg_live s Hs) in Hd as [_ ?]. lia. }
  eexists. split; simpl; [|by rewrite lookup_insert_eq|lia|].
  - destruct Hs as [H1 H2 H3 H4 H5].
    split; simpl; rewrite delete_insert_eq delete_id //; intros p c Hp; destruct (H3 p c Hp); by split; [|lia].
  - intros q d Hq Hd Heq. rewrite lookup_insert_ne // in Hd. apply Hh. by exists q, d.
Qed.

Lemma connect_registry h recvs buf s o s' : Registry s -> ~ handle_in_use h s ->
  server_connect_callback send_result parse_unit h recvs buf s = Ok (o, s') -> Registry s'.
Proof.
  intros Hs Hh Hr. apply ST_bind_ok in Hr as (res & s1 & Hsend & Hr).
  pose proof (keeps_send send_result h _ s res s1 Hs Hsend) as Hs1.
  assert (~ handle_in_use h s1) as Hh1 by by injection Hsend as _ <-. clear Hsend Hs Hh s.
  assert (keeps (_ ← freeHandle h; mret Discarded)) as Hdisc by (apply keeps_bind; auto with server).
  destruct recvs as [|[[|b bytes]|] recvs]; try exact (Hdisc _ _ _ Hs1 Hr).
  apply ST_bind_ok in Hr as (buf' & s2 & H2 & Hr). apply lift_ok in H2 as [_ ->].
  apply ST_bind_ok in Hr as (d & s3 & H3 & Hr). apply lift_ok in H3 as [_ ->].
  case_match; [exact (Hdisc _ _ _ Hs1 Hr)|].
  apply ST_bind_ok in Hr as (i & s4 & H4 & Hr). apply lift_ok in H4 as [_ ->].
  case_match; [by injection Hr as _ <-|].
  apply ST_bind_ok in Hr as (u & s5 & H5 & Hr).
  assert (Registry s5 /\ ~ handle_in_use h s5) as [Hs5 Hh5].
  { destruct (negb _) in H5; [|by injection H5 as _ <-]. split; [exact (keeps_freeHandle _ _ _ _ Hs1 H5)|by injection H5 as _ <-]. }
  apply ST_bind_ok in Hr as (pl & s6 & H6 & Hr). apply lift_ok in H6 as [_ ->].
  destruct (parse_unit pl) as [ut name]. apply ST_bind_ok in Hr as (p & s7 & H7 & Hr).
  pose proof (new_client_pending h (to_int32 ut) name s5 Hs5 Hh5) as Hpend. rewrite H7 in Hpend. destruct Hpend as [c Hc].
  exact (resolve_registry _ _ _ _ _ _ _ _ Hc Hr).
Qed.

End Connecting.

(** ** Operations that always return *)

Lemma find_handle_vec_run h ty l s : (forall q, q ∈ l -> exists d, heap s !! q = Some d) ->
  exists r, find_handle_vec h ty l s = Ok (r, s) /\
    match r with
    | Some (ty', q) => ty' = ty /\ q ∈ l /\ exists d, heap s !! q = Some d /\ handle d = h
    | None => forall q d, q ∈ l -> heap s !! q = Some d -> handle d <> h
    end.
Proof.
  induction l as [|q l IH]; intros Hl; simpl.
  - exists None. split; [done|]. by intros q d ?%not_elem_of_nil.
  - destruct (Hl q) as [d Hd]; [by left|]. destruct IH as (r & Hr & Hres); [intros; apply Hl; by right|].
    rewrite /mbind /ST_bind /deref_client Hd. destruct (Z.eqb_spec (handle d) h) as [Heq|Hne].
    + exists (Some (ty, q)). split; [done|]. split_and!; [done|by left|by exists d].
    + exists r. split; [done|]. destruct r as [[ty' q']|].
      * destruct Hres as (? & ? & ?). split_and!; [done|by right|done].
      * intros q' d' [->|Hq']%elem_of_cons Hd'; [congruence|by eapply Hres].
Qed.

Lemma find_handle_run h types s : Registry s -> exists r, find_handle h types s = Ok (r, s) /\
    match r with
    | Some (ty, q) => exists d, heap s !! q = Some d /\ handle d = h /\ type d = ty
    | None => forall ty q d, ty ∈ types -> q ∈ clients_of ty s -> heap s !! q = Some d -> handle d <> h
    end.
Proof.
  intros Hs. induction types as [|ty types (r & Hr & Hres)]; simpl.
  - exists None. split; [done|]. by intros ty q d ?%not_elem_of_nil.
  - destruct (find_handle_vec_run h ty (clients_of ty s) s) as (r1 & Hr1 & Hres1).
    { intros q (d & Hd & _)%(reg_vec s Hs). by exists d. }
    rewrite /mbind /ST_bind /get Hr1. destruct r1 as [[ty' q]|].
    + exists (Some (ty', q)). split; [done|]. destruct Hres1 as (-> & Hq & d & Hd & Hh). exists d.
      apply (reg_vec s Hs) in Hq as (d' & Hd' & Ht). split_and!; [done|done|congruence].
    + exists r. split; [done|]. destruct r as [[ty' q]|]; [done|].
      intros ty' q d [->|Hty]%elem_of_cons; [apply Hres1|by apply Hres].
Qed.

Lemma removeClient_run p c s : Registry s -> heap s !! p = Some c ->
  removeClient p s = Ok (tt, remove_state p c s).
Proof.
  intros Hs Hp. destruct (find_handle_run (handle c) (types_in_order s) s Hs) as (r & Hr & Hres).
  rewrite /removeClient /mbind /ST_bind /deref_client Hp /get Hr. destruct r as [[ty q]|].
  - destruct Hres as (d & Hd & Hh & <-). assert (q = p) as -> by exact (reg_handle s Hs q p d c Hd Hp Hh).
    rewrite Hp in Hd. injection Hd as ->. by apply removeClient_typed_run.
  - destruct (reg_live s Hs p c Hp) as [Hin _]. destruct (Hres (type c) p c); [|done..].
    apply elem_types_in_order. exact (clients_of_type _ _ _ Hin).
Qed.

(** After a call of [send]. *)
Definition send_state (r h : Z) (data : list Z) (s : Server) : Server :=
  {| heap := heap s; next_ptr := next_ptr s; clientMap := clientMap s; clientUuidMap := clientUuidMap s;
     cleanupDone := cleanupDone s; closed := closed s;
     sent := if 0 <=? r then sent s ++ [(h, take (Z.to_nat r) data)] else sent s;
     sends := S (sends s); draws := draws s |}.

Lemma Registry_send r h d s : Registry s -> Registry (send_state r h d s).
Proof. by apply Registry_ext. Qed.

Section Sending.
Context (send_result : nat -> Z -> list Z -> Z) (random : nat -> nat -> nat -> nat).
Hypothesis random_in_range : forall n lo hi, (lo <= hi)%nat -> (lo <= random n lo hi <= hi)%nat.

Lemma sendTo_run p c data s : Registry s -> heap s !! p = Some c ->
  sendTo send_result p data s =
    (let r := send_result (sends s) (handle c) data in
     if cl_abort c then Ok (false, remove_state p c s)
     else if r <? 0 then Ok (false, remove_state p c (send_state r (handle c) data s))
     else Ok (true, send_state r (handle c) data s)).
Proof.
  intros Hs Hp. rewrite /sendTo /mbind /ST_bind {1}/deref_client Hp. destruct (cl_abort c).
  - by rewrite (removeClient_run p c).
  - rewrite {1}/send -/(send_state (send_result (sends s) (handle c) data) (handle c) data s).
    destruct (Z.ltb_spec (send_result (sends s) (handle c) data) 0); [|done].
    rewrite (removeClient_run p c) //. by apply Registry_send.
Qed.

(** A client that did not take the message: it was marked as aborted, or a
    call of [send] failed. *)
Definition refuses (c : ClientInfo) (data : list Z) : Prop :=
  cl_abort c = true \/ exists n, send_result n (handle c) data < 0.

Definition AnySpec (ty : Z) (data : list Z) (s : Server) (ok : bool) (s' : Server) : Prop :=
  Registry s' /\ (forall ty', ty' <> ty -> clients_of ty' s' = clients_of ty' s) /\
  (forall q d, heap s' !! q = Some d -> heap s !! q = Some d) /\
  match ok with
  | true => exists p c k, let n := send_result k (handle c) data in
      p ∈ clients_of ty s /\ heap s !! p = Some c /\ cl_abort c = false /\ 0 <= n /\
      sent s' = sent s ++ [(handle c, take (Z.to_nat n) data)] /\ p ∈ clients_of ty s'
  | false => clients_of ty s' = [] /\ sent s' = sent s /\
      forall p c, p ∈ clients_of ty s -> heap s !! p = Some c -> refuses c data
  end.

Lemma AnySpec_none ty data s : Registry s -> clients_of ty s = [] -> AnySpec ty data s false s.
Proof. intros Hs Hcl. split_and!; [done..|]. rewrite Hcl. by intros p c ?%not_elem_of_nil. Qed.

Lemma AnySpec_removed ty data p c s s1 ok s' : Registry s -> p ∈ clients_of ty s -> heap s !! p = Some c -> refuses c data ->
  sent s1 = sent s -> heap s1 = heap s -> (forall ty', clients_of ty' s1 = clients_of ty' s) ->
  AnySpec ty data (remove_state p c s1) ok s' -> AnySpec ty data s ok s'.
Proof.
  intros Hs Hin Hp Href Hsent Hheap Hcl (HR & Hother & Hsub & H).
  assert (type c = ty) as Hty. { apply (reg_vec s Hs) in Hin as (d & Hd & <-). congruence. }
  assert (forall q, q ∈ clients_of ty (remove_state p c s1) <-> q ∈ clients_of ty s /\ q <> p) as Hcr.
  { intros q. rewrite clients_of_remove bool_decide_true // Hcl Hty. apply elem_of_erase_first, (reg_nodup s Hs). }
  assert (forall q d, heap (remove_state p c s1) !! q = Some d <-> q <> p /\ heap s !! q = Some d) as Hh.
  { intros q d. simpl. rewrite Hheap lookup_delete_Some. naive_solver. }
  split; [done|]. split.
  { intros ty' Hne. rewrite Hother // clients_of_remove bool_decide_false; [apply Hcl|congruence]. }
  split; [by intros q d [_ Hd]%Hsub%Hh|].
  destruct ok.
  - destruct H as (q & d & k & Hq & Hd & Ha & Hn & Hse & Hq'). apply Hcr in Hq as [Hq Hne]. apply Hh in Hd as [_ Hd].
    exists q, d, k. cbv zeta. split_and!; try done. by rewrite Hse /= Hsent.
  - destruct H as (He & Hse & Hall). split_and!; [done|by rewrite Hse /= Hsent|]. intros q d Hq Hd.
    destruct (decide (q = p)) as [->|Hne]; [congruence|]. apply (Hall q d); [by apply Hcr|by apply Hh].
Qed.

Lemma sendToAny_loop_run ty data fuel : forall s, Registry s -> (length (clients_of ty s) <= fuel)%nat ->
  runs (sendToAny_loop send_result random fuel ty data) s (AnySpec ty data s).
Proof.
  induction fuel as [|fuel IH]; intros s Hs Hfuel; cbn [sendToAny_loop]; apply runs_bind, runs_get.
  - destruct (clients_of ty s) eqn:Hcl; [|simpl in Hfuel; lia]. by apply runs_ret, AnySpec_none.
  - destruct (clients_of ty s) as [|p0 l] eqn:Hcl.
    { by apply runs_ret, AnySpec_none. }
    apply runs_bind. set (idx := random (draws s) 0 (length (p0 :: l) - 1)).
    assert (idx < length (p0 :: l))%nat as Hidx.
    { pose proof (random_in_range (draws s) 0 (length (p0 :: l) - 1) ltac:(lia)). simpl in *. lia. }
    eapply runs_ok; [done|]. cbv beta. rewrite -/idx. set (s1 := {| heap := heap s |}).
    assert (Registry s1) as Hs1 by by apply (Registry_ext s).
    apply lookup_lt_is_Some_2 in Hidx as [p Hp]. apply runs_bind. eapply runs_ok; [by rewrite /lift /at_index Hp|]. cbv beta.
    assert (p ∈ clients_of ty s) as Hin by (rewrite Hcl; by eapply list_elem_of_lookup_2).
    destruct (reg_vec s Hs ty p Hin) as (c & Hc & Hty). pose proof (sendTo_run p c data s1 Hs1 Hc) as Hst.
    pose proof (length_erase_first p _ Hin) as Hlen. rewrite Hcl in Hlen.
    assert (forall s2, (forall t, clients_of t s2 = clients_of t s) -> length (clients_of ty (remove_state p c s2)) <= fuel)%nat as Hless.
    { intros s2 H2. rewrite clients_of_remove bool_decide_true // H2 Hty Hcl. simpl in *. lia. }
    apply runs_bind. cbv zeta in Hst. destruct (cl_abort c) eqn:Hab; [|case_match eqn:Hr]; (eapply runs_ok; [exact Hst|]); cbv beta iota.
    + eapply runs_mono; [apply IH; [by apply Registry_remove|by apply Hless]|].
      intros ok s'. apply (AnySpec_removed ty data p c s s1); try done. by left.
    + eapply runs_mono; [apply IH; [apply Registry_remove; [by apply Registry_send|done]|by apply Hless]|].
      intros ok s'. apply (AnySpec_removed ty data p c s); try done; [right; eexists; by apply Z.ltb_lt|].
      simpl. apply Z.ltb_lt in Hr. by rewrite (proj2 (Z.leb_gt _ _) Hr).
    + apply runs_ret. apply Z.ltb_ge in Hr. split_and!; [by apply Registry_send|done|done|].
      exists p, c, (sends s1). cbv zeta. split_and!; try done. simpl. by rewrite (proj2 (Z.leb_le _ _) Hr).
Qed.

End Sending.

(** ** Clearing aborted clients *)

Lemma erase_first_app p a b : p ∉ a -> erase_first p (a ++ p :: b) = a ++ b.
Proof.
  induction a as [|x a IH]; intros Hp; simpl; [by rewrite bool_decide_true|].
  rewrite bool_decide_false; [|set_solver]. rewrite IH //. set_solver.
Qed.

Lemma take_erase_first p l i : NoDup l -> l !! i = Some p -> take i (erase_first p l) = take i l.
Proof.
  intros Hl Hi. pose proof (take_drop_middle l i p Hi) as Hm. pose proof (lookup_lt_Some _ _ _ Hi) as Hlt.
  rewrite -Hm in Hl. apply NoDup_app in Hl as (_ & Hn & _). rewrite -{1}Hm erase_first_app.
  - by rewrite take_app_length'; [|rewrite length_take; lia].
  - intros Hp. apply (Hn p Hp). by left.
Qed.

(** The clients of [types] that are marked are gone, all others are left. *)
Definition ClearSpec (types : list Z) (s s' : Server) : Prop :=
  Registry s' /\ sent s' = sent s /\ (forall ty, is_Some (clientMap s !! ty) -> is_Some (clientMap s' !! ty)) /\
  forall p c, heap s' !! p = Some c <-> heap s !! p = Some c /\ ~ (type c ∈ types /\ cl_abort c = true).

Lemma ClearSpec_remove ty p c s s' : Registry s -> heap s !! p = Some c -> type c = ty -> cl_abort c = true ->
  ClearSpec [ty] (remove_state p c s) s' -> ClearSpec [ty] s s'.
Proof.
  intros Hs Hp Hty Hab (H1 & H2 & H3 & H4). split_and!; [done|done| |].
  - intros t [l Ht]. apply H3. simpl. destruct (decide (t = type c)) as [->|]; [by rewrite lookup_insert_eq|].
    rewrite lookup_insert_ne //.
  - intros q d. rewrite H4 /= lookup_delete_Some. split.
    + intros [[Hne Hd] Hn]. done.
    + intros [Hd Hn]. split; [|done]. split; [|done]. intros <-. apply Hn. rewrite Hp in Hd. injection Hd as <-.
      split; [|done]. rewrite Hty. by left.
Qed.

Lemma clear_aborted_loop_run ty fuel : forall i s, Registry s -> (length (clients_of ty s) - i <= fuel)%nat ->
  (forall p c, p ∈ take i (clients_of ty s) -> heap s !! p = Some c -> cl_abort c = false) ->
  runs (clear_aborted_loop fuel ty i) s (fun _ s' => ClearSpec [ty] s s').
Proof.
  induction fuel as [|fuel IH]; intros i s Hs Hfuel Hpre; cbn [clear_aborted_loop]; apply runs_bind, runs_get;
    (destruct (clients_of ty s !! i) as [p|] eqn:Hi;
     [pose proof (lookup_lt_Some _ _ _ Hi) as Hlt|
      apply runs_ret; split_and!; [done..|]; intros p c; split; [|by intros []];
      intros Hp; split; [done|]; intros [Ht%list_elem_of_singleton Hab];
      apply lookup_ge_None_1 in Hi; rewrite firstn_all2 // in Hpre;
      rewrite (Hpre p c) in Hab; [done|rewrite -Ht; by apply (reg_live s Hs)|done]]).
  - lia.
  - assert (p ∈ clients_of ty s) as Hin by by eapply list_elem_of_lookup_2.
    destruct (reg_vec s Hs ty p Hin) as (c & Hc & Hty). apply runs_bind. eapply runs_deref; [exact Hc|].
    destruct (cl_abort c) eqn:Hab.
    + apply runs_bind. eapply runs_ok; [rewrite -Hty; by apply removeClient_typed_run|]. cbv beta.
      assert (clients_of ty (remove_state p c s) = erase_first p (clients_of ty s)) as Hcl.
      { by rewrite clients_of_remove bool_decide_true // Hty. }
      eapply runs_mono; [apply IH; [by apply Registry_remove| |]|intros u s'; by apply ClearSpec_remove].
      * rewrite Hcl. pose proof (length_erase_first p _ Hin). lia.
      * rewrite Hcl take_erase_first //; [|apply (reg_nodup s Hs)]. intros q d Hq Hd. simpl in Hd. apply lookup_delete_Some in Hd as [_ Hd]. by eapply Hpre.
    + apply IH; [done|lia|]. intros q d Hq Hd. rewrite (take_S_r _ _ p) // in Hq.
      apply elem_of_app in Hq as [Hq| ->%list_elem_of_singleton]; [by eapply Hpre|congruence].
Qed.

Lemma clear_types_run types : forall s, Registry s ->
  runs (for_types types (fun ty => s ← get; clear_aborted_loop (length (clients_of ty s)) ty 0)) s
    (fun _ s' => ClearSpec types s s').
Proof.
  induction types as [|ty types IH]; intros s Hs; simpl.
  - apply runs_ret. split_and!; [done..|]. intros p c. split; [|by intros []]. intros Hp. split; [done|].
    by intros [?%not_elem_of_nil _].
  - apply runs_bind, runs_bind, runs_get. eapply runs_mono; [apply clear_aborted_loop_run; [done|lia|]|].
    { rewrite take_0. by intros p c ?%not_elem_of_nil. }
    intros u s1 (H1 & H2 & H3 & H4). cbv beta. eapply runs_mono; [by apply IH|].
    intros u' s' (H1' & H2' & H3' & H4'). split_and!; [done|congruence|by intros ty' ?%H3; apply H3'|].
    intros p c. rewrite H4' H4 list_elem_of_singleton elem_of_cons. tauto.
Qed.

Lemma clear_aborted_run s : Registry s -> runs clear_aborted s (fun _ s' => Registry s' /\ sent s' = sent s /\
  forall p c, heap s' !! p = Some c <-> heap s !! p = Some c /\ cl_abort c = false).
Proof.
  intros Hs. apply runs_bind, runs_get. eapply runs_mono; [by apply clear_types_run|].
  intros u s' (H1 & H2 & _ & H4). split_and!; [done|done|]. intros p c. rewrite H4. split; intros [Hp Hn]; (split; [done|]).
  - destruct (cl_abort c) eqn:Hab; [|done]. destruct Hn. split; [|done]. apply elem_types_in_order.
    eapply clients_of_type. by apply (reg_live s Hs).
  - intros [_ Hab]. congruence.
Qed.

Lemma elem_of_concat {A} (x : A) ls : x ∈ concat ls <-> exists l, l ∈ ls /\ x ∈ l.
Proof.
  induction ls as [|l ls IH]; simpl; [set_solver|]. rewrite elem_of_app IH. setoid_rewrite elem_of_cons. naive_solver.
Qed.

Lemma names_run l s : (forall p, p ∈ l -> is_Some (heap s !! p)) -> runs (mapM name_and_uuid l) s (fun r s' => s' = s /\
  forall n u, (n, u) ∈ r <-> exists p c, p ∈ l /\ heap s !! p = Some c /\ n = prettyName c /\ u = uuid c).
Proof.
  induction l as [|p l IH]; intros Hl; simpl.
  - apply runs_ret. split; [done|]. intros n u. split; [by intros ?%not_elem_of_nil|]. by intros (p & c & ?%not_elem_of_nil & _).
  - destruct (Hl p) as [c Hc]; [by left|]. apply runs_bind, runs_bind. eapply runs_deref; [exact Hc|]. apply runs_ret, runs_bind.
    eapply runs_mono; [apply IH; intros q Hq; apply Hl; by right|]. intros r s' [-> Hr]. apply runs_ret. split; [done|].
    intros n u. rewrite elem_of_cons Hr. split.
    + intros [[= -> ->]|(q & d & Hq & ?)]; [exists p, c; split; [by left|done]|exists q, d; split; [by right|done]].
    + intros (q & d & [->|Hq]%elem_of_cons & Hd & -> & ->); [left; congruence|right]. by exists q, d.
Qed.

(** The clients that are listed for a request. *)
Definition matches (ty : Z) (c : ClientInfo) : Prop := ty = UnitType.UNDEFINED_UNIT_TYPE \/ type c = ty.

Lemma hasClients_false s : Registry s -> hasClients s = false -> heap s = ∅.
Proof.
  intros Hs Hh. apply map_empty. intros p. destruct (heap s !! p) as [c|] eqn:Hp; [|done]. exfalso.
  destruct (reg_live s Hs p c Hp) as [Hin _]. rewrite /clients_of in Hin. destruct (clientMap s !! type c) as [l|] eqn:Hl;
    [|by apply not_elem_of_nil in Hin]. simpl in Hin. apply elem_of_map_to_list in Hl. rewrite /hasClients in Hh. apply Nat.ltb_ge in Hh.
  assert (forall L : list (Z * list nat), (type c, l) ∈ L -> (length l <= fold_right (fun l n => (length l + n)%nat) 0%nat (map snd L))%nat) as Hsum.
  { induction L as [|[k v] L IH]; [by intros ?%not_elem_of_nil|]. simpl. intros [[= <- <-]|HL]%elem_of_cons; [lia|]. specialize (IH HL). lia. }
  specialize (Hsum _ Hl). destruct l; [by apply not_elem_of_nil in Hin|]. simpl in Hsum. lia.
Qed.

Lemma sendToAnyOfType_run send_result random ty data s :
  (forall n lo hi, (lo <= hi)%nat -> (lo <= random n lo hi <= hi)%nat) -> Registry s ->
  runs (sendToAnyOfType send_result random ty data) s (AnySpec send_result ty data s).
Proof.
  intros Hrnd Hs. apply runs_bind, runs_get. destruct (hasClients s) eqn:Hh.
  - destruct (clientMap s !! ty) as [l|] eqn:Hl.
    + apply sendToAny_loop_run; [done|done|]. by rewrite /clients_of Hl.
    + apply runs_ret, AnySpec_none; [done|]. by rewrite /clients_of Hl.
  - apply runs_ret, AnySpec_none; [done|]. destruct (clients_of ty s) as [|p l] eqn:Hl; [done|].
    destruct (reg_vec s Hs ty p) as (c & Hc & _); [rewrite Hl; by left|]. by rewrite (hasClients_false s Hs Hh) in Hc.
Qed.

Lemma getUuidForUnitType_run ty s : Registry s -> runs (getUuidForUnitType ty) s (fun r s' => Registry s' /\ sent s' = sent s /\
  forall n u, (n, u) ∈ r <-> exists p c, heap s !! p = Some c /\ cl_abort c = false /\ matches ty c /\ n = prettyName c /\ u = uuid c).
Proof.
  intros Hs. apply runs_bind, runs_get. destruct (hasClients s) eqn:Hh; simpl.
  - apply runs_bind. eapply runs_mono; [by apply clear_aborted_run|]. intros u0 s1 (Hs1 & Hsent & Hheap). cbv beta.
    apply runs_bind, runs_get. case_match eqn:Hty; (eapply runs_mono; [apply names_run|]).
    + intros p (l & Hl & Hp)%elem_of_concat. apply list_elem_of_fmap in Hl as (t & -> & Ht). apply (reg_vec s1 Hs1) in Hp as (c & Hc & _). by exists c.
    + intros r s' [-> Hr]. split_and!; [done|done|]. intros n u. rewrite Hr. split.
      * intros (p & c & _ & [Hc Hab]%Hheap & Hn). exists p, c. split_and!; [done|done|left; by apply Z.eqb_eq|apply Hn|apply Hn].
      * intros (p & c & Hc & Hab & _ & Hn). exists p, c. assert (heap s1 !! p = Some c) as Hc1 by by apply Hheap.
        split; [|done]. apply elem_of_concat. exists (clients_of (type c) s1). split; [|by apply (reg_live s1 Hs1)].
        apply list_elem_of_fmap. exists (type c). split; [done|]. apply elem_types_in_order. eapply clients_of_type. by apply (reg_live s1 Hs1).
    + intros p (c & Hc & _)%(reg_vec s1 Hs1). by exists c.
    + intros r s' [-> Hr]. split_and!; [done|done|]. intros n u. rewrite Hr. split.
      * intros (p & c & Hp & Hc & Hn). pose proof (proj1 (Hheap p c) Hc) as [Hc0 Hab]. exists p, c. apply (reg_vec s1 Hs1) in Hp as (d & Hd & Ht).
        split_and!; [done|done|right; congruence|apply Hn|apply Hn].
      * intros (p & c & Hc & Hab & [->|<-] & Hn); [done|]. assert (heap s1 !! p = Some c) as Hc1 by by apply Hheap.
        exists p, c. split; [by apply (reg_live s1 Hs1)|done].
  - apply runs_ret. split_and!; [done|done|]. intros n u. split; [by intros ?%not_elem_of_nil|].
    intros (p & c & Hp & _). by rewrite (hasClients_false s Hs Hh) in Hp.
Qed.

(** ** Sending to all clients of a type *)

Section SendAll.
Context (send_result : nat -> Z -> list Z -> Z).

Definition handle_of (s : Server) (p : nat) : Z := match heap s !! p with Some c => handle c | None => 0 end.

(** [s'] is [s] after sending, without any change to the clients. *)
Definition after_sends (msgs : list (Z * list Z)) (s s' : Server) : Prop :=
  heap s' = heap s /\ next_ptr s' = next_ptr s /\ clientMap s' = clientMap s /\ clientUuidMap s' = clientUuidMap s /\
  closed s' = closed s /\ sent s' = sent s ++ msgs.

Lemma after_sends_registry msgs s s' : after_sends msgs s s' -> Registry s -> Registry s'.
Proof. intros (H1 & H2 & H3 & H4 & _). apply Registry_ext; try done. intros ty. by rewrite /clients_of H3. Qed.

Lemma after_sends_nil s : after_sends [] s s.
Proof. split_and!; try done. by rewrite app_nil_r. Qed.

Lemma after_sends_app m1 m2 s s1 s2 : after_sends m1 s s1 -> after_sends m2 s1 s2 -> after_sends (m1 ++ m2) s s2.
Proof. intros (H1 & H2 & H3 & H4 & H5 & H6) (G1 & G2 & G3 & G4 & G5 & G6). split_and!; try congruence. by rewrite G6 H6 app_assoc. Qed.

(** The whole message is taken. *)
Definition takes (data : list Z) (h : Z) : Prop := forall n, send_result n h data = Z.of_nat (length data).

Lemma send_takes data h s : takes data h -> runs (send send_result h data) s (fun r s' => 0 <= r /\ after_sends [(h, data)] s s').
Proof.
  intros Ht. rewrite /runs /= Ht. split; [lia|]. split_and!; try done. simpl.
  rewrite (proj2 (Z.leb_le _ _)); [|lia]. by rewrite Nat2Z.id firstn_all.
Qed.

Lemma sendToAllOfType_loop_takes ty data l : forall fuel s, (length l < fuel)%nat ->
  (forall p, p ∈ l -> exists c, heap s !! p = Some c /\ takes data (handle c)) ->
  runs (sendToAllOfType_loop send_result fuel ty l data) s (fun _ s' => after_sends (map (fun p => (handle_of s p, data)) l) s s').
Proof.
  induction l as [|p l IH]; intros fuel s Hfuel Hl; (destruct fuel as [|fuel]; [simpl in Hfuel; lia|]); cbn [sendToAllOfType_loop].
  - apply runs_ret, after_sends_nil.
  - destruct (Hl p) as (c & Hc & Ht); [by left|]. apply runs_bind. eapply runs_deref; [exact Hc|]. apply runs_bind.
    eapply runs_mono; [by apply send_takes|]. intros r s1 [Hr Hs1]. cbv beta. rewrite (proj2 (Z.ltb_ge _ _) Hr).
    eapply runs_mono; [apply IH; [simpl in Hfuel; lia|]|].
    { destruct Hs1 as [-> _]. intros q Hq. apply Hl. by right. }
    intros u s2 Hs2. cbv beta in Hs2. change (map ?f (p :: l)) with ([f p] ++ map f l). eapply after_sends_app; [|].
    + rewrite /handle_of Hc. exact Hs1.
    + destruct Hs1 as [Hh _]. rewrite /handle_of in Hs2 |- *. by rewrite -Hh.
Qed.

Lemma sendToAllOfType_takes ty data s : Registry s ->
  (forall p c, p ∈ clients_of ty s -> heap s !! p = Some c -> takes data (handle c)) ->
  runs (sendToAllOfType send_result ty data) s
    (fun _ s' => after_sends (map (fun p => (handle_of s p, data)) (clients_of ty s)) s s').
Proof.
  intros Hs Ht. apply runs_bind, runs_get. destruct (hasClients s) eqn:Hh.
  - destruct (clientMap s !! ty) as [l|] eqn:Hl;
      [|apply runs_ret; rewrite /clients_of Hl; apply after_sends_nil].
    assert (clients_of ty s = l) as Hcl by by rewrite /clients_of Hl. rewrite Hcl.
    apply sendToAllOfType_loop_takes; [simpl; lia|]. intros p Hp. rewrite -Hcl in Hp.
    destruct (reg_vec s Hs ty p Hp) as (c & Hc & _). exists c. split; [done|]. by eapply Ht.
  - apply runs_ret. destruct (clients_of ty s) as [|p l] eqn:Hl; [apply after_sends_nil|].
    destruct (reg_vec s Hs ty p) as (c & Hc & _); [rewrite Hl; by left|]. by rewrite (hasClients_false s Hs Hh) in Hc.
Qed.

(** A client that cannot be reached makes it use the deleted object. *)
Lemma sendToAllOfType_loop_fails ty data p c l : forall fuel s, Registry s -> (length l < fuel)%nat -> p ∈ l -> NoDup l ->
  (forall q, q ∈ l -> q ∈ clients_of ty s) -> heap s !! p = Some c -> (forall n, send_result n (handle c) data < 0) ->
  sendToAllOfType_loop send_result fuel ty l data s = Err (Undef "use of a deleted ClientInfo").
Proof.
  induction l as [|q l IH]; intros fuel s Hs Hfuel Hp Hnd Hl Hc Hf; [by apply not_elem_of_nil in Hp|].
  destruct fuel as [|fuel]; [simpl in Hfuel; lia|]. cbn [sendToAllOfType_loop].
  destruct (reg_vec s Hs ty q) as (d & Hd & Hty); [apply Hl; by left|].
  rewrite /mbind /ST_bind {1}/deref_client Hd /send. set (r := send_result _ _ _). set (s1 := {| heap := heap s |}).
  assert (Registry s1) as Hs1 by by apply (Registry_ext s).
  destruct (Z.ltb_spec r 0) as [Hr|Hr].
  - rewrite -Hty (removeClient_typed_run q d s1 Hs1 Hd) /=.
    destruct fuel; cbn [sendToAllOfType_loop]; by rewrite /mbind /ST_bind {1}/deref_client /= lookup_delete_eq.
  - apply IH; [done|simpl in Hfuel; lia| |by apply NoDup_cons in Hnd as []|intros q' Hq'; apply Hl; by right|done|done].
    apply elem_of_cons in Hp as [->|Hp]; [|done]. rewrite Hc in Hd. injection Hd as ->. specialize (Hf (sends s)). rewrite -/r in Hf. lia.
Qed.

Lemma sendToAllOfType_fails ty data p c s : Registry s -> p ∈ clients_of ty s -> heap s !! p = Some c ->
  (forall n, send_result n (handle c) data < 0) ->
  sendToAllOfType send_result ty data s = Err (Undef "use of a deleted ClientInfo").
Proof.
  intros Hs Hp Hc Hf. rewrite /sendToAllOfType /mbind /ST_bind /get. destruct (hasClients s) eqn:Hh;
    [|by rewrite (hasClients_false s Hs Hh) in Hc].
  destruct (clientMap s !! ty) as [l|] eqn:Hl; [|by rewrite /clients_of Hl in Hp; apply not_elem_of_nil in Hp].
  assert (clients_of ty s = l) as Hcl by by rewrite /clients_of Hl.
  apply (sendToAllOfType_loop_fails ty data p c); try done; [simpl; lia|by rewrite -Hcl|rewrite -Hcl; apply (reg_nodup s Hs)|by rewrite Hcl].
Qed.

End SendAll.
