(* ===== verification/ServerHandlers.v ===== *)
(** * The message handlers of the server program

    The callbacks that examples/tcp_server_example.cpp registers with the
    server, and the clients of the server that answer them: the part of
    [TCPClient] (src/TCPClient.cpp) that builds messages.  The parsers and
    serializers of protobuf and the address of a peer are parameters. *)

From S2P Require Import Prelude Framing TcpServer.
From stdpp Require Import sorting.
#[local] Open Scope Z_scope.

(** [std::string] as bytes. *)
Fixpoint string_bytes (s : string) : list Z :=
  match s with
  | EmptyString => []
  | String c s => Z.of_N (N_of_ascii c) :: string_bytes s
  end.

Module Pkg.
Definition WORK : Z := 1.
Definition REROUTE_WORK : Z := 2.
Definition TASK_FINISHED : Z := 3.
Definition TEXT : Z := 4.
Definition MONITOR_REQUEST : Z := 7.
Definition CONNECT_ACTION : Z := 8.
Definition CONNECT_ACTION_INFO : Z := 9.
Definition CONFIGURATION_ACTION : Z := 10.
Definition UUID_FOR_UNIT_REQUEST : Z := 11.
Definition UUID_FOR_UNIT_RESPONSE : Z := 12.
End Pkg.

Definition message_info (pkg len src tgt : Z) : TCPMetaInfo :=
  {| message_delimiter := TCP_START_DELIM; unit_type := 0; payload_size := to_u32 len;
     package_type := pkg; src_uuid := src; tgt_uuid := tgt |}.

(** The buffer a handler allocates and fills: a header and the payload. *)
Definition message_buffer (i : TCPMetaInfo) (data : list Z) : list Z := info_bytes i ++ data.

(** [ss << std::endl] *)
Definition endl : string := String (Ascii.ascii_of_nat 10) EmptyString.

Section Handlers.
Context (send_result : nat -> Z -> list Z -> Z) (random : nat -> nat -> nat -> nat).
Context (peer_ip : Z -> string).
Context (parse_unit_request : list Z -> Z) (serialize_unit_response : Z * list (string * Z) -> list Z).

(** Sends to one client and shows the message to all monitors. *)
Definition send_and_monitor (target : ptr) (buf : list Z) : ST Server unit :=
  _ ← sendTo send_result target buf;
  sendToAllOfType send_result UnitType.MONITOR_UNIT buf.

(** [connect_forward_cb], [config_forward_cb], [connect_info_forward_cb] and
    [finished_forward_cb], which differ in the package type. *)
Definition forward_cb (pkg : Z) (meta : TCPMetaInfo) (data : list Z) : ST Server unit :=
  s ← get;
  match getClientByUuid (tgt_uuid meta) s with
  | Some target =>
      send_and_monitor target
        (message_buffer (message_info pkg (Z.of_nat (length data)) (src_uuid meta) (tgt_uuid meta)) data)
  | None => mret tt
  end.

Definition connect_forward_cb := forward_cb Pkg.CONNECT_ACTION.
Definition config_forward_cb := forward_cb Pkg.CONFIGURATION_ACTION.
Definition connect_info_forward_cb := forward_cb Pkg.CONNECT_ACTION_INFO.
Definition finished_forward_cb := forward_cb Pkg.TASK_FINISHED.

(** Text without a target is printed by the server. *)
Definition text_cb (meta : TCPMetaInfo) (data : list Z) : ST Server unit :=
  if tgt_uuid meta =? 0 then mret tt else forward_cb Pkg.TEXT meta data.

Definition reroute_work_cb (meta : TCPMetaInfo) (data : list Z) : ST Server unit :=
  let buf := message_buffer (message_info Pkg.REROUTE_WORK (Z.of_nat (length data)) (tgt_uuid meta) 0) data in
  _ ← rerouteToAnyOfType send_result random UnitType.COMPUTE_UNIT (src_uuid meta) buf;
  sendToAllOfType send_result UnitType.MONITOR_UNIT buf.

Definition work_forward_cb (meta : TCPMetaInfo) (data : list Z) : ST Server unit :=
  let buf := message_buffer (message_info Pkg.WORK (Z.of_nat (length data)) (src_uuid meta) (tgt_uuid meta)) data in
  if tgt_uuid meta =? 0 then
    _ ← sendToAnyOfType send_result random UnitType.COMPUTE_UNIT buf;
    sendToAllOfType send_result UnitType.MONITOR_UNIT buf
  else
    s ← get;
    match getClientByUuid (tgt_uuid meta) s with
    | Some target => send_and_monitor target buf
    | None => mret tt
    end.

(** [monitorInfoToString] *)
Definition client_line (p : ptr) : ST Server string :=
  c ← deref_client p;
  mret ("  " +:+ prettyName c +:+ " (" +:+ peer_ip (handle c) +:+ ")" +:+ endl).

Fixpoint monitor_types (types : list Z) : ST Server string :=
  match types with
  | [] => mret ""
  | ty :: types =>
      s ← get;
      lines ← mapM client_line (clients_of ty s);
      rest ← monitor_types types;
      mret (unitTypeToString ty +:+ " [" +:+ endl +:+ String.concat "" lines +:+ "]" +:+ endl +:+ rest)
  end.

Definition monitorInfoToString : ST Server string :=
  _ ← clear_aborted;
  s ← get;
  monitor_types (types_in_order s).

(** The pointer to the monitor is taken before the aborted clients are
    cleared. *)
Definition monitor_cb (meta : TCPMetaInfo) (_ : list Z) : ST Server unit :=
  s ← get;
  match getClientByUuid (src_uuid meta) s with
  | Some monitor =>
      monitorInfo ← monitorInfoToString;
      let text := string_bytes monitorInfo in
      let info := message_info Pkg.TEXT (Z.of_nat (length text)) (src_uuid meta) (tgt_uuid meta) in
      send_and_monitor monitor (take (Z.to_nat (bytesize info)) (message_buffer info text))
  | None => mret tt
  end.

(** The memory for the answer is allocated while [info.payload_size] is still
    zero; [mem] is what [malloc] returned. *)
Definition uuid_per_client_cb (malloc : Z -> list Z) (meta : TCPMetaInfo) (data : list Z) : ST Server unit :=
  let ty := parse_unit_request data in
  uuids ← getUuidForUnitType (to_int32 ty);
  let info := message_info Pkg.UUID_FOR_UNIT_RESPONSE 0 (src_uuid meta) (tgt_uuid meta) in
  let out_mem := malloc (bytesize info) in
  '(out_mem, _, info) ← lift (serializeItemToMemory serialize_unit_response out_mem (ty, uuids) info);
  s ← get;
  match getClientByUuid (src_uuid meta) s with
  | Some requester => send_and_monitor requester (take (Z.to_nat (bytesize info)) out_mem)
  | None => mret tt
  end.

(** The calls of [server.addCallback]: the handler of a message by its type. *)
Definition dispatch (malloc : Z -> list Z) (meta : TCPMetaInfo) (data : list Z) : ST Server unit :=
  let t := package_type meta in
  if t =? Pkg.TEXT then text_cb meta data
  else if t =? Pkg.WORK then work_forward_cb meta data
  else if t =? Pkg.REROUTE_WORK then reroute_work_cb meta data
  else if t =? Pkg.TASK_FINISHED then finished_forward_cb meta data
  else if t =? Pkg.MONITOR_REQUEST then monitor_cb meta data
  else if t =? Pkg.CONNECT_ACTION then connect_forward_cb meta data
  else if t =? Pkg.CONNECT_ACTION_INFO then connect_info_forward_cb meta data
  else if t =? Pkg.UUID_FOR_UNIT_REQUEST then uuid_per_client_cb malloc meta data
  else if t =? Pkg.CONFIGURATION_ACTION then config_forward_cb meta data
  else mret tt.

End Handlers.

(** ** The sending side of a client *)

(** The state of a [TCPClient] that its operations read and write, with the
    bytes handed to [send]. *)
Record TCPClient := {
  session_uuid : Z;
  uuid_draws : nat;
  client_sent : list Z
}.

(** [generateSessionUuid]; [draw n] is the [n]-th number of the generator. *)
Definition generateSessionUuid (draw : nat -> Z) (c : TCPClient) : TCPClient :=
  {| session_uuid := draw (uuid_draws c); uuid_draws := S (uuid_draws c); client_sent := client_sent c |}.

Section Client.
(** The result of [send], given what was sent before and the data. *)
Context (client_send : list Z -> list Z -> Z).

(** The result of [send] is not looked at. *)
Definition notifyHost (data : list Z) (c : TCPClient) : TCPClient :=
  {| session_uuid := session_uuid c; uuid_draws := uuid_draws c;
     client_sent := client_sent c ++ take (Z.to_nat (client_send (client_sent c) data)) data |}.

Definition textResponse (text : string) (tgt : Z) (c : TCPClient) : TCPClient :=
  let data := string_bytes text in
  notifyHost (message_buffer (message_info Pkg.TEXT (Z.of_nat (length data)) (session_uuid c) tgt) data) c.

(** The callback that the constructor registers. *)
Definition update_uuid_on_collision (draw : nat -> Z) (c : TCPClient) : TCPClient :=
  let c := generateSessionUuid draw c in
  notifyHost (message_buffer (message_info TcpPackageType.UUID_COLLISION 0 (session_uuid c) 0) []) c.

End Client.
