(* ===== verification/ServerConsole.v ===== *)
(** * The server program: accepting connections and the console

    [acceptLoop] of src/TCPServer.cpp, the random test data of src/Utility.cpp
    and the console menu of examples/tcp_server_example.cpp.  As in
    [TcpServer.v] the operating system and the random generator are oracles;
    every number drawn, also the length and the characters of a random string,
    is one call of the oracle.  The protobuf serializer of work items and the
    memory that [malloc] returns are parameters. *)

From S2P Require Import Prelude SchemaResolver Framing TcpServer ServerHandlers.
#[local] Open Scope Z_scope.

(** ** Accepting connections *)

(** What happens at [accept]: a connection on a handle, with the results of the
    [recv] calls of its set-up and the buffer for them, a failure, or another
    thread setting [globalAbort] before the call returns. *)
Inductive accept_event :=
  | Accepted (h : Z) (recvs : list (option (list Z))) (buf : list Z)
  | AcceptFailed
  | GlobalAbort.

Inductive accept_result :=
  | Waiting           (* no further event *)
  | LoopLeft          (* [globalAbort] *)
  | ProcessExits.     (* the set-up ended the process *)

Section Accept.
Context (send_result : nat -> Z -> list Z -> Z) (parse_unit : list Z -> Z * string).

Fixpoint accept_connections (evs : list accept_event) : ST Server accept_result :=
  match evs with
  | [] => mret Waiting
  | GlobalAbort :: _ => mret LoopLeft
  | AcceptFailed :: _ => raise (Throw "failed to accept")
  | Accepted h recvs buf :: evs =>
      o ← server_connect_callback send_result parse_unit h recvs buf;
      match o with
      | ExitProcess => mret ProcessExits
      | _ => accept_connections evs
      end
  end.

(** [socket], [bind] and [listen] return their results; the handle is compared
    with 0. *)
Definition acceptLoop (serverHandle bound listening : Z) (evs : list accept_event) : ST Server accept_result :=
  if serverHandle =? 0 then raise (Throw "[TCPServer] Error. Failed to create server socket.")
  else if bound <? 0 then raise (Throw "[TCPServer] Error. Failed to bind to socket.")
  else if listening <? 0 then raise (Throw "[TCPServer] Error. Failed to listen from socket.")
  else accept_connections evs.

End Accept.

(** ** Random work items *)

Inductive ScalarValue : Set :=
  | IntVal (value : nat)
  | FloatVal (numerator : Z) (denominator : positive)
  | StringVal (value : string).

Record RandomColumn : Set := mkRC { rc_tabName : string; rc_colName : string; rc_colType : nat }.

Inductive RandomData : Set :=
  | FilterData (inputcolumn outputcolumn : RandomColumn) (filtertype : nat) (filtervalue : ScalarValue)
  | JoinData (innercolumn outercolumn outputcolumn : RandomColumn) (joinpredicate : nat).

Record RandomItem : Set := mkRI { ri_planid : nat; ri_itemid : nat; ri_operatorid : nat; ri_data : RandomData }.

Definition set_itemid (i : nat) (x : RandomItem) : RandomItem :=
  mkRI (ri_planid x) i (ri_operatorid x) (ri_data x).

Definition letters : list ascii :=
  String.list_ascii_of_string "0123456789abcdefghijklmnopqrstuvwxyzABCDEFGHIJKLMNOPQRSTUVWXYZ".

Section Random.
Context (random : nat -> nat -> nat -> nat).

Definition random_number (lo hi : nat) : ST Server nat := generateRandomNumber random lo hi.

(** [sizeof(letters)] counts the terminating zero. *)
Fixpoint random_chars (charCnt : nat) : ST Server string :=
  match charCnt with
  | O => mret ""
  | S charCnt =>
      i ← random_number 0 (length letters + 1 - 2);
      c ← lift (at_index "letters" letters i);
      tmp ← random_chars charCnt;
      mret (String c tmp)
  end.

Definition generateRandomString : ST Server string :=
  charCnt ← random_number 3 20; random_chars charCnt.

Definition random_column (lo hi : nat) : ST Server RandomColumn :=
  tab ← generateRandomString; col ← generateRandomString; ty ← random_number lo hi; mret (mkRC tab col ty).

Definition random_value : ST Server ScalarValue :=
  kind ← random_number 0 2;
  match kind with
  | 0%nat => v ← random_number 0 100; mret (IntVal v)
  | 1%nat => mret (FloatVal 1337 100)
  | _ => s ← generateRandomString; mret (StringVal s)
  end.

Definition generateRandomWorkItem : ST Server RandomItem :=
  planid ← random_number 0 10;
  itemid ← random_number 0 10;
  operatorid ← random_number 1 5;
  is_filter ← random_number 0 1;
  if (is_filter =? 0)%nat then
    inner ← random_column 0 4;
    outer ← random_column 0 4;
    tab ← generateRandomString;
    col ← generateRandomString;
    pred ← random_number 0 5;
    mret (mkRI planid itemid operatorid (JoinData inner outer (mkRC tab col 5) pred))
  else
    input ← random_column 0 2;
    output ← random_column 3 4;
    ty ← random_number 0 5;
    v ← random_value;
    mret (mkRI planid itemid operatorid (FilterData input output ty v)).

(** ** The console *)

(** [std::stol]: blanks, a sign, digits; [None] when it throws
    ([invalid_argument], or [out_of_range] for a [long]). *)
Definition is_blank (c : ascii) : bool :=
  let n := nat_of_ascii c in ((9 <=? n) && (n <=? 13) || (n =? 32))%nat.

Definition digit (c : ascii) : option Z :=
  let n := nat_of_ascii c in if ((48 <=? n) && (n <=? 57))%nat then Some (Z.of_nat n - 48) else None.

Fixpoint skip_blanks (s : string) : string :=
  match s with String c s' => if is_blank c then skip_blanks s' else s | EmptyString => s end.

Fixpoint read_digits (acc : Z) (s : string) : Z :=
  match s with
  | String c s => match digit c with Some d => read_digits (acc * 10 + d) s | None => acc end
  | EmptyString => acc
  end.

Definition stol (s : string) : option Z :=
  let s := skip_blanks s in
  let '(sign, s) := match s with
                    | String c s' => if Ascii.eqb c "-" then (-1, s') else if Ascii.eqb c "+" then (1, s') else (1, s)
                    | EmptyString => (1, s)
                    end in
  match s with
  | String c s' =>
      match digit c with
      | Some d => let z := sign * read_digits d s' in
                  if (- 2 ^ 63 <=? z) && (z <? 2 ^ 63) then Some z else None
      | None => None
      end
  | EmptyString => None
  end.

Context (send_result : nat -> Z -> list Z -> Z) (malloc : Z -> list Z) (serialize_item : RandomItem -> list Z).

(** The [itemCount] items of menu entries 2 and 3, numbered from [i]. *)
Fixpoint random_items (itemCount i : nat) : ST Server (list RandomItem) :=
  match itemCount with
  | O => mret []
  | S itemCount =>
      item ← generateRandomWorkItem;
      items ← random_items itemCount (S i);
      mret (set_itemid i item :: items)
  end.

Definition items_message_size (items : list RandomItem) : Z :=
  to_size (fold_right (fun item n => ByteSizeLong serialize_item item + n) 0 items +
           sizeof_TCPMetaInfo * Z.of_nat (length items)).

(** Serializes the items one after the other, from position [pos] of [mem]. *)
Fixpoint serialize_items (info : TCPMetaInfo) (mem : list Z) (pos : nat) (items : list RandomItem) : result (list Z) :=
  match items with
  | [] => Ok mem
  | item :: items =>
      '(tail, offset, info) ← serializeItemToMemory serialize_item (drop pos mem) item info;
      serialize_items info (take pos mem ++ tail) (pos + Z.to_nat offset) items
  end.

(** The [uint32_t len] of the send functions. *)
Definition bytes_at (buf : list Z) (pos : nat) (len : Z) : result (list Z) :=
  mem_read buf pos (Z.to_nat (to_u32 len)).

Definition menu_text : ST Server unit :=
  let text := string_bytes "Hi from the server." in
  let info := message_info Pkg.TEXT (Z.of_nat (length text)) 0 0 in
  sendToAll send_result (message_buffer info text).

(** The items of an entry, serialized; entry 2 sets the package type in its own
    copy of the serializer, entry 3 before it. *)
Definition menu_items (itemCount : nat) : ST Server (list Z * Z) :=
  items ← random_items itemCount 0;
  let message_size := items_message_size items in
  buf ← lift (serialize_items (message_info Pkg.WORK 0 0 0) (malloc message_size) 0 items);
  mret (buf, message_size).

Definition menu_work : ST Server unit :=
  itemCount ← random_number 1 10;
  '(buf, message_size) ← menu_items itemCount;
  data ← lift (bytes_at buf 0 message_size);
  sendToAllOfType send_result UnitType.COMPUTE_UNIT data.

(** Ten items, sent in three parts. *)
Definition menu_parts : ST Server unit :=
  '(buf, message_size) ← menu_items 10;
  let end_first_package := message_size / 3 in
  data ← lift (bytes_at buf 0 end_first_package);
  _ ← sendToAllOfType send_result UnitType.COMPUTE_UNIT data;
  let size_left := message_size - end_first_package in
  let end_second_package := size_left / 2 in
  data ← lift (bytes_at buf (Z.to_nat end_first_package) end_second_package);
  _ ← sendToAllOfType send_result UnitType.COMPUTE_UNIT data;
  let size_left := size_left - end_second_package in
  data ← lift (bytes_at buf (Z.to_nat end_first_package + Z.to_nat end_second_package) size_left);
  sendToAllOfType send_result UnitType.COMPUTE_UNIT data.

(** One line of input; [true] when the program exits. *)
Definition console_line (serverHandle : Z) (op : string) : ST Server bool :=
  if op =s "-1" then _ ← closeConnection serverHandle; mret true
  else
    let op := toLower op in
    if op =s "exit" then _ ← closeConnection serverHandle; mret true
    else
      match stol op with
      | None => mret false
      | Some z =>
          let id := to_size z in
          _ ← (if id =? 1 then menu_text
               else if id =? 2 then menu_work
               else if id =? 3 then menu_parts
               else if id =? 4 then clear_aborted
               else mret tt);
          mret false
      end.

(** At the end of the input [op] keeps its initial ["-1"]. *)
Fixpoint server_console (serverHandle : Z) (lines : list string) : ST Server unit :=
  match lines with
  | [] => closeConnection serverHandle
  | op :: lines =>
      stop ← console_line serverHandle op;
      if stop : bool then mret tt else server_console serverHandle lines
  end.

End Random.

(** ** The client's connection *)

(** [TCPClient::start]: the results of [socket], [inet_pton] and [connect]; a
    session gets a fresh UUID. *)
Definition TCPClient_start (draw : nat -> Z) (serverHandle address connected : Z) (c : TCPClient) : result TCPClient :=
  if serverHandle <? 0 then Err (Throw "Could not open socket.")
  else if address <=? 0 then Err (Throw "Could not set target IP.")
  else if connected <? 0 then Err (Throw "Could not connect to server.")
  else Ok (generateSessionUuid draw c).
