(* ===== verification/ServerConsoleInv.v ===== *)
(** * What the console and the accept loop do to the server *)

From S2P Require Import Prelude SchemaResolver Framing FramingInv TcpServer TcpServerInv ServerHandlers ServerConsole.
#[local] Open Scope Z_scope.

(** ** The registry is kept *)
Section Keeps.
Context (random : nat -> nat -> nat -> nat) (send_result : nat -> Z -> list Z -> Z) (malloc : Z -> list Z).
Context (serialize_item : RandomItem -> list Z).

Lemma keeps_random_number lo hi : keeps (random_number random lo hi).
Proof. apply keeps_random. Qed.
#[local] Hint Resolve keeps_random_number : server.

Lemma keeps_random_chars n : keeps (random_chars random n).
Proof. induction n as [|n IH]; simpl; keeps_tac. Qed.
#[local] Hint Resolve keeps_random_chars : server.

Lemma keeps_random_string : keeps (generateRandomString random).
Proof. rewrite /generateRandomString. keeps_tac. Qed.
#[local] Hint Resolve keeps_random_string : server.

Lemma keeps_random_column lo hi : keeps (random_column random lo hi).
Proof. rewrite /random_column. keeps_tac. Qed.
#[local] Hint Resolve keeps_random_column : server.

Lemma keeps_random_item : keeps (generateRandomWorkItem random).
Proof.
  rewrite /generateRandomWorkItem /random_value. do 4 keeps_step. case_match; [keeps_tac|]. do 3 keeps_step.
  apply keeps_bind; [|intros; auto with server]. keeps_tac.
Qed.
#[local] Hint Resolve keeps_random_item : server.

Lemma keeps_random_items n : forall i, keeps (random_items random n i).
Proof. induction n as [|n IH]; intros i; simpl; keeps_tac. Qed.
#[local] Hint Resolve keeps_random_items : server.

Lemma keeps_menu_items n : keeps (menu_items random malloc serialize_item n).
Proof. rewrite /menu_items. keeps_tac. Qed.
#[local] Hint Resolve keeps_menu_items : server.

(** Every line that does not end the program keeps the registry. *)
Lemma console_registry serverHandle op s s' : Registry s ->
  console_line random send_result malloc serialize_item serverHandle op s = Ok (false, s') -> Registry s'.
Proof.
  intros Hs. rewrite /console_line. destruct (op =s "-1"); [by intros (? & ? & _ & [=])%ST_bind_ok|].
  destruct (toLower op =s "exit"); [by intros (? & ? & _ & [=])%ST_bind_ok|].
  destruct (stol (toLower op)) as [z|]; [|by intros [= <-]].
  intros H. refine (keeps_bind _ _ _ _ _ _ _ Hs H); [|intros; auto with server].
  rewrite /menu_text /menu_work /menu_parts. keeps_tac.
Qed.
End Keeps.

(** Handles that are accepted are not in use. *)
Fixpoint fresh_handles (send_result : nat -> Z -> list Z -> Z) (parse_unit : list Z -> Z * string)
    (evs : list accept_event) (s : Server) : Prop :=
  match evs with
  | Accepted h recvs buf :: evs =>
      ~ handle_in_use h s /\
      match server_connect_callback send_result parse_unit h recvs buf s with
      | Ok (_, s') => fresh_handles send_result parse_unit evs s'
      | Err _ => True
      end
  | _ => True
  end.

Lemma accept_registry send_result parse_unit evs : forall s r s', Registry s -> fresh_handles send_result parse_unit evs s ->
  accept_connections send_result parse_unit evs s = Ok (r, s') -> Registry s'.
Proof.
  induction evs as [|[h recvs buf| |] evs IH]; intros s r s' Hs Hf Ha; cbn [accept_connections fresh_handles] in *;
    [by injection Ha as <- <-| |done|by injection Ha as <- <-].
  destruct Hf as [Hh Hf]. apply ST_bind_ok in Ha as (o & s1 & Ho & Ha). rewrite Ho in Hf.
  pose proof (connect_registry _ _ _ _ _ _ _ _ Hs Hh Ho) as Hs1. destruct o; [by eapply IH|by eapply IH|by injection Ha as <- <-].
Qed.

(** ** Random work items *)

Definition in_range (random : nat -> nat -> nat -> nat) : Prop :=
  forall n lo hi, (lo <= hi)%nat -> (lo <= random n lo hi <= hi)%nat.

Definition valid_string (s : string) : Prop :=
  (3 <= String.length s <= 20)%nat /\ forall c, c ∈ String.list_ascii_of_string s -> c ∈ letters.

Definition valid_column (lo hi : nat) (c : RandomColumn) : Prop :=
  valid_string (rc_tabName c) /\ valid_string (rc_colName c) /\ (lo <= rc_colType c <= hi)%nat.

(** The enumerators are those of the protobuf enumerations. *)
Definition valid_data (d : RandomData) : Prop :=
  match d with
  | FilterData i o ty v => valid_column 0 2 i /\ valid_column 3 4 o /\ (ty <= 5)%nat /\
      match v with IntVal n => (n <= 100)%nat | FloatVal _ _ => True | StringVal s => valid_string s end
  | JoinData i o r p => valid_column 0 4 i /\ valid_column 0 4 o /\ valid_column 5 5 r /\ (p <= 5)%nat
  end.

Definition valid_item (x : RandomItem) : Prop :=
  (ri_planid x <= 10 /\ 1 <= ri_operatorid x <= 5)%nat /\ valid_data (ri_data x).

(** Draws numbers and does nothing else. *)
Definition only_draws {A} (m : ST Server A) (P : A -> Prop) : Prop :=
  forall s, runs m s (fun x s' => P x /\ after_sends [] s s').

Lemma after_sends_nil_trans l s s1 s2 : after_sends [] s s1 -> after_sends l s1 s2 -> after_sends l s s2.
Proof. intros H1 H2. exact (after_sends_app [] l s s1 s2 H1 H2). Qed.

Lemma only_draws_bind {A B} (m : ST Server A) (f : A -> ST Server B) P Q :
  only_draws m P -> (forall x, P x -> only_draws (f x) Q) -> only_draws (m ≫= f) Q.
Proof.
  intros Hm Hf s. apply runs_bind. eapply runs_mono; [apply Hm|]. intros x s1 [Hx Hs1]. cbv beta.
  eapply runs_mono; [by apply Hf|]. intros y s2 [Hy Hs2]. split; [done|]. by eapply after_sends_nil_trans.
Qed.

Lemma only_draws_ret {A} (x : A) (P : A -> Prop) : P x -> only_draws (mret x) P.
Proof. intros H s. apply runs_ret. split; [done|apply after_sends_nil]. Qed.

Section Random.
Context (random : nat -> nat -> nat -> nat) (Hrandom : in_range random).

Lemma draw_number lo hi : (lo <= hi)%nat -> only_draws (random_number random lo hi) (fun n => (lo <= n <= hi)%nat).
Proof. intros H s. rewrite /runs /=. split; [by apply Hrandom|]. by rewrite /after_sends /= app_nil_r. Qed.

Lemma draw_chars n : only_draws (random_chars random n)
  (fun s => String.length s = n /\ forall c, c ∈ String.list_ascii_of_string s -> c ∈ letters).
Proof.
  induction n as [|n IH]; cbn [random_chars]; [apply only_draws_ret; split; [done|set_solver]|].
  eapply only_draws_bind; [apply draw_number; lia|cbv beta]. intros i [_ Hi]. change (length letters) with 62%nat in Hi.
  destruct (lookup_lt_is_Some_2 letters i) as [c Hc]; [change (length letters) with 62%nat; lia|].
  eapply (only_draws_bind _ _ (fun x => x = c)).
  { intros s. rewrite /runs /lift /at_index Hc /=. split; [done|apply after_sends_nil]. }
  intros x ->. eapply only_draws_bind; [exact IH|cbv beta]. intros tmp [Hl Hin]. apply only_draws_ret. simpl. split; [lia|].
  intros d [->|Hd]%elem_of_cons; [by eapply list_elem_of_lookup_2|by apply Hin].
Qed.

Lemma draw_string : only_draws (generateRandomString random) valid_string.
Proof.
  eapply only_draws_bind; [apply draw_number; lia|cbv beta]. intros n Hn s. eapply runs_mono; [apply draw_chars|].
  intros x s' [[Hl Hin] Hs]. split; [|done]. split; [lia|done].
Qed.

Lemma draw_column lo hi : (lo <= hi)%nat -> only_draws (random_column random lo hi) (valid_column lo hi).
Proof.
  intros H. eapply only_draws_bind; [apply draw_string|cbv beta]. intros t Ht. eapply only_draws_bind; [apply draw_string|cbv beta].
  intros c Hc. eapply only_draws_bind; [by apply draw_number|]. intros ty Hty. by apply only_draws_ret.
Qed.

Lemma draw_value : only_draws (random_value random)
  (fun v => match v with IntVal n => (n <= 100)%nat | FloatVal _ _ => True | StringVal s => valid_string s end).
Proof.
  eapply only_draws_bind; [apply draw_number; lia|cbv beta]. intros k Hk. destruct k as [|[|k]].
  - eapply only_draws_bind; [apply draw_number; lia|cbv beta]. intros v Hv. apply only_draws_ret. lia.
  - by apply only_draws_ret.
  - eapply only_draws_bind; [apply draw_string|cbv beta]. intros v Hv. by apply only_draws_ret.
Qed.

Lemma draw_item : only_draws (generateRandomWorkItem random) valid_item.
Proof.
  eapply only_draws_bind; [apply draw_number; lia|cbv beta]. intros pid Hp. eapply only_draws_bind; [apply draw_number; lia|cbv beta].
  intros iid _. eapply only_draws_bind; [apply draw_number; lia|cbv beta]. intros op Hop.
  eapply only_draws_bind; [apply draw_number; lia|cbv beta]. intros k _. destruct (k =? 0)%nat.
  - eapply only_draws_bind; [apply draw_column; lia|cbv beta]. intros i Hi. eapply only_draws_bind; [apply draw_column; lia|cbv beta].
    intros o Ho. eapply only_draws_bind; [apply draw_string|cbv beta]. intros t Ht. eapply only_draws_bind; [apply draw_string|cbv beta].
    intros c Hc. eapply only_draws_bind; [apply draw_number; lia|cbv beta]. intros p Hpr. apply only_draws_ret.
    split; [simpl; lia|]. repeat split; simpl; try apply Hi; try apply Ho; try apply Ht; try apply Hc; lia.
  - eapply only_draws_bind; [apply draw_column; lia|cbv beta]. intros i Hi. eapply only_draws_bind; [apply draw_column; lia|cbv beta].
    intros o Ho. eapply only_draws_bind; [apply draw_number; lia|cbv beta]. intros ty Hty.
    eapply only_draws_bind; [apply draw_value|cbv beta]. intros v Hv. apply only_draws_ret.
    split; [simpl; lia|]. simpl. split_and!; [done|done|lia|done].
Qed.

Lemma draw_items n : forall i, only_draws (random_items random n i)
  (fun l => map ri_itemid l = seq i n /\ Forall valid_item l).
Proof.
  induction n as [|n IH]; intros i; cbn [random_items]; [by apply only_draws_ret|].
  eapply only_draws_bind; [apply draw_item|cbv beta]. intros x Hx. eapply only_draws_bind; [apply IH|cbv beta]. intros l [Hl Hv].
  apply only_draws_ret. split; [simpl; by rewrite Hl|]. by constructor.
Qed.
End Random.

(** ** The messages of a menu entry *)
Section Menu.
Context (random : nat -> nat -> nat -> nat) (send_result : nat -> Z -> list Z -> Z) (malloc : Z -> list Z).
Context (serialize_item : RandomItem -> list Z).

Definition work_messages (items : list RandomItem) : list message :=
  map (fun x => item_message serialize_item x (message_info Pkg.WORK 0 0 0)) items.

Lemma serialize_length (mem : list Z) x info mem' n info' :
  serializeItemToMemory serialize_item mem x info = Ok (mem', n, info') -> length mem' = length mem.
Proof.
  intros Hser. apply bind_ok in Hser as (m1 & [_ H1]%mem_write_inv & Hser).
  apply bind_ok in Hser as (m2 & [_ H2]%mem_write_inv & [= <- _ _]). by rewrite H2.
Qed.

Lemma serialize_items_run info items : forall mem pos, Forall (fun x => ByteSizeLong serialize_item x < 2 ^ 32) items ->
  length mem = (pos + length (stream (map (fun x => item_message serialize_item x info) items)))%nat ->
  serialize_items serialize_item info mem pos items =
    Ok (take pos mem ++ stream (map (fun x => item_message serialize_item x info) items)).
Proof.
  revert info. induction items as [|x items IH]; intros info mem pos Hs Hl; cbn [serialize_items map] in *.
  - rewrite Nat.add_0_r in Hl. by rewrite -Hl firstn_all app_nil_r.
  - apply Forall_cons in Hs as [Hx Hs]. rewrite stream_cons length_app in Hl |- *.
    set (f := item_message serialize_item x info) in *.
    destruct (serialize_spec serialize_item (drop pos mem) x info) as (tail & Hser & Ht); [|done|].
    { rewrite length_drop. rewrite enc_length in Hl. simpl in Hl. lia. }
    pose proof (serialize_length _ _ _ _ _ _ Hser) as Hlt. rewrite Hser. cbn [mbind result_bind]. fold f in Ht |- *.
    change (map (fun x => item_message serialize_item x info) items)
      with (map (fun x => item_message serialize_item x (m_info f)) items) in Hl |- *.
    rewrite Nat2Z.id IH; [|done|].
    + f_equal. rewrite app_assoc. f_equal. rewrite take_app length_take.
      rewrite firstn_all2; [|rewrite length_take; lia]. f_equal. rewrite -[in RHS]Ht. f_equal. lia.
    + rewrite length_app length_take Hlt length_drop. lia.
Qed.

Lemma message_size_stream items : Forall (fun x => ByteSizeLong serialize_item x < 2 ^ 24) items ->
  (length items <= 10)%nat -> let n := Z.of_nat (length (stream (work_messages items))) in
  items_message_size serialize_item items = n /\ 32 * Z.of_nat (length items) <= n < 2 ^ 32.
Proof.
  intros Hs Hl. cbv zeta.
  assert (Z.of_nat (length (stream (work_messages items))) =
    fold_right (fun item n => ByteSizeLong serialize_item item + n) 0 items + sizeof_TCPMetaInfo * Z.of_nat (length items)) as Heq.
  { clear. induction items as [|x items IH]; [done|]. cbn [work_messages map fold_right length]. rewrite stream_cons length_app enc_length.
    rewrite Nat2Z.inj_add IH. change (m_payload _) with (serialize_item x). rewrite /ByteSizeLong /sizeof_TCPMetaInfo. lia. }
  assert (0 <= fold_right (fun item n => ByteSizeLong serialize_item item + n) 0 items <= (2 ^ 24 - 1) * Z.of_nat (length items)) as Hb.
  { clear -Hs. induction Hs as [|x items Hx _ IH]; [done|]. cbn [fold_right length].
    assert (0 <= ByteSizeLong serialize_item x) by (rewrite /ByteSizeLong; lia). lia. }
  rewrite /items_message_size Heq. rewrite /sizeof_TCPMetaInfo. split; [|lia]. rewrite to_size_small; lia.
Qed.

Hypothesis Hrandom : in_range random.
Hypothesis Hmalloc : forall n, length (malloc n) = Z.to_nat n.
Hypothesis Hsize : forall x, valid_item x -> ByteSizeLong serialize_item x < 2 ^ 24.

Lemma menu_items_run n : (n <= 10)%nat -> only_draws (menu_items random malloc serialize_item n) (fun r =>
  exists items, map ri_itemid items = seq 0 n /\ Forall valid_item items /\
    r = (stream (work_messages items), Z.of_nat (length (stream (work_messages items))))).
Proof.
  intros Hn. eapply only_draws_bind; [by apply draw_items|cbv beta]. intros items [Hids Hv].
  assert (length items = n) as Hlen by (by rewrite -(length_map ri_itemid) Hids length_seq).
  assert (Forall (fun x => ByteSizeLong serialize_item x < 2 ^ 24) items) as Hsz by (eapply Forall_impl; [exact Hv|exact Hsize]).
  destruct (message_size_stream items Hsz ltac:(lia)) as [-> Hb]. cbv zeta.
  intros s. apply runs_bind. rewrite /lift serialize_items_run; [| |by rewrite Hmalloc Nat2Z.id].
  - rewrite /runs /=. split; [by exists items|apply after_sends_nil].
  - eapply Forall_impl; [exact Hsz|]. simpl. lia.
Qed.
End Menu.
