(* ===== verification/ServerTheorems.v ===== *)
(** * Results on the TCP server *)

From S2P Require Import Prelude Framing FramingInv TcpServer TcpServerInv ServerHandlers.
From S2P Require Import ServerConsole ServerConsoleInv.
From stdpp Require Import list_numbers.
#[local] Open Scope Z_scope.

(** ** The server as a transition system *)
Section System.
Context (send_result : nat -> Z -> list Z -> Z) (random : nat -> nat -> nat -> nat).
Context (peer_ip : Z -> string) (parse_unit : list Z -> Z * string).
Context (parse_unit_request : list Z -> Z) (serialize_unit_response : Z * list (string * Z) -> list Z).
Context (malloc : Z -> list Z).

Definition mark_aborted (p : nat) (c : ClientInfo) (s : Server) : Server :=
  set_heap (<[p := abort_client c]> (heap s)) s.

(** What happens to a running server: a connection on a handle that no client
    has, a receiver thread that gives up, a message, and a line typed at the
    console that does not end the program. *)
Inductive server_step : Server -> Server -> Prop :=
  | step_connect h recvs buf o s s' : ~ handle_in_use h s ->
      server_connect_callback send_result parse_unit h recvs buf s = Ok (o, s') -> server_step s s'
  | step_receiver_ends p c s : heap s !! p = Some c -> server_step s (mark_aborted p c s)
  | step_message meta data s s' :
      dispatch send_result random peer_ip parse_unit_request serialize_unit_response malloc meta data s = Ok (tt, s') ->
      server_step s s'
  | step_console serialize_item serverHandle op s s' :
      console_line random send_result malloc serialize_item serverHandle op s = Ok (false, s') -> server_step s s'.

Lemma Registry_mark p c s : Registry s -> heap s !! p = Some c -> Registry (mark_aborted p c s).
Proof.
  intros [H1 H2 H3 H4 H5] Hp. set (c' := abort_client c).
  assert (forall q d, heap (mark_aborted p c s) !! q = Some d <->
    (q = p /\ d = c') \/ (q <> p /\ heap s !! q = Some d)) as Hh.
  { intros q d. simpl. rewrite lookup_insert_Some. naive_solver. }
  split.
  - intros ty q (d & Hd & Ht)%H1. destruct (decide (q = p)) as [->|Hne]; [exists c'; split; [apply Hh; by left|simpl; congruence]|].
    exists d. split; [apply Hh; by right|done].
  - apply H2.
  - intros q d [[-> ->]|[Hne Hd]]%Hh; [exact (H3 p c Hp)|exact (H3 q d Hd)].
  - intros u q. simpl. rewrite H4. split.
    + intros (d & Hd & <-). destruct (decide (q = p)) as [->|Hne]; [exists c'; split; [apply Hh; by left|simpl; congruence]|].
      exists d. split; [apply Hh; by right|done].
    + intros (d & [[-> ->]|[Hne Hd]]%Hh & <-); [by exists c|by exists d].
  - intros q r d e [[-> ->]|[Hq Hd]]%Hh [[-> ->]|[Hr He]]%Hh Heq; [done|by apply (H5 _ _ c e)|by apply (H5 _ _ d c)|by apply (H5 _ _ d e)].
Qed.

Lemma keeps_forward pkg meta data : keeps (forward_cb send_result pkg meta data).
Proof. rewrite /forward_cb /send_and_monitor. keeps_tac. Qed.

Lemma keeps_monitor_types types : keeps (monitor_types peer_ip types).
Proof.
  induction types as [|ty types IH]; simpl; [auto with server|]. keeps_step. apply keeps_bind; [|intros; keeps_tac].
  apply keeps_mapM. intros p. rewrite /client_line. keeps_tac.
Qed.

Lemma keeps_monitorInfo : keeps (monitorInfoToString peer_ip).
Proof. rewrite /monitorInfoToString. do 2 keeps_step. apply keeps_monitor_types. Qed.

#[local] Hint Resolve keeps_forward keeps_monitorInfo : server.

Lemma keeps_dispatch meta data :
  keeps (dispatch send_result random peer_ip parse_unit_request serialize_unit_response malloc meta data).
Proof.
  rewrite /dispatch /text_cb /work_forward_cb /reroute_work_cb /finished_forward_cb /connect_forward_cb
    /connect_info_forward_cb /config_forward_cb /monitor_cb /uuid_per_client_cb /send_and_monitor. keeps_tac.
Qed.

Lemma step_registry s s' : Registry s -> server_step s s' -> Registry s'.
Proof.
  intros Hs Hst. destruct Hst as [h recvs buf o s s' Hh Hr|p c s Hp|meta data s s' Hr|ser h op s s' Hr].
  - exact (connect_registry _ _ _ _ _ _ _ _ Hs Hh Hr).
  - by apply Registry_mark.
  - exact (keeps_dispatch _ _ _ _ _ Hs Hr).
  - exact (console_registry _ _ _ _ _ _ _ _ Hs Hr).
Qed.

Lemma empty_registry : Registry empty_server.
Proof.
  split; simpl; try done.
  - by intros ty p ?%not_elem_of_nil.
  - intros ty. constructor.
  - intros u p. split; [done|]. by intros (c & Hc & _).
Qed.

End System.

(** ** A small scenario: a compute unit and, after a collision, a monitor *)

Definition demo_send (_ : nat) (_ : Z) (data : list Z) : Z := Z.of_nat (length data).
Definition demo_random (_ lo _ : nat) : nat := lo.
Definition demo_parse (payload : list Z) : Z * string := (match payload with b :: _ => b | [] => 0 end, "unit").

Definition demo_hello (pkg uuid ty : Z) : list Z := info_bytes (message_info pkg 1 uuid 0) ++ [ty].

Definition demo_connect (h : Z) (recvs : list (option (list Z))) (s : Server) : Server :=
  match server_connect_callback demo_send demo_parse h recvs (replicate 80 0) s with Ok (_, s') => s' | Err _ => s end.

Definition demo_server1 : Server := demo_connect 4 [Some (demo_hello 5 11 2)] empty_server.
Definition demo_server : Server := demo_connect 5 [Some (demo_hello 5 11 5); Some (demo_hello 13 12 5)] demo_server1.

Lemma demo_connect_step s h recvs o : map_Forall (fun _ c => handle c <> h) (heap s) ->
  server_connect_callback demo_send demo_parse h recvs (replicate 80 0) s = Ok (o, demo_connect h recvs s) ->
  server_step demo_send demo_random (fun _ => "") demo_parse (fun _ => 0) (fun _ => [1]) (fun n => replicate (Z.to_nat n) 0)
    s (demo_connect h recvs s).
Proof. intros Hh Hr. eapply step_connect; [|exact Hr]. intros (p & c & Hc & Heq). exact (Hh p c Hc Heq). Qed.

Lemma demo_server_steps :
  rtc (server_step demo_send demo_random (fun _ => "") demo_parse (fun _ => 0) (fun _ => [1]) (fun n => replicate (Z.to_nat n) 0))
    empty_server demo_server.
Proof.
  eapply rtc_l; [eapply (demo_connect_step _ 4 [Some (demo_hello 5 11 2)]); [|by vm_compute]|]; [by apply map_Forall_empty|].
  eapply rtc_l; [eapply (demo_connect_step _ 5 [Some (demo_hello 5 11 5); Some (demo_hello 13 12 5)]); [|by vm_compute]|apply rtc_refl].
  apply (bool_decide_eq_true_1 (map_Forall (fun _ c => handle c <> 5) (heap demo_server1))). by vm_compute.
Qed.



Lemma demo_registry : Registry demo_server.
Proof.
  generalize demo_server_steps. generalize demo_server. intros s Hr. revert Hr. generalize empty_registry. generalize empty_server.
  intros s0 H0. induction 1 as [|s0 s1 s2 H1 _ IH]; [done|]. apply IH. exact (step_registry _ _ _ _ _ _ _ _ _ H0 H1).
Qed.

(** ** Sending work *)



(** The message a handler forwards, as the receiving side sees it. *)
Definition forwarded (pkg : Z) (meta : TCPMetaInfo) (data : list Z) : message :=
  {| m_info := message_info pkg (Z.of_nat (length data)) (src_uuid meta) (tgt_uuid meta); m_payload := data |}.

Lemma forwarded_wf pkg meta data : 0 <= pkg < 2 ^ 31 -> Z.of_nat (length data) < 2 ^ 32 -> Forall is_byte data ->
  0 <= src_uuid meta < 2 ^ 64 -> 0 <= tgt_uuid meta < 2 ^ 64 -> wf_message (forwarded pkg meta data).
Proof.
  intros Hp Hl Hb Hs Ht. assert (to_u32 (Z.of_nat (length data)) = Z.of_nat (length data)) as He by (rewrite /to_u32 Z.mod_small; lia).
  split; simpl; rewrite ?He; try done; lia.
Qed.

Section Routing.
Context (send_result : nat -> Z -> list Z -> Z) (random : nat -> nat -> nat -> nat).

Lemma send_and_monitor_run target c buf s : Registry s -> heap s !! target = Some c -> cl_abort c = false ->
  takes send_result buf (handle c) ->
  (forall p d, p ∈ clients_of UnitType.MONITOR_UNIT s -> heap s !! p = Some d -> takes send_result buf (handle d)) ->
  runs (send_and_monitor send_result target buf) s (fun _ s' => after_sends
    ((handle c, buf) :: map (fun p => (handle_of s p, buf)) (clients_of UnitType.MONITOR_UNIT s)) s s').
Proof.
  intros Hs Hc Hab Ht Hm. apply runs_bind. pose proof (sendTo_run send_result target c buf s Hs Hc) as Hst.
  rewrite Hab Ht in Hst. cbv zeta in Hst. rewrite (proj2 (Z.ltb_ge _ _)) in Hst; [|lia].
  eapply runs_ok; [exact Hst|]. cbv beta. set (s1 := send_state _ _ _ s).
  assert (after_sends [(handle c, buf)] s s1) as Hs1.
  { split_and!; try done. simpl. rewrite (proj2 (Z.leb_le _ _)); [|lia]. by rewrite Nat2Z.id firstn_all. }
  eapply runs_mono; [apply sendToAllOfType_takes; [exact (after_sends_registry _ _ _ Hs1 Hs)|exact Hm]|].
  intros u s' Hs'. exact (after_sends_app _ _ _ _ _ Hs1 Hs').
Qed.

End Routing.

(** C25: A message that names its target is routed to it.  Work, finished-task,
    text, connection and configuration messages with the UUID of a connected
    client are sent, as one well-formed message with the same type, source,
    target and payload, to exactly that client and, as a copy, to every monitor,
    and to nobody else; the registry does not change.  (Assumed: the target and
    the monitors are reachable.) *)
Theorem message_routed send_result random peer_ip parse_unit_request serialize_unit_response malloc meta data s target c :
  package_type meta ∈ [Pkg.WORK; Pkg.TASK_FINISHED; Pkg.TEXT; Pkg.CONNECT_ACTION; Pkg.CONNECT_ACTION_INFO; Pkg.CONFIGURATION_ACTION] ->
  Registry s -> heap s !! target = Some c -> uuid c = tgt_uuid meta -> tgt_uuid meta <> 0 -> cl_abort c = false ->
  0 <= src_uuid meta < 2 ^ 64 -> 0 <= tgt_uuid meta < 2 ^ 64 -> Forall is_byte data -> Z.of_nat (length data) < 2 ^ 32 ->
  let f := forwarded (package_type meta) meta data in
  takes send_result (enc f) (handle c) ->
  (forall p d, p ∈ clients_of UnitType.MONITOR_UNIT s -> heap s !! p = Some d -> takes send_result (enc f) (handle d)) ->
  wf_message f /\ exists s',
    dispatch send_result random peer_ip parse_unit_request serialize_unit_response malloc meta data s = Ok (tt, s') /\
    heap s' = heap s /\ clientMap s' = clientMap s /\ clientUuidMap s' = clientUuidMap s /\
    sent s' = sent s ++ (handle c, enc f) :: map (fun p => (handle_of s p, enc f)) (clients_of UnitType.MONITOR_UNIT s).
Proof.
  intros Hpkg Hs Hc Hu H0 Hab Hsrc Htgt Hb Hl f Ht Hm.
  assert (getClientByUuid (tgt_uuid meta) s = Some target) as Hget by (apply (reg_uuid s Hs); by exists c).
  pose proof (send_and_monitor_run send_result target c (enc f) s Hs Hc Hab Ht Hm) as Hrun. split.
  - apply forwarded_wf; try done. rewrite /Pkg.WORK in Hpkg. repeat (apply elem_of_cons in Hpkg as [->|Hpkg]; [done|]).
    by apply not_elem_of_nil in Hpkg.
  - assert (forall m, m s = send_and_monitor send_result target (enc f) s -> exists s', m s = Ok (tt, s') /\
      heap s' = heap s /\ clientMap s' = clientMap s /\ clientUuidMap s' = clientUuidMap s /\
      sent s' = sent s ++ (handle c, enc f) :: map (fun p => (handle_of s p, enc f)) (clients_of UnitType.MONITOR_UNIT s)) as Hfin.
    { intros m ->. rewrite /runs in Hrun. destruct (send_and_monitor _ _ _ s) as [[[] s']|]; [|done]. exists s'.
      by destruct Hrun as (? & ? & ? & ? & ? & ?). }
    apply Hfin. rewrite /dispatch.
    repeat (apply elem_of_cons in Hpkg as [Hp|Hpkg]; [rewrite /f /forwarded Hp /=;
      rewrite /work_forward_cb /finished_forward_cb /text_cb /connect_forward_cb /connect_info_forward_cb /config_forward_cb;
      rewrite /forward_cb ?(proj2 (Z.eqb_neq _ _) H0) /mbind /ST_bind /get Hget; reflexivity|]).
    by apply not_elem_of_nil in Hpkg.
Qed.

Definition demo_work : TCPMetaInfo := message_info Pkg.WORK 3 99 11.

Lemma message_routed_witness :
  let f := forwarded Pkg.WORK demo_work [1; 2; 3] in
  wf_message f /\ exists s',
    dispatch demo_send demo_random (fun _ => "") (fun _ => 0) (fun _ => [1]) (fun n => replicate (Z.to_nat n) 0) demo_work [1; 2; 3] demo_server =
      Ok (tt, s') /\
    heap s' = heap demo_server /\ clientMap s' = clientMap demo_server /\ clientUuidMap s' = clientUuidMap demo_server /\
    sent s' = sent demo_server ++ (4, enc f) ::
      map (fun p => (handle_of demo_server p, enc f)) (clients_of UnitType.MONITOR_UNIT demo_server).
Proof.
  assert (exists c, heap demo_server !! 0%nat = Some c /\ uuid c = 11 /\ cl_abort c = false /\ handle c = 4) as (c & Hc & Hu & Hab & Hh)
    by (eexists; split; [by vm_compute|done]).
  rewrite -Hh. apply (message_routed demo_send demo_random (fun _ => "") (fun _ => 0) (fun _ => [1])
    (fun n => replicate (Z.to_nat n) 0) demo_work [1; 2; 3] demo_server 0%nat c).
  - by left.
  - exact demo_registry.
  - exact Hc.
  - exact Hu.
  - discriminate.
  - exact Hab.
  - done.
  - done.
  - repeat constructor; done.
  - done.
  - intros n. reflexivity.
  - intros p d _ _ n. reflexivity.
Defined.

(** ** Deviations *)

Lemma serialize_too_small {Item} (ser : Item -> list Z) mem item info : ser item <> [] -> length mem = 32%nat ->
  serializeItemToMemory ser mem item info = Err (Undef "write outside the buffer").
Proof.
  intros Hne Hl. rewrite /serializeItemToMemory. destruct (mem_write mem 0 _) as [m1|] eqn:Hm1; simpl;
    [|by rewrite mem_write_ok ?info_bytes_length ?Hl in Hm1].
  apply mem_write_inv in Hm1 as [_ Hm1]. rewrite {1}/mem_write (proj2 (Nat.leb_gt _ _)) // Hm1 Hl.
  destruct (ser item); [done|]. simpl. lia.
Qed.

Lemma client_lines_run peer_ip l s : (forall p, p ∈ l -> is_Some (heap s !! p)) ->
  runs (mapM (client_line peer_ip) l) s (fun _ s' => s' = s).
Proof.
  induction l as [|p l IH]; intros Hl; simpl; [by apply runs_ret|]. destruct (Hl p) as [c Hc]; [by left|].
  apply runs_bind, runs_bind. eapply runs_deref; [exact Hc|]. apply runs_ret, runs_bind.
  eapply runs_mono; [apply IH; intros q Hq; apply Hl; by right|]. intros r s' ->. by apply runs_ret.
Qed.

Lemma monitor_types_run peer_ip types s : Registry s -> runs (monitor_types peer_ip types) s (fun _ s' => s' = s).
Proof.
  intros Hs. induction types as [|ty types IH]; simpl; [by apply runs_ret|]. apply runs_bind, runs_get, runs_bind.
  eapply runs_mono; [apply client_lines_run|].
  { intros p (c & Hc & _)%(reg_vec s Hs). by exists c. }
  intros lines s1 ->. apply runs_bind. eapply runs_mono; [exact IH|]. intros rest s2 ->. by apply runs_ret.
Qed.

Lemma monitorInfo_run peer_ip s : Registry s -> runs (monitorInfoToString peer_ip) s (fun _ s' => Registry s' /\
  forall p c, heap s' !! p = Some c <-> heap s !! p = Some c /\ cl_abort c = false).
Proof.
  intros Hs. apply runs_bind. eapply runs_mono; [by apply clear_aborted_run|]. intros u s1 (Hs1 & _ & Hheap). cbv beta.
  apply runs_bind, runs_get. eapply runs_mono; [by apply monitor_types_run|]. by intros txt s2 ->.
Qed.

(** C39: Three ways the server leaves defined behaviour in a consistent state.
    [sendToAllOfType] uses a deleted client as soon as one of the clients cannot
    be reached, since it iterates over a copy of the vector; the answer to a
    request for UUIDs is written past the end of its buffer, whose size is
    computed before the size of the answer is known; and the monitor that asks
    for the list of clients is used after it was deleted if it was marked as
    aborted. *)
Theorem server_undefined_behaviour send_result random peer_ip parse_unit_request serialize_unit_response malloc meta data s :
  Registry s -> (forall n, length (malloc n) = Z.to_nat n) -> (forall r, serialize_unit_response r <> []) ->
  (forall ty p c, p ∈ clients_of ty s -> heap s !! p = Some c -> (forall n, send_result n (handle c) data < 0) ->
     sendToAllOfType send_result ty data s = Err (Undef "use of a deleted ClientInfo")) /\
  (package_type meta = Pkg.UUID_FOR_UNIT_REQUEST ->
     dispatch send_result random peer_ip parse_unit_request serialize_unit_response malloc meta data s =
       Err (Undef "write outside the buffer")) /\
  (forall p c, package_type meta = Pkg.MONITOR_REQUEST -> heap s !! p = Some c -> uuid c = src_uuid meta -> cl_abort c = true ->
     dispatch send_result random peer_ip parse_unit_request serialize_unit_response malloc meta data s =
       Err (Undef "use of a deleted ClientInfo")).
Proof.
  intros Hs Hm Hser. split_and!.
  - intros ty p c Hp Hc Hf. exact (sendToAllOfType_fails send_result ty data p c s Hs Hp Hc Hf).
  - intros Hpkg. rewrite /dispatch Hpkg /= /uuid_per_client_cb /mbind /ST_bind.
    pose proof (getUuidForUnitType_run (to_int32 (parse_unit_request data)) s Hs) as Hrun. rewrite /runs in Hrun.
    destruct (getUuidForUnitType _ s) as [[uuids s1]|]; [|done]. by rewrite (serialize_too_small serialize_unit_response).
  - intros p c Hpkg Hc Hu Hab. assert (getClientByUuid (src_uuid meta) s = Some p) as Hget by (apply (reg_uuid s Hs); by exists c).
    rewrite /dispatch Hpkg /= /monitor_cb /mbind /ST_bind /get Hget.
    pose proof (monitorInfo_run peer_ip s Hs) as Hrun. rewrite /runs in Hrun.
    destruct (monitorInfoToString peer_ip s) as [[txt s1]|]; [|done]. destruct Hrun as [_ Hheap].
    rewrite /send_and_monitor /sendTo /mbind /ST_bind {1}/deref_client. destruct (heap s1 !! p) as [d|] eqn:Hd; [|done].
    apply Hheap in Hd as [Hd Hab']. congruence.
Qed.

Lemma server_undefined_behaviour_witness :
  (forall ty p c, p ∈ clients_of ty demo_server -> heap demo_server !! p = Some c -> (forall n : nat, -1 < 0) ->
     sendToAllOfType (fun _ _ _ => -1) ty [] demo_server = Err (Undef "use of a deleted ClientInfo")) /\
  (package_type (message_info Pkg.UUID_FOR_UNIT_REQUEST 0 11 0) = Pkg.UUID_FOR_UNIT_REQUEST ->
     dispatch (fun _ _ _ => -1) demo_random (fun _ => "") (fun _ => 0) (fun _ => [1]) (fun n => replicate (Z.to_nat n) 0)
       (message_info Pkg.UUID_FOR_UNIT_REQUEST 0 11 0) [] demo_server = Err (Undef "write outside the buffer")) /\
  (forall p c, package_type (message_info Pkg.UUID_FOR_UNIT_REQUEST 0 11 0) = Pkg.MONITOR_REQUEST ->
     heap demo_server !! p = Some c -> uuid c = src_uuid (message_info Pkg.UUID_FOR_UNIT_REQUEST 0 11 0) -> cl_abort c = true ->
     dispatch (fun _ _ _ => -1) demo_random (fun _ => "") (fun _ => 0) (fun _ => [1]) (fun n => replicate (Z.to_nat n) 0)
       (message_info Pkg.UUID_FOR_UNIT_REQUEST 0 11 0) [] demo_server = Err (Undef "use of a deleted ClientInfo")).
Proof.
  apply (server_undefined_behaviour (fun _ _ _ => -1) demo_random (fun _ => "") (fun _ => 0) (fun _ => [1])
    (fun n => replicate (Z.to_nat n) 0) (message_info Pkg.UUID_FOR_UNIT_REQUEST 0 11 0) [] demo_server);
    [exact demo_registry|intros n; apply length_replicate|done].
Defined.

(** A response of the wrong type does not keep a client out: the handle is
    closed, and the client is registered all the same. *)
Theorem wrong_response_registered : exists s p c,
  server_connect_callback demo_send demo_parse 4 [Some (demo_hello 4 11 2)] (replicate 80 0) empty_server = Ok (Registered p, s) /\
  heap s !! p = Some c /\ handle c = 4 /\ 4 ∈ closed s /\ p ∈ clients_of 2 s.
Proof.
  eexists _, _, _. split; [by vm_compute|]. split; [by vm_compute|]. split_and!; [done|by left|].
  apply (bool_decide_eq_true_1 _). by vm_compute.
Qed.
