(* ===== verification/ConsoleTheorems.v ===== *)
(** * Results on the accept loop and the console of the server *)

From S2P Require Import Prelude SchemaResolver Framing FramingInv TcpServer TcpServerInv ServerHandlers.
From S2P Require Import ServerConsole ServerConsoleInv ServerTheorems.
#[local] Open Scope Z_scope.

(** ** Sending in parts *)

(** A stream that arrives in three parts is delivered. *)
Lemma three_parts {S} (cbs : CallbackMap S) (s0 : S) (fs : list message) (a b c buf : list Z) :
  Forall wf_message fs -> a ++ b ++ c = stream fs -> (4 <= length a)%nat -> (0 < length b)%nat -> (0 < length c)%nat ->
  Forall is_byte buf -> (2 * length (stream fs) + 12 <= length buf)%nat -> Z.of_nat (length buf) < 2 ^ 63 ->
  exists r, listenLoop cbs [Received a; Received b; Received c] (new_receiver s0 buf) = Ok (r, true) /\
    app_state r = deliver (Some cbs) fs s0 /\ unprocessed_bytes r = 0.
Proof.
  intros Hwf Hst Ha Hb Hc Hbuf Hl Hmax. assert (length (a ++ b ++ c) = length (stream fs)) as Hlen by by rewrite Hst.
  rewrite !length_app in Hlen. set (evs := [Received a; Received b; Received c]).
  assert (concat (chunks evs) = stream fs) as Hch by (rewrite -Hst /= app_nil_r; done).
  assert (Forall (fun f => (length (enc f) <= length (stream fs))%nat) fs) as Hsm.
  { clear. apply Forall_forall. intros f Hf. apply list_elem_of_split in Hf as (l1 & l2 & ->).
    rewrite /stream List.map_app concat_app length_app /= length_app. lia. }
  destruct (client_loop_inv cbs s0 fs Hwf (length (stream fs)) (length (stream fs)) Hsm evs [] (new_receiver s0 buf))
    as (r & Hr & Hi).
  - by apply RecvInv_new.
  - rewrite app_nil_l Hch. done.
  - right. split; [done|]. by intros d [= <-].
  - simpl. lia.
  - done.
  - repeat constructor; simpl; lia || done.
  - exists r. split; [done|]. rewrite app_nil_l Hch in Hi. destruct Hi as [_ _ Hu _ Happ _].
    rewrite split_stream_all in Hu Happ. done.
Qed.

Section Parts.
Context (random : nat -> nat -> nat -> nat) (send_result : nat -> Z -> list Z -> Z) (malloc : Z -> list Z).
Context (serialize_item : RandomItem -> list Z).

(** The messages that go to the clients of a type. *)
Definition sent_to_type (s : Server) (ty : Z) (data : list Z) : list (Z * list Z) :=
  map (fun p => (handle_of s p, data)) (clients_of ty s).

Lemma sends_again ty data s s1 l : after_sends l s s1 -> sent_to_type s1 ty data = sent_to_type s ty data.
Proof. intros (Hh & _ & Hm & _). by rewrite /sent_to_type /clients_of /handle_of Hh Hm. Qed.

(** Sending to the clients of a type after other messages. *)
Lemma send_type_run ty data l s s1 : after_sends l s s1 -> Registry s ->
  (forall p c, p ∈ clients_of ty s -> heap s !! p = Some c -> takes send_result data (handle c)) ->
  runs (sendToAllOfType send_result ty data) s1 (fun _ s2 => after_sends (l ++ sent_to_type s ty data) s s2).
Proof.
  intros Hl Hs Ht. eapply runs_mono; [apply sendToAllOfType_takes|].
  - exact (after_sends_registry _ _ _ Hl Hs).
  - destruct Hl as (Hh & _ & Hm & _). rewrite /clients_of Hm Hh. exact Ht.
  - intros u s2 H2. cbv beta in H2. rewrite -/(sent_to_type s1 ty data) (sends_again _ _ _ _ _ Hl) in H2.
    exact (after_sends_app _ _ _ _ _ Hl H2).
Qed.

Lemma bytes_at_run buf pos len : (pos + Z.to_nat len <= length buf)%nat -> 0 <= len < 2 ^ 32 ->
  bytes_at buf pos len = Ok (take (Z.to_nat len) (drop pos buf)).
Proof. intros Hl Hr. rewrite /bytes_at /to_u32 Z.mod_small; [|done]. by apply mem_read_ok. Qed.

Hypothesis Hrandom : in_range random.
Hypothesis Hmalloc : forall n, length (malloc n) = Z.to_nat n.
Hypothesis Hsize : forall x, valid_item x -> ByteSizeLong serialize_item x < 2 ^ 24.

Lemma menu_parts_run s : Registry s ->
  (forall data p c, p ∈ clients_of UnitType.COMPUTE_UNIT s -> heap s !! p = Some c -> takes send_result data (handle c)) ->
  runs (menu_parts random send_result malloc serialize_item) s (fun _ s' => exists items a b c,
    map ri_itemid items = seq 0 10 /\ Forall valid_item items /\
    a ++ b ++ c = stream (work_messages serialize_item items) /\ (4 <= length a)%nat /\ (0 < length b)%nat /\ (0 < length c)%nat /\
    after_sends (concat (map (sent_to_type s UnitType.COMPUTE_UNIT) [a; b; c])) s s').
Proof.
  intros Hs Ht. apply runs_bind. eapply runs_mono; [by apply (menu_items_run random malloc serialize_item Hrandom Hmalloc Hsize 10)|].
  intros [buf sz] s1 [(items & Hids & Hv & [= -> ->]) Hs1]. cbv beta iota.
  assert (length items = 10%nat) as Hlen by (by rewrite -(length_map ri_itemid) Hids length_seq).
  assert (Forall (fun x => ByteSizeLong serialize_item x < 2 ^ 24) items) as Hsz by (eapply Forall_impl; [exact Hv|exact Hsize]).
  destruct (message_size_stream serialize_item items Hsz ltac:(lia)) as [_ Hb]. rewrite Hlen in Hb.
  set (st := stream (work_messages serialize_item items)) in *. set (n := Z.of_nat (length st)) in *.
  set (e1 := n / 3). assert (3 * e1 <= n < 3 * e1 + 3) as He1 by (pose proof (Z.div_mod n 3); pose proof (Z.mod_pos_bound n 3); lia).
  set (e2 := (n - e1) / 2).
  assert (2 * e2 <= n - e1 < 2 * e2 + 2) as He2
    by (pose proof (Z.div_mod (n - e1) 2); pose proof (Z.mod_pos_bound (n - e1) 2); lia).
  cbv zeta. apply runs_bind. rewrite bytes_at_run; [|lia|lia]. rewrite /runs. cbn [lift]. apply runs_bind.
  eapply runs_mono; [apply (send_type_run _ _ [] s); [done|done|exact (Ht _)]|]. intros [] s2 Hs2. cbv beta in Hs2 |- *.
  apply runs_bind. rewrite bytes_at_run; [|lia|lia]. rewrite /runs. cbn [lift]. apply runs_bind.
  eapply runs_mono; [eapply (send_type_run _ _ _ s); [exact Hs2|done|exact (Ht _)]|]. intros [] s3 Hs3. cbv beta in Hs3 |- *.
  apply runs_bind. rewrite bytes_at_run; [|lia|lia]. rewrite /runs. cbn [lift].
  eapply runs_mono; [eapply (send_type_run _ _ _ s); [exact Hs3|done|exact (Ht _)]|]. intros [] s4 Hs4. cbv beta in Hs4.
  eexists items, _, _, _. split_and!; [done|done| | | | |]; cycle 4.
  { cbn [map concat]. rewrite app_nil_r. rewrite app_nil_l -app_assoc in Hs4. exact Hs4. }
  - rewrite drop_0. rewrite [take _ (drop (_ + _) st)]firstn_all2; [|rewrite length_drop; lia].
    rewrite -drop_drop take_drop take_drop. done.
  - rewrite length_take length_drop. lia.
  - rewrite length_take length_drop. lia.
  - rewrite length_take length_drop. lia.
Qed.
End Parts.

Lemma menu_entry_3 random send_result malloc serialize_item serverHandle s :
  console_line random send_result malloc serialize_item serverHandle "3" s =
  (_ ← menu_parts random send_result malloc serialize_item; mret false) s.
Proof. reflexivity. Qed.

(** C35: menu entry 3 of the server's console creates ten work items numbered 0 to 9, whose fields are within the
    protobuf enumerations, and sends their messages to every compute unit in three parts that it cuts without regard to
    the messages; no byte is lost or sent twice, and the receive loop of a compute unit that gets the parts delivers
    exactly the ten items, in order, whatever its buffer held before. *)
Theorem console_parts_delivered random send_result malloc serialize_item serverHandle s :
  in_range random -> (forall n, length (malloc n) = Z.to_nat n) ->
  (forall x, Forall is_byte (serialize_item x)) -> (forall x, valid_item x -> ByteSizeLong serialize_item x < 2 ^ 24) ->
  Registry s ->
  (forall data p c, p ∈ clients_of UnitType.COMPUTE_UNIT s -> heap s !! p = Some c -> takes send_result data (handle c)) ->
  exists items a b c s',
    console_line random send_result malloc serialize_item serverHandle "3" s = Ok (false, s') /\
    map ri_itemid items = seq 0 10 /\ Forall valid_item items /\
    a ++ b ++ c = stream (work_messages serialize_item items) /\
    after_sends (concat (map (sent_to_type s UnitType.COMPUTE_UNIT) [a; b; c])) s s' /\
    forall (S : Type) (cbs : CallbackMap S) s0 buf, Forall is_byte buf ->
      (2 * length (a ++ b ++ c) + 12 <= length buf)%nat -> Z.of_nat (length buf) < 2 ^ 63 ->
      exists r, listenLoop cbs [Received a; Received b; Received c] (new_receiver s0 buf) = Ok (r, true) /\
        app_state r = deliver (Some cbs) (work_messages serialize_item items) s0.
Proof.
  intros Hr Hm Hb Hsz Hs Ht. pose proof (menu_parts_run random send_result malloc serialize_item Hr Hm Hsz s Hs Ht) as Hrun.
  rewrite /runs in Hrun. destruct (menu_parts _ _ _ _ s) as [[[] s']|] eqn:Hp; [|done].
  destruct Hrun as (items & a & b & c & Hids & Hv & Hst & Ha & Hbn & Hcn & Haft).
  exists items, a, b, c, s'. split_and!; [|done|done|done|done|].
  - by rewrite menu_entry_3 {1}/mbind {1}/ST_bind Hp.
  - intros S cbs s0 buf Hbuf Hl Hmax.
    assert (Forall wf_message (work_messages serialize_item items)) as Hwf.
    { apply Forall_fmap. eapply Forall_impl; [exact Hv|]. intros x Hx. apply item_message_wf; [exact Hb|by split_and!|].
      apply Hsz in Hx. lia. }
    destruct (three_parts cbs s0 _ a b c buf Hwf Hst Ha Hbn Hcn Hbuf) as (r & Hr' & Happ & _); [by rewrite -Hst|done|by exists r].
Qed.

Definition demo_serialize_random (x : RandomItem) : list Z := [Z.of_nat (ri_itemid x) `mod` 256].

Lemma demo_in_range : in_range demo_random.
Proof. intros n lo hi H. rewrite /demo_random. lia. Qed.

Lemma console_parts_delivered_witness : exists items a b c s',
    console_line demo_random demo_send (fun n => replicate (Z.to_nat n) 0) demo_serialize_random 3 "3" demo_server = Ok (false, s') /\
    map ri_itemid items = seq 0 10 /\ Forall valid_item items /\
    a ++ b ++ c = stream (work_messages demo_serialize_random items) /\
    after_sends (concat (map (sent_to_type demo_server UnitType.COMPUTE_UNIT) [a; b; c])) demo_server s' /\
    forall (S : Type) (cbs : CallbackMap S) s0 buf, Forall is_byte buf ->
      (2 * length (a ++ b ++ c) + 12 <= length buf)%nat -> Z.of_nat (length buf) < 2 ^ 63 ->
      exists r, listenLoop cbs [Received a; Received b; Received c] (new_receiver s0 buf) = Ok (r, true) /\
        app_state r = deliver (Some cbs) (work_messages demo_serialize_random items) s0.
Proof.
  apply (console_parts_delivered demo_random demo_send (fun n => replicate (Z.to_nat n) 0) demo_serialize_random 3 demo_server).
  - exact demo_in_range.
  - intros n. by rewrite length_replicate.
  - intros x. constructor; [|constructor]. apply Z.mod_pos_bound. lia.
  - intros x _. by vm_compute.
  - exact demo_registry.
  - intros data p c _ _ n. done.
Defined.

(** ** The accept loop *)

(** Whatever connections arrive, the accept loop keeps the registry
    consistent; it ends only by a shutdown, by an exception of [accept] or
    because the set-up of a connection ended the process. *)
Theorem acceptLoop_registry send_result parse_unit serverHandle bound listening evs s r s' :
  Registry s -> fresh_handles send_result parse_unit evs s ->
  acceptLoop send_result parse_unit serverHandle bound listening evs s = Ok (r, s') -> Registry s'.
Proof.
  intros Hs Hf. rewrite /acceptLoop. destruct (serverHandle =? 0); [done|]. destruct (bound <? 0); [done|].
  destruct (listening <? 0); [done|]. by apply accept_registry.
Qed.

(** A failed [socket] call returns -1, which the check for 0 does not catch. *)
Theorem failed_socket_not_noticed send_result parse_unit listening evs s : 0 <= listening ->
  acceptLoop send_result parse_unit (-1) (-1) listening evs s = Err (Throw "[TCPServer] Error. Failed to bind to socket.").
Proof. done. Qed.

(** ** The console ends *)

(** Whatever is typed, closing the input ends the program: every entry that
    returns leads to the shutdown. *)
Theorem console_ends random send_result malloc serialize_item serverHandle lines s :
  match server_console random send_result malloc serialize_item serverHandle lines s with
  | Ok (_, s') => cleanupDone s' = true
  | Err _ => True
  end.
Proof.
  assert (forall s u s', closeConnection serverHandle s = Ok (u, s') -> cleanupDone s' = true) as Hclose.
  { intros s1 u s2. rewrite /closeConnection. intros (s3 & s4 & [= <- <-] & H)%ST_bind_ok.
    destruct (cleanupDone s1) eqn:Hd; [by injection H as <- <-|]. apply ST_bind_ok in H as (? & ? & _ & H).
    apply ST_bind_ok in H as (? & ? & _ & [= <- <-]). done. }
  revert s. induction lines as [|op lines IH]; intros s; cbn [server_console].
  - destruct (closeConnection serverHandle s) as [[u s']|] eqn:Hc; [by eapply Hclose|done].
  - rewrite /mbind /ST_bind. destruct (console_line _ _ _ _ _ op s) as [[[] s1]|] eqn:Hl; [|apply IH|done].
    cbn. revert Hl. rewrite /console_line. destruct (op =s "-1");
      [intros (u & s2 & Hc & [= <-])%ST_bind_ok; by eapply Hclose|].
    destruct (toLower op =s "exit"); [intros (u & s2 & Hc & [= <-])%ST_bind_ok; by eapply Hclose|].
    destruct (stol (toLower op)); [by intros (? & ? & _ & [=])%ST_bind_ok|done].
Qed.
