(* ===== verification/QueryManager.v ===== *)
(** * The query manager

    src/optimizer/QueryManager.cpp and include/WorkCompletionTracker.h: queries
    are queued, taken by worker threads, translated, optimized and sent to the
    server, either as one plan or level by level, waiting for the completion of
    a level before the next one is sent.

    The first part is the sequential code of [processQuery]; the second part is
    a step relation in which threads interleave at their critical sections. *)

From S2P Require Import Prelude PlanTypes SqlAst JoinTree SelectPlanBuilder PhysContext PostProcess WorkItems Framing.

(** ** The completion tracker *)

Record WorkCompletionTracker := {
  completed_ids : gset (Z * Z);
  stopped : bool
}.

Definition markCompleted (planId nodeId : Z) (t : WorkCompletionTracker) : WorkCompletionTracker :=
  {| completed_ids := {[ (planId, nodeId) ]} ∪ completed_ids t; stopped := stopped t |}.

(** The condition [waitNextCompletions] waits for. *)
Definition wait_condition (ids : list (Z * Z)) (t : WorkCompletionTracker) : bool :=
  stopped t || forallb (fun id => bool_decide (id ∈ completed_ids t)) ids.

(** What it does once the condition holds. *)
Definition waitNextCompletions (ids : list (Z * Z)) (t : WorkCompletionTracker) : bool * WorkCompletionTracker :=
  if stopped t then (false, t)
  else (true, {| completed_ids := fold_left (fun s id => s ∖ {[ id ]}) ids (completed_ids t); stopped := stopped t |}).

Definition tracker_stop (t : WorkCompletionTracker) : WorkCompletionTracker :=
  {| completed_ids := completed_ids t; stopped := true |}.

(** ** Keywords before a query *)

Definition is_ws (c : ascii) : bool :=
  bool_decide (nat_of_ascii c ∈ [32; 9; 10; 13]).

(** [s.find_first_not_of(" \t\n\r", pos)] and [s.find_first_of(" \t\n\r", pos)] *)
Fixpoint find_from (p : ascii -> bool) (s : string) (pos : nat) : option nat :=
  match s with
  | EmptyString => None
  | String c s => if p c then Some pos else find_from p s (S pos)
  end.

Definition find_first_not_of (s : string) (pos : nat) : option nat :=
  find_from (fun c => negb (is_ws c)) (drop_string pos s) pos.

Definition find_first_of (s : string) (pos : nat) : option nat :=
  find_from is_ws (drop_string pos s) pos.

(** [s.compare(idx, keyword.size(), keyword) == 0] *)
Definition compare_at (s : string) (idx : nat) (keyword : string) : bool :=
  String.prefix keyword (drop_string idx s).

Fixpoint take_string (n : nat) (s : string) : string :=
  match n, s with
  | S n, String c s => String c (take_string n s)
  | _, _ => EmptyString
  end.

(** [s.substr(idx, n)] *)
Definition substr (s : string) (idx n : nat) : string := take_string n (drop_string idx s).

(** The loop over keywords: the final position, PARALLEL and the name. *)
Fixpoint keyword_loop (fuel : nat) (sql : string) (idx : option nat) (parallel : bool) (query_name : string)
    : result (option nat * bool * string) :=
  match idx with
  | None => Ok (None, parallel, query_name)
  | Some i =>
      match fuel with
      | O => Err (Undef "out of fuel")
      | S fuel =>
          if compare_at sql i "PARALLEL" then
            keyword_loop fuel sql (find_first_not_of sql (i + 8)) true query_name
          else if compare_at sql i "NAME" then
            match find_first_not_of sql (i + 4) with
            | None => Ok (None, parallel, query_name)
            | Some j =>
                match find_first_of sql j with
                | None => Ok (None, parallel, drop_string j sql)
                | Some e => keyword_loop fuel sql (find_first_not_of sql e) parallel (substr sql j (e - j))
                end
            end
          else Ok (Some i, parallel, query_name)
      end
  end.

(** [None]: the text is blank and [processQuery] returns. *)
Definition parse_keywords (sql : string) : result (option (bool * string * string)) :=
  match find_first_not_of sql 0 with
  | None => Ok None
  | Some idx =>
      '(idx, parallel, query_name) ← keyword_loop (S (String.length sql)) sql (Some idx) false "";
      let final_sql := match idx with None => "" | Some i => drop_string i sql end in
      Ok (Some (parallel, query_name, final_sql))
  end.

(** ** Processing a query *)

(** What is sent for a query. *)
Inductive job :=
  | NoJob
  | SendQueryPlan (qp : QueryPlan)
  | SendLevels (planId : Z) (levels : list (list WorkItem)).

Section Process.
Variable parse_sql : string -> SQLParserResult.
Variable parse_json : string -> option JoinTree.json.
Variable iter : gmap string LogicalPlanNode -> list (string * LogicalPlanNode).
Variables (optimize_chains optimize_join_outputs : bool).

(** The body of the [try] block up to the sending, with the random numbers it
    draws: [rnd] for node ids, [planId] for the plan. *)
Definition prepare_body (rnd : nat -> Z) (planId : Z) (sql : string) : result job :=
  kw ← parse_keywords sql;
  match kw with
  | None => Ok NoJob
  | Some (parallel, query_name, final_sql) =>
      logical_plans ← translateSQLToLogicalPlan parse_sql parse_json iter final_sql None;
      match logical_plans with
      | [] => Ok NoJob
      | logical_plan :: _ =>
          physical_plan ← PhysicalOptimizer_optimize rnd (Some logical_plan) optimize_chains optimize_join_outputs query_name;
          match plan_root physical_plan with
          | None => Err (Throw "Physical optimization failed")
          | Some _ =>
              if parallel : bool then
                workItems ← crateWorkItemsParallel physical_plan planId;
                match workItems with
                | (wi :: _) :: _ => Ok (SendLevels (wi_planId wi) workItems)
                | _ => Err (Throw "vector::_M_range_check")
                end
              else
                qp ← createQueryPlan physical_plan planId;
                Ok (SendQueryPlan qp)
          end
      end
  end.

(** Exceptions are caught and logged; then nothing is sent. *)
Definition prepare (rnd : nat -> Z) (planId : Z) (sql : string) : result job :=
  match prepare_body rnd planId sql with
  | Err (Throw _) => Ok NoJob
  | r => r
  end.

(** ** Messages *)

Inductive WorkRequest :=
  | queryplan (qp : QueryPlan)
  | workitem (wi : WorkItem).

(** The bytes that [sendQueryPlan] gives to [notifyHost], and
    [sendQueryPlanParallel] for each item.  The protobuf runtime, the memory that
    [malloc] returns and the client's UUID are parameters. *)
Definition work_message (SerializeToArray : WorkRequest -> list Z) (malloc : Z -> list Z) (uuid : Z) (req : WorkRequest)
    : result (list Z) :=
  let info := {| message_delimiter := TCP_START_DELIM; unit_type := 0;
                 payload_size := to_u32 (ByteSizeLong SerializeToArray req);
                 package_type := TcpPackageType.WORK; src_uuid := uuid; tgt_uuid := 0 |} in
  let out_mem := malloc (sizeof_TCPMetaInfo + payload_size info)%Z in
  '(out_mem, message_size, _) ← serializeItemToMemory SerializeToArray out_mem req info;
  Ok (take (Z.to_nat message_size) out_mem).

(** ** Threads *)

Record QueryContext := { q_id : nat; q_sql : string }.

#[global] Instance QueryContext_eq_dec : EqDecision QueryContext.
Proof. solve_decision. Defined.

(** Where a worker thread is.  [WSend] and [WWait] are inside
    [sendQueryPlanParallel]: [levels] is the whole plan, [k] the current level,
    [todo] what is left to send of it, [ids] what was sent of it. *)
Inductive worker :=
  | WIdle
  | WPopped (ctx : QueryContext)
  | WRunning (ctx : QueryContext)
  | WSend (ctx : QueryContext) (planId : Z) (levels : list (list WorkItem)) (k : nat)
      (todo : list WorkItem) (ids : list (Z * Z))
  | WWait (ctx : QueryContext) (planId : Z) (levels : list (list WorkItem)) (k : nat) (ids : list (Z * Z))
  | WProcessed (ctx : QueryContext)
  | WErased (ctx : QueryContext)
  | WStopped.

(** What the outside world sees. *)
Inductive event :=
  | EvPlan (qp : QueryPlan)
  | EvItem (planId : Z) (wi : WorkItem) (levels : list (list WorkItem))
  | EvCompleted (planId nodeId : Z).

(** [adding]: contexts created by [addQuery] and not yet in the queue. *)
Record QueryManager := {
  query_counter : nat;
  adding : list QueryContext;
  queue : list QueryContext;
  running : list QueryContext;
  finished : list QueryContext;
  workers : list worker;
  stop_flag : bool;
  tracker : WorkCompletionTracker;
  trace : list event
}.

Definition init (num_threads : nat) : QueryManager :=
  {| query_counter := 0; adding := []; queue := []; running := []; finished := [];
     workers := replicate num_threads WIdle; stop_flag := false;
     tracker := {| completed_ids := ∅; stopped := false |}; trace := [] |}.

(** Worker [i] moves to [w], the rest of the state is given. *)
Definition moved (s : QueryManager) (i : nat) (w : worker) (q r f : list QueryContext)
    (t : WorkCompletionTracker) (tr : list event) : QueryManager :=
  {| query_counter := query_counter s; adding := adding s; queue := q; running := r; finished := f;
     workers := <[i := w]> (workers s); stop_flag := stop_flag s; tracker := t; trace := tr |}.

(** The pair of [int]s that [waitNextCompletions] gets for an item. *)
Definition wait_id (planId : Z) (wi : WorkItem) : Z * Z := (to_int32 planId, to_int32 (wi_itemId wi)).

(** One step of a worker in the loop of [sendQueryPlanParallel]: it sends the
    next item of the level, starts to wait, or, when the condition holds, goes on
    with the next level or leaves. *)
Definition sendQueryPlanParallel_step (w : worker) (t : WorkCompletionTracker)
    : option (worker * WorkCompletionTracker * list event) :=
  match w with
  | WSend ctx pid levels k (wi :: todo) ids =>
      Some (WSend ctx pid levels k todo (ids ++ [wait_id pid wi]), t, [EvItem pid wi levels])
  | WSend ctx pid levels k [] ids => Some (WWait ctx pid levels k ids, t, [])
  | WWait ctx pid levels k ids =>
      if wait_condition ids t then
        let '(ok, t) := waitNextCompletions ids t in
        let next := if ok then match levels !! S k with
                               | Some l => WSend ctx pid levels (S k) l []
                               | None => WProcessed ctx
                               end
                    else WProcessed ctx in
        Some (next, t, [])
      else None
  | _ => None
  end.

(** One critical section, or one message, of some thread. *)
Inductive step : QueryManager -> QueryManager -> Prop :=
  | add_create sql s :                                     (* addQuery: a context with the next id *)
      step s {| query_counter := S (query_counter s); adding := adding s ++ [{| q_id := query_counter s; q_sql := sql |}];
                queue := queue s; running := running s; finished := finished s; workers := workers s;
                stop_flag := stop_flag s; tracker := tracker s; trace := trace s |}
  | add_push ctx l1 l2 s :                                 (* addQuery: queue.push_back under the lock *)
      adding s = l1 ++ ctx :: l2 ->
      step s {| query_counter := query_counter s; adding := l1 ++ l2; queue := queue s ++ [ctx];
                running := running s; finished := finished s; workers := workers s;
                stop_flag := stop_flag s; tracker := tracker s; trace := trace s |}
  | work_pop i ctx q s :                                   (* the wait ends with a non-empty queue *)
      workers s !! i = Some WIdle -> queue s = ctx :: q ->
      step s (moved s i (WPopped ctx) q (running s) (finished s) (tracker s) (trace s))
  | work_exit i s :                                        (* or with the stop flag and an empty queue *)
      workers s !! i = Some WIdle -> stop_flag s = true -> queue s = [] ->
      step s (moved s i WStopped [] (running s) (finished s) (tracker s) (trace s))
  | work_running i ctx s :
      workers s !! i = Some (WPopped ctx) ->
      step s (moved s i (WRunning ctx) (queue s) (running s ++ [ctx]) (finished s) (tracker s) (trace s))
  | work_nothing i ctx rnd planId s :                      (* processQuery sends nothing *)
      workers s !! i = Some (WRunning ctx) -> prepare rnd planId (q_sql ctx) = Ok NoJob ->
      step s (moved s i (WProcessed ctx) (queue s) (running s) (finished s) (tracker s) (trace s))
  | work_plan i ctx rnd planId qp s :                      (* sendQueryPlan *)
      workers s !! i = Some (WRunning ctx) -> prepare rnd planId (q_sql ctx) = Ok (SendQueryPlan qp) ->
      step s (moved s i (WProcessed ctx) (queue s) (running s) (finished s) (tracker s) (trace s ++ [EvPlan qp]))
  | work_levels i ctx rnd planId pid levels s :            (* sendQueryPlanParallel: the loop over levels starts *)
      workers s !! i = Some (WRunning ctx) -> prepare rnd planId (q_sql ctx) = Ok (SendLevels pid levels) ->
      step s (moved s i (WSend ctx pid levels 0 (default [] (levels !! 0)) []) (queue s) (running s) (finished s)
                (tracker s) (trace s))
  | work_parallel i w w' t evs s :                         (* inside sendQueryPlanParallel *)
      workers s !! i = Some w -> sendQueryPlanParallel_step w (tracker s) = Some (w', t, evs) ->
      step s (moved s i w' (queue s) (running s) (finished s) t (trace s ++ evs))
  | work_erase i ctx s :                                   (* running.erase(remove(ctx)) *)
      workers s !! i = Some (WProcessed ctx) ->
      step s (moved s i (WErased ctx) (queue s) (List.filter (fun c => negb (bool_decide (c = ctx))) (running s))
                (finished s) (tracker s) (trace s))
  | work_finish i ctx s :
      workers s !! i = Some (WErased ctx) ->
      step s (moved s i WIdle (queue s) (running s) (finished s ++ [ctx]) (tracker s) (trace s))
  | item_completed planId nodeId s :                       (* the callback for TASK_FINISHED *)
      step s {| query_counter := query_counter s; adding := adding s; queue := queue s; running := running s;
                finished := finished s; workers := workers s; stop_flag := stop_flag s;
                tracker := markCompleted planId nodeId (tracker s); trace := trace s ++ [EvCompleted planId nodeId] |}
  | shutdown_flag s :                                      (* the destructor: stop_flag = true *)
      step s {| query_counter := query_counter s; adding := adding s; queue := queue s; running := running s;
                finished := finished s; workers := workers s; stop_flag := true;
                tracker := tracker s; trace := trace s |}
  | shutdown_tracker s :                                   (* work_completion_tracker->stop() *)
      stop_flag s = true ->
      step s {| query_counter := query_counter s; adding := adding s; queue := queue s; running := running s;
                finished := finished s; workers := workers s; stop_flag := true;
                tracker := tracker_stop (tracker s); trace := trace s |}.

End Process.
