(* ===== verification/QueryManagerInv.v ===== *)
(** * Invariants of the query manager *)

From S2P Require Import Prelude PlanTypes SqlAst JoinTree SelectPlanBuilder PhysContext PostProcess WorkItems Framing QueryManager.

(** The context a worker holds, and whether it is in [running]. *)
Definition held (w : worker) : list QueryContext :=
  match w with
  | WIdle | WStopped => []
  | WPopped c | WRunning c | WSend c _ _ _ _ _ | WWait c _ _ _ _ | WProcessed c | WErased c => [c]
  end.

Definition active (w : worker) : list QueryContext :=
  match w with
  | WRunning c | WSend c _ _ _ _ _ | WWait c _ _ _ _ | WProcessed c => [c]
  | _ => []
  end.

Definition contexts (s : QueryManager) : list QueryContext :=
  adding s ++ queue s ++ concat (map held (workers s)) ++ finished s.

(** The order of sending: the completions that a worker has seen. *)
Definition seen (tr : list event) (id : Z * Z) : Prop := EvCompleted id.1 id.2 ∈ tr.

Definition levels_seen (tr : list event) (pid : Z) (levels : list (list WorkItem)) (k : nat) : Prop :=
  forall l g wi, l < k -> levels !! l = Some g -> wi ∈ g -> seen tr (wait_id pid wi).

(** The levels of a plan. *)
Definition planned (levels : list (list WorkItem)) : Prop :=
  exists p planId, crateWorkItemsParallel p planId = Ok levels.

Definition worker_ok (tr : list event) (w : worker) : Prop :=
  match w with
  | WSend _ pid levels k todo ids =>
      (planned levels /\ levels_seen tr pid levels k) /\
      (exists sent, default [] (levels !! k) = sent ++ todo /\ ids = map (wait_id pid) sent)
  | WWait _ pid levels k ids => (planned levels /\ levels_seen tr pid levels k) /\ ids = map (wait_id pid) (default [] (levels !! k))
  | _ => True
  end.

(** Every item in the trace was sent after the completion of all lower levels. *)
Definition trace_ok (tr : list event) : Prop :=
  forall t1 pid wi levels t2, tr = t1 ++ EvItem pid wi levels :: t2 ->
    planned levels /\ exists k g, levels !! k = Some g /\ wi ∈ g /\ levels_seen t1 pid levels k.

Record QInv (s : QueryManager) : Prop := {
  qi_ids : map q_id (contexts s) ≡ₚ seq 0 (query_counter s);
  qi_running : running s ≡ₚ concat (map active (workers s));
  qi_workers : Forall (worker_ok (trace s)) (workers s);
  qi_tracker : forall id, id ∈ completed_ids (tracker s) -> seen (trace s) id;
  qi_trace : trace_ok (trace s)
}.

(** ** Lists of workers *)

Lemma concat_insert (f : worker -> list QueryContext) ws i w0 w : ws !! i = Some w0 ->
  exists rest, concat (map f ws) ≡ₚ f w0 ++ rest /\ concat (map f (<[i := w]> ws)) ≡ₚ f w ++ rest.
Proof.
  intros Hi. exists (concat (map f (take i ws)) ++ concat (map f (drop (S i) ws))).
  rewrite -{1}(take_drop_middle ws i w0 Hi) (insert_take_drop ws i w); [|by eapply lookup_lt_Some].
  rewrite !map_app !concat_app /=. split; apply Permutation_app_swap_app.
Qed.

Lemma seen_mono tr tr' id : seen tr id -> seen (tr ++ tr') id.
Proof. rewrite /seen elem_of_app. by left. Qed.

Lemma levels_seen_mono tr tr' pid levels k : levels_seen tr pid levels k -> levels_seen (tr ++ tr') pid levels k.
Proof. intros H l g wi Hl Hg Hwi. apply seen_mono. by eapply H. Qed.

Lemma worker_ok_mono tr tr' w : worker_ok tr w -> worker_ok (tr ++ tr') w.
Proof.
  destruct w; simpl; try done; intros [[H0 H1] H2]; (split; [split; [done|by apply levels_seen_mono]|done]).
Qed.

Lemma trace_ok_snoc tr ev : trace_ok tr ->
  match ev with
  | EvItem pid wi levels => planned levels /\ exists k g, levels !! k = Some g /\ wi ∈ g /\ levels_seen tr pid levels k
  | _ => True
  end -> trace_ok (tr ++ [ev]).
Proof.
  intros Htr Hev t1 pid wi levels t2 Heq. destruct t2 as [|e t2 _] using rev_ind.
  - apply app_inj_tail in Heq as [-> ->]. exact Hev.
  - rewrite app_comm_cons app_assoc in Heq. apply app_inj_tail in Heq as [-> _]. by eapply Htr.
Qed.

(** ** Preservation *)

(** A worker moves and the queue and the finished list change accordingly. *)
Lemma QInv_moved s i w0 w q r f t tr : QInv s -> workers s !! i = Some w0 ->
  q ++ held w ++ f ≡ₚ queue s ++ held w0 ++ finished s ->
  (forall rest, running s ≡ₚ active w0 ++ rest -> r ≡ₚ active w ++ rest) ->
  (exists ev, tr = trace s ++ ev) -> worker_ok tr w -> (forall id, id ∈ completed_ids t -> seen tr id) -> trace_ok tr ->
  QInv (moved s i w q r f t tr).
Proof.
  intros [H1 H2 H3 H4 H5] Hi Hq Hr [ev Hev] Hw Ht Htr. split; simpl; [| | |done|done].
  - rewrite -H1. apply (fmap_Permutation q_id). rewrite /contexts /=. apply Permutation_app_head.
    destruct (concat_insert held _ i w0 w Hi) as (rest & -> & ->).
    rewrite -!app_assoc. rewrite !(Permutation_app_comm rest) !app_assoc. apply Permutation_app_tail.
    by rewrite -!app_assoc.
  - destruct (concat_insert active _ i w0 w Hi) as (rest & Hold & ->). apply Hr. by rewrite H2 Hold.
  - apply Forall_insert; [|done]. rewrite Hev. eapply Forall_impl; [exact H3|]. intros w'. apply worker_ok_mono.
Qed.

Lemma completed_remove (ids : list (Z * Z)) (X : gset (Z * Z)) (id : Z * Z) :
  id ∈ fold_left (fun (s : gset (Z * Z)) id => s ∖ {[ id ]}) ids X -> id ∈ X.
Proof. revert X. induction ids as [|i ids IH]; intros X; simpl; [done|]. intros H%IH. set_solver. Qed.

Lemma wait_seen ids t : stopped t = false -> wait_condition ids t = true -> forall id, id ∈ ids -> id ∈ completed_ids t.
Proof.
  intros Hs. rewrite /wait_condition Hs /=. intros H id Hid. rewrite forallb_forall in H.
  apply list_elem_of_In, H in Hid. by apply bool_decide_eq_true in Hid.
Qed.

Lemma filter_active (ctx : QueryContext) (rest : list QueryContext) : NoDup (ctx :: rest) ->
  List.filter (fun c => negb (bool_decide (c = ctx))) (ctx :: rest) = rest.
Proof.
  intros [Hn _]%NoDup_cons. simpl. rewrite bool_decide_true //=. induction rest as [|c rest IH]; [done|]. simpl.
  rewrite bool_decide_false; [|set_solver]. simpl. f_equal. apply IH. set_solver.
Qed.

Lemma filter_Permutation_In {A} (f : A -> bool) l k : l ≡ₚ k -> List.filter f l ≡ₚ List.filter f k.
Proof. induction 1; simpl; repeat case_match; try done; [by constructor..|by etrans]. Qed.

Section Steps.
Variables (parse_sql : string -> SQLParserResult) (parse_json : string -> option json).
Variable iter : gmap string LogicalPlanNode -> list (string * LogicalPlanNode).
Variables oc jo : bool.

Notation step := (step parse_sql parse_json iter oc jo).
Notation prepare := (prepare parse_sql parse_json iter oc jo).

Lemma work_send i ctx pid levels k wi todo ids s : workers s !! i = Some (WSend ctx pid levels k (wi :: todo) ids) ->
  step s (moved s i (WSend ctx pid levels k todo (ids ++ [wait_id pid wi])) (queue s) (running s) (finished s)
            (tracker s) (trace s ++ [EvItem pid wi levels])).
Proof. intros Hi. by eapply work_parallel. Qed.

Lemma work_sent i ctx pid levels k ids s : workers s !! i = Some (WSend ctx pid levels k [] ids) ->
  step s (moved s i (WWait ctx pid levels k ids) (queue s) (running s) (finished s) (tracker s) (trace s)).
Proof. intros Hi. pose proof (work_parallel parse_sql parse_json iter oc jo i _ _ _ _ s Hi eq_refl) as Hst. by rewrite app_nil_r in Hst. Qed.

Lemma work_wait i ctx pid levels k ids s : workers s !! i = Some (WWait ctx pid levels k ids) ->
  wait_condition ids (tracker s) = true ->
  step s (let '(ok, t) := waitNextCompletions ids (tracker s) in
          let next := if ok then match levels !! S k with
                                 | Some l => WSend ctx pid levels (S k) l []
                                 | None => WProcessed ctx
                                 end
                      else WProcessed ctx in
          moved s i next (queue s) (running s) (finished s) t (trace s)).
Proof.
  intros Hi Hc. destruct (waitNextCompletions ids (tracker s)) as [ok t] eqn:Hw. cbn zeta.
  match goal with |- step _ (moved _ _ ?w _ _ _ _ _) =>
    assert (sendQueryPlanParallel_step (WWait ctx pid levels k ids) (tracker s) = Some (w, t, [])) as Hs by by rewrite /= Hc Hw
  end.
  pose proof (work_parallel parse_sql parse_json iter oc jo i _ _ _ _ s Hi Hs) as Hst. by rewrite app_nil_r in Hst.
Qed.

Lemma prepare_levels rnd planId sql pid levels : prepare rnd planId sql = Ok (SendLevels pid levels) ->
  planned levels.
Proof.
  rewrite /prepare. destruct (prepare_body _ _ _ _ _ _ _ _) as [j|[]] eqn:H; try done. intros [= ->]. revert H.
  rewrite /prepare_body. intros H. inv_ok. repeat (case_match; inv_ok). by eexists _, _.
Qed.

Lemma qi_nodup s : QInv s -> NoDup (running s).
Proof.
  intros [H1 H2 _ _ _]. apply (NoDup_fmap_1 q_id). rewrite H2.
  assert (forall ws, map q_id (concat (map active ws)) `sublist_of` map q_id (concat (map held ws))) as Hsub.
  { intros ws. apply fmap_sublist. induction ws as [|w ws IH]; [done|]. simpl. apply sublist_app; [|done]. by destruct w; try apply sublist_nil_l. }
  eapply sublist_NoDup; [|apply Hsub]. assert (NoDup (map q_id (contexts s))) as Hnd by (rewrite H1; apply NoDup_seq).
  rewrite /contexts !map_app in Hnd. apply NoDup_app in Hnd as (_ & _ & Hnd). apply NoDup_app in Hnd as (_ & _ & Hnd).
  by apply NoDup_app in Hnd as (Hnd & _).
Qed.

(** A worker inside [sendQueryPlanParallel]. *)
Lemma parallel_inv s i w w' t evs : QInv s -> workers s !! i = Some w ->
  sendQueryPlanParallel_step w (tracker s) = Some (w', t, evs) ->
  QInv (moved s i w' (queue s) (running s) (finished s) t (trace s ++ evs)).
Proof.
  intros HI Hi Hsend. pose proof HI as [H1 H2 H3 H4 H5].
  assert (forall i w, workers s !! i = Some w -> worker_ok (trace s) w) as Hw by (intros j v Hj; by eapply Forall_lookup_1).
  destruct w as [| | |ctx pid levels k [|wi todo] ids|ctx pid levels k ids| | |]; try done; simpl in Hsend;
    [injection Hsend as <- <- <-; rewrite app_nil_r|injection Hsend as <- <- <-|
     destruct (wait_condition ids (tracker s)) eqn:Hc; [|done]].
  - destruct (Hw i _ Hi) as [Hl (sent & Hg & Hids)]. eapply QInv_moved; try done; [by exists []; rewrite app_nil_r|].
    split; [done|]. by rewrite Hg app_nil_r.
  - destruct (Hw i _ Hi) as [[Hpl Hl] (sent & Hg & Hids)]. assert (exists g, levels !! k = Some g /\ wi ∈ g) as (g & Hg' & Hin).
    { destruct (levels !! k) as [g|]; simpl in Hg; [|by destruct sent]. exists g. split; [done|]. rewrite Hg. set_solver. }
    eapply QInv_moved; try done; [by eexists| |intros id Hid; by apply seen_mono, H4|apply trace_ok_snoc; [done|split; [done|by exists k, g]]].
    split; [split; [done|by apply levels_seen_mono]|]. exists (sent ++ [wi]). split; [by rewrite -app_assoc|]. by rewrite map_app Hids.
  - destruct (Hw i _ Hi) as [[Hpl Hl] Hids]. rewrite /waitNextCompletions in Hsend. destruct (stopped (tracker s)) eqn:Hst; injection Hsend as <- <- <-; rewrite app_nil_r.
    + eapply QInv_moved; try done. by exists []; rewrite app_nil_r.
    + assert (forall id, id ∈ fold_left (fun (X : gset (Z * Z)) id => X ∖ {[ id ]}) ids (completed_ids (tracker s)) -> seen (trace s) id) as Ht.
      { intros id Hid%completed_remove. by apply H4. }
      destruct (levels !! S k) as [l|] eqn:Hk; (eapply QInv_moved; [done|exact Hi|done|done|by exists []; rewrite app_nil_r| |exact Ht|done]); [|done].
      split; [split; [done|]|rewrite Hk; by exists []]. intros l' g wi Hl' Hg Hwi. destruct (decide (l' = k)) as [->|]; [|eapply Hl; [|done..]; lia].
      apply H4. eapply wait_seen; [done|exact Hc|]. rewrite Hids Hg /=. by apply list_elem_of_fmap_2.
Qed.

Lemma step_inv s s' : QInv s -> step s s' -> QInv s'.
Proof.
  intros HI Hst. pose proof HI as [H1 H2 H3 H4 H5].
  destruct Hst as [sql s|ctx l1 l2 s Ha|i ctx q s Hi Hq|i s Hi Hs Hq|i ctx s Hi|i ctx rnd pl s Hi Hp|i ctx rnd pl qp s Hi Hp
    |i ctx rnd pl pid levels s Hi Hp|i w w' t evs s Hi Hsend|i ctx s Hi|i ctx s Hi|pl nd s|s|s Hs].
  - split; try done. rewrite /contexts; cbn [adding queue workers finished query_counter]. rewrite seq_S -H1 /contexts.
    rewrite !map_app /= -!app_assoc. apply Permutation_app_head.
    by rewrite (Permutation_app_comm [_]) -!app_assoc.
  - split; try done. rewrite /contexts /= -H1 /contexts Ha. apply (fmap_Permutation q_id).
    rewrite -!app_assoc. apply Permutation_app_head. cbn [app].
    by rewrite -!Permutation_middle.
  - eapply QInv_moved; try done; [rewrite Hq /=; by rewrite -Permutation_middle|by exists []; rewrite app_nil_r].
  - eapply QInv_moved; try done; [by rewrite Hq|by exists []; rewrite app_nil_r].
  - eapply QInv_moved; try done; [|by exists []; rewrite app_nil_r]. intros rest Hr. simpl in *.
    by rewrite -Permutation_cons_append Hr.
  - eapply QInv_moved; try done. by exists []; rewrite app_nil_r.
  - eapply QInv_moved; try done; [by eexists|intros id Hid; by apply seen_mono, H4|by apply trace_ok_snoc].
  - eapply QInv_moved; try done; [by exists []; rewrite app_nil_r|].
    split; [split; [exact (prepare_levels _ _ _ _ _ Hp)|intros l g wi Hl; lia]|]. by exists [].
  - by apply (parallel_inv s i w w').
  - eapply QInv_moved; try done; [|by exists []; rewrite app_nil_r]. intros rest Hr. simpl in *.
    rewrite (filter_Permutation_In _ _ _ Hr) filter_active //. rewrite -Hr. by apply qi_nodup.
  - eapply QInv_moved; try done; [|by exists []; rewrite app_nil_r]. simpl. by rewrite -Permutation_cons_append.
  - split; try done; simpl.
    + eapply Forall_impl; [exact H3|]. intros w. apply worker_ok_mono.
    + intros id [->%elem_of_singleton|Hid]%elem_of_union; [rewrite /seen /=; set_solver|]. by apply seen_mono, H4.
    + by apply trace_ok_snoc.
  - by split.
  - by split.
Qed.

Lemma init_inv n : QInv (init n).
Proof.
  assert (forall f, f WIdle = [] -> concat (map f (replicate n WIdle)) = ([] : list QueryContext)) as Hc.
  { intros f Hf. induction n; [done|]. simpl. by rewrite Hf. }
  split; simpl.
  - by rewrite /contexts /= Hc.
  - by rewrite Hc.
  - by apply Forall_replicate.
  - set_solver.
  - intros t1 pid wi levels t2 Heq. by destruct t1.
Qed.

Lemma reachable_inv n s : rtc step (init n) s -> QInv s.
Proof.
  generalize (init_inv n). generalize (init n). intros s0 H0. induction 1 as [|s0 s1 s2 Hs _ IH]; [done|].
  apply IH. by eapply step_inv.
Qed.

(** ** Every query can be finished *)

(** Steps of worker [i] (and completions) that take it from [w] to [WIdle]
    and leave the queue and the other workers alone. *)
Definition finishes (i : nat) (w : worker) : Prop :=
  forall s, workers s !! i = Some w -> exists s', rtc step s s' /\
    adding s' = adding s /\ queue s' = queue s /\ workers s' = <[i := WIdle]> (workers s) /\ finished s' = finished s ++ held w.

(** One step of the worker that changes neither list. *)
Lemma finishes_step i w w' : held w = held w' ->
  (forall s, workers s !! i = Some w -> exists s', rtc step s s' /\ adding s' = adding s /\ queue s' = queue s /\
     workers s' = <[i := w']> (workers s) /\ finished s' = finished s) ->
  finishes i w' -> finishes i w.
Proof.
  intros Hh Hst Hf s Hi. destruct (Hst s Hi) as (s1 & Hr & Ha & Hq & Hw & Hfin).
  destruct (Hf s1) as (s2 & Hr2 & Ha2 & Hq2 & Hw2 & Hfin2).
  { rewrite Hw list_lookup_insert_eq //. by eapply lookup_lt_Some. }
  exists s2. split_and!; [by etrans|congruence|congruence|by rewrite Hw2 Hw list_insert_insert_eq|by rewrite Hfin2 Hfin Hh].
Qed.

Lemma finishes_erased i c : finishes i (WErased c).
Proof. intros s Hi. eexists. split; [by apply rtc_once, work_finish|]. done. Qed.

Lemma finishes_processed i c : finishes i (WProcessed c).
Proof.
  apply (finishes_step i _ (WErased c)); [done| |apply finishes_erased]. intros s Hi.
  eexists. split; [by apply rtc_once, work_erase|]. done.
Qed.

(** The outside world completes a set of items. *)
Lemma complete_all (ids : list (Z * Z)) : forall s, exists s', rtc step s s' /\ adding s' = adding s /\ queue s' = queue s /\
  workers s' = workers s /\ finished s' = finished s /\ stopped (tracker s') = stopped (tracker s) /\
  completed_ids (tracker s) ⊆ completed_ids (tracker s') /\ (forall id, id ∈ ids -> id ∈ completed_ids (tracker s')).
Proof.
  induction ids as [|[p n] ids IH]; intros s.
  - exists s. split_and!; try done. by intros id ?%not_elem_of_nil.
  - edestruct IH as (s' & Hr & H1 & H2 & H3 & H4 & H5 & H6 & H7). exists s'.
    split; [eapply rtc_l; [apply (item_completed parse_sql parse_json iter oc jo p n)|exact Hr]|]. simpl in *. split_and!; try done; [set_solver|].
    intros id [->|Hid]%elem_of_cons; [set_solver|by apply H7].
Qed.

Lemma finishes_wait i c pid levels k ids :
  (forall l, levels !! S k = Some l -> finishes i (WSend c pid levels (S k) l [])) -> finishes i (WWait c pid levels k ids).
Proof.
  intros Hnext s Hi. destruct (complete_all ids s) as (s1 & Hr & H1 & H2 & H3 & H4 & H5 & H6 & H7).
  assert (workers s1 !! i = Some (WWait c pid levels k ids)) as Hi1 by by rewrite H3.
  assert (wait_condition ids (tracker s1) = true) as Hc.
  { rewrite /wait_condition. apply orb_true_iff. right. apply forallb_forall. intros id Hid. apply bool_decide_eq_true, H7.
    by apply list_elem_of_In. }
  pose proof (work_wait i c pid levels k ids s1 Hi1 Hc) as Hst. rewrite /waitNextCompletions in Hst.
  assert (forall w t, (w = WProcessed c \/ exists l, levels !! S k = Some l /\ w = WSend c pid levels (S k) l []) ->
    step s1 (moved s1 i w (queue s1) (running s1) (finished s1) t (trace s1)) ->
    exists s', rtc step s s' /\ adding s' = adding s /\ queue s' = queue s /\ workers s' = <[i := WIdle]> (workers s) /\
      finished s' = finished s ++ [c]) as Hgo.
  { intros w t Hw Hst1. assert (finishes i w) as Hf by (destruct Hw as [->|(l & Hl & ->)]; [apply finishes_processed|by apply Hnext]).
    assert (held w = [c]) as Hh by by destruct Hw as [->|(l & _ & ->)].
    destruct (Hf (moved s1 i w (queue s1) (running s1) (finished s1) t (trace s1))) as (s2 & Hr2 & G1 & G2 & G3 & G4);
      [simpl; rewrite list_lookup_insert_eq //; by eapply lookup_lt_Some|].
    exists s2. simpl in *. split_and!; [etrans; [exact Hr|]; by eapply rtc_l|congruence|congruence| |by rewrite G4 H4 Hh].
    by rewrite G3 list_insert_insert_eq H3. }
  destruct (stopped (tracker s1)); [exact (Hgo _ _ (or_introl eq_refl) Hst)|].
  destruct (levels !! S k) as [l|] eqn:Hl; eapply Hgo; [right; by exists l|exact Hst|by left|exact Hst].
Qed.

Lemma finishes_send i c pid levels n : forall k, length levels - k <= n -> forall todo ids, finishes i (WSend c pid levels k todo ids).
Proof.
  induction n as [|n IH]; intros k Hk todo; (induction todo as [|wi todo IHt]; intros ids;
    [apply (finishes_step i _ (WWait c pid levels k ids)); [done| |apply finishes_wait];
      [intros s Hi; eexists; split; [by eapply rtc_once, work_sent|done]|]
    |apply (finishes_step i _ (WSend c pid levels k todo (ids ++ [wait_id pid wi]))); [done| |apply IHt];
      intros s Hi; eexists; split; [by eapply rtc_once, work_send|done]]).
  - intros l Hl%lookup_lt_Some. lia.
  - intros l Hl. apply IH. apply lookup_lt_Some in Hl. lia.
Qed.

(** Processing the query is defined: it sends something or nothing. *)
Definition runnable (c : QueryContext) : Prop := exists rnd planId j, prepare rnd planId (q_sql c) = Ok j.

Lemma finishes_running i c : runnable c -> finishes i (WRunning c).
Proof.
  intros (rnd & planId & [|qp|pid levels] & Hj).
  - apply (finishes_step i _ (WProcessed c)); [done| |apply finishes_processed]. intros s Hi.
    eexists. split; [by eapply rtc_once, work_nothing|done].
  - apply (finishes_step i _ (WProcessed c)); [done| |apply finishes_processed]. intros s Hi.
    eexists. split; [by eapply rtc_once, work_plan|done].
  - apply (finishes_step i _ (WSend c pid levels 0 (default [] (levels !! 0)) [])); [done| |by eapply (finishes_send i c pid levels)].
    intros s Hi. eexists. split; [by eapply rtc_once, work_levels|done].
Qed.

Lemma finishes_popped i c : runnable c -> finishes i (WPopped c).
Proof.
  intros Hc. apply (finishes_step i _ (WRunning c)); [done| |by apply finishes_running]. intros s Hi.
  eexists. split; [by apply rtc_once, work_running|done].
Qed.

Lemma worker_finishes i w : w <> WStopped -> Forall runnable (held w) -> finishes i w.
Proof.
  intros Hw Hr. destruct w as [|c|c|c pid levels k todo ids|c pid levels k ids|c|c|]; simpl in Hr;
    rewrite ?Forall_singleton in Hr; try done.
  - intros s Hi. exists s. split_and!; [done..|by rewrite list_insert_id|by rewrite app_nil_r].
  - by apply finishes_popped.
  - by apply finishes_running.
  - by eapply finishes_send.
  - apply finishes_wait. intros l _. by eapply finishes_send.
  - apply finishes_processed.
  - apply finishes_erased.
Qed.

Lemma pop_finishes s i c q : workers s !! i = Some WIdle -> queue s = c :: q -> runnable c ->
  exists s', rtc step s s' /\ queue s' = q /\ workers s' !! i = Some WIdle /\ finished s' = finished s ++ [c].
Proof.
  intros Hi Hq Hc. pose proof (work_pop parse_sql parse_json iter oc jo i c q s Hi Hq) as Hpop.
  pose proof (lookup_lt_Some _ _ _ Hi) as Hlt.
  destruct (finishes_popped i c Hc _ (list_lookup_insert_eq (workers s) i (WPopped c) Hlt :
    workers (moved s i (WPopped c) q (running s) (finished s) (tracker s) (trace s)) !! i = _)) as (s2 & Hr & _ & G2 & G3 & G4).
  exists s2. split_and!; [by eapply rtc_l|done| |done]. rewrite G3 list_lookup_insert_eq //=. by rewrite length_insert.
Qed.

Lemma drain q1 : forall s i c q2, workers s !! i = Some WIdle -> queue s = q1 ++ c :: q2 -> Forall runnable (queue s) ->
  exists s', rtc step s s' /\ c ∈ finished s'.
Proof.
  induction q1 as [|d q1 IH]; intros s i c q2 Hi Hq Hr; simpl in Hq; rewrite Hq in Hr; apply Forall_cons in Hr as [Hd Hr];
    destruct (pop_finishes s i _ _ Hi Hq Hd) as (s2 & Hr2 & G2 & G3 & G4).
  - exists s2. split; [done|]. rewrite G4. set_solver.
  - destruct (IH s2 i c q2 G3 G2) as (s3 & Hr3 & Hin); [by rewrite G2|]. exists s3. split; [by etrans|done].
Qed.

(** Every query of a reachable state with a worker left can be finished. *)
Lemma can_finish s c i w : Forall runnable (contexts s) -> c ∈ contexts s ->
  Forall (fun w => w <> WStopped) (workers s) -> workers s !! i = Some w -> exists s', rtc step s s' /\ c ∈ finished s'.
Proof.
  intros Hr Hc Hns Hi. rewrite /contexts !Forall_app in Hr. destruct Hr as (Ha & Hq & Hw & _).
  assert (forall j w, workers s !! j = Some w -> Forall runnable (held w)) as Hheld.
  { intros j w' Hj. apply Forall_forall. intros d Hd. rewrite Forall_forall in Hw. apply Hw.
    apply list_elem_of_In, in_concat. exists (held w'). split; [|by apply list_elem_of_In].
    apply list_elem_of_In, list_elem_of_fmap_2. by eapply list_elem_of_lookup_2. }
  assert (forall s1 d, workers s1 = workers s -> finished s1 = finished s -> Forall runnable (queue s1) -> d ∈ queue s1 ->
    exists s', rtc step s1 s' /\ d ∈ finished s') as Hqueue.
  { intros s1 d Hw1 Hf1 Hq1 (q1 & q2 & Hq2)%list_elem_of_split.
    destruct (worker_finishes i w) with (s := s1) as (s2 & Hr2 & G1 & G2 & G3 & G4); [by eapply Forall_lookup_1 in Hns|by eapply Hheld|by rewrite Hw1|].
    destruct (drain q1 s2 i d q2) as (s3 & Hr3 & Hin); [|by rewrite G2|by rewrite G2|].
    - rewrite G3 list_lookup_insert_eq //. rewrite Hw1. by eapply lookup_lt_Some.
    - exists s3. split; [by etrans|done]. }
  rewrite /contexts !elem_of_app in Hc. destruct Hc as [Hc|[Hc|[Hc|Hc]]].
  - apply list_elem_of_split in Hc as (l1 & l2 & Hl). edestruct Hqueue as (s' & Hr' & Hin); cycle 4.
    + exists s'. split; [|exact Hin]. eapply rtc_l; [by apply (add_push _ _ _ _ _ c l1 l2)|exact Hr'].
    + done.
    + done.
    + simpl. apply Forall_app. split; [done|]. rewrite Hl in Ha. apply Forall_app in Ha as [_ Ha]. apply Forall_cons in Ha as [? _]. by constructor.
    + simpl. set_solver.
  - by apply Hqueue.
  - apply list_elem_of_In, in_concat in Hc as (l & Hl & Hc). apply list_elem_of_In, list_elem_of_fmap in Hl as (w' & -> & Hw').
    apply list_elem_of_lookup_1 in Hw' as [j Hj].
    destruct (worker_finishes j w') with (s := s) as (s2 & Hr2 & _ & _ & _ & G4); [by eapply Forall_lookup_1 in Hns|by eapply Hheld|done|].
    exists s2. split; [done|]. rewrite G4. apply elem_of_app. right. by apply list_elem_of_In.
  - exists s. split; [done|done].
Qed.

End Steps.
