(* ===== verification/QueryManagerTheorems.v ===== *)
(** * Results on the query manager *)

From S2P Require Import Prelude PlanTypes SqlAst JoinTree SelectPlanBuilder PhysContext PostProcess WorkItems WorkItemsInv.
From S2P Require Import PhysicalInvariant PostProcessInv PhysicalTheorems WorkItemTheorems TranslatorTheorems.
From S2P Require Import QueryManager QueryManagerInv.

(** ** The keyword prefix *)

(** A keyword as a user writes it; a name is separated from NAME by blanks. *)
Inductive keyword :=
  | KParallel
  | KName (blanks name : string).

Definition kw_text (k : keyword) : string :=
  match k with KParallel => "PARALLEL" | KName w n => "NAME" +:+ w +:+ n end.

Fixpoint all_chars (p : ascii -> bool) (s : string) : bool :=
  match s with EmptyString => true | String c s => p c && all_chars p s end.

Definition blanks_ok (w : string) : bool := negb (is_empty w) && all_chars is_ws w.

Definition kw_ok (k : keyword) : bool :=
  match k with
  | KParallel => true
  | KName w n => blanks_ok w && (negb (is_empty n) && all_chars (fun c => negb (is_ws c)) n)
  end.

(** The keywords, each followed by blanks, and then the statement. *)
Fixpoint prefix_text (ks : list (keyword * string)) (sql : string) : string :=
  match ks with
  | [] => sql
  | (k, w) :: ks => kw_text k +:+ w +:+ prefix_text ks sql
  end.

(** A statement: it starts neither with a blank nor with a keyword. *)
Definition statement_ok (sql : string) : bool :=
  match sql with
  | EmptyString => false
  | String c _ => negb (is_ws c) && negb (String.prefix "PARALLEL" sql) && negb (String.prefix "NAME" sql)
  end.

Definition last_name (ks : list (keyword * string)) (n : string) : string :=
  fold_left (fun n k => match k.1 with KName _ m => m | KParallel => n end) ks n.

Definition has_parallel (ks : list (keyword * string)) : bool :=
  existsb (fun k => match k.1 with KParallel => true | KName _ _ => false end) ks.

Lemma drop_string_app a b : drop_string (String.length a) (a +:+ b) = b.
Proof. induction a as [|c a IH]; [by destruct b|]. exact IH. Qed.

Lemma take_string_app a b : take_string (String.length a) (a +:+ b) = a.
Proof. induction a as [|c a IH]; [done|]. simpl. f_equal. exact IH. Qed.

Lemma length_string_app a b : String.length (a +:+ b) = String.length a + String.length b.
Proof. induction a as [|c a IH]; [done|]. simpl. f_equal. exact IH. Qed.

Lemma drop_string_app' a b n : n = String.length a -> drop_string n (a +:+ b) = b.
Proof. intros ->. apply drop_string_app. Qed.

Lemma find_from_app p w c x : all_chars (fun c => negb (p c)) w = true -> p c = true ->
  forall pos, find_from p (w +:+ String c x) pos = Some (pos + String.length w).
Proof.
  intros Hw Hc. induction w as [|d w IH]; intros pos; simpl.
  - rewrite Hc. f_equal. lia.
  - simpl in Hw. apply andb_true_iff in Hw as [Hd%negb_true_iff Hw]. rewrite Hd.
    etrans; [apply (IH Hw)|]. f_equal. lia.
Qed.

Lemma all_chars_impl (p q : ascii -> bool) w : (forall c, p c = true -> q c = true) -> all_chars p w = true -> all_chars q w = true.
Proof. intros H. induction w as [|c w IH]; [done|]. simpl. intros [? ?]%andb_true_iff. apply andb_true_iff. auto. Qed.

(** Skipping blanks behind [pre]. *)
Lemma skip_blanks pre w c x : all_chars is_ws w = true -> is_ws c = false ->
  find_first_not_of (pre +:+ w +:+ String c x) (String.length pre) = Some (String.length (pre +:+ w)).
Proof.
  intros Hw Hc. rewrite /find_first_not_of drop_string_app length_string_app find_from_app ?Hc //.
  eapply all_chars_impl; [|exact Hw]. intros d Hd. by rewrite Hd.
Qed.

Lemma find_blank pre n c x : all_chars (fun c => negb (is_ws c)) n = true -> is_ws c = true ->
  find_first_of (pre +:+ n +:+ String c x) (String.length pre) = Some (String.length (pre +:+ n)).
Proof. intros Hn Hc. by rewrite /find_first_of drop_string_app length_string_app find_from_app. Qed.

Lemma prefix_text_app k x : String.prefix k (k +:+ x) = true.
Proof. induction k as [|c k IH]; [by destruct x|]. simpl. by destruct (ascii_dec c c). Qed.

Lemma prefix_text_starts ks sql : statement_ok sql = true ->
  exists c x, prefix_text ks sql = String c x /\ is_ws c = false.
Proof.
  intros Hs. destruct ks as [|[[|w n] b] ks]; simpl.
  - destruct sql as [|c x]; [done|]. exists c, x. split; [done|].
    apply andb_true_iff in Hs as [[?%negb_true_iff _]%andb_true_iff _]. done.
  - eexists _, _. split; [reflexivity|done].
  - eexists _, _. split; [reflexivity|done].
Qed.

Lemma keyword_loop_text ks sql : statement_ok sql = true -> forallb (fun k => kw_ok k.1 && blanks_ok k.2) ks = true ->
  forall fuel pre p n, length ks < fuel ->
  exists idx, keyword_loop fuel (pre +:+ prefix_text ks sql) (Some (String.length pre)) p n =
    Ok (Some idx, p || has_parallel ks, last_name ks n) /\ drop_string idx (pre +:+ prefix_text ks sql) = sql.
Proof.
  intros Hs. induction ks as [|[k b] ks IH]; intros Hks fuel pre p n Hf; (destruct fuel as [|fuel]; [simpl in Hf; lia|]);
    cbn [keyword_loop]; rewrite /compare_at drop_string_app.
  - exists (String.length pre). rewrite drop_string_app. split; [|done]. simpl. destruct sql as [|c x]; [done|].
    apply andb_true_iff in Hs as [[_ Hp%negb_true_iff]%andb_true_iff Hn%negb_true_iff]. by rewrite Hp Hn orb_false_r.
  - simpl in Hks. apply andb_true_iff in Hks as [[Hk [Hne Hb]%andb_true_iff]%andb_true_iff Hks].
    destruct (prefix_text_starts ks sql Hs) as (c & x & Hrest & Hc). cbn [prefix_text]. simpl in Hf.
    destruct k as [|w m].
    + rewrite prefix_text_app. cbn [kw_text].
      assert (pre +:+ "PARALLEL" +:+ b +:+ prefix_text ks sql = (pre +:+ "PARALLEL" +:+ b) +:+ prefix_text ks sql) as Heq
        by by rewrite -!string_app_assoc.
      assert (find_first_not_of (pre +:+ "PARALLEL" +:+ b +:+ prefix_text ks sql) (String.length pre + 8) =
        Some (String.length (pre +:+ "PARALLEL" +:+ b))) as ->.
      { rewrite Hrest string_app_assoc (string_app_assoc pre "PARALLEL" b).
        rewrite -(skip_blanks (pre +:+ "PARALLEL") b c x) // length_string_app. done. }
      rewrite Heq. destruct (IH Hks fuel (pre +:+ "PARALLEL" +:+ b) true n ltac:(lia)) as (idx & -> & Hd).
      exists idx. split; [|done]. by rewrite /= orb_true_r.
    + simpl in Hk. apply andb_true_iff in Hk as [[_ Hw]%andb_true_iff [Hmne Hm]%andb_true_iff]. cbn [kw_text].
      rewrite -!string_app_assoc prefix_text_app.
      destruct m as [|d m]; [done|]. destruct b as [|e b]; [done|].
      assert (is_ws d = false) as Hdw by (by apply andb_true_iff in Hm as [?%negb_true_iff _]).
      assert (is_ws e = true) as Hew by (by apply andb_true_iff in Hb as [? _]).
      set (tl := prefix_text ks sql) in *. set (nm := String d m) in *. set (bl := String e b) in *.
      change (String.prefix "PARALLEL" ("NAME" +:+ w +:+ nm +:+ bl +:+ tl)) with false. cbv iota.
      assert (find_first_not_of (pre +:+ "NAME" +:+ w +:+ nm +:+ bl +:+ tl) (String.length pre + 4) =
        Some (String.length (pre +:+ "NAME" +:+ w))) as ->.
      { rewrite string_app_assoc (string_app_assoc pre "NAME" w).
        rewrite -(skip_blanks (pre +:+ "NAME") w d (m +:+ bl +:+ tl)) // length_string_app. done. }
      assert (pre +:+ "NAME" +:+ w +:+ nm +:+ bl +:+ tl = (pre +:+ "NAME" +:+ w) +:+ nm +:+ bl +:+ tl) as Heq
        by by rewrite -!string_app_assoc.
      assert (find_first_of (pre +:+ "NAME" +:+ w +:+ nm +:+ bl +:+ tl) (String.length (pre +:+ "NAME" +:+ w)) =
        Some (String.length ((pre +:+ "NAME" +:+ w) +:+ nm))) as ->.
      { rewrite Heq. exact (find_blank (pre +:+ "NAME" +:+ w) nm e (b +:+ tl) Hm Hew). }
      assert (find_first_not_of (pre +:+ "NAME" +:+ w +:+ nm +:+ bl +:+ tl) (String.length ((pre +:+ "NAME" +:+ w) +:+ nm)) =
        Some (String.length (((pre +:+ "NAME" +:+ w) +:+ nm) +:+ bl))) as ->.
      { rewrite Heq Hrest string_app_assoc. by apply skip_blanks. }
      assert (substr (pre +:+ "NAME" +:+ w +:+ nm +:+ bl +:+ tl) (String.length (pre +:+ "NAME" +:+ w))
        (String.length ((pre +:+ "NAME" +:+ w) +:+ nm) - String.length (pre +:+ "NAME" +:+ w)) = nm) as ->.
      { rewrite /substr Heq drop_string_app length_string_app Nat.add_comm Nat.add_sub. apply take_string_app. }
      rewrite Heq 2!string_app_assoc. apply IH; [done|lia].
Qed.

(** C30: Keywords and statement are recovered from the text of a query.  A query
    written as blanks, any sequence of the keywords PARALLEL and NAME (with a
    name), in any order, each followed by blanks, and then a statement, is split
    into exactly: whether PARALLEL occurs, the last name (empty without NAME) and
    the statement. *)
Theorem parse_keywords_roundtrip w ks sql :
  all_chars is_ws w = true -> forallb (fun k => kw_ok k.1 && blanks_ok k.2) ks = true -> statement_ok sql = true ->
  parse_keywords (w +:+ prefix_text ks sql) = Ok (Some (has_parallel ks, last_name ks "", sql)).
Proof.
  intros Hw Hks Hs. destruct (prefix_text_starts ks sql Hs) as (c & x & Hrest & Hc). rewrite /parse_keywords.
  assert (find_first_not_of (w +:+ prefix_text ks sql) 0 = Some (String.length w)) as ->.
  { rewrite Hrest. exact (skip_blanks "" w c x Hw Hc). }
  destruct (keyword_loop_text ks sql Hs Hks (S (String.length (w +:+ prefix_text ks sql))) w false "") as (idx & -> & Hd).
  - rewrite length_string_app. assert (length ks <= String.length (prefix_text ks sql)); [|lia]. clear -Hks.
    induction ks as [|[k b] ks IH]; [simpl; lia|]. simpl in Hks. apply andb_true_iff in Hks as [[_ Hb]%andb_true_iff Hks].
    specialize (IH Hks). simpl. rewrite !length_string_app. destruct b; [done|]. simpl. lia.
  - simpl. by rewrite Hd.
Qed.

Lemma parse_keywords_roundtrip_witness :
  parse_keywords "  NAME  q1 PARALLEL NAME q2 SELECT 1" = Ok (Some (true, "q2", "SELECT 1")).
Proof.
  exact (parse_keywords_roundtrip "  " [(KName "  " "q1", " "); (KParallel, " "); (KName " " "q2", " ")] "SELECT 1"
    eq_refl eq_refl eq_refl).
Defined.

(** ** Threads *)
Section Threads.
Variables (parse_sql : string -> SQLParserResult) (parse_json : string -> option json).
Variable iter : gmap string LogicalPlanNode -> list (string * LogicalPlanNode).
Variables oc jo : bool.

Notation step := (step parse_sql parse_json iter oc jo).

(** C19: No query is lost or processed twice.  In every interleaving of the
    threads that add queries, the workers, the completions and the shutdown,
    each query ever added is in exactly one place: about to be queued, in the
    queue, with one worker, or finished; and [running] holds exactly the queries
    that workers are processing. *)
Theorem queries_accounted_for n s : rtc step (init n) s ->
  map q_id (adding s ++ queue s ++ concat (map held (workers s)) ++ finished s) ≡ₚ seq 0 (query_counter s) /\
  running s ≡ₚ concat (map active (workers s)).
Proof. intros [H1 H2 _ _ _]%reachable_inv. done. Qed.

(** C9: A work item is sent only after everything it depends on was reported as
    completed.  In every interleaving, a sent item belongs to the levels of a
    plan, and for whatever acyclic plan these levels come from, when its item ids
    are distinct, each dependency of the item has been completed before. *)
Theorem parallel_items_wait n s t1 pid wi levels t2 : rtc step (init n) s ->
  trace s = t1 ++ EvItem pid wi levels :: t2 ->
  wi ∈ concat levels /\ (exists p planId, crateWorkItemsParallel p planId = Ok levels) /\
  forall p planId root items, crateWorkItemsParallel p planId = Ok levels ->
    plan_root p = Some root -> acyclic (plan_store p) -> root < length (plan_store p) ->
    crateWorkItems p planId = Ok items -> NoDup (map wi_itemId items) ->
    forall d, d ∈ wi_dependsOn wi -> EvCompleted (to_int32 pid) (to_int32 d) ∈ t1.
Proof.
  intros [_ _ _ _ Htr]%reachable_inv Ht. destruct (Htr t1 pid wi levels t2 Ht) as [Hpl (k & g & Hk & Hwi & Hseen)].
  split; [|split; [exact Hpl|]].
  { apply list_elem_of_In, in_concat. exists g. split; apply list_elem_of_In; [by eapply list_elem_of_lookup_2|done]. }
  intros p planId root items Hp Hroot Hac Hlt Hit Hnd d Hd.
  destruct (crateWorkItems_items p root planId Hroot Hac Hlt) as (order & _ & _ & Hto & _ & HF). rewrite Hit in HF.
  destruct (group_levels_ok items Hnd (items_deps_before _ _ _ _ Hto HF)) as (res & Hg & _ & Hlow).
  rewrite /crateWorkItemsParallel Hit /= Hg in Hp. injection Hp as ->.
  destruct (Hlow k g wi Hk Hwi) as [_ Hdep]. destruct (Hdep d Hd) as (l' & g' & wd & Hl & Hg' & Hwd & <-).
  exact (Hseen l' g' wd Hl Hg' Hwd).
Qed.


(** A run up to the first item of the second level. *)
Lemma send_all i c pid levels k todo : forall s ids, workers s !! i = Some (WSend c pid levels k todo ids) ->
  exists s' ids', rtc step s s' /\ workers s' !! i = Some (WSend c pid levels k [] ids') /\ tracker s' = tracker s.
Proof.
  induction todo as [|wi todo IH]; intros s ids Hi; [by exists s, ids|].
  pose proof (work_send parse_sql parse_json iter oc jo i c pid levels k wi todo ids s Hi) as Hst.
  edestruct (IH (moved s i (WSend c pid levels k todo (ids ++ [wait_id pid wi])) (queue s) (running s) (finished s) (tracker s)
    (trace s ++ [EvItem pid wi levels]))) as (s' & ids' & Hr & Hi' & Ht'); [simpl; rewrite list_lookup_insert_eq //; by eapply lookup_lt_Some|].
  exists s', ids'. split; [by eapply rtc_l|done].
Qed.

Lemma reach_second_level sql rnd planId pid levels wi g : prepare parse_sql parse_json iter oc jo rnd planId sql = Ok (SendLevels pid levels) ->
  levels !! 1 = Some (wi :: g) ->
  exists s t1, rtc step (init 1) s /\ trace s = t1 ++ EvItem pid wi levels :: [].
Proof.
  intros Hp Hl. set (c := {| q_id := 0; q_sql := sql |}).
  assert (exists s, rtc step (init 1) s /\ workers s !! 0 = Some (WSend c pid levels 0 (default [] (levels !! 0)) []) /\
    stopped (tracker s) = false) as (s & Hr & Hi & Hst).
  { eexists. split; [eapply rtc_l; [apply (add_create _ _ _ _ _ sql)|eapply rtc_l; [by apply (add_push _ _ _ _ _ c [] [])|
      eapply rtc_l; [by apply (work_pop _ _ _ _ _ 0 c [])|eapply rtc_l; [by apply (work_running _ _ _ _ _ 0 c)|
      apply rtc_once; by apply (work_levels _ _ _ _ _ 0 c rnd planId pid levels)]]]]|done]. }
  destruct (send_all 0 c pid levels 0 _ s [] Hi) as (s1 & ids & Hr1 & Hi1 & Ht1).
  pose proof (work_sent parse_sql parse_json iter oc jo 0 c pid levels 0 ids s1 Hi1) as Hw.
  set (s2 := moved s1 0 (WWait c pid levels 0 ids) _ _ _ _ _) in Hw.
  assert (workers s2 !! 0 = Some (WWait c pid levels 0 ids)) as Hi2 by (simpl; rewrite list_lookup_insert_eq //; by eapply lookup_lt_Some).
  destruct (complete_all parse_sql parse_json iter oc jo ids s2) as (s3 & Hr3 & _ & _ & Hw3 & _ & Hst3 & _ & Hc3).
  assert (wait_condition ids (tracker s3) = true) as Hcond.
  { rewrite /wait_condition. apply orb_true_iff. right. apply forallb_forall. intros id Hid. apply bool_decide_eq_true, Hc3.
    by apply list_elem_of_In. }
  rewrite -Hw3 in Hi2. pose proof (work_wait parse_sql parse_json iter oc jo 0 c pid levels 0 ids s3 Hi2 Hcond) as Hwait.
  assert (stopped (tracker s3) = false) as Hns by by rewrite Hst3 /= Ht1.
  rewrite /waitNextCompletions Hns Hl in Hwait. set (s4 := moved s3 0 _ _ _ _ _ _) in Hwait.
  assert (workers s4 !! 0 = Some (WSend c pid levels 1 (wi :: g) [])) as Hi4
    by (simpl; rewrite list_lookup_insert_eq //; by eapply lookup_lt_Some).
  pose proof (work_send parse_sql parse_json iter oc jo 0 c pid levels 1 wi g [] s4 Hi4) as Hsend.
  eexists _, (trace s4). split; [etrans; [exact Hr|]; etrans; [exact Hr1|]; eapply rtc_l; [exact Hw|];
    etrans; [exact Hr3|]; eapply rtc_l; [exact Hwait|]; apply rtc_once; exact Hsend|done].
Qed.

End Threads.

(** ** A query in a manager with one worker *)

Definition demo_parse_sql (_ : string) : SQLParserResult := Valid [StmtSelect demo_select].
Definition demo_query : string := "PARALLEL NAME q SELECT lo_revenue FROM lineorder".

Notation demo_step := (step demo_parse_sql (fun _ => None) demo_iter true true).

(** The plan of the query. *)
Definition demo_query_plan : phys_plan :=
  match translateSQLToLogicalPlan demo_parse_sql (fun _ => None) demo_iter "SELECT lo_revenue FROM lineorder" None with
  | Ok (n :: _) => match PhysicalOptimizer_optimize demo_rnd (Some n) true true "q" with Ok p => p | Err _ => mkPlan None [] end
  | _ => mkPlan None []
  end.

Lemma demo_query_acyclic : acyclic (plan_store demo_query_plan).
Proof. apply acyclicb_acyclic. by vm_compute. Qed.

Lemma demo_levels : exists levels wi g, crateWorkItemsParallel demo_query_plan 77 = Ok levels /\
  prepare demo_parse_sql (fun _ => None) demo_iter true true demo_rnd 77 demo_query = Ok (SendLevels 77 levels) /\
  levels !! 1 = Some (wi :: g) /\ wi_dependsOn wi = [0%Z].
Proof. eexists _, _, _. split_and!; by vm_compute. Qed.

Lemma demo_runnable i : runnable demo_parse_sql (fun _ => None) demo_iter true true {| q_id := i; q_sql := demo_query |}.
Proof. destruct demo_levels as (levels & _ & _ & _ & Hp & _). by exists demo_rnd, 77%Z, (SendLevels 77 levels). Qed.

(** Two queries were added; the first one is queued. *)
Definition demo_queued : QueryManager :=
  {| query_counter := 2; adding := [{| q_id := 1; q_sql := demo_query |}]; queue := [{| q_id := 0; q_sql := demo_query |}];
     running := []; finished := []; workers := [WIdle]; stop_flag := false;
     tracker := {| completed_ids := ∅; stopped := false |}; trace := [] |}.

Lemma demo_queued_reachable : rtc demo_step (init 1) demo_queued.
Proof.
  eapply rtc_l; [apply (add_create _ _ _ _ _ demo_query)|]. eapply rtc_l; [apply (add_create _ _ _ _ _ demo_query)|].
  apply rtc_once. by apply (add_push _ _ _ _ _ {| q_id := 0; q_sql := demo_query |} [] [{| q_id := 1; q_sql := demo_query |}]).
Qed.

Lemma queries_accounted_for_witness :
  map q_id (adding demo_queued ++ queue demo_queued ++ concat (map held (workers demo_queued)) ++ finished demo_queued)
    ≡ₚ seq 0 (query_counter demo_queued) /\
  running demo_queued ≡ₚ concat (map active (workers demo_queued)).
Proof. exact (queries_accounted_for demo_parse_sql (fun _ => None) demo_iter true true 1 demo_queued demo_queued_reachable). Defined.

Lemma parallel_items_wait_witness : exists s t1 wi levels, rtc demo_step (init 1) s /\
  trace s = t1 ++ EvItem 77 wi levels :: [] /\ wi_dependsOn wi = [0%Z] /\ EvCompleted 77 0 ∈ t1.
Proof.
  destruct demo_levels as (levels & wi & g & Hpl & Hp & Hl & Hd).
  destruct (reach_second_level demo_parse_sql (fun _ => None) demo_iter true true _ _ _ _ _ _ _ Hp Hl) as (s & t1 & Hr & Ht).
  exists s, t1, wi, levels. split; [exact Hr|]. split; [exact Ht|]. split; [exact Hd|].
  pose proof (parallel_items_wait demo_parse_sql (fun _ => None) demo_iter true true 1 s t1 77 wi levels [] Hr Ht) as (_ & _ & H).
  change (EvCompleted (to_int32 77) (to_int32 0) ∈ t1).
  eapply (H demo_query_plan 77%Z _ _ Hpl); [by vm_compute|exact demo_query_acyclic|vm_compute; lia|by vm_compute| |].
  - apply (bool_decide_eq_true_1 (NoDup _)). by vm_compute.
  - rewrite Hd. by left.
Defined.

