(* ===== verification/OptimizerUnit.v ===== *)
(** * The command line of the optimizer unit

    src/ArgParser.cpp with include/ArgParser.hpp, and the part of
    examples/OptimizerUnit.cpp that turns arguments, a query file and the lines
    of the console into calls of [addQuery]. *)

From S2P Require Import Prelude QueryManager.

(** ** ArgParser *)

(** The arguments without the program name. *)
Definition ArgParser : Type := list string.

(** [std::find] and the element behind it. *)
Fixpoint getArgByValue (args : ArgParser) (arg : string) : string :=
  match args with
  | [] => ""
  | a :: rest => if a =s arg then match rest with v :: _ => v | [] => "" end else getArgByValue rest arg
  end.

(** The value and the arguments that are left. *)
Fixpoint getArgByValueAndRemove (args : ArgParser) (arg : string) : string * ArgParser :=
  match args with
  | [] => ("", [])
  | a :: rest =>
      if a =s arg then match rest with v :: rest => (v, rest) | [] => ("", [a]) end
      else let '(v, rest) := getArgByValueAndRemove rest arg in (v, a :: rest)
  end.

Definition hasArg (args : ArgParser) (arg : string) : bool := existsb (fun a => a =s arg) args.

Definition getParameterVectorCopy (args : ArgParser) : list string := args.

(** [takeParseArg<std::string>] *)
Definition takeParseArg_string (key on_warning default_value : string) (exitOnWarning : bool) (args : ArgParser)
    : result (string * ArgParser) :=
  let '(arg, args) := getArgByValueAndRemove args key in
  if is_empty arg then
    if exitOnWarning then Err (Throw on_warning) else Ok (default_value, args)
  else Ok (arg, args).

(** [takeParseArg<T>]; [parse] is [operator>>] of the string stream. *)
Definition takeParseArg {T} (parse : string -> T) (key on_warning : string) (default_value : T) (exitOnWarning : bool)
    (args : ArgParser) : result (T * ArgParser) :=
  let '(arg, args) := getArgByValueAndRemove args key in
  if is_empty arg then
    if exitOnWarning then Err (Throw on_warning) else Ok (default_value, args)
  else Ok (parse arg, args).

(** ** Options of the optimizer unit *)

Record Options := {
  o_ip : string; o_port : Z; o_q : string; o_file : string; o_threads : Z; o_log : string;
  o_optimize : bool; o_join_outputs : bool; o_demo : bool
}.

Definition parse_options (parse_size : string -> Z) (parse_bool : string -> bool) (args : ArgParser) : result Options :=
  '(ip, args) ← takeParseArg_string "-ip" "[Error] No IP given. Pass a server IP with [-ip]" "127.0.0.1" false args;
  '(port, args) ← takeParseArg parse_size "-port" "[Error] No Port given. Pass a port with [-port]." 23232%Z false args;
  '(q, args) ← takeParseArg_string "-q" "" "" false args;
  '(file, args) ← takeParseArg_string "-f" "" "" false args;
  '(t, args) ← takeParseArg parse_size "-t" "[Warning] Number of threads not given. Only a single worker will be used. Specify workers with [-t]" 1%Z false args;
  '(log, args) ← takeParseArg_string "-log" "" "optimizer.log" false args;
  '(oc, args) ← takeParseArg parse_bool "-optimize" "" true false args;
  '(jo, args) ← takeParseArg parse_bool "-optimize-join-outputs" "" true false args;
  '(demo, _) ← takeParseArg parse_bool "-demo" "" false false args;
  Ok {| o_ip := ip; o_port := port; o_q := q; o_file := file; o_threads := t; o_log := log;
        o_optimize := oc; o_join_outputs := jo; o_demo := demo |}.

(** ** The queries of a session *)

(** [std::getline(file, query, ';')] until it fails: a part after the last
    delimiter counts unless it is empty. *)
Fixpoint split_at (delim : ascii) (cur : string) (s : string) : list string :=
  match s with
  | EmptyString => if is_empty cur then [] else [cur]
  | String c s => if Ascii.eqb c delim then cur :: split_at delim "" s
                  else split_at delim (cur +:+ String c EmptyString) s
  end.

Definition read_from_file (contents : string) : list string :=
  List.filter (fun query => match find_first_not_of query 0 with Some _ => true | None => false end)
    (split_at (ascii_of_nat 59) "" contents).

(** The loop over the lines of the console. *)
Fixpoint console (lines : list string) : list string :=
  match lines with
  | [] => []
  | line :: lines =>
      if (line =s "exit") || (line =s "quit") then []
      else if is_empty line then console lines
      else line :: console lines
  end.

(** [chores]: the texts given to [addQuery], in order; [file_contents] is the
    text of the file with the given path. *)
Definition chores (file_contents : string -> string) (o : Options) (lines : list string) : list string :=
  (if is_empty (o_q o) then [] else [o_q o]) ++
  (if is_empty (o_file o) then [] else read_from_file (file_contents (o_file o))) ++
  console lines.

(** ** Results *)

(** Arguments given as pairs of a key and a value. *)
Definition pair_args (ps : list (string * string)) : ArgParser := concat (map (fun p => [p.1; p.2]) ps).

Fixpoint assoc (k : string) (ps : list (string * string)) : string :=
  match ps with
  | [] => ""
  | (k', v) :: ps => if k' =s k then v else assoc k ps
  end.

Fixpoint remove_key (k : string) (ps : list (string * string)) : list (string * string) :=
  match ps with
  | [] => []
  | (k', v) :: ps => if k' =s k then ps else (k', v) :: remove_key k ps
  end.

Lemma take_pairs k ps : (forall p, p ∈ ps -> p.2 <> k) ->
  getArgByValueAndRemove (pair_args ps) k = (assoc k ps, pair_args (remove_key k ps)).
Proof.
  induction ps as [|[k' v] ps IH]; intros Hv; [done|].
  change (pair_args ((k', v) :: ps)) with (k' :: v :: pair_args ps). cbn [getArgByValueAndRemove assoc remove_key].
  destruct (k' =s k) eqn:Hk; [done|]. rewrite (proj2 (String.eqb_neq v k)); [|apply (Hv (k', v)); by left].
  rewrite IH; [done|]. intros p Hp. apply Hv. by right.
Qed.

Lemma assoc_remove k k' ps : k <> k' -> assoc k (remove_key k' ps) = assoc k ps.
Proof.
  intros Hk. induction ps as [|[a v] ps IH]; [done|]. simpl. destruct (String.eqb_spec a k') as [->|Ha].
  - by rewrite (proj2 (String.eqb_neq k' k)).
  - simpl. by rewrite IH.
Qed.

Lemma remove_key_sub k ps p : p ∈ remove_key k ps -> p ∈ ps.
Proof.
  induction ps as [|[a v] ps IH]; simpl; [done|]. destruct (a =s k); [by right|].
  intros [->|Hp]%elem_of_cons; [by left|right; auto].
Qed.

(** One option after another. *)
Lemma take_string_pairs k w d ps : (forall p, p ∈ ps -> p.2 <> k) ->
  takeParseArg_string k w d false (pair_args ps) = Ok (if is_empty (assoc k ps) then d else assoc k ps, pair_args (remove_key k ps)).
Proof. intros Hv. rewrite /takeParseArg_string take_pairs //. by destruct (is_empty _). Qed.

Lemma take_parse_pairs {T} (parse : string -> T) k w d ps : (forall p, p ∈ ps -> p.2 <> k) ->
  takeParseArg parse k w d false (pair_args ps) =
    Ok (if is_empty (assoc k ps) then d else parse (assoc k ps), pair_args (remove_key k ps)).
Proof. intros Hv. rewrite /takeParseArg take_pairs //. by destruct (is_empty _). Qed.

Definition option_keys : list string :=
  ["-ip"; "-port"; "-q"; "-f"; "-t"; "-log"; "-optimize"; "-optimize-join-outputs"; "-demo"].

(** Options are read independently of each other and of their order: when
    the arguments are pairs of a key and a value, and no value looks like a key,
    each option has the value given with its key, or its default when the key is
    missing, and the command line is never rejected. *)
Theorem parse_options_pairs parse_size parse_bool ps : (forall p, p ∈ ps -> p.2 ∉ option_keys) ->
  parse_options parse_size parse_bool (pair_args ps) =
    (let get {T} (f : string -> T) (d : T) k := if is_empty (assoc k ps) then d else f (assoc k ps) in
     Ok {| o_ip := get id "127.0.0.1" "-ip"; o_port := get parse_size 23232%Z "-port"; o_q := get id "" "-q";
           o_file := get id "" "-f"; o_threads := get parse_size 1%Z "-t"; o_log := get id "optimizer.log" "-log";
           o_optimize := get parse_bool true "-optimize"; o_join_outputs := get parse_bool true "-optimize-join-outputs";
           o_demo := get parse_bool false "-demo" |}).
Proof.
  intros Hv. assert (forall k (ps' : list (string * string)), k ∈ option_keys -> (forall p, p ∈ ps' -> p ∈ ps) -> forall p, p ∈ ps' -> p.2 <> k) as Hk.
  { intros k ps' Hin Hsub p Hp Heq. apply (Hv p (Hsub p Hp)). by rewrite Heq. }
  rewrite /parse_options.
  repeat (rewrite ?take_string_pairs ?take_parse_pairs; [cbn [mbind result_bind]|
    (apply Hk; [apply (bool_decide_eq_true_1 (_ ∈ option_keys)); by vm_compute|by intros p Hp; repeat apply remove_key_sub in Hp])..]).
  by rewrite !assoc_remove.
Qed.

Lemma parse_options_pairs_witness :
  parse_options (fun s => Z.of_nat (String.length s)) (fun s => s =s "1")
    (pair_args [("-optimize", "0"); ("-t", "1234"); ("-q", "SELECT 1")]) =
  Ok {| o_ip := "127.0.0.1"; o_port := 23232; o_q := "SELECT 1"; o_file := ""; o_threads := 4; o_log := "optimizer.log";
        o_optimize := false; o_join_outputs := true; o_demo := false |}.
Proof.
  apply (parse_options_pairs (fun s => Z.of_nat (String.length s)) (fun s => s =s "1")
    [("-optimize", "0"); ("-t", "1234"); ("-q", "SELECT 1")]).
  intros p Hp. repeat (apply elem_of_cons in Hp as [->|Hp]; [apply (bool_decide_eq_false_1 (_ ∈ _)); by vm_compute|]).
  by apply not_elem_of_nil in Hp.
Defined.

(** ** The query file *)

Definition semicolon : ascii := ascii_of_nat 59.

Fixpoint has_char (c : ascii) (s : string) : bool :=
  match s with EmptyString => false | String d s => Ascii.eqb d c || has_char c s end.

Lemma split_at_piece q rest : has_char semicolon q = false ->
  forall cur, split_at semicolon cur (q +:+ String semicolon rest) = (cur +:+ q) :: split_at semicolon "" rest.
Proof.
  induction q as [|c q IH]; intros Hq cur; simpl.
  - f_equal. clear. induction cur as [|c cur IH]; [done|]. by rewrite {1}IH.
  - simpl in Hq. apply orb_false_iff in Hq as [Hc Hq]. rewrite Hc. etrans; [apply (IH Hq)|].
    f_equal. by rewrite -string_app_assoc.
Qed.

(** A file with one statement per [';'] is read as these statements, in order:
    whatever blanks or line breaks are in them, if none is blank altogether. *)
Theorem read_from_file_roundtrip qs :
  forallb (fun q => negb (has_char semicolon q) && match find_first_not_of q 0 with Some _ => true | None => false end) qs = true ->
  read_from_file (fold_right (fun q s => q +:+ String semicolon s) "" qs) = qs.
Proof.
  rewrite /read_from_file -/semicolon. induction qs as [|q qs IH]; intros Hq; [done|].
  simpl in Hq. apply andb_true_iff in Hq as [[Hs%negb_true_iff Hb]%andb_true_iff Hq]. simpl. rewrite split_at_piece //=.
  rewrite Hb. f_equal. by apply IH.
Qed.
