(* ===== verification/Units.v ===== *)
(** * The client programs

    What examples/ComputeUnit.cpp, examples/OptimizerUnit.cpp and
    examples/tcp_client_example.cpp do with the messages they receive: the
    callbacks they register with their [TCPClient], next to the one that the
    constructor of [TCPClient] registers.

    The parsers and serializers of protobuf, [malloc], the generator of UUIDs and
    the results of [send] are parameters.  A callback can fail only by writing
    outside the memory it allocated, so the state of a unit is a [result]. *)

From S2P Require Import Prelude WorkItems Framing TcpServer ServerHandlers QueryManager.
#[local] Open Scope Z_scope.

(** proto/WorkResponse.proto and proto/UnitDefinition.proto, as far as the
    programs fill them in. *)
Record WorkResponse := {
  wr_planid : Z;
  wr_itemid : Z;
  wr_info : string;
  wr_success : option bool
}.

Record UnitDefinition := { ud_unit_type : Z; ud_prettyname : option string }.

(** The callbacks of a client are run one after the other by [listenLoop]. *)
Definition on {S} (cb : TCPMetaInfo -> list Z -> S -> result S) : ReceiveCallback (result S) :=
  fun meta data r => s ← r; cb meta data s.

Section Units.
Context (client_send : list Z -> list Z -> Z) (malloc : Z -> list Z) (draw : nat -> Z).
Context (serialize_unit : UnitDefinition -> list Z) (serialize_response : WorkResponse -> list Z).

(** Header, allocation, [serializeItemToMemory] and [notifyHost], as in all
    callbacks that answer. *)
Definition answer {Item} (ser : Item -> list Z) (item : Item) (pkg src tgt : Z) (c : TCPClient) : result TCPClient :=
  let info := {| message_delimiter := TCP_START_DELIM; unit_type := 0; payload_size := to_u32 (ByteSizeLong ser item);
                 package_type := pkg; src_uuid := src; tgt_uuid := tgt |} in
  let out_mem := malloc (sizeof_TCPMetaInfo + payload_size info) in
  '(out_mem, message_size, _) ← serializeItemToMemory ser out_mem item info;
  Ok (notifyHost client_send (take (Z.to_nat message_size) out_mem) c).

(** The callback of the constructor and the text callback, which only prints. *)
Definition base_callbacks : CallbackMap (result TCPClient) :=
  {[ TcpPackageType.UUID_COLLISION := on (fun _ _ c => Ok (update_uuid_on_collision client_send draw c));
     TcpPackageType.TEXT := on (fun _ _ c => Ok c) ]}.

(** ** The compute unit *)
Section ComputeUnit.
Context (parse_request : list Z -> option WorkRequest) (prettyName : string).

Definition compute_updateUnitInfo_cb (_ : TCPMetaInfo) (_ : list Z) (c : TCPClient) : result TCPClient :=
  answer serialize_unit {| ud_unit_type := UnitType.COMPUTE_UNIT; ud_prettyname := Some prettyName |}
    TcpPackageType.UPDATE_UNIT_TYPE (session_uuid c) 0 c.

(** The answer to a request; [None]: neither a query plan nor a work item. *)
Definition work_response (request : option WorkRequest) : option WorkResponse :=
  match request with
  | Some (queryplan qp) =>
      Some {| wr_planid := qp_planid qp; wr_itemid := 0; wr_info := "QueryPlan processed successfully."; wr_success := Some true |}
  | Some (workitem wi) =>
      Some {| wr_planid := wi_planId wi; wr_itemid := wi_itemId wi; wr_info := "WorkItem processed successfully.";
              wr_success := Some true |}
  | None => None
  end.

(** Sends [info.bytesize()] bytes, where the others send what
    [serializeItemToMemory] returns. *)
Definition compute_work_cb (meta : TCPMetaInfo) (data : list Z) (c : TCPClient) : result TCPClient :=
  match work_response (parse_request data) with
  | None => Ok c
  | Some response =>
      let info := {| message_delimiter := TCP_START_DELIM; unit_type := 0;
                     payload_size := to_u32 (ByteSizeLong serialize_response response);
                     package_type := TcpPackageType.TASK_FINISHED; src_uuid := session_uuid c; tgt_uuid := src_uuid meta |} in
      let out_mem := malloc (sizeof_TCPMetaInfo + payload_size info) in
      '(out_mem, _, info) ← serializeItemToMemory serialize_response out_mem response info;
      Ok (notifyHost client_send (take (Z.to_nat (bytesize info)) out_mem) c)
  end.

Definition compute_callbacks : CallbackMap (result TCPClient) :=
  <[TcpPackageType.UPDATE_UNIT_TYPE := on compute_updateUnitInfo_cb]>
  (<[TcpPackageType.WORK := on compute_work_cb]> base_callbacks).

End ComputeUnit.

(** ** The client example *)
Section ClientExample.
Context (parse_item : list Z -> WorkItem).

(** The payload is parsed as a [WorkItem]; neither UUID of the header is set. *)
Definition example_work_cb (_ : TCPMetaInfo) (data : list Z) (c : TCPClient) : result TCPClient :=
  let item := parse_item data in
  answer serialize_response
    {| wr_planid := wi_planId item; wr_itemid := wi_itemId item; wr_info := "Your intermediates are ready!"; wr_success := None |}
    TcpPackageType.TASK_FINISHED 0 0 c.

Definition example_updateUnitInfo_cb (_ : TCPMetaInfo) (_ : list Z) (c : TCPClient) : result TCPClient :=
  answer serialize_unit {| ud_unit_type := UnitType.COMPUTE_UNIT; ud_prettyname := None |} TcpPackageType.UPDATE_UNIT_TYPE 0 0 c.

Definition example_callbacks : CallbackMap (result TCPClient) :=
  <[TcpPackageType.UPDATE_UNIT_TYPE := on example_updateUnitInfo_cb]>
  (<[TcpPackageType.WORK := on example_work_cb]> base_callbacks).

End ClientExample.

(** ** The optimizer unit *)
Section OptimizerUnit.
Context (parse_response : list Z -> WorkResponse).

(** [ou_chores]: how many threads were started that read queries
    ([OptimizerUnit.chores]). *)
Record OptimizerState := { ou_client : TCPClient; ou_tracker : WorkCompletionTracker; ou_chores : nat }.

Definition optimizer_updateUnitInfo_cb (_ : TCPMetaInfo) (_ : list Z) (o : OptimizerState) : result OptimizerState :=
  c ← answer serialize_unit {| ud_unit_type := UnitType.OPTIMIZER_UNIT; ud_prettyname := None |}
        TcpPackageType.UPDATE_UNIT_TYPE (session_uuid (ou_client o)) 0 (ou_client o);
  Ok {| ou_client := c; ou_tracker := ou_tracker o; ou_chores := S (ou_chores o) |}.

(** [markCompleted] takes two [int]s, the response has two [uint32]s. *)
Definition optimizer_finished (_ : TCPMetaInfo) (data : list Z) (o : OptimizerState) : result OptimizerState :=
  let workResponse := parse_response data in
  Ok {| ou_client := ou_client o;
        ou_tracker := markCompleted (to_int32 (wr_planid workResponse)) (to_int32 (wr_itemid workResponse)) (ou_tracker o);
        ou_chores := ou_chores o |}.

Definition optimizer_collision (_ : TCPMetaInfo) (_ : list Z) (o : OptimizerState) : result OptimizerState :=
  Ok {| ou_client := update_uuid_on_collision client_send draw (ou_client o); ou_tracker := ou_tracker o; ou_chores := ou_chores o |}.

Definition optimizer_callbacks : CallbackMap (result OptimizerState) :=
  <[TcpPackageType.UPDATE_UNIT_TYPE := on optimizer_updateUnitInfo_cb]>
  (<[TcpPackageType.TEXT := on (fun _ _ o => Ok o)]>
  (<[TcpPackageType.TASK_FINISHED := on optimizer_finished]>
   {[ TcpPackageType.UUID_COLLISION := on optimizer_collision ]})).

End OptimizerUnit.

End Units.
