(* ===== verification/UnitTheorems.v ===== *)
(** * The units and the server together

    A unit that connects, and the way of a work item from the optimizer unit
    through the server to a compute unit and back. *)

From S2P Require Import Prelude WorkItems Framing FramingInv TcpServer TcpServerInv ServerHandlers ServerTheorems QueryManager Units.
#[local] Open Scope Z_scope.

(** ** Messages of a client *)

(** The client has sent [data] as well. *)
Definition say (data : list Z) (c : TCPClient) : TCPClient :=
  {| session_uuid := session_uuid c; uuid_draws := uuid_draws c; client_sent := client_sent c ++ data |}.

Section Client.
Context (client_send : list Z -> list Z -> Z) (malloc : Z -> list Z).
Hypothesis client_takes : forall before data, client_send before data = Z.of_nat (length data).
Hypothesis malloc_size : forall n, length (malloc n) = Z.to_nat n.

Lemma notify_say data c : notifyHost client_send data c = say data c.
Proof. by rewrite /notifyHost client_takes Nat2Z.id firstn_all. Qed.

(** The allocated memory is enough for the message. *)
Lemma serialize_malloc {Item} (ser : Item -> list Z) item info : ByteSizeLong ser item < 2 ^ 32 ->
  exists mem', serializeItemToMemory ser (malloc (sizeof_TCPMetaInfo + to_u32 (ByteSizeLong ser item))) item info =
    Ok (mem', Z.of_nat (length (enc (item_message ser item info))), m_info (item_message ser item info)) /\
    take (length (enc (item_message ser item info))) mem' = enc (item_message ser item info).
Proof.
  intros Hs. apply serialize_spec; [|done]. rewrite malloc_size /sizeof_TCPMetaInfo /to_u32 /ByteSizeLong in Hs |- *.
  rewrite Z.mod_small; lia.
Qed.

Lemma answer_run {Item} (ser : Item -> list Z) item pkg src tgt c : ByteSizeLong ser item < 2 ^ 32 ->
  answer client_send malloc ser item pkg src tgt c = Ok (say (enc (item_message ser item (message_info pkg 0 src tgt))) c).
Proof.
  intros Hs. rewrite /answer. set (info := {| message_delimiter := _ |}). cbn [payload_size info].
  destruct (serialize_malloc ser item info Hs) as (mem & -> & Ht). cbn [mbind result_bind]. by rewrite notify_say Nat2Z.id Ht.
Qed.

Lemma compute_work_run ser parse meta data r c : work_response (parse data) = Some r -> ByteSizeLong ser r < 2 ^ 32 ->
  compute_work_cb client_send malloc ser parse meta data c =
    Ok (say (enc (item_message ser r (message_info TcpPackageType.TASK_FINISHED 0 (session_uuid c) (src_uuid meta)))) c).
Proof.
  intros Hr Hs. rewrite /compute_work_cb Hr. set (info := {| message_delimiter := _ |}). cbn [payload_size info].
  destruct (serialize_malloc ser r info Hs) as (mem & -> & Ht). cbn [mbind result_bind]. rewrite notify_say.
  replace (Z.to_nat _) with (length (enc (item_message ser r info))); [by rewrite Ht|].
  rewrite enc_length /bytesize /= /sizeof_TCPMetaInfo /to_u32 /ByteSizeLong in Hs |- *.
  rewrite Z.mod_small ?to_size_small; lia.
Qed.

Lemma work_message_run ser uuid req : ByteSizeLong ser req < 2 ^ 32 ->
  work_message ser malloc uuid req = Ok (enc (item_message ser req (message_info TcpPackageType.WORK 0 uuid 0))).
Proof.
  intros Hs. rewrite /work_message. set (info := {| message_delimiter := _ |}). cbn [payload_size info].
  destruct (serialize_malloc ser req info Hs) as (mem & -> & Ht). cbn [mbind result_bind]. by rewrite Nat2Z.id Ht.
Qed.

End Client.

Lemma message_info_ok pkg src tgt : - 2 ^ 31 <= pkg < 2 ^ 31 -> 0 <= src < 2 ^ 64 -> 0 <= tgt < 2 ^ 64 ->
  header_ok (message_info pkg 0 src tgt).
Proof. intros. split_and!; cbn; lia || done. Qed.

(** ** The server between two units *)
Section Server.
Context (send_result : nat -> Z -> list Z -> Z) (random : nat -> nat -> nat -> nat).
Hypothesis random_in_range : forall n lo hi, (lo <= hi)%nat -> (lo <= random n lo hi <= hi)%nat.
Hypothesis server_takes : forall n h data, send_result n h data = Z.of_nat (length data).

Definition monitor_copies (s : Server) (data : list Z) : list (Z * list Z) :=
  map (fun p => (handle_of s p, data)) (clients_of UnitType.MONITOR_UNIT s).

Lemma monitors_kept data s s1 : Registry s1 -> (forall q d, heap s1 !! q = Some d -> heap s !! q = Some d) ->
  clients_of UnitType.MONITOR_UNIT s1 = clients_of UnitType.MONITOR_UNIT s -> monitor_copies s1 data = monitor_copies s data.
Proof.
  intros Hs1 Hsub Hcl. rewrite /monitor_copies -Hcl. apply map_ext_in. intros p Hp%list_elem_of_In.
  destruct (reg_vec s1 Hs1 _ p Hp) as (d & Hd & _). by rewrite /handle_of Hd (Hsub p d Hd).
Qed.

(** Work without a target goes to one compute unit; the clients of other types
    stay. *)
Lemma work_forward_run meta data s p c : tgt_uuid meta = 0 -> Registry s ->
  p ∈ clients_of UnitType.COMPUTE_UNIT s -> heap s !! p = Some c -> cl_abort c = false ->
  let f := forwarded Pkg.WORK meta data in
  runs (work_forward_cb send_result random meta data) s (fun _ s' => Registry s' /\
    (forall ty, ty <> UnitType.COMPUTE_UNIT -> clients_of ty s' = clients_of ty s) /\
    (forall q d, heap s' !! q = Some d -> heap s !! q = Some d) /\
    exists q d, q ∈ clients_of UnitType.COMPUTE_UNIT s /\ heap s !! q = Some d /\ cl_abort d = false /\
      sent s' = sent s ++ (handle d, enc f) :: monitor_copies s (enc f)).
Proof.
  intros Ht Hs Hp Hc Hab f. rewrite /work_forward_cb Ht /=.
  change (message_buffer _ data) with (info_bytes (message_info Pkg.WORK (Z.of_nat (length data)) (src_uuid meta) 0) ++ data).
  replace (_ ++ data) with (enc f) by by rewrite /f /enc /forwarded Ht.
  apply runs_bind. eapply runs_mono; [by apply sendToAnyOfType_run|]. intros ok s1 (HR & Hcl & Hsub & Hok).
  destruct ok; [|destruct Hok as (_ & _ & Hall); destruct (Hall p c Hp Hc) as [?|[n Hn]]; [congruence|rewrite server_takes in Hn; lia]].
  destruct Hok as (q & d & k & Hq & Hd & Hda & _ & Hsent & _). rewrite server_takes Nat2Z.id firstn_all in Hsent.
  eapply runs_mono; [apply sendToAllOfType_takes; [done|intros ?????; apply server_takes]|]. intros u s2 Hs2.
  pose proof (after_sends_registry _ _ _ Hs2 HR) as HR2. destruct Hs2 as (Hh & _ & Hm & _ & _ & Hse).
  split_and!; [done| | |].
  - intros ty Hty. by rewrite -(Hcl ty Hty) /clients_of Hm.
  - intros q' d'. rewrite Hh. apply Hsub.
  - exists q, d. split_and!; [done..|]. rewrite Hse Hsent -app_assoc. do 2 f_equal.
    exact (monitors_kept (enc f) s s1 HR Hsub (Hcl UnitType.MONITOR_UNIT ltac:(discriminate))).
Qed.

Lemma forward_cb_run pkg meta data s p c : Registry s -> heap s !! p = Some c -> uuid c = tgt_uuid meta -> cl_abort c = false ->
  let f := forwarded pkg meta data in
  runs (forward_cb send_result pkg meta data) s (fun _ s' => sent s' = sent s ++ (handle c, enc f) :: monitor_copies s (enc f)).
Proof.
  intros Hs Hc Hu Hab f. apply runs_bind, runs_get. assert (getClientByUuid (tgt_uuid meta) s = Some p) as ->
    by (apply (reg_uuid s Hs); by exists c).
  eapply runs_mono; [apply (send_and_monitor_run send_result p c (enc f)); [done..|intros ?; apply server_takes|intros ?????; apply server_takes]|].
  by intros u s' (_ & _ & _ & _ & _ & Hsent).
Qed.

End Server.

(** ** The way of a work item *)

(** What the programs need of their environment: sockets take a message whole,
    [malloc] returns what it is asked for, the generator keeps its range. *)
Record Reliable (send_result : nat -> Z -> list Z -> Z) (client_send : list Z -> list Z -> Z) (malloc : Z -> list Z)
    (random : nat -> nat -> nat -> nat) : Prop := {
  rel_server : forall n h data, send_result n h data = Z.of_nat (length data);
  rel_client : forall before data, client_send before data = Z.of_nat (length data);
  rel_malloc : forall n, length (malloc n) = Z.to_nat n;
  rel_random : forall n lo hi, (lo <= hi)%nat -> (lo <= random n lo hi <= hi)%nat
}.

(** Protobuf on one value: bytes, less than 4 GiB of them, that parse to [r]. *)
Definition transmits {A B} (ser : A -> list Z) (parse : list Z -> B) (x : A) (r : B) : Prop :=
  Forall is_byte (ser x) /\ ByteSizeLong ser x < 2 ^ 32 /\ parse (ser x) = r.

Lemma item_message_info {A B} (ser : A -> list Z) (parse : list Z -> B) (x : A) (r : B) pkg src tgt : transmits ser parse x r ->
  - 2 ^ 31 <= pkg < 2 ^ 31 -> 0 <= src < 2 ^ 64 -> 0 <= tgt < 2 ^ 64 ->
  let f := item_message ser x (message_info pkg 0 src tgt) in
  wf_message f /\ parse (m_payload f) = r /\ package_type (m_info f) = pkg /\ src_uuid (m_info f) = src /\ tgt_uuid (m_info f) = tgt.
Proof.
  intros (Hb & Hs & Hp) H1 H2 H3 f. rewrite /ByteSizeLong in Hs.
  assert (to_u32 (Z.of_nat (length (ser x))) = Z.of_nat (length (ser x))) as He by (rewrite /to_u32 Z.mod_small; lia).
  split_and!; try done. by split; rewrite //= /ByteSizeLong He.
Qed.

Lemma forwarded_again f pkg : wf_message f -> package_type (m_info f) = pkg -> 0 <= pkg ->
  wf_message (forwarded pkg (m_info f) (m_payload f)).
Proof. intros Hf Hp H0. pose proof (wf_package f Hf). pose proof (wf_size f Hf). pose proof (wf_fits f Hf). apply forwarded_wf; try apply Hf; lia. Qed.

Definition item_response (wi : WorkItem) : WorkResponse :=
  {| wr_planid := wi_planId wi; wr_itemid := wi_itemId wi; wr_info := "WorkItem processed successfully."; wr_success := Some true |}.

(** C10: The way of a work item.  When the optimizer unit sends the message of a
    work item and some compute unit is reachable, the server passes it on to
    exactly one reachable compute unit (and to the monitors); that unit, whatever
    its state, answers with one message; the server passes the answer on to the
    optimizer unit; and there the item is marked as completed, under the very
    pair of numbers that [sendQueryPlanParallel] waits for, and nothing else is.
    Every message on the way is well formed, so the receive loops deliver it
    however TCP cuts it. *)
Theorem work_item_completes send_result client_send malloc random peer_ip parse_unit_request serialize_unit_response
    draw serialize_unit serialize_response parse_request parse_response serialize_request name wi (o : OptimizerState) s po co pc cc :
  Reliable send_result client_send malloc random ->
  transmits serialize_request parse_request (workitem wi) (Some (workitem wi)) ->
  transmits serialize_response parse_response (item_response wi) (item_response wi) ->
  Registry s ->
  heap s !! po = Some co -> type co <> UnitType.COMPUTE_UNIT -> cl_abort co = false -> uuid co = session_uuid (ou_client o) ->
  0 <= uuid co < 2 ^ 64 ->
  pc ∈ clients_of UnitType.COMPUTE_UNIT s -> heap s !! pc = Some cc -> cl_abort cc = false ->
  let serve f := dispatch send_result random peer_ip parse_unit_request serialize_unit_response malloc (m_info f) (m_payload f) in
  exists f1 f2 s1 p c,
    work_message serialize_request malloc (session_uuid (ou_client o)) (workitem wi) = Ok (enc f1) /\ wf_message f1 /\
    serve f1 s = Ok (tt, s1) /\ wf_message f2 /\
    p ∈ clients_of UnitType.COMPUTE_UNIT s /\ heap s !! p = Some c /\ cl_abort c = false /\
    sent s1 = sent s ++ (handle c, enc f2) :: monitor_copies s (enc f2) /\
    forall cu, 0 <= session_uuid cu < 2 ^ 64 -> exists f3 f4 cu' s2 o',
      deliver (Some (compute_callbacks client_send malloc draw serialize_unit serialize_response parse_request name)) [f2] (Ok cu) = Ok cu' /\
      client_sent cu' = client_sent cu ++ enc f3 /\ wf_message f3 /\
      serve f3 s1 = Ok (tt, s2) /\ wf_message f4 /\
      sent s2 = sent s1 ++ (handle co, enc f4) :: monitor_copies s (enc f4) /\
      deliver (Some (optimizer_callbacks client_send malloc draw serialize_unit parse_response)) [f4] (Ok o) = Ok o' /\
      completed_ids (ou_tracker o') = {[ wait_id (wi_planId wi) wi ]} ∪ completed_ids (ou_tracker o).
Proof.
  intros [Hsrv Hcli Hmal Hrnd] Hreq Hres HR Hco Hty Hcoa Hu Hur Hpc Hcc Hcca serve.
  set (u := session_uuid (ou_client o)) in *.
  destruct (item_message_info serialize_request parse_request _ _ Pkg.WORK u 0 Hreq) as (Hw1 & Hp1 & Hk1 & Hs1 & Ht1); [done|lia|done|].
  set (f1 := item_message serialize_request _ _) in *. set (f2 := forwarded Pkg.WORK (m_info f1) (m_payload f1)).
  pose proof (work_forward_run send_result random Hrnd Hsrv (m_info f1) (m_payload f1) s pc cc Ht1 HR Hpc Hcc Hcca) as Hrun.
  rewrite /runs in Hrun. destruct (work_forward_cb _ _ _ _ s) as [[[] s1]|] eqn:Hd1; [|done].
  destruct Hrun as (HR1 & Hcl & Hsub & p & c & Hp & Hc & Hca & Hsent).
  exists f1, f2, s1, p, c. split_and!; try done.
  { by apply work_message_run, Hreq. }
  intros cu Hcu.
  destruct (item_message_info serialize_response parse_response _ _ Pkg.TASK_FINISHED (session_uuid cu) u Hres)
    as (Hw3 & Hp3 & Hk3 & Hs3 & Ht3); [done|done|lia|].
  set (f3 := item_message serialize_response _ _) in *. set (f4 := forwarded Pkg.TASK_FINISHED (m_info f3) (m_payload f3)).
  assert (heap s1 !! po = Some co) as Hco1.
  { destruct (reg_live s HR po co Hco) as [Hin _]. rewrite -(Hcl _ Hty) in Hin. apply (reg_vec s1 HR1) in Hin as (d & Hd & _).
    rewrite Hd. apply Hsub in Hd. congruence. }
  pose proof (forward_cb_run send_result Hsrv Pkg.TASK_FINISHED (m_info f3) (m_payload f3) s1 po co HR1 Hco1 Hu Hcoa) as Hrun.
  rewrite /runs in Hrun. destruct (forward_cb _ _ _ _ s1) as [[[] s2]|] eqn:Hd2; [|done].
  rewrite (monitors_kept _ s s1 HR1 Hsub (Hcl UnitType.MONITOR_UNIT ltac:(discriminate))) in Hrun.
  eexists f3, f4, _, s2, _. split_and!; [| |done|done|by apply forwarded_again|done|done|].
  - rewrite /deliver /= /compute_callbacks lookup_insert_ne // lookup_insert_eq /on /=.
    apply (compute_work_run client_send malloc Hcli Hmal _ _ _ _ (item_response wi)); [by rewrite Hp1|apply Hres].
  - done.
  - by rewrite /= Hp3.
Qed.

(** The scenario with an optimizer unit, and a small wire format. *)
Definition demo_system : Server := demo_connect 6 [Some (demo_hello 5 77 7)] demo_server.
Definition demo_client_send (_ data : list Z) : Z := Z.of_nat (length data).
Definition demo_malloc (n : Z) : list Z := replicate (Z.to_nat n) 0.
Definition demo_item : WorkItem := mkWI 5 9 [] None NoData.

Definition demo_serialize (r : WorkRequest) : list Z :=
  match r with workitem wi => [wi_planId wi; wi_itemId wi] | queryplan qp => [qp_planid qp] end.
Definition demo_parse_request (data : list Z) : option WorkRequest :=
  match data with
  | [pl; it] => Some (workitem (mkWI pl it [] None NoData))
  | [pl] => Some (queryplan (mkQP pl []))
  | _ => None
  end.
Definition demo_serialize_response (r : WorkResponse) : list Z := [wr_planid r; wr_itemid r].
Definition demo_parse_response (data : list Z) : WorkResponse :=
  item_response (mkWI (nth 0 data 0) (nth 1 data 0) [] None NoData).

Definition demo_client (u : Z) (d : nat) : TCPClient := {| session_uuid := u; uuid_draws := d; client_sent := [] |}.
Definition demo_optimizer (c : TCPClient) : OptimizerState :=
  {| ou_client := c; ou_tracker := {| completed_ids := ∅; stopped := false |}; ou_chores := 0 |}.

Lemma demo_reliable : Reliable demo_send demo_client_send demo_malloc demo_random.
Proof. split; [done|done|intros; apply length_replicate|intros; rewrite /demo_random; lia]. Qed.

Lemma demo_system_registry : Registry demo_system.
Proof.
  apply (connect_registry demo_send demo_parse 6 [Some (demo_hello 5 77 7)] (replicate 80 0) demo_server (Registered 2)); [apply demo_registry| |by vm_compute].
  intros (p & c & Hc & Hh). apply (bool_decide_eq_true_1 (map_Forall (fun _ c => handle c <> 6) (heap demo_server)) ltac:(by vm_compute) p c Hc Hh).
Qed.

Lemma work_item_completes_witness : exists f1 f4 s1 o',
  work_message demo_serialize demo_malloc 77 (workitem demo_item) = Ok (enc f1) /\
  dispatch demo_send demo_random (fun _ => "") (fun _ => 0) (fun _ => [1]) demo_malloc (m_info f1) (m_payload f1) demo_system = Ok (tt, s1) /\
  deliver (Some (optimizer_callbacks demo_client_send demo_malloc (fun _ => 0) (fun _ => []) demo_parse_response)) [f4]
    (Ok (demo_optimizer (demo_client 77 1))) = Ok o' /\
  completed_ids (ou_tracker o') = {[ (5, 9) ]} ∪ ∅.
Proof.
  assert (exists co, heap demo_system !! 2%nat = Some co /\ type co = 7 /\ cl_abort co = false /\ uuid co = 77) as (co & H1 & H2 & H3 & H4)
    by (eexists; split; [by vm_compute|done]).
  assert (exists cc, heap demo_system !! 0%nat = Some cc /\ cl_abort cc = false) as (cc & G1 & G2) by (eexists; split; [by vm_compute|done]).
  destruct (work_item_completes demo_send demo_client_send demo_malloc demo_random (fun _ => "") (fun _ => 0) (fun _ => [1])
    (fun _ => 0) (fun _ => []) demo_serialize_response demo_parse_request demo_parse_response demo_serialize "unit" demo_item
    (demo_optimizer (demo_client 77 1)) demo_system 2 co 0 cc demo_reliable) as (f1 & f2 & s1 & p & c & E1 & _ & E2 & _ & _ & _ & _ & _ & Hrest).
  - split_and!; [repeat constructor; done|done|done].
  - split_and!; [repeat constructor; done|done|done].
  - exact demo_system_registry.
  - exact H1.
  - rewrite H2. discriminate.
  - exact H3.
  - exact H4.
  - rewrite H4. split; [discriminate|reflexivity].
  - apply (bool_decide_eq_true_1 (0%nat ∈ clients_of UnitType.COMPUTE_UNIT demo_system)). by vm_compute.
  - exact G1.
  - exact G2.
  - destruct (Hrest (demo_client 11 1)) as (f3 & f4 & cu' & s2 & o' & _ & _ & _ & _ & _ & _ & E3 & E4); [split; [discriminate|reflexivity]|].
    exists f1, f4, s1, o'. split_and!; [exact E1|exact E2|exact E3|exact E4].
Defined.

(** ** Connecting *)

(** The UUIDs a client offers: all but the last are taken. *)
Fixpoint offers (m : gmap Z nat) (u : Z) (us : list Z) : Prop :=
  match us with
  | [] => m !! u = None
  | v :: us => is_Some (m !! u) /\ offers m v us
  end.

(** The last one. *)
Fixpoint agreed (u : Z) (us : list Z) : Z :=
  match us with [] => u | v :: us => agreed v us end.

Definition control (t : Z) : message := {| m_info := message_info t 0 0 0; m_payload := [] |}.
Definition collision_reply (u : Z) : message := {| m_info := message_info TcpPackageType.UUID_COLLISION 0 u 0; m_payload := [] |}.

(** A message at the start of the memory is read back. *)
Lemma written_message f buf : wf_message f -> (length (enc f) <= length buf)%nat ->
  exists m, mem_write buf 0 (enc f) = Ok m /\ length m = length buf /\ read_uint32 m 0 = Ok TCP_START_DELIM /\
    read_info m 0 = Ok (m_info f) /\ mem_read m 32 (length (m_payload f)) = Ok (m_payload f).
Proof.
  intros Hf Hl. exists (enc f ++ drop (length (enc f)) buf). rewrite mem_write_ok; [|lia].
  assert (length (enc f ++ drop (length (enc f)) buf) = length buf) as Hlen by (rewrite length_app length_drop; lia).
  pose proof (enc_length f). split_and!; [done|done| | |].
  - rewrite read_uint32_ok; [|lia]. rewrite drop_0 take_app_le; [|lia]. by rewrite enc_delim.
  - by apply (read_info_enc _ 0 f (drop (length (enc f)) buf)).
  - rewrite mem_read_ok; [|lia]. rewrite /enc -app_assoc -{1}(info_bytes_length (m_info f)) drop_app_length. by rewrite take_app_length.
Qed.

Section Connect.
Context (send_result : nat -> Z -> list Z -> Z) (parse_unit : list Z -> Z * string).
Hypothesis server_takes : forall n h data, send_result n h data = Z.of_nat (length data).

Lemma collision_reply_wf u : 0 <= u < 2 ^ 64 -> wf_message (collision_reply u).
Proof. intros Hu. by split; cbn; rewrite ?/to_u32 ?Z.mod_0_l. Qed.

Lemma resolve_run us : forall u buf h p c s i, Forall (fun v => 0 <= v < 2 ^ 64) us -> offers (clientUuidMap s) u us ->
  (32 <= length buf)%nat -> read_info buf 0 = Ok i -> src_uuid i = u -> heap s !! p = Some c ->
  exists s1, resolve_uuid send_result (map (fun v => Some (enc (collision_reply v))) us) buf h p s =
      Ok (Registered p, register_state (agreed u us) p c s1) /\
    after_sends (replicate (length us) (h, control_message TcpPackageType.UUID_COLLISION)) s s1.
Proof.
  induction us as [|v us IH]; intros u buf h p c s i Hus Ho Hb Hi Hu Hp; cbn [resolve_uuid map].
  - exists s. split; [|apply after_sends_nil]. rewrite /mbind /ST_bind /lift Hi /get; cbv beta iota; rewrite Hu Ho; by apply register_run.
  - destruct Ho as [[q Hq] Ho]. apply Forall_cons in Hus as [Hv Hus].
    destruct (written_message (collision_reply v) buf) as (m & Hm & Hl & Hd & Hi' & _); [by apply collision_reply_wf|by rewrite enc_length|].
    set (s0 := {| heap := heap s; next_ptr := next_ptr s; clientMap := clientMap s; clientUuidMap := clientUuidMap s;
      cleanupDone := cleanupDone s; closed := closed s; sent := sent s ++ [(h, control_message TcpPackageType.UUID_COLLISION)];
      sends := S (sends s); draws := draws s |}).
    destruct (IH v m h p c s0 (m_info (collision_reply v)) Hus Ho) as (s1 & Hrun & Hs1); [by rewrite Hl|done|done|done|].
    exists s1. split.
    + rewrite /mbind /ST_bind /lift Hi /get; cbv beta iota. rewrite Hu Hq /send server_takes.
      change (Z.of_nat (length (control_message _))) with 32. cbn [Z.leb Z.compare].
      change (take (Z.to_nat 32) ?x) with x.
      destruct (enc (collision_reply v)) as [|b bytes] eqn:He; [by apply (f_equal length) in He; rewrite enc_length in He|].
      rewrite Hm Hd Hi' /=. by rewrite Hrun.
    + apply (after_sends_app [_] _ s s0); [|done]. by split_and!.
Qed.

Lemma control_enc t : enc (control t) = control_message t.
Proof. by rewrite /enc app_nil_r. Qed.

Lemma connect_run f ty name us buf h s : wf_message f -> package_type (m_info f) = TcpPackageType.UPDATE_UNIT_TYPE ->
  parse_unit (m_payload f) = (ty, name) -> Forall (fun v => 0 <= v < 2 ^ 64) us ->
  offers (clientUuidMap s) (src_uuid (m_info f)) us -> (length (enc f) <= length buf)%nat ->
  exists p s', server_connect_callback send_result parse_unit h
      (Some (enc f) :: map (fun v => Some (enc (collision_reply v))) us) buf s = Ok (Registered p, s') /\
    heap s' !! p = Some {| handle := h; type := to_int32 ty; uuid := agreed (src_uuid (m_info f)) us; prettyName := name; cl_abort := false |} /\
    sent s' = sent s ++ map (fun g => (h, enc g))
      (control TcpPackageType.UPDATE_UNIT_TYPE :: replicate (length us) (control TcpPackageType.UUID_COLLISION)).
Proof.
  intros Hf Hpkg Hparse Hus Ho Hb. destruct (written_message f buf Hf Hb) as (m & Hm & Hl & Hd & Hi & Hpay).
  pose proof (enc_length f) as He. pose proof (wf_size f Hf) as Hsz. pose proof (wf_fits f Hf) as Hfits.
  set (c := {| handle := h; type := to_int32 ty; uuid := 0; prettyName := name; cl_abort := false |}).
  set (s0 := {| heap := <[next_ptr s := c]> (heap s); next_ptr := S (next_ptr s); clientMap := clientMap s; clientUuidMap := clientUuidMap s;
    cleanupDone := cleanupDone s; closed := closed s; sent := sent s ++ [(h, control_message TcpPackageType.UPDATE_UNIT_TYPE)];
    sends := S (sends s); draws := draws s |}).
  destruct (resolve_run us _ m h (next_ptr s) c s0 (m_info f) Hus Ho) as (s1 & Hrun & Hs1); [lia|done|done|by rewrite /= lookup_insert_eq|].
  exists (next_ptr s), (register_state (agreed (src_uuid (m_info f)) us) (next_ptr s) c s1). split_and!.
  - rewrite /server_connect_callback /mbind /ST_bind /send server_takes.
    change (Z.of_nat (length (control_message _))) with 32. cbn [Z.leb Z.compare]. change (take (Z.to_nat 32) ?x) with x.
    assert (Z.of_nat (length (enc f)) <? bytesize (m_info f) = false) as Hlt.
    { apply Z.ltb_ge. rewrite /bytesize /sizeof_TCPMetaInfo Hsz to_size_small; lia. }
    destruct (enc f) as [|b bytes] eqn:Hef; [by simpl in He|]. rewrite /lift Hm Hd Hi Hlt Hpkg Hsz Nat2Z.id. cbn -[resolve_uuid map].
    by rewrite Hpay Hparse /=.
  - by rewrite /= lookup_insert_eq.
  - destruct Hs1 as (_ & _ & _ & _ & _ & Hse). cbn [sent register_state set_clientUuidMap set_clientMap set_heap].
    rewrite Hse /= -app_assoc control_enc. do 2 f_equal. symmetry.
    etrans; [apply (fmap_replicate (fun g => (h, enc g)))|]. by rewrite control_enc.
Qed.

End Connect.

Section Dialogue.
Context (client_send : list Z -> list Z -> Z) (malloc : Z -> list Z) (draw : nat -> Z) (serialize_unit : UnitDefinition -> list Z).
Hypothesis client_takes : forall before data, client_send before data = Z.of_nat (length data).
Hypothesis malloc_size : forall n, length (malloc n) = Z.to_nat n.

(** The client after [n] collisions. *)
Definition redrawn (n : nat) (c : TCPClient) : TCPClient :=
  {| session_uuid := agreed (session_uuid c) (map draw (seq (uuid_draws c) n)); uuid_draws := uuid_draws c + n;
     client_sent := client_sent c ++ concat (map (fun u => enc (collision_reply u)) (map draw (seq (uuid_draws c) n))) |}.

Lemma redrawn_step n c : redrawn n (update_uuid_on_collision client_send draw c) = redrawn (S n) c.
Proof.
  rewrite /update_uuid_on_collision (notify_say client_send client_takes) /redrawn /say /generateSessionUuid /=.
  f_equal; [lia|]. by rewrite -app_assoc.
Qed.

Lemma redrawn_0 c : redrawn 0 c = c.
Proof. destruct c. by rewrite /redrawn /= Nat.add_0_r app_nil_r. Qed.

(** Whatever else is registered: a callback that draws a new UUID is run [n] times. *)
Lemma collisions_run {S} (cbs : CallbackMap (result S)) (upd : S -> S) n :
  cbs !! TcpPackageType.UUID_COLLISION = Some (on (fun _ _ s => Ok (upd s))) ->
  forall s, deliver (Some cbs) (replicate n (control TcpPackageType.UUID_COLLISION)) (Ok s) = Ok (Nat.iter n upd s).
Proof.
  intros Hcb. induction n as [|n IH]; intros s; [done|]. rewrite Nat.iter_succ_r -IH /deliver /=. by rewrite Hcb.
Qed.

Lemma redrawn_iter n : forall c, Nat.iter n (update_uuid_on_collision client_send draw) c = redrawn n c.
Proof. induction n as [|n IH]; intros c; [by rewrite redrawn_0|]. by rewrite Nat.iter_succ_r IH redrawn_step. Qed.

Definition with_client (c : TCPClient) (o : OptimizerState) : OptimizerState :=
  {| ou_client := c; ou_tracker := ou_tracker o; ou_chores := ou_chores o |}.

Lemma redrawn_optimizer n : forall o,
  Nat.iter n (fun o => with_client (update_uuid_on_collision client_send draw (ou_client o)) o) o = with_client (redrawn n (ou_client o)) o.
Proof.
  induction n as [|n IH]; intros o; [rewrite redrawn_0; by destruct o|]. by rewrite Nat.iter_succ_r IH /with_client /= redrawn_step.
Qed.

Definition hello (ud : UnitDefinition) (u : Z) : message := item_message serialize_unit ud (message_info TcpPackageType.UPDATE_UNIT_TYPE 0 u 0).

(** What the client is told, and what it answers. *)
Definition script (n : nat) : list message :=
  control TcpPackageType.UPDATE_UNIT_TYPE :: replicate n (control TcpPackageType.UUID_COLLISION).
Definition replies (ud : UnitDefinition) (n : nat) (c : TCPClient) : list (list Z) :=
  enc (hello ud (session_uuid c)) :: map (fun u => enc (collision_reply u)) (map draw (seq (uuid_draws c) n)).

Definition compute_definition (name : string) : UnitDefinition := {| ud_unit_type := UnitType.COMPUTE_UNIT; ud_prettyname := Some name |}.
Definition optimizer_definition : UnitDefinition := {| ud_unit_type := UnitType.OPTIMIZER_UNIT; ud_prettyname := None |}.

Lemma compute_dialogue ser parse name n c : ByteSizeLong serialize_unit (compute_definition name) < 2 ^ 32 ->
  exists c', deliver (Some (compute_callbacks client_send malloc draw serialize_unit ser parse name)) (script n) (Ok c) = Ok c' /\
    session_uuid c' = agreed (session_uuid c) (map draw (seq (uuid_draws c) n)) /\
    client_sent c' = client_sent c ++ concat (replies (compute_definition name) n c).
Proof.
  intros Hs. rewrite /script /deliver. cbn [fold_left call]. rewrite {2}/compute_callbacks lookup_insert_eq /on /compute_updateUnitInfo_cb.
  cbn [mbind result_bind]. rewrite (answer_run client_send malloc client_takes malloc_size) //.
  eexists. split; [by apply (collisions_run _ (update_uuid_on_collision client_send draw))|]. rewrite redrawn_iter.
  split; [done|]. by rewrite /redrawn /replies /= -app_assoc.
Qed.

Lemma optimizer_dialogue parse n o : ByteSizeLong serialize_unit optimizer_definition < 2 ^ 32 ->
  exists o', deliver (Some (optimizer_callbacks client_send malloc draw serialize_unit parse)) (script n) (Ok o) = Ok o' /\
    session_uuid (ou_client o') = agreed (session_uuid (ou_client o)) (map draw (seq (uuid_draws (ou_client o)) n)) /\
    client_sent (ou_client o') = client_sent (ou_client o) ++ concat (replies optimizer_definition n (ou_client o)) /\
    ou_tracker o' = ou_tracker o /\ ou_chores o' = S (ou_chores o).
Proof.
  intros Hs. rewrite /script /deliver. cbn [fold_left call]. rewrite {2}/optimizer_callbacks lookup_insert_eq /on /optimizer_updateUnitInfo_cb.
  cbn [mbind result_bind]. rewrite (answer_run client_send malloc client_takes malloc_size) //.
  eexists. split; [by apply (collisions_run _ (fun o => with_client (update_uuid_on_collision client_send draw (ou_client o)) o))|].
  rewrite redrawn_optimizer. split_and!; [done| |done|done]. by rewrite /redrawn /replies /= -app_assoc.
Qed.

End Dialogue.

(** The server registers a client that gives these answers, under this UUID; it
    tells the client what the client was told. *)
Definition connects send_result parse_unit (h : Z) (buf : list Z) (s : Server) (answers : list (list Z)) (told : list message)
    (ty : Z) (name : string) (u : Z) : Prop :=
  exists p s', server_connect_callback send_result parse_unit h (map Some answers) buf s = Ok (Registered p, s') /\ Registry s' /\
    heap s' !! p = Some {| handle := h; type := ty; uuid := u; prettyName := name; cl_abort := false |} /\
    sent s' = sent s ++ map (fun f => (h, enc f)) told.

Lemma replies_connect send_result parse_unit draw serialize_unit ud ty name n c h buf s :
  (forall n h data, send_result n h data = Z.of_nat (length data)) -> Registry s -> ~ handle_in_use h s ->
  (forall i, 0 <= draw i < 2 ^ 64) -> 0 <= session_uuid c < 2 ^ 64 ->
  transmits serialize_unit parse_unit ud (ty, name) -> (32 + length (serialize_unit ud) <= length buf)%nat ->
  offers (clientUuidMap s) (session_uuid c) (map draw (seq (uuid_draws c) n)) ->
  connects send_result parse_unit h buf s (replies draw serialize_unit ud n c) (script n) (to_int32 ty) name
    (agreed (session_uuid c) (map draw (seq (uuid_draws c) n))).
Proof.
  intros Hsrv HR Hh Hdraw Hu Htr Hbuf Ho. set (us := map draw _) in *.
  destruct (item_message_info serialize_unit parse_unit ud _ TcpPackageType.UPDATE_UNIT_TYPE (session_uuid c) 0 Htr)
    as (Hw & Hp & Hk & Hs & _); [done..|].
  assert (Forall (fun v => 0 <= v < 2 ^ 64) us) as Hus
    by (apply Forall_forall; intros v (i & -> & _)%list_elem_of_fmap; apply Hdraw).
  destruct (connect_run send_result parse_unit Hsrv (hello serialize_unit ud (session_uuid c)) ty name us buf h s)
    as (p & s' & Hrun & Hheap & Hsent); [done..|by rewrite enc_length|].
  exists p, s'. assert (map Some (replies draw serialize_unit ud n c) =
    Some (enc (hello serialize_unit ud (session_uuid c))) :: map (fun v => Some (enc (collision_reply v))) us) as ->
    by by rewrite /replies /= map_map.
  split_and!; [done|by eapply connect_registry|done|]. rewrite Hsent /script. by rewrite length_map length_seq.
Qed.

(** C18: A unit that starts gets into the registry, and both sides know it by the
    same UUID.  The compute unit and the optimizer unit answer the server's
    request for their type and each request for another UUID with one message;
    given these answers the server registers the client with its type and name
    under the UUID that the client has at the end, which is the first it drew
    that no other client has; the requests the server sends are the ones the
    client answered.  The optimizer unit starts to read queries once. *)
Theorem units_connect send_result client_send malloc random parse_unit draw serialize_unit serialize_response parse_request
    parse_response name ty_name n c o h buf s :
  Reliable send_result client_send malloc random -> Registry s -> ~ handle_in_use h s ->
  (forall i, 0 <= draw i < 2 ^ 64) -> 0 <= session_uuid c < 2 ^ 64 -> ou_client o = c ->
  offers (clientUuidMap s) (session_uuid c) (map draw (seq (uuid_draws c) n)) ->
  transmits serialize_unit parse_unit (compute_definition name) (UnitType.COMPUTE_UNIT, name) ->
  transmits serialize_unit parse_unit optimizer_definition (UnitType.OPTIMIZER_UNIT, ty_name) ->
  (32 + length (serialize_unit (compute_definition name)) <= length buf)%nat ->
  (32 + length (serialize_unit optimizer_definition) <= length buf)%nat ->
  (exists c' answers,
     deliver (Some (compute_callbacks client_send malloc draw serialize_unit serialize_response parse_request name)) (script n) (Ok c) = Ok c' /\
     client_sent c' = client_sent c ++ concat answers /\
     connects send_result parse_unit h buf s answers (script n) UnitType.COMPUTE_UNIT name (session_uuid c')) /\
  (exists o' answers,
     deliver (Some (optimizer_callbacks client_send malloc draw serialize_unit parse_response)) (script n) (Ok o) = Ok o' /\
     client_sent (ou_client o') = client_sent c ++ concat answers /\
     connects send_result parse_unit h buf s answers (script n) UnitType.OPTIMIZER_UNIT ty_name (session_uuid (ou_client o')) /\
     ou_tracker o' = ou_tracker o /\ ou_chores o' = S (ou_chores o)).
Proof.
  intros [Hsrv Hcli Hmal _] HR Hh Hdraw Hu Hoc Ho Hc Hop Hb1 Hb2. split.
  - destruct (compute_dialogue client_send malloc draw serialize_unit Hcli Hmal serialize_response parse_request name n c) as (c' & H1 & H2 & H3);
      [apply Hc|].
    exists c', (replies draw serialize_unit (compute_definition name) n c). split_and!; [done|done|]. rewrite H2.
    by apply (replies_connect send_result parse_unit draw serialize_unit _ UnitType.COMPUTE_UNIT).
  - destruct (optimizer_dialogue client_send malloc draw serialize_unit Hcli Hmal parse_response n o) as (o' & H1 & H2 & H3 & H4);
      [apply Hop|]. rewrite Hoc in H2 H3.
    exists o', (replies draw serialize_unit optimizer_definition n c). split_and!; [done|done| |apply H4..]. rewrite H2.
    by apply (replies_connect send_result parse_unit draw serialize_unit _ UnitType.OPTIMIZER_UNIT).
Qed.

Definition demo_serialize_unit (ud : UnitDefinition) : list Z := [ud_unit_type ud].
Definition demo_draw (i : nat) : Z := nth i [11; 12; 77; 78] 79.

(** The first three UUIDs are taken. *)
Lemma units_connect_witness : exists c' answers,
  deliver (Some (compute_callbacks demo_client_send demo_malloc demo_draw demo_serialize_unit demo_serialize_response demo_parse_request "unit"))
    (script 3) (Ok (demo_client 11 1)) = Ok c' /\
  client_sent c' = concat answers /\
  connects demo_send demo_parse 7 (replicate 80 0) demo_system answers (script 3) 2 "unit" (session_uuid c').
Proof.
  apply (units_connect demo_send demo_client_send demo_malloc demo_random demo_parse demo_draw demo_serialize_unit
    demo_serialize_response demo_parse_request demo_parse_response "unit" "unit" 3 (demo_client 11 1) (demo_optimizer (demo_client 11 1)) 7
    (replicate 80 0) demo_system demo_reliable demo_system_registry).
  - intros (p & c & Hc & Hh). apply (bool_decide_eq_true_1 (map_Forall (fun _ c => handle c <> 7) (heap demo_system)) ltac:(by vm_compute) p c Hc Hh).
  - intros i. rewrite /demo_draw. do 4 (destruct i as [|i]; [done|]). by destruct i.
  - done.
  - done.
  - split; [|split; [|split]]; try (apply (bool_decide_eq_true_1 (is_Some _)); by vm_compute). by vm_compute.
  - split_and!; [repeat constructor; done|done|done].
  - split_and!; [repeat constructor; done|done|done].
  - simpl. lia.
  - simpl. lia.
Defined.

(** ** The client example *)

(** The answers of the client example name no target, so the server drops them
    unless some client is registered under UUID zero: the optimizer unit never
    hears of the item. *)
Theorem example_answer_dropped send_result client_send malloc random peer_ip parse_unit_request serialize_unit_response
    serialize_response parse_item meta data c s :
  (forall before data, client_send before data = Z.of_nat (length data)) -> (forall n, length (malloc n) = Z.to_nat n) ->
  (forall r, ByteSizeLong serialize_response r < 2 ^ 32) -> clientUuidMap s !! 0 = None ->
  exists f, example_work_cb client_send malloc serialize_response parse_item meta data c = Ok (say (enc f) c) /\
    package_type (m_info f) = Pkg.TASK_FINISHED /\
    dispatch send_result random peer_ip parse_unit_request serialize_unit_response malloc (m_info f) (m_payload f) s = Ok (tt, s).
Proof.
  intros Hc Hm Hs Hu. eexists. split_and!; [by apply (answer_run client_send malloc Hc Hm)|done|].
  by rewrite /dispatch /= /finished_forward_cb /forward_cb /mbind /ST_bind /get /getClientByUuid /= Hu.
Qed.
