(* ===== verification/ClientChannel.v ===== *)
(** * Closing the channel of a client

    src/TCPClient.cpp: the threads that use [globalAbort].  The receiver thread
    runs [listenLoop], another thread may be inside [waitUntilChannelClosed], a
    third may call [closeConnection].  A step is one access to the flag or the
    socket, or one critical section of [channel_mutex]; what [listenLoop] does
    with the bytes it receives is in [Framing.v].  The end of
    examples/tcp_client_example.cpp is the last section. *)

From S2P Require Import Prelude.

(** The receiver thread: the test of [while], [recv], the test after a failed
    [recv], the critical section that sets the flag and notifies, the end. *)
Inductive listener_pc : Set := L_while | L_recv | L_failed | L_notify | L_done.

(** [closeConnection]: not called, socket shut down and closed, flag set
    (joining the receiver), returned. *)
Inductive closer_pc : Set := C_idle | C_closed | C_joining | C_done.

(** [waitUntilChannelClosed]: not called, evaluating the predicate, blocked on
    the condition variable, returned. *)
Inductive waiter_pc : Set := W_idle | W_test | W_blocked | W_done.

Record channel : Set := mkChannel {
  is_open : bool;                         (* [recv] still returns bytes *)
  globalAbort : bool;
  listener : listener_pc;
  closer : closer_pc;
  waiter : waiter_pc;
}.

(** [TCPClient::isConnected] *)
Definition isConnected (c : channel) : bool := negb (globalAbort c).

(** After [start]. *)
Definition started : channel := mkChannel true false L_while C_idle W_idle.

(** [notify_all]: a blocked thread evaluates its predicate again. *)
Definition notify_all (w : waiter_pc) : waiter_pc := match w with W_blocked => W_test | _ => w end.

(** The steps of the program; [calls_close] says whether [closeConnection] is
    called by some thread.  [step_ends] is the moment from which [recv] returns
    no more bytes: the server has closed the channel and what it sent is read,
    the connection fails, or no space is left in the buffer. *)
Inductive channel_step (calls_close : bool) : channel -> channel -> Prop :=
  | step_ends ab l cl w : channel_step calls_close (mkChannel true ab l cl w) (mkChannel false ab l cl w)
  | step_while op l' (ab : bool) cl w : l' = (if ab then L_done else L_recv) ->
      channel_step calls_close (mkChannel op ab L_while cl w) (mkChannel op ab l' cl w)
  | step_received ab cl w : channel_step calls_close (mkChannel true ab L_recv cl w) (mkChannel true ab L_while cl w)
  | step_recv_fails ab cl w : channel_step calls_close (mkChannel false ab L_recv cl w) (mkChannel false ab L_failed cl w)
  | step_failed op l' (ab : bool) cl w : l' = (if ab then L_while else L_notify) ->
      channel_step calls_close (mkChannel op ab L_failed cl w) (mkChannel op ab l' cl w)
  | step_notify op ab cl w : channel_step calls_close (mkChannel op ab L_notify cl w) (mkChannel op true L_done cl (notify_all w))
  | step_close op ab l w : calls_close = true ->
      channel_step calls_close (mkChannel op ab l C_idle w) (mkChannel false ab l C_closed w)
  | step_set_abort op ab l w : channel_step calls_close (mkChannel op ab l C_closed w) (mkChannel op true l C_joining w)
  | step_join op ab w : channel_step calls_close (mkChannel op ab L_done C_joining w) (mkChannel op ab L_done C_done w)
  | step_wait op ab l cl : channel_step calls_close (mkChannel op ab l cl W_idle) (mkChannel op ab l cl W_test)
  | step_test op w' (ab : bool) l cl : w' = (if ab then W_done else W_blocked) ->
      channel_step calls_close (mkChannel op ab l cl W_test) (mkChannel op ab l cl w').

(** A wakeup without a notification, which the standard allows at any time. *)
Inductive spurious_wakeup : channel -> channel -> Prop :=
  | wakes op ab l cl : spurious_wakeup (mkChannel op ab l cl W_blocked) (mkChannel op ab l cl W_test).

Definition any_step (calls_close : bool) (c c' : channel) : Prop := channel_step calls_close c c' \/ spurious_wakeup c c'.

Definition reachable_channel (calls_close : bool) (c : channel) : Prop := rtc (any_step calls_close) started c.

(** No step of the program is left. *)
Definition ended (calls_close : bool) (c : channel) : Prop := forall c', ~ channel_step calls_close c c'.

(** ** The invariant *)

#[export] Instance listener_pc_eq_dec : EqDecision listener_pc.
Proof. solve_decision. Defined.
#[export] Instance closer_pc_eq_dec : EqDecision closer_pc.
Proof. solve_decision. Defined.
#[export] Instance waiter_pc_eq_dec : EqDecision waiter_pc.
Proof. solve_decision. Defined.

(** The receiver ends only when the flag is set; the socket is closed when
    [recv] fails, when the flag is set and once [closeConnection] was called;
    [closeConnection] returns after the receiver; and without a call of
    [closeConnection] only the receiver sets the flag, and notifies. *)
Definition channel_ok (calls_close : bool) (c : channel) : bool :=
  let at_listener l := bool_decide (listener c = l) in
  let at_closer l := bool_decide (closer c = l) in
  implb (at_listener L_done) (globalAbort c) &&
  implb (at_listener L_failed || at_listener L_notify || globalAbort c || negb (at_closer C_idle)) (negb (is_open c)) &&
  implb (at_closer C_joining || at_closer C_done) (globalAbort c) && implb (at_closer C_done) (at_listener L_done) &&
  (calls_close || at_closer C_idle && implb (globalAbort c) (at_listener L_done && negb (bool_decide (waiter c = W_blocked)))).

Ltac channel_cases := repeat match goal with
  | x : bool |- _ => destruct x | x : listener_pc |- _ => destruct x | x : closer_pc |- _ => destruct x | x : waiter_pc |- _ => destruct x
  end.

Lemma channel_ok_step b c c' : channel_ok b c = true -> any_step b c c' -> channel_ok b c' = true.
Proof.
  intros Hok [Hs|Hs]; destruct Hs; subst; channel_cases; first [reflexivity|discriminate].
Qed.

Lemma reachable_channel_ok b c : reachable_channel b c -> channel_ok b c = true.
Proof.
  unfold reachable_channel. assert (channel_ok b started = true) as H0 by by destruct b. revert H0. generalize started.
  intros c0 H0 Hr. induction Hr as [|x y z Hxy _ IH]; [done|]. apply IH. by eapply channel_ok_step.
Qed.

(** ** The threads end *)

(** More than the steps that are left when the socket is closed. *)
Definition steps_left (c : channel) : nat :=
  match listener c, globalAbort c with
  | L_done, _ => 0
  | L_while, true => 1 | L_failed, true => 2 | L_recv, true => 3 | L_notify, _ => 2
  | L_failed, false => 3 | L_recv, false => 4 | L_while, false => 5
  end + match closer c with C_idle => 3 | C_closed => 2 | C_joining => 1 | C_done => 0 end +
  match waiter c with W_idle => 3 | W_test => 2 | W_blocked => 1 | W_done => 0 end.

Lemma closed_step b c c' : is_open c = false -> channel_step b c c' -> is_open c' = false /\ steps_left c' < steps_left c.
Proof. intros Hc Hs. destruct Hs; cbn in Hc; subst; try discriminate; channel_cases; (split; [done|cbn; lia]). Qed.

Lemma ended_closed b c : channel_ok b c = true -> is_open c = false -> ended b c ->
  listener c = L_done /\ (if b then closer c = C_done else waiter c = W_done).
Proof.
  intros Hok Hc He. destruct c as [op ab l cl w]. cbn in Hc. subst op. channel_cases; try discriminate Hok;
    first [done|exfalso; eapply He; constructor; reflexivity].
Qed.

(** C27: Once [recv] returns no more bytes, because either side has closed the
    socket, the receiver thread and the
    threads inside [closeConnection] and [waitUntilChannelClosed] take only a
    bounded number of further steps, each of which brings them closer to their
    end; when none is left the receiver has ended and the client is
    disconnected, [closeConnection] has returned if it was called, and if it was
    never called, the thread in [waitUntilChannelClosed] has returned. *)
Theorem channel_closes b c : reachable_channel b c -> is_open c = false ->
  (forall c', channel_step b c c' -> is_open c' = false /\ steps_left c' < steps_left c) /\
  (ended b c -> listener c = L_done /\ isConnected c = false /\ (if b then closer c = C_done else waiter c = W_done)).
Proof.
  intros Hr Hc. apply reachable_channel_ok in Hr as Hok. split; [intros c'; by apply closed_step|]. intros He.
  destruct (ended_closed b c Hok Hc He) as [Hl Hrest]. split_and!; [done| |done].
  destruct c as [op ab l cl w]. cbn in Hc, Hl. subst. rewrite /isConnected. destruct ab; [done|]. by destruct b, cl, w.
Qed.

(** The run in which the server closes the channel. *)
Lemma channel_closes_witness : listener (mkChannel false true L_done C_idle W_done) = L_done /\
  isConnected (mkChannel false true L_done C_idle W_done) = false /\ waiter (mkChannel false true L_done C_idle W_done) = W_done.
Proof.
  apply (channel_closes false (mkChannel false true L_done C_idle W_done)); [|done|].
  - eapply rtc_l; [left; by apply step_wait|]. eapply rtc_l; [left; by eapply step_test|]. eapply rtc_l; [left; by eapply step_while|].
    eapply rtc_l; [left; by apply step_ends|]. eapply rtc_l; [left; by apply step_recv_fails|].
    eapply rtc_l; [left; by eapply step_failed|]. eapply rtc_l; [left; by apply step_notify|].
    eapply rtc_l; [left; by eapply step_test|]. apply rtc_refl.
  - intros c' Hs. inversion Hs; subst; done.
Defined.

(** [closeConnection] sets the flag without the lock and does not notify: when
    it does so before the receiver sees that the socket is closed, the receiver
    ends without notifying, and a thread in [waitUntilChannelClosed] waits for a
    notification that never comes. *)
Theorem close_without_notification : exists c, reachable_channel true c /\ ended true c /\
  closer c = C_done /\ isConnected c = false /\ waiter c = W_blocked.
Proof.
  exists (mkChannel false true L_done C_done W_blocked). split_and!; [|by intros c' Hs; inversion Hs|done..].
  eapply rtc_l; [left; by apply step_wait|]. eapply rtc_l; [left; by eapply step_test|]. eapply rtc_l; [left; by apply step_close|].
  eapply rtc_l; [left; by apply step_set_abort|]. eapply rtc_l; [left; by eapply step_while|].
  eapply rtc_l; [left; by apply step_join|]. apply rtc_refl.
Qed.

(** ** The end of the client example *)

(** The console of examples/tcp_client_example.cpp: the calls of
    [closeConnection] while it runs.  At the end of the input [op] keeps its
    initial ["-1"], after at most one more empty line. *)
Fixpoint client_console (lines : list string) : nat :=
  match lines with
  | [] => 0
  | op :: lines =>
      if op =s "-1" then 0
      else if string_map tolower op =s "exit" then 1
      else client_console lines
  end.

(** [main]: the destructor of the client calls [closeConnection] too. *)
Definition client_main_closes (lines : list string) : nat := S (client_console lines).

(** Typing exit closes the handle twice. *)
Theorem exit_closes_twice pre op post : Forall (fun l => l <> "-1" /\ string_map tolower l <> "exit") pre ->
  op <> "-1" -> string_map tolower op = "exit" -> client_main_closes (pre ++ op :: post) = 2.
Proof.
  intros Hpre Hop He. rewrite /client_main_closes. f_equal. induction Hpre as [|l pre [Hl1 Hl2] _ IH]; cbn [app client_console].
  - by rewrite (proj2 (String.eqb_neq _ _) Hop) He.
  - by rewrite (proj2 (String.eqb_neq _ _) Hl1) (proj2 (String.eqb_neq _ _) Hl2).
Qed.
